(* ===== verification/_CoqProject ===== *)
-Q . S2P
Prelude.v
Status.v
CanProtocol.v
Fragments.v
FastPath.v
ReliableSender.v
ReliableReceiver.v
ReliablePath.v
ControlPlane.v
LinkControl.v
TypeSupport.v
Cobs.v
Framing.v
Transport.v
StreamTransport.v
Value.v
Registry.v
Configuration.v
NameResolver.v
PeerRegistry.v
Execution.v
Channel.v
LocalChannel.v
Rpc.v
LocalRpc.v
TypedRpc.v
Services.v
Core.v
Lifecycle.v
CanChannelBridge.v
ReliableChannelBridge.v
CanRpcBridge.v
CanRpcPath.v
PacketBridge.v
Polling.v
ChannelModule.v
CanModule.v
CanModuleFacts.v
ZephyrExecutor.v
Platform.v
LinuxExecutor.v
StaticNode.v
LinuxNames.v
TicketQueue.v
LinuxCalls.v
LinuxChannels.v
