(* ===== verification/Prelude.v ===== *)
(** * AsterCtrl: a verification library for the runtime core

    AsterCtrl runs modules (C++ or C plug-ins) on Linux and Zephyr. A module sees
    the runtime through C function tables (clock, executor, channel, RPC,
    parameter, configurator, hardware); the runtime implements them with bounded,
    allocation-free classes, and connects nodes by packets over byte streams and
    by frames over classic CAN. This library models that core, header by header,
    and proves what it promises. Paths below are relative to [src/src/]; [IF] is
    [interface/aster_module_cpp_interface], [RT] is [runtime/aster_runtime].

    ** Layout

    - [Prelude]: record update, machine integers, buffers, little-endian
      integers, guards and the shared tactics.
    - [Status] ([IF/status.hpp], [IF/execution.hpp]): statuses, execution
      contexts, work items. [TypeSupport] ([IF/type_support.hpp],
      [RT/transport/transport.hpp]): descriptors and packets.
    - CAN: [CanProtocol] ([RT/transport/can/protocol.hpp], [link.hpp]),
      [Fragments] and [FastPath] ([fast_path.hpp]), [ReliableSender],
      [ReliableReceiver] and [ReliablePath] ([reliable_path.hpp]), [ControlPlane]
      ([control_plane.hpp]), [LinkControl] ([link_control.hpp]).
    - Packets: [Cobs], [Framing], [StreamTransport] ([RT/transport/usb/]),
      [Transport] ([transport.hpp], [local.hpp], [router.hpp]), [PeerRegistry]
      ([peer_registry.hpp]).
    - Node services: [Value] ([IF/util/value.hpp]), [Registry] and
      [Configuration] ([RT/registry.hpp], [configuration.hpp],
      [static_hardware.hpp]), [NameResolver] ([name_resolver.hpp]), [Execution]
      ([core/execution.cpp], clocks, executors), [Channel] ([IF/channel.hpp],
      [core/service/channel.cpp]), [LocalChannel] ([RT/local_channel.hpp]),
      [Rpc] ([IF/rpc.hpp], [core/service/rpc.cpp], [RT/rpc_router.hpp]),
      [LocalRpc] ([RT/local_rpc.hpp]), [TypedRpc] (typed calls end to end),
      [Services] (the parameter, configurator, hardware, logger and allocator
      handles of [IF/] with [core/service/]).
    - The runtime: [Core] ([IF/core.hpp], [core/core_adapter.cpp]: the table of
      services a module receives, its adapter and its overlays), [Lifecycle]
      ([IF/module.hpp], [core/runtime.cpp]: registries and modules brought up and
      torn down in order).
    - Channels over CAN: [CanChannelBridge] and [ReliableChannelBridge]
      ([RT/transport/can/channel_bridge.hpp], [reliable_channel_bridge.hpp]).
    - RPC over CAN: [CanRpcBridge] (the client and the server of
      [RT/transport/can/rpc_bridge.hpp], and what one call of a method does) and
      [CanRpcPath] (a request and its response across the bus).
    - Channels over packets: [PacketBridge] ([RT/transport/channel_bridge.hpp]).
    - Modules that drive the bridges: [Polling] (what they share),
      [ChannelModule] ([RT/transport/channel_transport_module.hpp]), [CanModule]
      and [CanModuleFacts] ([RT/transport/can/channel_transport_module.hpp]).
    - Platforms: [Platform] (loggers and allocators), [ZephyrExecutor],
      [LinuxExecutor] and [StaticNode] ([runtime_services.hpp] of
      [RT/platform/zephyr] and [RT/platform/linux]).

    One Module stands for one C++ class where a file has several; fields keep
    their trailing underscore and operations their names. A method that returns
    a status and writes through references is a function to the status, the
    outputs and the new object.

    ** Conventions

    Unsigned integers are [Z] with the wrap of their width written out ([u8],
    [u16], [u32], [u64]); [std::size_t] is 64 bits. Arrays are lists of fixed
    length. Pointers that may be null are options. A function table keeps the
    nullable functions of the C structure, and [..._complete] for its
    [struct_size] check. Code outside a component (callbacks of modules, device
    writers, the rest of the program) acts on a state [W] that the model leaves
    open; objects such code may reach while a method runs live in [W] behind a
    [HasAtomics] or [Cell] interface, so that re-entrant calls are covered.
    Function pointers that objects store are data, with the code they denote a
    parameter. Atomics are modelled sequentially: the theorems are about one
    thread at a time, except for the executors, whose threads, callers and
    supervisor are interleaved by a step relation, one critical section or kernel
    call at a time.

    ** What the theorems show

    - Link control: data passes only while both peers have checked each other's
      configuration and are alive ([gate_sound], [restart_closes_gate]); a
      misconfigured link does nothing; the monitor, the time follower and the
      freshness guard compute what their histories say.
    - Reliable and fast CAN: delivery exactly once in the presence of loss,
      repetition and reordering, no replay, bounded retransmission, and safety of
      the receivers on arbitrary frames.
    - Byte streams: COBS and packet codecs round trip, four adjacent wrong bytes
      are always caught by the checksum, a stream delivers its packets however it
      is cut, and arbitrary bytes never push the receiver out of its buffers.
    - Services: the bounded registries refine finite maps, channels and local
      RPC are functions of their accepted registrations, typed messages and calls
      arrive as they were sent, each accepted call is answered exactly once.
    - Runtime: modules are initialised and started in registration order, each
      initialised module is shut down once, in the reverse order, whichever step
      fails ([lifecycle_trace]), and the status returned is the first failure.
    - Bridges: a message published on one node is published on the other with
      its payload, its source and its time stamp restored to 64 bits
      ([reliable_channel_delivery], [packet_channel_delivery]). A call made on one
      node becomes one call on the other and its answer one call of the
      completion ([can_rpc_request_delivery], [can_rpc_response_delivery]), and no
      accepted call is completed twice ([can_rpc_completes_once]). The modules that
      drive the bridges keep exactly one poll pending while they run
      ([channel_module_polls], [can_module_polls]) and hand every frame to the one
      object it is for ([can_module_dispatch]).
    - Platforms: in every interleaving the executors run what they accepted, in
      the order they promise, and stop for good ([zephyr_executor_order],
      [zephyr_shutdown_completes], [linux_queue_refines], [linux_no_lost_wakeup],
      [linux_shutdown_joins]); the arena hands out disjoint blocks
      ([arena_blocks_disjoint]); a static node keeps its runtime and its executor
      in step ([static_node_consistent]).

    Codecs have round-trip theorems, state machines an inductive reachability
    relation with an invariant, loops are structural or have a fuel that is the
    length of their input (the send loop of [ReliableSender] takes the number of
    fragments, which a theorem shows is enough).

    ** Not modelled

    Operating-system code ([transports/can/socketcan.cpp],
    [transports/usb/linux_tty.cpp], the rest of [platform/linux/] and
    [platform/zephyr/]): sockets, device drivers, plug-in loading, YAML. Rounding
    reads of a configuration value into [float] are left out; outside the
    executors concurrency of the atomics is not modelled. *)

From stdpp Require Export base numbers list option decidable relations.
From Stdlib Require Export ZArith Lia.

Declare Scope aster_scope.
Delimit Scope aster_scope with aster.
Open Scope aster_scope.

(** ** Record update

    [r <| f := v |>] is the C++ assignment [r.f = v] on a value: an [Eta]
    instance per record rebuilds it from its projections, and the setter of a
    projection is found by abstracting that projection in the rebuilding
    function. *)

Class Eta (R : Type) := eta_expand : R -> R.

Class Setter {R T : Type} (proj : R -> T) := set_field : T -> R -> R.
Arguments set_field {R T} proj {_} v r /.

Ltac solve_setter :=
  lazymatch goal with
  | |- @Setter ?R ?T ?p =>
      let i := constr:(_ : Eta R) in
      let h := eval hnf in (@eta_expand R i) in
      lazymatch eval pattern p in h with
      | ?f _ => exact (fun v => f (fun _ => v))
      end
  end.
#[export] Hint Extern 0 (Setter _) => solve_setter : typeclass_instances.

Notation "r <| p := v |>" := (set_field p v r)
  (at level 1, left associativity, p at level 99,
   format "r  <| p  :=  v |>") : aster_scope.

(** ** Machine integers

    Unsigned integers are values of [Z] kept in range by an explicit wrap. *)

Local Open Scope Z_scope.

Definition u8 (z : Z) : Z := z mod 2 ^ 8.
Definition u16 (z : Z) : Z := z mod 2 ^ 16.
Definition u32 (z : Z) : Z := z mod 2 ^ 32.
Definition u64 (z : Z) : Z := z mod 2 ^ 64.

Definition UINT16_MAX : Z := 2 ^ 16 - 1.
Definition UINT32_MAX : Z := 2 ^ 32 - 1.
Definition UINT64_MAX : Z := 2 ^ 64 - 1.

(** [SaturatingAdd], repeated verbatim in six classes of the transport layer. *)
Definition SaturatingAdd (value increment : Z) : Z :=
  if UINT64_MAX - value <? increment then UINT64_MAX else value + increment.

(** [++counter] on a [std::uint32_t] statistic. *)
Definition incr32 (n : Z) : Z := u32 (n + 1).

(** [++stats.field]. *)
Definition bump {R : Type} (proj : R -> Z) `{!Setter proj} (r : R) : R :=
  r <| proj := incr32 (proj r) |>.
Arguments bump {R} proj {_} r /.

Definition is_byte (b : Z) : Prop := 0 <= b < 256.
Definition is_u64 (z : Z) : Prop := 0 <= z <= UINT64_MAX.

(** [std::array<T, n>{}] of integers. *)
Definition zeros (n : nat) : list Z := replicate n 0.

(** [std::copy_n(src, n, dst + off)]; callers establish [off + n <= size]. *)
Definition copy_into (off : nat) (src dst : list Z) : list Z :=
  list_inserts off src dst.

(** [span.subspan(off, len)]. *)
Definition subspan {A} (off len : nat) (l : list A) : list A :=
  take len (drop off l).

(** Reading element [i] of an array of integers. *)
Definition byte_at (l : list Z) (i : nat) : Z := default 0 (l !! i).

(** ** Early returns

    A stretch of a function that may return ([Some]) or fall through ([None]). *)
Definition stage (S R : Type) : Type := S -> option R * S.

Definition and_then {S R} (f g : stage S R) : stage S R := fun s =>
  match f s with
  | (Some r, s) => (Some r, s)
  | (None, s) => g s
  end.

(** [if (condition) { body }]. *)
Definition when {S R} (condition : S -> bool) (body : stage S R) : stage S R := fun s =>
  if condition s then body s else (None, s).

Infix ">>>" := and_then (at level 60, right associativity) : aster_scope.

(** ** Little-endian integers *)

(** The write loop: [output[i] = (byte)(value >> (i * 8))]. *)
Definition write_le (n : nat) (value : Z) : list Z :=
  (fun i => u8 (Z.shiftr value (8 * Z.of_nat i))) <$> seq 0 n.

(** The read loop: [value |= (uint)input[i] << (i * 8)]. *)
Fixpoint read_le_loop (i : nat) (value : Z) (input : list Z) : Z :=
  match input with
  | [] => value
  | b :: rest =>
      read_le_loop (S i) (Z.lor value (Z.shiftl b (8 * Z.of_nat i))) rest
  end.
Definition read_le (input : list Z) : Z := read_le_loop 0 0 input.

(** The value a little-endian byte string denotes. *)
Fixpoint le_value (l : list Z) : Z :=
  match l with
  | [] => 0
  | b :: rest => b + 256 * le_value rest
  end.

#[global] Arguments u8 : simpl never.
#[global] Arguments u16 : simpl never.
#[global] Arguments u32 : simpl never.
#[global] Arguments u64 : simpl never.
#[global] Arguments SaturatingAdd : simpl never.
#[global] Arguments incr32 : simpl never.
#[global] Arguments zeros : simpl never.
#[global] Arguments copy_into : simpl never.
#[global] Arguments subspan : simpl never.
#[global] Arguments byte_at : simpl never.
#[global] Arguments write_le : simpl never.
#[global] Arguments read_le : simpl never.

(** ** Tactics *)

(** Split a hypothesis about a boolean guard into the propositions it tests. *)
Ltac bool_hyps :=
  repeat match goal with
  | H : (_ && _)%bool = true |- _ => apply andb_true_iff in H; destruct H
  | H : (_ || _)%bool = false |- _ => apply orb_false_iff in H; destruct H
  | H : negb _ = true |- _ => apply negb_true_iff in H
  | H : negb _ = false |- _ => apply negb_false_iff in H
  | H : (_ <? _)%Z = true |- _ => apply Z.ltb_lt in H
  | H : (_ <? _)%Z = false |- _ => apply Z.ltb_ge in H
  | H : (_ <=? _)%Z = true |- _ => apply Z.leb_le in H
  | H : (_ <=? _)%Z = false |- _ => apply Z.leb_gt in H
  | H : (_ =? _)%Z = true |- _ => apply Z.eqb_eq in H
  | H : (_ =? _)%Z = false |- _ => apply Z.eqb_neq in H
  | H : (_ <? _)%nat = true |- _ => apply Nat.ltb_lt in H
  | H : (_ <? _)%nat = false |- _ => apply Nat.ltb_ge in H
  | H : (_ <=? _)%nat = true |- _ => apply Nat.leb_le in H
  | H : (_ <=? _)%nat = false |- _ => apply Nat.leb_gt in H
  | H : (_ =? _)%nat = true |- _ => apply Nat.eqb_eq in H
  | H : (_ =? _)%nat = false |- _ => apply Nat.eqb_neq in H
  | H : bool_decide _ = true |- _ => apply bool_decide_eq_true in H
  | H : bool_decide _ = false |- _ => apply bool_decide_eq_false in H
  end.

(** Prove that a boolean guard has the value the context forces. *)
Ltac solve_guard :=
  repeat match goal with
  | |- (_ && _)%bool = true => apply andb_true_intro; split
  | |- (_ || _)%bool = false => apply orb_false_intro
  | |- negb _ = true => apply negb_true_iff
  | |- negb _ = false => apply negb_false_iff
  | |- (_ <? _)%Z = true => apply Z.ltb_lt
  | |- (_ <? _)%Z = false => apply Z.ltb_ge
  | |- (_ <=? _)%Z = true => apply Z.leb_le
  | |- (_ <=? _)%Z = false => apply Z.leb_gt
  | |- (_ =? _)%Z = true => apply Z.eqb_eq
  | |- (_ =? _)%Z = false => apply Z.eqb_neq
  | |- (_ <? _)%nat = true => apply Nat.ltb_lt
  | |- (_ <? _)%nat = false => apply Nat.ltb_ge
  | |- (_ <=? _)%nat = true => apply Nat.leb_le
  | |- (_ <=? _)%nat = false => apply Nat.leb_gt
  | |- (_ =? _)%nat = true => apply Nat.eqb_eq
  | |- (_ =? _)%nat = false => apply Nat.eqb_neq
  | |- bool_decide _ = true => apply bool_decide_eq_true
  | |- bool_decide _ = false => apply bool_decide_eq_false
  end.

(** Discharge the guard [b] of the next [if b] with the value it has here. *)
Ltac guard_true b := let H := fresh in
  assert (b = true) as H by (solve_guard; first [done | lia | eauto]); rewrite H; clear H.
Ltac guard_false b := let H := fresh in
  assert (b = false) as H by (solve_guard; first [done | lia | eauto]); rewrite H; clear H.

(** Case on the guard of the outermost conditional of the goal. *)
Ltac split_if :=
  match goal with
  | |- context [if ?b then _ else _] => let E := fresh "E" in destruct b eqn:E
  end.
Ltac split_if_in H :=
  match type of H with
  | context [if ?b then _ else _] => let E := fresh "E" in destruct b eqn:E
  end.

Create HintDb aster.

(** ** Lemmas: machine integers *)

Lemma u8_range z : 0 <= u8 z < 2 ^ 8.
Proof. apply Z.mod_pos_bound; lia. Qed.
Lemma u16_range z : 0 <= u16 z < 2 ^ 16.
Proof. apply Z.mod_pos_bound; lia. Qed.
Lemma u32_range z : 0 <= u32 z < 2 ^ 32.
Proof. apply Z.mod_pos_bound; lia. Qed.
Lemma u64_range z : 0 <= u64 z < 2 ^ 64.
Proof. apply Z.mod_pos_bound; lia. Qed.

Lemma u8_small z : 0 <= z < 256 -> u8 z = z.
Proof. intros. apply Z.mod_small. lia. Qed.
Lemma u16_small z : 0 <= z < 65536 -> u16 z = z.
Proof. intros. apply Z.mod_small. lia. Qed.
Lemma u32_small z : 0 <= z < 2 ^ 32 -> u32 z = z.
Proof. intros. apply Z.mod_small. lia. Qed.
Lemma u64_small z : 0 <= z < 2 ^ 64 -> u64 z = z.
Proof. intros. apply Z.mod_small. lia. Qed.

Lemma SaturatingAdd_min a b :
  0 <= a <= UINT64_MAX -> 0 <= b -> SaturatingAdd a b = Z.min UINT64_MAX (a + b).
Proof. intros. unfold SaturatingAdd. destruct (_ <? _) eqn:E; bool_hyps; lia. Qed.

Lemma SaturatingAdd_range a b : is_u64 a -> 0 <= b -> is_u64 (SaturatingAdd a b).
Proof.
  unfold is_u64. intros. rewrite SaturatingAdd_min by lia.
  unfold UINT64_MAX in *. lia.
Qed.

(** ** Lemmas: early returns *)

(** A property of states kept by the parts is kept by the whole. *)
Lemma and_then_inv {S R} (P : S -> Prop) (f g : stage S R) s :
  P (snd (f s)) -> (forall q, P q -> P (snd (g q))) -> P (snd ((f >>> g) s)).
Proof. unfold and_then. intros Hf Hg. destruct (f s) as [[r|] q]; [done|]. by apply Hg. Qed.

Lemma when_inv {S R} (P : S -> Prop) c (f : stage S R) s :
  P s -> (P s -> P (snd (f s))) -> P (snd (when c f s)).
Proof. unfold when. intros Hs Hf. destruct (c s); auto. Qed.

(** ** Lemmas: bits *)

Lemma land_shiftl_1 m i :
  0 <= i -> Z.land m (Z.shiftl 1 i) = 0 <-> Z.testbit m i = false.
Proof.
  intros Hi. rewrite Z.shiftl_1_l. split.
  - intros H. pose proof (f_equal (fun z => Z.testbit z i) H) as Hb. cbn in Hb.
    rewrite Z.land_spec, Z.pow2_bits_true, Z.bits_0, andb_true_r in Hb by lia. done.
  - intros H. apply Z.bits_inj'. intros j Hj.
    rewrite Z.land_spec, Z.bits_0. destruct (Z.eq_dec i j) as [->|Hne].
    + by rewrite H.
    + rewrite Z.pow2_bits_false by lia. apply andb_false_r.
Qed.

Lemma testbit_lor_shiftl_1 m i j :
  0 <= i -> 0 <= j ->
  Z.testbit (Z.lor m (Z.shiftl 1 i)) j = (Z.testbit m j || (i =? j))%bool.
Proof.
  intros. rewrite Z.lor_spec, Z.shiftl_1_l. f_equal.
  destruct (Z.eqb_spec i j) as [->|Hne].
  - by apply Z.pow2_bits_true.
  - by apply Z.pow2_bits_false.
Qed.

Lemma lor_shiftl_add a b k :
  0 <= k -> 0 <= a < 2 ^ k -> 0 <= b -> Z.lor a (Z.shiftl b k) = a + b * 2 ^ k.
Proof.
  intros Hk Ha Hb. rewrite Z.shiftl_mul_pow2 by lia.
  pose proof (Z.add_lor_land a (b * 2 ^ k)) as Hsum. enough (Z.land a (b * 2 ^ k) = 0) by lia; clear Hsum.
  apply Z.bits_inj'. intros j Hj. rewrite Z.land_spec, Z.bits_0.
  destruct (Z.lt_ge_cases j k).
  - rewrite Z.mul_pow2_bits_low by lia. apply andb_false_r.
  - rewrite <- (Z.mod_small a (2 ^ k)) by lia.
    by rewrite Z.mod_pow2_bits_high by lia.
Qed.

Lemma land_0f x : Z.land x 0x0f = x mod 16.
Proof. by apply (Z.land_ones x 4). Qed.
Lemma land_3f x : Z.land x 0x3f = x mod 64.
Proof. by apply (Z.land_ones x 6). Qed.
Lemma land_ff x : Z.land x 0xff = x mod 256.
Proof. by apply (Z.land_ones x 8). Qed.
Lemma land_ffff x : Z.land x 0xffff = x mod 65536.
Proof. by apply (Z.land_ones x 16). Qed.

(** The completion masks [(1 << n) - 1] of the reassemblers. *)
Lemma full_mask_iff m n :
  0 <= n -> 0 <= m < 2 ^ n ->
  m = Z.shiftl 1 n - 1 <-> (forall i, 0 <= i < n -> Z.testbit m i = true).
Proof.
  intros Hn Hm. rewrite Z.shiftl_1_l.
  replace (2 ^ n - 1) with (Z.ones n) by (rewrite Z.ones_equiv; lia). split.
  - intros -> i Hi. apply Z.ones_spec_low. lia.
  - intros H. apply Z.bits_inj'. intros i Hi. destruct (Z.lt_ge_cases i n).
    + rewrite H, Z.ones_spec_low by lia. done.
    + rewrite Z.ones_spec_high by lia.
      rewrite <- (Z.mod_small m (2 ^ n)) by lia. apply Z.mod_pow2_bits_high. lia.
Qed.

Lemma lor_bit_range m i n :
  0 <= i < n -> 0 <= m < 2 ^ n -> 0 <= Z.lor m (Z.shiftl 1 i) < 2 ^ n.
Proof.
  intros Hi Hm. split.
  - apply Z.lor_nonneg. rewrite Z.shiftl_1_l. lia.
  - destruct (Z.eq_dec m 0) as [->|].
    + rewrite Z.lor_0_l, Z.shiftl_1_l. apply Z.pow_lt_mono_r; lia.
    + apply Z.log2_lt_pow2.
      * pose proof (Z.lor_nonneg m (Z.shiftl 1 i)) as [_ Hnn].
        rewrite Z.shiftl_1_l in *.
        assert (Z.lor m (2 ^ i) <> 0) by (intros [? ?]%Z.lor_eq_0_iff; lia). lia.
      * rewrite Z.log2_lor, Z.shiftl_1_l, Z.log2_pow2 by (rewrite ?Z.shiftl_1_l; lia).
        apply Z.max_lub_lt; [apply Z.log2_lt_pow2|]; lia.
Qed.

(** The 16-bit masks of at most sixteen fragments do not wrap. *)
Lemma u16_bit i : 0 <= i < 16 -> u16 (Z.shiftl 1 i) = Z.shiftl 1 i.
Proof.
  intros. rewrite Z.shiftl_1_l. apply u16_small.
  pose proof (Z.pow_lt_mono_r 2 i 16). lia.
Qed.

Lemma u16_full_mask n : 0 <= n <= 16 -> u16 (Z.shiftl 1 n - 1) = Z.shiftl 1 n - 1.
Proof.
  intros. rewrite Z.shiftl_1_l. apply u16_small.
  pose proof (Z.pow_le_mono_r 2 n 16). lia.
Qed.

Lemma u16_lor_bit m i n :
  0 <= i < n -> n <= 16 -> 0 <= m < 2 ^ n ->
  u16 (Z.lor m (Z.shiftl 1 i)) = Z.lor m (Z.shiftl 1 i).
Proof.
  intros. pose proof (lor_bit_range m i n). pose proof (Z.pow_le_mono_r 2 n 16).
  apply u16_small. lia.
Qed.

(** ** Lemmas: little-endian integers *)

Lemma write_le_length n v : length (write_le n v) = n.
Proof. unfold write_le. by rewrite length_fmap, length_seq. Qed.

Lemma write_le_S n v : write_le (S n) v = u8 v :: write_le n (Z.shiftr v 8).
Proof.
  unfold write_le. cbn [seq]. rewrite fmap_cons. f_equal.
  rewrite <- seq_shift, <- list_fmap_compose. apply list_fmap_ext.
  intros k i _. cbn. rewrite Z.shiftr_shiftr by lia. do 2 f_equal. lia.
Qed.

Lemma write_le_bytes n v : Forall is_byte (write_le n v).
Proof. apply Forall_fmap, Forall_true. intros i. apply u8_range. Qed.

Lemma le_value_write n v : le_value (write_le n v) = v mod 2 ^ (8 * Z.of_nat n).
Proof.
  revert v. induction n as [|n IH]; intros v.
  - cbn. by rewrite Z.mod_1_r.
  - rewrite write_le_S. cbn [le_value]. rewrite IH, Z.shiftr_div_pow2 by lia.
    replace (8 * Z.of_nat (S n)) with (8 + 8 * Z.of_nat n) by lia.
    rewrite Z.pow_add_r by lia. unfold u8.
    rewrite (Z.rem_mul_r v (2 ^ 8)) by lia. lia.
Qed.

Lemma le_value_bound l :
  Forall is_byte l -> 0 <= le_value l < 2 ^ (8 * Z.of_nat (length l)).
Proof.
  induction 1 as [|b l Hb _ IH]; cbn [le_value length]; [lia|].
  replace (8 * Z.of_nat (S (length l))) with (8 + 8 * Z.of_nat (length l)) by lia.
  rewrite Z.pow_add_r by lia. unfold is_byte in Hb. lia.
Qed.

Lemma write_le_value l :
  Forall is_byte l -> write_le (length l) (le_value l) = l.
Proof.
  induction 1 as [|b l Hb Hl IH]; [done|].
  cbn [length]. rewrite write_le_S. cbn [le_value]. unfold is_byte in Hb. f_equal.
  - unfold u8. replace (2 ^ 8) with 256 by lia.
    rewrite Z.mul_comm, Z.mod_add by lia. apply Z.mod_small. lia.
  - rewrite Z.shiftr_div_pow2 by lia. replace (2 ^ 8) with 256 by lia.
    rewrite Z.mul_comm, Z.div_add by lia. rewrite (Z.div_small b) by lia. done.
Qed.

Lemma read_le_loop_value l i acc :
  Forall is_byte l -> 0 <= acc < 2 ^ (8 * Z.of_nat i) ->
  read_le_loop i acc l = acc + le_value l * 2 ^ (8 * Z.of_nat i).
Proof.
  intros Hl. revert i acc. induction Hl as [|b l Hb Hl IH]; intros i acc Hacc; cbn; [lia|].
  unfold is_byte in Hb.
  assert (2 ^ (8 * Z.of_nat (S i)) = 256 * 2 ^ (8 * Z.of_nat i)) as Hp.
  { replace (8 * Z.of_nat (S i)) with (8 + 8 * Z.of_nat i) by lia.
    by rewrite Z.pow_add_r by lia. }
  rewrite lor_shiftl_add by lia. rewrite IH; rewrite Hp; nia.
Qed.

Lemma read_le_value l : Forall is_byte l -> read_le l = le_value l.
Proof. intros Hl. unfold read_le. rewrite read_le_loop_value by (done || lia). cbn. lia. Qed.

Lemma read_write_le n v : read_le (write_le n v) = v mod 2 ^ (8 * Z.of_nat n).
Proof. rewrite read_le_value by apply write_le_bytes. apply le_value_write. Qed.

Lemma write_read_le l : Forall is_byte l -> write_le (length l) (read_le l) = l.
Proof. intros. rewrite read_le_value by done. by apply write_le_value. Qed.

(** ** Lemmas: arrays *)

Lemma byte_at_lookup l i b : l !! i = Some b -> byte_at l i = b.
Proof. unfold byte_at. by intros ->. Qed.

Lemma copy_into_length off src dst : length (copy_into off src dst) = length dst.
Proof. apply length_inserts. Qed.

Lemma copy_into_bytes off src dst :
  Forall is_byte src -> Forall is_byte dst -> Forall is_byte (copy_into off src dst).
Proof. intros. by apply Forall_inserts. Qed.

Lemma zeros_length n : length (zeros n) = n.
Proof. apply length_replicate. Qed.

Lemma zeros_bytes n : Forall is_byte (zeros n).
Proof. apply Forall_replicate. unfold is_byte. lia. Qed.

Lemma lookup_copy_into off src dst j :
  (off + length src <= length dst)%nat ->
  copy_into off src dst !! j =
    if decide (off <= j < off + length src)%nat then src !! (j - off)%nat else dst !! j.
Proof.
  intros H. unfold copy_into. destruct (decide _) as [Hj|Hj].
  - apply list_lookup_inserts; lia.
  - destruct (decide (j < off)%nat).
    + by apply list_lookup_inserts_lt.
    + apply list_lookup_inserts_ge. lia.
Qed.

Lemma copy_into_app off src dst :
  (off + length src <= length dst)%nat ->
  copy_into off src dst = take off dst ++ src ++ drop (off + length src) dst.
Proof.
  intros H. apply list_eq. intros j. rewrite lookup_copy_into by done.
  assert (length (take off dst) = off) as Ht by (rewrite length_take; lia).
  destruct (decide _) as [Hj|Hj].
  - rewrite lookup_app_r, Ht, lookup_app_l by lia. done.
  - destruct (decide (j < off)%nat).
    + rewrite lookup_app_l by lia. by rewrite lookup_take_lt.
    + rewrite lookup_app_r, Ht, lookup_app_r by lia. rewrite lookup_drop. f_equal. lia.
Qed.

Lemma subspan_lookup {A} off len (l : list A) i :
  (i < len)%nat -> subspan off len l !! i = l !! (off + i)%nat.
Proof. intros. unfold subspan. by rewrite lookup_take_lt, lookup_drop. Qed.

Lemma subspan_length {A} off len (l : list A) :
  (off + len <= length l)%nat -> length (subspan off len l) = len.
Proof. intros. unfold subspan. rewrite length_take, length_drop. lia. Qed.

Lemma subspan_Forall {A} (P : A -> Prop) off len l : Forall P l -> Forall P (subspan off len l).
Proof. intros. unfold subspan. by apply Forall_take, Forall_drop. Qed.

Lemma subspan_middle {A} (l1 l2 l3 : list A) off len :
  length l1 = off -> length l2 = len -> subspan off len (l1 ++ l2 ++ l3) = l2.
Proof. intros <- <-. unfold subspan. by rewrite drop_app_length, take_app_length. Qed.

(** Reading back what was just copied. *)
Lemma subspan_copy_into off src dst :
  (off + length src <= length dst)%nat -> subspan off (length src) (copy_into off src dst) = src.
Proof.
  intros. rewrite copy_into_app by done. apply subspan_middle; [|done].
  rewrite length_take. lia.
Qed.

Lemma take_copy_into src dst :
  (length src <= length dst)%nat -> take (length src) (copy_into 0 src dst) = src.
Proof. intros. rewrite copy_into_app, take_0 by done. exact (take_app_length src _). Qed.

(** Filling and reading a buffer from the front. *)
Lemma insert_middle (a : list Z) x b v :
  <[length a := v]> (a ++ x :: b) = a ++ v :: b.
Proof. by rewrite insert_app_r_alt, Nat.sub_diag by lia. Qed.

Lemma copy_into_next off src front rest :
  length front = off -> (length src <= length rest)%nat ->
  copy_into off src (front ++ rest) = (front ++ src) ++ drop (length src) rest.
Proof.
  intros <- H. rewrite copy_into_app by (rewrite length_app; lia).
  rewrite take_app_length, <- (app_assoc front). do 2 f_equal.
  rewrite drop_app_ge by lia. f_equal. lia.
Qed.

Lemma insert_next off v (front rest : list Z) :
  length front = off -> (0 < length rest)%nat ->
  <[off := v]> (front ++ rest) = (front ++ [v]) ++ drop 1 rest.
Proof. intros <- H. destruct rest as [|x rest]; [cbn in H; lia|]. by rewrite insert_middle, <- app_assoc. Qed.

Lemma subspan_skip {A} off len (front rest : list A) :
  (length front <= off)%nat -> subspan off len (front ++ rest) = subspan (off - length front) len rest.
Proof. intros. unfold subspan. by rewrite drop_app_ge by lia. Qed.

Lemma subspan_here {A} len (l rest : list A) : length l = len -> subspan 0 len (l ++ rest) = l.
Proof. intros <-. unfold subspan. rewrite drop_0. apply take_app_length. Qed.

Lemma byte_at_skip off front rest :
  (length front <= off)%nat -> byte_at (front ++ rest) off = byte_at rest (off - length front).
Proof. intros. unfold byte_at. by rewrite lookup_app_r by lia. Qed.

Lemma subspan_field {A} off len (l rest : list A) :
  off = 0%nat -> length l = len -> subspan off len (l ++ rest) = l.
Proof. intros ->. apply subspan_here. Qed.

#[export] Hint Resolve write_le_bytes copy_into_bytes zeros_bytes subspan_Forall : aster.
#[export] Hint Rewrite write_le_length copy_into_length zeros_length @length_replicate @length_insert : aster.
