(* ===== verification/Status.v ===== *)
(** Status codes, execution contexts and work items: the vocabulary every
    component shares ([aster_module_cpp_interface/status.hpp],
    [execution.hpp], [util/string_view.hpp] and the C enumerations under
    [aster_module_c_interface/]). *)

From stdpp Require Export strings.
From S2P Require Export Prelude.

Local Open Scope Z_scope.

(** ** Status *)

Inductive Status :=
  | kOk
  | kInvalidArgument
  | kNotFound
  | kCapacityExceeded
  | kUnavailable
  | kAlreadyExists
  | kTimeout
  | kCancelled
  | kTypeMismatch
  | kVersionMismatch
  | kProtocolError
  | kInvalidState
  | kInternal.

#[export] Instance Status_eq_dec : EqDecision Status.
Proof. solve_decision. Defined.

(** The enumerator values of [enum class Status : std::int32_t]; the C
    enumeration [ASTER_STATUS_*] repeats them. *)
Definition status_value (s : Status) : Z :=
  match s with
  | kOk => 0
  | kInvalidArgument => 0x01000001
  | kNotFound => 0x01000002
  | kCapacityExceeded => 0x02000001
  | kUnavailable => 0x02000002
  | kAlreadyExists => 0x02000003
  | kTimeout => 0x03000001
  | kCancelled => 0x03000002
  | kTypeMismatch => 0x04000001
  | kVersionMismatch => 0x04000002
  | kProtocolError => 0x04000003
  | kInvalidState => 0x05000001
  | kInternal => 0x06000001
  end.

Definition IsOk (status : Status) : bool :=
  match status with kOk => true | _ => false end.

Definition status_is (a b : Status) : bool := bool_decide (a = b).

Definition ToAbiStatus (status : Status) : Z := status_value status.

(** The [switch] over the known codes; any other code is [kInternal]. *)
Definition FromAbiStatus (status : Z) : Status :=
  if status =? status_value kOk then kOk
  else if status =? status_value kInvalidArgument then kInvalidArgument
  else if status =? status_value kNotFound then kNotFound
  else if status =? status_value kCapacityExceeded then kCapacityExceeded
  else if status =? status_value kUnavailable then kUnavailable
  else if status =? status_value kAlreadyExists then kAlreadyExists
  else if status =? status_value kTimeout then kTimeout
  else if status =? status_value kCancelled then kCancelled
  else if status =? status_value kTypeMismatch then kTypeMismatch
  else if status =? status_value kVersionMismatch then kVersionMismatch
  else if status =? status_value kProtocolError then kProtocolError
  else if status =? status_value kInvalidState then kInvalidState
  else kInternal.

Inductive StatusCategory :=
  | kCategoryOk
  | kConfiguration
  | kResource
  | kCategoryTimeout
  | kProtocol
  | kLifecycle
  | kPlatform.

(** [static_cast<StatusCategory>]: [None] is a value without enumerator. *)
Definition StatusCategory_cast (z : Z) : option StatusCategory :=
  match z with
  | 0 => Some kCategoryOk
  | 1 => Some kConfiguration
  | 2 => Some kResource
  | 3 => Some kCategoryTimeout
  | 4 => Some kProtocol
  | 5 => Some kLifecycle
  | 6 => Some kPlatform
  | _ => None
  end.

Definition CategoryOf (status : Status) : option StatusCategory :=
  StatusCategory_cast (Z.land (Z.shiftr (u32 (status_value status)) 24) 0xff).

(** ** Strings across the C ABI

    [aster_string_view_t] is a pointer and a size; the pointer is null or
    gives access to some characters. A C++ [std::string_view] is modelled by
    its characters. *)

Record aster_string_view_t := AbiString {
  sv_data : option string;
  sv_size : nat
}.

Definition ToAbiString (value : string) : aster_string_view_t :=
  AbiString (Some value) (String.length value).

Definition FromAbiString (value : aster_string_view_t) : string :=
  match sv_data value with
  | None => ""%string
  | Some s => String.substring 0 (sv_size value) s
  end.

(** ** Execution contexts *)

Inductive ExecutionKind := kThread | kInterrupt.

#[export] Instance ExecutionKind_eq_dec : EqDecision ExecutionKind.
Proof. solve_decision. Defined.

Record ExecutionContext := MkExecutionContext {
  executor_name : string;
  kind : ExecutionKind;
  timestamp_ns : Z
}.

Record aster_execution_context_t := AbiExecutionContext {
  abi_executor_name : aster_string_view_t;
  abi_kind : Z;
  abi_timestamp_ns : Z
}.

Definition ASTER_EXECUTION_KIND_THREAD : Z := 0.
Definition ASTER_EXECUTION_KIND_INTERRUPT : Z := 1.

Definition is_interrupt (context : ExecutionContext) : bool :=
  bool_decide (kind context = kInterrupt).

Definition ToAbiExecutionContext (context : ExecutionContext) : aster_execution_context_t :=
  AbiExecutionContext (ToAbiString (executor_name context))
    (match kind context with
     | kThread => ASTER_EXECUTION_KIND_THREAD
     | kInterrupt => ASTER_EXECUTION_KIND_INTERRUPT
     end)
    (timestamp_ns context).

Definition FromAbiExecutionContext (context : aster_execution_context_t) : ExecutionContext :=
  MkExecutionContext (FromAbiString (abi_executor_name context))
    (if abi_kind context =? ASTER_EXECUTION_KIND_THREAD then kThread else kInterrupt)
    (abi_timestamp_ns context).

(** The argument is a nullable pointer. *)
Definition ValidateAbiExecutionContext (context : option aster_execution_context_t) : Status :=
  match context with
  | None => kInvalidArgument
  | Some c =>
      if bool_decide (is_Some (sv_data (abi_executor_name c))) &&
         negb (sv_size (abi_executor_name c) =? 0)%nat &&
         (abi_kind c <=? ASTER_EXECUTION_KIND_INTERRUPT)
      then kOk else kInvalidArgument
  end.

(** ** Work items

    A work item is a function pointer with a state pointer, data an executor
    keeps until it runs it. [P] stands for such pairs of pointers and [callback]
    for the code they denote; [W] is the state that code acts on. *)
Definition WorkItem (P : Type) : Type := option P.

(** [WorkItem::Run] composed with the generated [Invoke<Callback>]: the bound
    callback runs on the context that went through the ABI, and is skipped when
    that context does not validate. *)
Section WorkItem.
Context {P W : Type} (callback : P -> ExecutionContext -> W -> W).

Definition WorkItem_Invoke (state : P) (context : option aster_execution_context_t) (w : W) : W :=
  match context with
  | Some c =>
      if IsOk (ValidateAbiExecutionContext context)
      then callback state (FromAbiExecutionContext c) w else w
  | None => w
  end.

Definition WorkItem_Run (work : WorkItem P) (context : ExecutionContext) (w : W) : W :=
  match work with
  | None => w
  | Some state => WorkItem_Invoke state (Some (ToAbiExecutionContext context)) w
  end.
End WorkItem.

(** ** Lemmas *)

Lemma IsOk_spec s : IsOk s = true <-> s = kOk.
Proof. by destruct s. Qed.

Lemma IsOk_false s : IsOk s = false <-> s <> kOk.
Proof. by destruct s. Qed.

Lemma substring_all s : String.substring 0 (String.length s) s = s.
Proof. induction s as [|c s IH]; cbn; [done|by rewrite IH]. Qed.

Lemma FromAbiString_ToAbiString s : FromAbiString (ToAbiString s) = s.
Proof. apply substring_all. Qed.

Lemma FromAbiExecutionContext_ToAbi c :
  FromAbiExecutionContext (ToAbiExecutionContext c) = c.
Proof.
  destruct c as [name k t]. unfold FromAbiExecutionContext, ToAbiExecutionContext.
  cbn [abi_executor_name abi_kind abi_timestamp_ns executor_name].
  rewrite FromAbiString_ToAbiString. by destruct k.
Qed.

#[export] Hint Rewrite FromAbiString_ToAbiString FromAbiExecutionContext_ToAbi : aster.

(** ** Properties *)

(** Status codes survive the C ABI in both directions: a [Status] comes
    back unchanged, and a code of the C side comes back unchanged when it names
    a status and becomes [kInternal] otherwise. *)
Theorem status_abi_roundtrip :
  (forall s, FromAbiStatus (ToAbiStatus s) = s) /\
  (forall code, ToAbiStatus (FromAbiStatus code) = code \/
     ((forall s, status_value s <> code) /\ FromAbiStatus code = kInternal)).
Proof.
  split; [by intros []|]. intros code. unfold FromAbiStatus.
  repeat match goal with
  | |- context [if ?b then _ else _] => destruct b eqn:?
  end; bool_hyps; try (left; symmetry; assumption).
  destruct (Z.eq_dec code (status_value kInternal)) as [->|]; [by left|].
  right. split; [|done]. intros []; by apply not_eq_sym.
Qed.

(** A bound work item runs its callback exactly once, with the context it
    was run with, whenever that context names an executor; an anonymous context
    is dropped by the ABI validation. *)
Lemma WorkItem_Run_callback {P W} (callback : P -> ExecutionContext -> W -> W) state context w :
  WorkItem_Run callback (Some state) context w =
    if bool_decide (executor_name context = ""%string) then w else callback state context w.
Proof.
  unfold WorkItem_Run, WorkItem_Invoke. rewrite FromAbiExecutionContext_ToAbi.
  destruct context as [[|c name] k t]; [done|]. by destruct k.
Qed.
