(* ===== verification/CanProtocol.v ===== *)
(** The CAN wire vocabulary: arbitration identifiers, frames, frame kinds and
    the writer, clock and converter handles through which the transport reaches
    the device ([transport/can/protocol.hpp] and [transport/can/link.hpp]). *)

From S2P Require Export Status.

Local Open Scope Z_scope.

Definition kMaximumRouteId : Z := 511.
Definition kFirstApplicationRouteId : Z := 8.
Definition kClassicCanPayloadSize : nat := 8.

Inductive CanPriority := kCritical | kControl | kState | kBackground.

#[export] Instance CanPriority_eq_dec : EqDecision CanPriority.
Proof. solve_decision. Defined.

Definition CanPriority_value (p : CanPriority) : Z :=
  match p with kCritical => 0 | kControl => 1 | kState => 2 | kBackground => 3 end.

(** [static_cast<CanPriority>] of a two-bit value. *)
Definition CanPriority_cast (z : Z) : CanPriority :=
  if z =? 0 then kCritical
  else if z =? 1 then kControl
  else if z =? 2 then kState
  else kBackground.

Record DecodedArbitrationId := MkDecodedArbitrationId {
  priority : CanPriority;
  id_route : Z
}.

(** The result is the status and the value left in the [encoded] reference. *)
Definition CanArbitrationId_Encode (p : CanPriority) (route_id : Z) : Status * Z :=
  if (route_id =? 0) || (kMaximumRouteId <? route_id) then (kInvalidArgument, 0)
  else
    let priority_bits := u16 (CanPriority_value p) in
    if 3 <? priority_bits then (kInvalidArgument, 0)
    else (kOk, u16 (Z.lor (Z.shiftl priority_bits 9) route_id)).

Definition CanArbitrationId_Decode (encoded : Z) : option DecodedArbitrationId :=
  if (0x7ff <? encoded) || (Z.land encoded 0x1ff =? 0) then None
  else Some (MkDecodedArbitrationId
               (CanPriority_cast (Z.land (Z.shiftr encoded 9) 0x3))
               (u16 (Z.land encoded 0x1ff))).

(** ** Frames

    [write_completion] and [write_state] are a function pointer and its
    argument. The code assigns one function to the pointer,
    [ReliableSender::CompleteFrameWrite], with the sender that produced the
    frame: the pointer is an option over that single value, and the call it
    stands for is delivered to that sender by the loop that owns it. *)

Inductive WriteCompletion := ReliableSender_CompleteFrameWrite.

Record CanFrame := MkCanFrame {
  arbitration_id : Z;
  size : Z;
  data : list Z;
  write_completion : option WriteCompletion;
  write_token : Z
}.
#[global] Instance eta_CanFrame : Eta CanFrame := fun r =>
  MkCanFrame (arbitration_id r) (size r) (data r) (write_completion r) (write_token r).

(** [CanFrame{}]. *)
Definition CanFrame_default : CanFrame :=
  MkCanFrame 0 0 (zeros kClassicCanPayloadSize) None 0.

(** [CompleteWrite]: the call delivered to the completion, if there is one. *)
Definition CanFrame_CompleteWrite (frame : CanFrame) (status : Status) : option (Z * Status) :=
  match write_completion frame with
  | None => None
  | Some _ => Some (write_token frame, status)
  end.

Inductive FrameKind := kFastSingle | kFastFragment | kReliable | kControlFrame.

#[export] Instance FrameKind_eq_dec : EqDecision FrameKind.
Proof. solve_decision. Defined.

(** [static_cast<FrameKind>] of a two-bit value. *)
Definition FrameKind_cast (z : Z) : FrameKind :=
  if z =? 0 then kFastSingle
  else if z =? 1 then kFastFragment
  else if z =? 2 then kReliable
  else kControlFrame.

Definition GetFrameKind (header : Z) : FrameKind :=
  FrameKind_cast (Z.land (Z.shiftr header 6) 0x3).

(** The payload is a span over the reassembler's buffer, valid until its next
    frame; the consumers read it before that, so it is the bytes it shows. *)
Record ReassembledMessage := MkReassembledMessage {
  msg_route : Z;
  msg_sequence : Z;
  msg_payload : list Z
}.

(** [ReassembledMessage{}]. *)
Definition ReassembledMessage_default : ReassembledMessage := MkReassembledMessage 0 0 [].

(** ** Handles

    A handle is a function pointer with its state; [None] is the null pointer.
    [W] is the state of everything the pointed-to function may reach. *)
Section Handles.
Context {W : Type}.

Definition CanFrameWrite : Type := CanFrame -> ExecutionContext -> W -> Status * W.
Definition CanFrameWriter : Type := option CanFrameWrite.

(** The status, the call made to the frame's completion, and the new state. *)
Definition CanFrameWriter_Send (writer : CanFrameWriter) (frame : CanFrame)
    (context : ExecutionContext) (w : W) : Status * option (Z * Status) * W :=
  let wire_frame := frame <| write_completion := None |> <| write_token := 0 |> in
  let '(status, w) :=
    match writer with
    | None => (kUnavailable, w)
    | Some write => write wire_frame context w
    end in
  (status, CanFrame_CompleteWrite frame status, w).

(** The clock writes its reading into the reference only on success. *)
Definition CanClockReader : Type := option (W -> Status * Z).

Definition CanClockReader_NowNs (clock : CanClockReader) (w : W) : Status * Z :=
  match clock with
  | None => (kUnavailable, 0)
  | Some read => read w
  end.

Definition CanTimeConverter : Type := option (W -> Z -> Z).

Definition CanTimeConverter_ToNetworkTime (time : CanTimeConverter) (w : W)
    (local_time_ns : Z) : Z :=
  match time with
  | None => local_time_ns
  | Some convert => convert w local_time_ns
  end.

Definition CanFrameReceiver : Type :=
  option (CanFrame -> Z -> ExecutionContext -> W -> Status * W).

Definition CanFrameReceiver_Accept (receiver : CanFrameReceiver) (frame : CanFrame)
    (receive_time_ns : Z) (context : ExecutionContext) (w : W) : Status * W :=
  match receiver with
  | None => (kUnavailable, w)
  | Some receive => receive frame receive_time_ns context w
  end.
End Handles.
Arguments CanFrameWrite : clear implicits.
Arguments CanFrameWriter : clear implicits.
Arguments CanClockReader : clear implicits.
Arguments CanTimeConverter : clear implicits.
Arguments CanFrameReceiver : clear implicits.

#[global] Arguments CanArbitrationId_Encode : simpl never.
#[global] Arguments CanArbitrationId_Decode : simpl never.
#[global] Arguments GetFrameKind : simpl never.

(** ** Lemmas *)

Lemma CanPriority_value_range p : 0 <= CanPriority_value p <= 3.
Proof. destruct p; cbn; lia. Qed.

Lemma CanPriority_cast_value p : CanPriority_cast (CanPriority_value p) = p.
Proof. by destruct p. Qed.

Lemma CanPriority_value_cast z : 0 <= z <= 3 -> CanPriority_value (CanPriority_cast z) = z.
Proof.
  intros Hz. assert (z = 0 \/ z = 1 \/ z = 2 \/ z = 3) as [->|[->|[->| ->]]] by lia; done.
Qed.

Lemma priority_lor p route :
  0 <= route <= kMaximumRouteId ->
  Z.lor (Z.shiftl (CanPriority_value p) 9) route = CanPriority_value p * 512 + route.
Proof.
  intros Hr. pose proof (CanPriority_value_range p). unfold kMaximumRouteId in Hr.
  rewrite Z.lor_comm, lor_shiftl_add by lia. lia.
Qed.

Lemma arbitration_Encode_ok p route :
  1 <= route <= kMaximumRouteId ->
  CanArbitrationId_Encode p route = (kOk, CanPriority_value p * 512 + route).
Proof.
  intros Hr. pose proof (CanPriority_value_range p). unfold CanArbitrationId_Encode.
  rewrite (u16_small (CanPriority_value p)) by lia. unfold kMaximumRouteId in *.
  guard_false ((route =? 0) || (511 <? route))%bool.
  guard_false (3 <? CanPriority_value p).
  rewrite priority_lor by (unfold kMaximumRouteId; lia). rewrite u16_small by lia. done.
Qed.

Lemma Encode_invalid p route :
  ~ 1 <= route <= kMaximumRouteId -> 0 <= route ->
  CanArbitrationId_Encode p route = (kInvalidArgument, 0).
Proof.
  intros Hr H0. unfold CanArbitrationId_Encode.
  replace ((route =? 0) || (kMaximumRouteId <? route))%bool with true; [done|].
  symmetry. apply orb_true_iff. rewrite Z.eqb_eq, Z.ltb_lt. lia.
Qed.

Lemma Decode_split e :
  0 <= e <= 0x7ff -> Z.land e 0x1ff = e mod 512 /\ Z.land (Z.shiftr e 9) 0x3 = e / 512.
Proof.
  intros He. change 0x1ff with (Z.ones 9). change 0x3 with (Z.ones 2).
  rewrite !Z.land_ones, Z.shiftr_div_pow2 by lia. split; [done|].
  change (2 ^ 9) with 512. apply Z.mod_small. split; [apply Z.div_pos; lia|].
  apply Z.div_lt_upper_bound; lia.
Qed.

Lemma Decode_Some e d :
  0 <= e ->
  CanArbitrationId_Decode e = Some d <->
  1 <= id_route d <= kMaximumRouteId /\
  e = CanPriority_value (priority d) * 512 + id_route d.
Proof.
  intros He. unfold CanArbitrationId_Decode, kMaximumRouteId. split.
  - destruct (_ || _)%bool eqn:E; [done|]. bool_hyps. intros [= <-]. cbn.
    destruct (Decode_split e) as [Hl Hs]; [lia|]. rewrite Hl in *. rewrite Hs.
    pose proof (Z.mod_pos_bound e 512). rewrite u16_small by lia.
    assert (0 <= e / 512 <= 3).
    { split; [apply Z.div_pos; lia|]. apply Z.lt_succ_r, Z.div_lt_upper_bound; lia. }
    rewrite CanPriority_value_cast by done. pose proof (Z.div_mod e 512). lia.
  - destruct d as [p r]. cbn. intros [Hr ->]. pose proof (CanPriority_value_range p).
    destruct (Decode_split (CanPriority_value p * 512 + r)) as [Hl Hs]; [lia|].
    rewrite Hl, Hs, Z.add_comm, Z.mod_add, Z.div_add, Z.mod_small, Z.div_small by lia.
    guard_false ((2047 <? r + CanPriority_value p * 512) || (r =? 0))%bool.
    rewrite Z.add_0_l, u16_small, CanPriority_cast_value by lia. done.
Qed.

Lemma Encode_Decode p route e :
  0 <= route -> CanArbitrationId_Encode p route = (kOk, e) ->
  CanArbitrationId_Decode e = Some (MkDecodedArbitrationId p route).
Proof.
  intros H0 He. destruct (decide (1 <= route <= kMaximumRouteId)) as [Hr|Hr].
  - rewrite arbitration_Encode_ok in He by done. injection He as <-.
    pose proof (CanPriority_value_range p). apply Decode_Some; cbn; lia.
  - by rewrite Encode_invalid in He.
Qed.

Lemma Encode_range p route e :
  0 <= route -> CanArbitrationId_Encode p route = (kOk, e) -> 0 <= e <= 0x7ff.
Proof.
  intros H0 He. destruct (decide (1 <= route <= kMaximumRouteId)) as [Hr|Hr].
  - rewrite arbitration_Encode_ok in He by done. injection He as <-.
    pose proof (CanPriority_value_range p). unfold kMaximumRouteId in *. lia.
  - by rewrite Encode_invalid in He.
Qed.

Lemma byte_land_ones b n : 0 <= n -> Z.land b (Z.ones n) = b mod 2 ^ n.
Proof. intros. by apply Z.land_ones. Qed.

(** ** Properties *)

(** [CanArbitrationId::Encode] and [Decode] are mutually inverse: encoding
    succeeds exactly on route identifiers 1 to 511, decoding returns the
    priority and the route that were encoded, and every identifier that decodes
    is the encoding of what it decodes to. *)
Theorem arbitration_id_roundtrip :
  (forall p route, 0 <= route ->
     fst (CanArbitrationId_Encode p route) = kOk <-> 1 <= route <= kMaximumRouteId) /\
  (forall p route e, 0 <= route ->
     CanArbitrationId_Encode p route = (kOk, e) ->
     0 <= e <= 0x7ff /\ CanArbitrationId_Decode e = Some (MkDecodedArbitrationId p route)) /\
  (forall e d, 0 <= e -> CanArbitrationId_Decode e = Some d ->
     CanArbitrationId_Encode (priority d) (id_route d) = (kOk, e)).
Proof.
  split_and!.
  - intros p route H0. destruct (decide (1 <= route <= kMaximumRouteId)) as [Hr|Hr].
    + by rewrite arbitration_Encode_ok.
    + rewrite Encode_invalid by done. by split.
  - intros p route e H0 He. split; [by eapply Encode_range|by eapply Encode_Decode].
  - intros e d H0 [Hr ->]%Decode_Some; [|done]. by apply arbitration_Encode_ok.
Qed.

(** Arbitration respects the priorities: CAN gives the bus to the smaller
    identifier, and a frame of a more urgent priority has the smaller one
    whatever the two routes are. *)
Theorem arbitration_priority_order p q r s e f :
  CanArbitrationId_Encode p r = (kOk, e) -> CanArbitrationId_Encode q s = (kOk, f) ->
  0 <= r -> 0 <= s -> CanPriority_value p < CanPriority_value q -> e < f.
Proof.
  intros He Hf Hr Hs Hpq.
  pose proof (Encode_range _ _ _ Hr He). pose proof (Encode_range _ _ _ Hs Hf).
  apply Encode_Decode, Decode_Some in He, Hf; [|lia..].
  cbn in *. unfold kMaximumRouteId in *. lia.
Qed.

Lemma arbitration_priority_order_witness : 1025 < 1536 + 8.
Proof.
  apply (arbitration_priority_order kState kBackground 1 8); vm_compute; done.
Defined.
