(* ===== verification/Fragments.v ===== *)
(** Fragmentation shared by the fast and the reliable CAN path: a payload is cut
    into slices of six bytes, each carried by one frame whose second byte holds
    the fragment count and index; a reassembler collects the slices in a buffer,
    with one bit of a mask and one recorded length per fragment. *)

From S2P Require Export CanProtocol.

Local Open Scope nat_scope.

(** ** The sender's side *)

Definition kFragmentPayload : nat := 6.

(** [(payload.size() + 5) / 6]. *)
Definition fragment_count_of (payload_size : nat) : nat := (payload_size + 5) / 6.

(** [min(6, payload.size() - offset)]. *)
Definition fragment_length (payload_size index : nat) : nat :=
  Nat.min kFragmentPayload (payload_size - index * kFragmentPayload).

(** The bytes copied from the payload into fragment [index]. *)
Definition fragment_slice (payload : list Z) (index : nat) : list Z :=
  subspan (index * kFragmentPayload) (fragment_length (length payload) index) payload.

(** [((count - 1) << 4) | index], the second byte of a fragment frame. *)
Definition fragment_byte (count index : Z) : Z :=
  u8 (Z.lor (Z.shiftl (count - 1) 4) index).

(** ** The receiver's side *)

(** [for (k = 0; k < count; ++k) total += fragment_lengths_[k];] *)
Definition sum_lengths (lengths : list Z) (count : nat) : nat :=
  sum_list_with Z.to_nat (take count lengths).

(** The guard on the fields of a fragment frame. *)
Definition fragment_invalid (MaximumPayload : nat) (index count : Z) (len : nat) : bool :=
  (count <=? index)%Z || (16 <? count)%Z || (len =? 0) || (6 <? len) ||
  ((index + 1 <? count)%Z && negb (len =? 6)) ||
  (Z.of_nat (MaximumPayload + 5) <? count * 6)%Z.

(** What the reassembler's memory safety rests on, for frames of any content. *)
Definition fragments_safe (max : nat) (count mask : Z) (lengths : list Z) : Prop :=
  (1 <= count <= 16)%Z /\ (count * 6 <= Z.of_nat max + 5)%Z /\
  (0 <= mask < 2 ^ count)%Z /\
  forall i : nat, (Z.of_nat i < count)%Z -> Z.testbit mask (Z.of_nat i) = true ->
    exists len, lengths !! i = Some len /\ (1 <= len <= 6)%Z /\
      (Z.of_nat i * 6 + len <= Z.of_nat max)%Z /\ ((Z.of_nat i + 1 < count)%Z -> len = 6%Z).

(** The fragments of [payload] whose bit is set in [mask] are in the buffer. *)
Definition collected (payload : list Z) (mask : Z) (lengths buffer : list Z) : Prop :=
  forall i : nat, i < fragment_count_of (length payload) ->
    Z.testbit mask (Z.of_nat i) = true ->
    lengths !! i = Some (Z.of_nat (fragment_length (length payload) i)) /\
    forall j, j < fragment_length (length payload) i ->
      buffer !! (i * 6 + j) = payload !! (i * 6 + j).

#[global] Arguments fragment_count_of : simpl never.
#[global] Arguments fragment_length : simpl never.
#[global] Arguments fragment_slice : simpl never.
#[global] Arguments fragment_byte : simpl never.
#[global] Arguments fragment_invalid : simpl never.
#[global] Arguments sum_lengths : simpl never.

(** The mask that a list of received indices leaves. *)
Definition mask_of (mask : Z) (received : list nat) : Z :=
  foldl (fun m i => Z.lor m (Z.shiftl 1 (Z.of_nat i))) mask received.

(** ** Lemmas *)

Lemma fragment_count_bounds n :
  0 < n -> fragment_count_of n * 6 < n + 6 /\ n <= fragment_count_of n * 6 /\ 0 < fragment_count_of n.
Proof.
  intros Hn. unfold fragment_count_of.
  pose proof (Nat.div_mod_eq (n + 5) 6). pose proof (Nat.mod_upper_bound (n + 5) 6). lia.
Qed.

Lemma fragment_length_pos n i : i < fragment_count_of n -> 1 <= fragment_length n i <= 6.
Proof.
  intros Hi. unfold fragment_length, kFragmentPayload, fragment_count_of in *.
  pose proof (Nat.div_mod_eq (n + 5) 6). pose proof (Nat.mod_upper_bound (n + 5) 6). lia.
Qed.

Lemma fragment_length_inner n i : S i < fragment_count_of n -> fragment_length n i = 6.
Proof.
  intros Hi. unfold fragment_length, kFragmentPayload, fragment_count_of in *.
  pose proof (Nat.div_mod_eq (n + 5) 6). pose proof (Nat.mod_upper_bound (n + 5) 6). lia.
Qed.

Lemma fragment_length_fits n i :
  i < fragment_count_of n -> i * 6 + fragment_length n i <= n.
Proof.
  intros Hi. pose proof (fragment_length_pos n i Hi).
  unfold fragment_length, kFragmentPayload in *. lia.
Qed.

Lemma fragment_length_last n :
  0 < n -> (fragment_count_of n - 1) * 6 + fragment_length n (fragment_count_of n - 1) = n.
Proof.
  intros Hn. pose proof (fragment_count_bounds n Hn).
  unfold fragment_length, kFragmentPayload. lia.
Qed.

Lemma fragment_slice_length payload i :
  i < fragment_count_of (length payload) ->
  length (fragment_slice payload i) = fragment_length (length payload) i.
Proof. intros Hi. apply subspan_length. by apply fragment_length_fits. Qed.

Lemma fragment_slice_lookup payload i j :
  j < fragment_length (length payload) i ->
  fragment_slice payload i !! j = payload !! (i * 6 + j).
Proof. intros Hj. unfold fragment_slice, kFragmentPayload. by apply subspan_lookup. Qed.

Lemma fragment_slice_bytes payload i :
  Forall is_byte payload -> Forall is_byte (fragment_slice payload i).
Proof. apply subspan_Forall. Qed.

Lemma fragment_byte_fields count index :
  (1 <= count <= 16)%Z -> (0 <= index < count)%Z ->
  is_byte (fragment_byte count index) /\
  Z.land (fragment_byte count index) 0x0f = index /\
  (Z.shiftr (fragment_byte count index) 4 + 1)%Z = count.
Proof.
  intros Hc Hi. unfold fragment_byte.
  rewrite Z.lor_comm, lor_shiftl_add by lia. rewrite u8_small by lia.
  unfold is_byte. change 0x0f%Z with (Z.ones 4).
  rewrite Z.land_ones, Z.shiftr_div_pow2 by lia.
  rewrite Z.mod_add, Z.div_add, Z.mod_small, Z.div_small by lia. lia.
Qed.

Lemma fragment_invalid_false max index count len :
  fragment_invalid max index count len = false -> (0 <= index)%Z ->
  (0 <= index < count)%Z /\ (1 <= count <= 16)%Z /\ 1 <= len <= 6 /\
  ((index + 1 < count)%Z -> len = 6) /\ (count * 6 <= Z.of_nat max + 5)%Z.
Proof.
  unfold fragment_invalid. intros H Hi. bool_hyps.
  split_and!; try lia. intros Hlt.
  match goal with H : (_ && _)%bool = false |- _ => apply andb_false_iff in H as [H|H] end;
  bool_hyps; lia.
Qed.

Lemma fragment_valid max payload_size i :
  i < fragment_count_of payload_size -> payload_size <= max ->
  fragment_count_of payload_size <= 16 ->
  fragment_invalid max (Z.of_nat i) (Z.of_nat (fragment_count_of payload_size))
    (fragment_length payload_size i) = false.
Proof.
  intros Hi Hmax H16. pose proof (fragment_length_pos payload_size i Hi).
  assert (0 < payload_size) as Hpos.
  { destruct payload_size; [by vm_compute in Hi; lia|lia]. }
  pose proof (fragment_count_bounds payload_size Hpos) as (? & ? & _).
  unfold fragment_invalid. solve_guard; try lia.
  apply andb_false_iff. destruct (decide (S i < fragment_count_of payload_size)).
  - right. solve_guard. by apply fragment_length_inner.
  - left. solve_guard. lia.
Qed.

(** The frame a codec builds: two header bytes and the slice behind them. *)
Lemma frame_data_lookup b0 b1 slice n :
  length slice <= 6 -> n = length slice ->
  let d := copy_into 2 slice (<[1 := b1]> (<[0 := b0]> (zeros 8))) in
  d !! 0 = Some b0 /\ d !! 1 = Some b1 /\ subspan 2 n d = slice /\ length d = 8.
Proof.
  intros Hs -> d. assert (length d = 8) as Hd by (unfold d; by autorewrite with aster).
  assert (forall j, d !! j = if decide (2 <= j < 2 + length slice) then slice !! (j - 2)
            else (<[1 := b1]> (<[0 := b0]> (zeros 8))) !! j) as Hl.
  { intros j. unfold d. apply lookup_copy_into. autorewrite with aster. lia. }
  split_and!; [by rewrite Hl|by rewrite Hl| |done].
  apply list_eq. intros j. destruct (decide (j < length slice)).
  - rewrite subspan_lookup, Hl, decide_True by lia. f_equal. lia.
  - rewrite !lookup_ge_None_2; [done|lia|]. rewrite subspan_length by lia. lia.
Qed.

Lemma frame_data_bytes b0 b1 slice :
  is_byte b0 -> is_byte b1 -> Forall is_byte slice ->
  Forall is_byte (copy_into 2 slice (<[1 := b1]> (<[0 := b0]> (zeros 8)))).
Proof.
  intros. apply copy_into_bytes; [done|].
  do 2 (apply Forall_insert; [|done]). apply zeros_bytes.
Qed.

Lemma sum_lengths_S lengths k len :
  lengths !! k = Some len -> sum_lengths lengths (S k) = sum_lengths lengths k + Z.to_nat len.
Proof.
  intros Hk. unfold sum_lengths. rewrite (take_S_r _ _ _ Hk), sum_list_with_app. cbn. lia.
Qed.

Lemma sum_lengths_inner lengths n :
  (forall i, i < n -> lengths !! i = Some 6%Z) -> sum_lengths lengths n = n * 6.
Proof.
  induction n as [|n IH]; intros H; [done|].
  rewrite (sum_lengths_S _ _ 6) by (apply H; lia). rewrite IH by (intros; apply H; lia). lia.
Qed.

(** The total of a complete message: full fragments and a last one. *)
Lemma sum_lengths_last lengths n len :
  (forall i, i < n -> lengths !! i = Some 6%Z) -> lengths !! n = Some len ->
  sum_lengths lengths (S n) = n * 6 + Z.to_nat len.
Proof. intros Hi Hn. by rewrite (sum_lengths_S _ _ _ Hn), sum_lengths_inner. Qed.

(** ** Lemmas: safety *)

Lemma fragments_safe_start max count lengths :
  (1 <= count <= 16)%Z -> (count * 6 <= Z.of_nat max + 5)%Z -> fragments_safe max count 0 lengths.
Proof.
  intros. split_and!; try lia. intros i _ Hb. by rewrite Z.bits_0 in Hb.
Qed.

Lemma fragments_safe_add max count mask lengths index len :
  fragments_safe max count mask lengths ->
  (0 <= index < count)%Z -> (1 <= len <= 6)%Z -> length lengths = 16 ->
  (index * 6 + len <= Z.of_nat max)%Z -> ((index + 1 < count)%Z -> len = 6%Z) ->
  fragments_safe max count (Z.lor mask (Z.shiftl 1 index)) (<[Z.to_nat index := len]> lengths).
Proof.
  intros (Hc & Hm & Hr & Hs) Hi Hl Hlen Hfit Hin.
  do 2 (split; [lia|]). split; [by apply lor_bit_range|].
  intros i Hic Hb. rewrite testbit_lor_shiftl_1 in Hb by lia.
  destruct (Z.eqb_spec index (Z.of_nat i)) as [->|Hne].
  - exists len. rewrite Nat2Z.id, list_lookup_insert_eq by lia. auto.
  - rewrite orb_false_r in Hb. rewrite list_lookup_insert_ne by lia. auto.
Qed.

Lemma fragments_safe_total max count mask lengths :
  fragments_safe max count mask lengths -> mask = (Z.shiftl 1 count - 1)%Z ->
  1 <= sum_lengths lengths (Z.to_nat count) <= max.
Proof.
  intros (Hc & Hm & Hr & Hs) Hfull.
  pose proof (proj1 (full_mask_iff mask count ltac:(lia) Hr) Hfull) as Hbits.
  destruct (Hs (Z.to_nat count - 1)) as (len & Hl & Hb & Hf & _); [lia|apply Hbits; lia|].
  replace (Z.to_nat count) with (S (Z.to_nat count - 1)) by lia.
  rewrite (sum_lengths_last _ _ len); [lia| |done].
  intros i Hi. destruct (Hs i) as (l & Hli & _ & _ & H6); [lia|apply Hbits; lia|].
  by rewrite Hli, H6 by lia.
Qed.

(** ** Lemmas: contents *)

Lemma collected_start payload lengths buffer : collected payload 0 lengths buffer.
Proof. intros i _ Hb. by rewrite Z.bits_0 in Hb. Qed.

Lemma collected_add payload mask lengths buffer index :
  collected payload mask lengths buffer ->
  index < fragment_count_of (length payload) -> fragment_count_of (length payload) <= 16 ->
  length payload <= length buffer -> length lengths = 16 ->
  collected payload (Z.lor mask (Z.shiftl 1 (Z.of_nat index)))
    (<[index := Z.of_nat (fragment_length (length payload) index)]> lengths)
    (copy_into (index * 6) (fragment_slice payload index) buffer).
Proof.
  intros Hc Hi H16 Hbuf Hlen i Hic Hb. rewrite testbit_lor_shiftl_1 in Hb by lia.
  pose proof (fragment_length_fits _ _ Hi). pose proof (fragment_slice_length _ _ Hi) as Hsl.
  assert (forall j, copy_into (index * 6) (fragment_slice payload index) buffer !! j =
    if decide (index * 6 <= j < index * 6 + fragment_length (length payload) index)
    then payload !! j else buffer !! j) as Hcp.
  { intros j. rewrite lookup_copy_into by lia. rewrite Hsl. destruct (decide _); [|done].
    rewrite fragment_slice_lookup by lia. f_equal. lia. }
  destruct (decide (index = i)) as [->|Hne].
  - split; [by rewrite list_lookup_insert_eq by lia|].
    intros j Hj. by rewrite Hcp, decide_True by lia.
  - assert (Z.testbit mask (Z.of_nat i) = true) as Hbi.
    { apply orb_true_iff in Hb as [?|?%Z.eqb_eq]; [done|lia]. }
    destruct (Hc i Hic Hbi) as [Hl Hj]. split; [by rewrite list_lookup_insert_ne|].
    intros j Hjl. rewrite Hcp, decide_False; [by apply Hj|].
    pose proof (fragment_length_pos _ _ Hic). pose proof (fragment_length_pos _ _ Hi). lia.
Qed.

Lemma collected_full payload mask lengths buffer :
  collected payload mask lengths buffer -> 0 < length payload -> length payload <= length buffer ->
  mask = (Z.shiftl 1 (Z.of_nat (fragment_count_of (length payload))) - 1)%Z ->
  sum_lengths lengths (fragment_count_of (length payload)) = length payload /\
  take (length payload) buffer = payload.
Proof.
  intros Hc Hp Hb ->. pose proof (fragment_count_bounds _ Hp) as (H1 & H2 & H3).
  assert (forall i, i < fragment_count_of (length payload) ->
    Z.testbit (Z.shiftl 1 (Z.of_nat (fragment_count_of (length payload))) - 1) (Z.of_nat i) = true)
    as Hbits.
  { intros i Hi. rewrite Z.shiftl_1_l.
    replace (2 ^ Z.of_nat _ - 1)%Z with (Z.ones (Z.of_nat (fragment_count_of (length payload))))
      by (rewrite Z.ones_equiv; lia).
    apply Z.ones_spec_low. lia. }
  split.
  - pose proof (fragment_length_last _ Hp) as Hlast.
    replace (fragment_count_of (length payload)) with (S (fragment_count_of (length payload) - 1)) at 1 by lia.
    erewrite sum_lengths_last; cycle 1.
    + intros i Hi. destruct (Hc i) as [Hl _]; [lia|by apply Hbits; lia|].
      rewrite Hl, fragment_length_inner by lia. done.
    + apply Hc; [lia|]. apply Hbits. lia.
    + lia.
  - apply list_eq. intros k. destruct (decide (k < length payload)) as [Hk|].
    + rewrite lookup_take_lt by done. pose proof (Nat.div_mod_eq k 6).
      pose proof (Nat.mod_upper_bound k 6).
      assert (k / 6 < fragment_count_of (length payload)) as Hi.
      { apply Nat.Div0.div_lt_upper_bound. lia. }
      destruct (Hc (k / 6) Hi (Hbits _ Hi)) as [_ Hj].
      specialize (Hj (k mod 6)). replace (k / 6 * 6 + k mod 6) with k in Hj by lia.
      apply Hj. unfold fragment_length, kFragmentPayload. lia.
    + rewrite !lookup_ge_None_2; [done|lia|rewrite length_take; lia].
Qed.

(** ** Lemmas: masks *)

Local Open Scope Z_scope.

Lemma mask_of_testbit received mask (j : nat) :
  Z.testbit (mask_of mask received) (Z.of_nat j) = true <->
  Z.testbit mask (Z.of_nat j) = true \/ j ∈ received.
Proof.
  revert mask. induction received as [|i l IH]; intros mask; cbn [mask_of foldl].
  - rewrite elem_of_nil. tauto.
  - unfold mask_of in IH. rewrite IH, testbit_lor_shiftl_1, orb_true_iff, Z.eqb_eq by lia.
    rewrite elem_of_cons. intuition lia.
Qed.

Lemma mask_of_range (n : nat) received mask :
  0 <= mask < 2 ^ Z.of_nat n -> Forall (fun i => (i < n)%nat) received ->
  0 <= mask_of mask received < 2 ^ Z.of_nat n.
Proof.
  intros Hm Hl. revert mask Hm. induction Hl as [|i l Hi _ IH]; intros mask Hm; [done|].
  apply IH, lor_bit_range; [lia|done].
Qed.

(** A mask is full exactly when every index has been received. *)
Lemma mask_of_full (n : nat) received :
  Forall (fun i => (i < n)%nat) received ->
  mask_of 0 received = Z.shiftl 1 (Z.of_nat n) - 1 <-> (forall j, (j < n)%nat -> j ∈ received).
Proof.
  intros Hl. rewrite full_mask_iff; [|lia|apply mask_of_range; [lia|done]]. split.
  - intros H j Hj. destruct (proj1 (mask_of_testbit received 0 j) (H (Z.of_nat j) ltac:(lia)))
      as [Hb|]; [by rewrite Z.bits_0 in Hb|done].
  - intros H k Hk. rewrite <- (Z2Nat.id k) by lia. apply mask_of_testbit. right. apply H. lia.
Qed.

