(* ===== verification/FastPath.v ===== *)
(** The fast (best-effort) CAN path of [transport/can/fast_path.hpp]: the codec
    that cuts a message into frames and the reassembler on the other side. *)

From S2P Require Export Fragments.

Local Open Scope Z_scope.

(** ** [FastCodec] *)
Module FastCodec.

(** The frame of a payload of at most seven bytes. *)
Definition single_frame (arb sequence : Z) (payload : list Z) : CanFrame :=
  CanFrame_default
    <| arbitration_id := arb |>
    <| size := u8 (Z.of_nat (length payload) + 1) |>
    <| data := copy_into 1 payload (<[0%nat := u8 sequence]> (zeros 8)) |>.

(** The body of the fragmentation loop for one [index]. *)
Definition fragment_frame (arb sequence : Z) (payload : list Z) (count index : nat) : CanFrame :=
  let offset := (index * kFragmentPayload)%nat in
  let len := Nat.min kFragmentPayload (length payload - offset) in
  CanFrame_default
    <| arbitration_id := arb |>
    <| size := u8 (Z.of_nat len + 2) |>
    <| data := copy_into 2 (subspan offset len payload)
         (<[1%nat := u8 (Z.lor (Z.shiftl (u8 (Z.of_nat count) - 1) 4) (u8 (Z.of_nat index)))]>
           (<[0%nat := u8 (Z.lor 0x40 sequence)]> (zeros 8))) |>.

(** [for (index; remaining iterations; ++index) output[index] = frame;] *)
Fixpoint fragment_loop (arb sequence : Z) (payload : list Z) (count index remaining : nat)
    (output : list CanFrame) : list CanFrame :=
  match remaining with
  | O => output
  | S remaining =>
      fragment_loop arb sequence payload count (S index) remaining
        (<[index := fragment_frame arb sequence payload count index]> output)
  end.

(** Status, output frames and [frame_count]. *)
Definition Encode (route_id : Z) (p : CanPriority) (sequence : Z) (payload : list Z)
    (output : list CanFrame) : Status * list CanFrame * nat :=
  if (0x3f <? sequence) || (length payload =? 0)%nat then (kInvalidArgument, output, 0%nat)
  else
    let '(status, arb) := CanArbitrationId_Encode p route_id in
    if negb (IsOk status) then (status, output, 0%nat)
    else if (length payload <=? 7)%nat then
      if (length output =? 0)%nat then (kCapacityExceeded, output, 0%nat)
      else (kOk, <[0%nat := single_frame arb sequence payload]> output, 1%nat)
    else
      let count := ((length payload + kFragmentPayload - 1) / kFragmentPayload)%nat in
      if (16 <? count)%nat || (length output <? count)%nat then (kCapacityExceeded, output, 0%nat)
      else (kOk, fragment_loop arb sequence payload count 0 count output, count).

#[global] Arguments Encode : simpl never.

(** ** Lemmas *)

Lemma fragment_loop_output arb sequence payload count n i written rest :
  length written = i -> (n <= length rest)%nat ->
  fragment_loop arb sequence payload count i n (written ++ rest) =
    written ++ (fragment_frame arb sequence payload count <$> seq i n) ++ drop n rest.
Proof.
  revert i written rest. induction n as [|n IH]; intros i written rest Hd Hr; [done|].
  destruct rest as [|x rest]; cbn in Hr; [lia|]. cbn [fragment_loop seq drop].
  rewrite fmap_cons, insert_app_r_alt, Hd, Nat.sub_diag by lia. cbn [list_insert insert].
  specialize (IH (S i) (written ++ [fragment_frame arb sequence payload count i]) rest).
  rewrite <- !app_assoc in IH. apply IH; [rewrite length_app; cbn; lia|lia].
Qed.

(** The cases of [Encode] that produce frames. *)
Lemma Encode_single route p sequence payload output arb :
  0 <= sequence <= 0x3f -> (1 <= length payload <= 7)%nat -> (1 <= length output)%nat ->
  CanArbitrationId_Encode p route = (kOk, arb) ->
  Encode route p sequence payload output =
    (kOk, single_frame arb sequence payload :: drop 1 output, 1%nat).
Proof.
  intros Hs Hp Ho Ha. unfold Encode.
  guard_false ((63 <? sequence) || (length payload =? 0)%nat)%bool. rewrite Ha. cbn [negb IsOk].
  guard_true (length payload <=? 7)%nat. guard_false (length output =? 0)%nat.
  by destruct output; [cbn in Ho; lia|].
Qed.

Lemma Encode_fragments route p sequence payload output arb :
  0 <= sequence <= 0x3f -> (8 <= length payload)%nat ->
  (fragment_count_of (length payload) <= 16)%nat ->
  (fragment_count_of (length payload) <= length output)%nat ->
  CanArbitrationId_Encode p route = (kOk, arb) ->
  let n := fragment_count_of (length payload) in
  Encode route p sequence payload output =
    (kOk, (fragment_frame arb sequence payload n <$> seq 0 n) ++ drop n output, n).
Proof.
  intros Hs Hp Hc Ho Ha n. unfold Encode.
  guard_false ((63 <? sequence) || (length payload =? 0)%nat)%bool. rewrite Ha. cbn [negb IsOk].
  guard_false (length payload <=? 7)%nat.
  replace ((length payload + kFragmentPayload - 1) / kFragmentPayload)%nat with n
    by (unfold n, fragment_count_of, kFragmentPayload; f_equal; lia).
  cbn zeta. guard_false ((16 <? n)%nat || (length output <? n)%nat)%bool.
  by rewrite (fragment_loop_output _ _ _ _ n 0 [] output).
Qed.

End FastCodec.

(** ** [FastReassembler] *)
Module FastReassembler.

Record FastReassemblyStats := MkStats {
  accepted_frames : Z;
  completed : Z;
  invalid : Z;
  duplicate_fragments : Z;
  replayed_frames : Z;
  stale_frames : Z;
  superseded : Z;
  sequence_gaps : Z
}.
#[global] Instance eta_stats : Eta FastReassemblyStats := fun r =>
  MkStats (accepted_frames r) (completed r) (invalid r) (duplicate_fragments r)
    (replayed_frames r) (stale_frames r) (superseded r) (sequence_gaps r).

Record t := Mk {
  buffer_ : list Z;
  fragment_lengths_ : list Z;
  route_id_ : Z;
  last_route_id_ : Z;
  received_mask_ : Z;
  sequence_ : Z;
  fragment_count_ : Z;
  last_sequence_ : Z;
  active_ : bool;
  has_last_sequence_ : bool;
  stats_ : FastReassemblyStats
}.
#[global] Instance eta_t : Eta t := fun r =>
  Mk (buffer_ r) (fragment_lengths_ r) (route_id_ r) (last_route_id_ r) (received_mask_ r)
    (sequence_ r) (fragment_count_ r) (last_sequence_ r) (active_ r) (has_last_sequence_ r)
    (stats_ r).

Section MaximumPayload.
Context (MaximumPayload : nat).

(** The default-constructed reassembler. *)
Definition init : t :=
  Mk (zeros MaximumPayload) (zeros 16) 0 0 0 0 0 0 false false (MkStats 0 0 0 0 0 0 0 0).

Definition Reset (r : t) : t :=
  r <| active_ := false |> <| received_mask_ := 0 |> <| fragment_count_ := 0 |>.

Definition Invalid (r : t) : Status * ReassembledMessage * t :=
  (kInvalidArgument, ReassembledMessage_default, r <| stats_ := bump invalid (stats_ r) |>).

Definition SupersedeActive (r : t) : t :=
  Reset (if active_ r then r <| stats_ := bump superseded (stats_ r) |> else r).

(** [(uint8)((uint8)(sequence - from)) & 0x3f]. *)
Definition sequence_distance (sequence from : Z) : Z := Z.land (u8 (sequence - from)) 0x3f.

(** The second half of [PrepareSequence], reached when no active message blocks
    the new one. *)
Definition PrepareSequence_completed (route_id sequence : Z) (r : t) : Status * t :=
  if negb (has_last_sequence_ r) || negb (last_route_id_ r =? route_id) then (kOk, r)
  else
    let completed_distance := sequence_distance sequence (last_sequence_ r) in
    if completed_distance =? 0 then
      (kUnavailable, r <| stats_ := bump replayed_frames (stats_ r) |>)
    else if 31 <? completed_distance then
      (kUnavailable, r <| stats_ := bump stale_frames (stats_ r) |>)
    else (kOk, r).

Definition PrepareSequence (route_id sequence : Z) (continuing_fragment_allowed : bool) (r : t)
    : Status * t :=
  if active_ r then
    if negb (route_id =? route_id_ r) then
      PrepareSequence_completed route_id sequence (SupersedeActive r)
    else if sequence =? sequence_ r then
      if continuing_fragment_allowed then (kOk, r)
      else (kUnavailable, r <| stats_ := bump replayed_frames (stats_ r) |>)
    else
      let active_distance := sequence_distance sequence (sequence_ r) in
      if 31 <? active_distance then
        (kUnavailable, r <| stats_ := bump stale_frames (stats_ r) |>)
      else PrepareSequence_completed route_id sequence (SupersedeActive r)
  else PrepareSequence_completed route_id sequence r.

Definition Complete (route_id sequence : Z) (sz : nat) (r : t) : ReassembledMessage * t :=
  let r :=
    if has_last_sequence_ r && (last_route_id_ r =? route_id) then
      let expected := u8 (Z.land (last_sequence_ r + 1) 0x3f) in
      if negb (sequence =? expected) then r <| stats_ := bump sequence_gaps (stats_ r) |> else r
    else r in
  let r := r <| has_last_sequence_ := true |> <| last_route_id_ := route_id |>
             <| last_sequence_ := sequence |> in
  (MkReassembledMessage route_id sequence (take sz (buffer_ r)),
   r <| stats_ := bump completed (stats_ r) |>).

(** The [kFastSingle] branch of [Accept]. *)
Definition Accept_single (id : DecodedArbitrationId) (frame : CanFrame) (sequence : Z) (r : t)
    : Status * ReassembledMessage * t :=
  let len := Z.to_nat (size frame - 1) in
  if (MaximumPayload <? len)%nat then Invalid r
  else
    let '(sequence_status, r) := PrepareSequence (id_route id) sequence false r in
    if negb (IsOk sequence_status) then (sequence_status, ReassembledMessage_default, r)
    else
      let r := r <| buffer_ := copy_into 0 (subspan 1 len (data frame)) (buffer_ r) |> in
      let '(message, r) := Complete (id_route id) sequence len r in
      (kOk, message, r <| stats_ := bump accepted_frames (stats_ r) |>).

(** The [kFastFragment] branch from the point where the fragment belongs to the
    active message. *)
Definition Accept_store (frame : CanFrame) (index count : Z) (len : nat) (r : t)
    : Status * ReassembledMessage * t :=
  let bit := u16 (Z.shiftl 1 index) in
  if negb (Z.land (received_mask_ r) bit =? 0) then
    (kUnavailable, ReassembledMessage_default,
     r <| stats_ := bump duplicate_fragments (stats_ r) |>)
  else
    let offset := (Z.to_nat index * 6)%nat in
    if (MaximumPayload <? offset + len)%nat then Invalid (Reset r)
    else
      let r := r
        <| buffer_ := copy_into offset (subspan 2 len (data frame)) (buffer_ r) |>
        <| fragment_lengths_ := <[Z.to_nat index := u8 (Z.of_nat len)]> (fragment_lengths_ r) |>
        <| received_mask_ := u16 (Z.lor (received_mask_ r) bit) |> in
      let r := r <| stats_ := bump accepted_frames (stats_ r) |> in
      let expected_mask := u16 (Z.shiftl 1 count - 1) in
      if negb (received_mask_ r =? expected_mask) then
        (kUnavailable, ReassembledMessage_default, r)
      else
        let total := sum_lengths (fragment_lengths_ r) (Z.to_nat count) in
        let '(message, r) := Complete (route_id_ r) (sequence_ r) total r in
        (kOk, message, Reset r).

Definition Accept_fragment (id : DecodedArbitrationId) (frame : CanFrame) (sequence : Z) (r : t)
    : Status * ReassembledMessage * t :=
  let fragment := byte_at (data frame) 1 in
  let index := u8 (Z.land fragment 0x0f) in
  let count := u8 (Z.shiftr fragment 4 + 1) in
  let len := Z.to_nat (size frame - 2) in
  if fragment_invalid MaximumPayload index count len then Invalid r
  else if negb (active_ r) || negb (route_id_ r =? id_route id) || negb (sequence_ r =? sequence)
  then
    let '(sequence_status, r) := PrepareSequence (id_route id) sequence true r in
    if negb (IsOk sequence_status) then (sequence_status, ReassembledMessage_default, r)
    else
      Accept_store frame index count len
        (r <| active_ := true |> <| route_id_ := id_route id |> <| sequence_ := sequence |>
           <| fragment_count_ := count |> <| received_mask_ := 0 |>
           <| fragment_lengths_ := zeros 16 |>)
  else if negb (fragment_count_ r =? count) then Invalid (Reset r)
  else Accept_store frame index count len r.

Definition Accept (frame : CanFrame) (r : t) : Status * ReassembledMessage * t :=
  match CanArbitrationId_Decode (arbitration_id frame) with
  | None => Invalid r
  | Some id =>
      if (size frame =? 0) || (8 <? size frame) then Invalid r
      else
        let header := byte_at (data frame) 0 in
        let kind := GetFrameKind header in
        let sequence := u8 (Z.land header 0x3f) in
        if bool_decide (kind = kFastSingle) then Accept_single id frame sequence r
        else if negb (bool_decide (kind = kFastFragment)) || (size frame <? 3) then Invalid r
        else Accept_fragment id frame sequence r
  end.

Definition ResetHistory (r : t) : t :=
  Reset r <| has_last_sequence_ := false |> <| last_route_id_ := 0 |> <| last_sequence_ := 0 |>.

(** Feeding a list of frames: the outcome of each call and the final state. *)
Fixpoint Accept_all (frames : list CanFrame) (r : t)
    : list (Status * ReassembledMessage) * t :=
  match frames with
  | [] => ([], r)
  | frame :: rest =>
      let '(status, message, r) := Accept frame r in
      let '(outcomes, r) := Accept_all rest r in
      ((status, message) :: outcomes, r)
  end.

#[global] Arguments FastCodec.single_frame : simpl never.
#[global] Arguments FastCodec.fragment_frame : simpl never.
#[global] Arguments Complete : simpl never.
#[global] Arguments PrepareSequence : simpl never.
#[global] Arguments Accept_store : simpl never.
#[global] Arguments Accept : simpl never.

(** ** Invariant *)

(** A completed message constrains the next one of its route. *)
Definition fresh_after_last (r : t) (route sequence : Z) : Prop :=
  has_last_sequence_ r = true -> last_route_id_ r = route ->
  1 <= sequence_distance sequence (last_sequence_ r) <= 31.

(** The record of the last completed message. *)
Definition same_last (r r' : t) : Prop :=
  has_last_sequence_ r' = has_last_sequence_ r /\ last_route_id_ r' = last_route_id_ r /\
  last_sequence_ r' = last_sequence_ r.

Record wf (r : t) : Prop := {
  wf_buffer : length (buffer_ r) = MaximumPayload;
  wf_lengths : length (fragment_lengths_ r) = 16%nat;
  wf_active : active_ r = true ->
    fragments_safe MaximumPayload (fragment_count_ r) (received_mask_ r) (fragment_lengths_ r) /\
    fresh_after_last r (route_id_ r) (sequence_ r)
}.

(** The operations of the reassembler and the states they reach. *)
Inductive step : t -> t -> Prop :=
  | step_Accept frame r status message r' :
      Accept frame r = (status, message, r') -> step r r'
  | step_ResetHistory r : step r (ResetHistory r).

(** ** Lemmas: invariant *)

Lemma sequence_distance_range s f : 0 <= sequence_distance s f <= 63.
Proof.
  unfold sequence_distance. rewrite land_3f. pose proof (Z.mod_pos_bound (u8 (s - f)) 64). lia.
Qed.

Lemma fast_wf_init : wf init.
Proof. split; cbn; [apply length_replicate|done|done]. Qed.

Lemma fast_wf_stats r s : wf r -> wf (r <| stats_ := s |>).
Proof. intros [Hb Hl Ha]. split; cbn; done. Qed.

Lemma fast_wf_Reset r : wf r -> wf (Reset r).
Proof. intros [Hb Hl Ha]. split; cbn; done. Qed.

Lemma wf_SupersedeActive r : wf r -> wf (SupersedeActive r).
Proof. intros. apply fast_wf_Reset. split_if; [by apply fast_wf_stats|done]. Qed.

(** A passed [PrepareSequence_completed] leaves the state alone and the sequence
    admissible; a failed one only counts. *)
Lemma PrepareSequence_completed_spec route sequence r st r' :
  PrepareSequence_completed route sequence r = (st, r') ->
  (st = kOk /\ r' = r /\ fresh_after_last r route sequence) \/
  (st = kUnavailable /\ exists s, r' = r <| stats_ := s |>).
Proof.
  unfold PrepareSequence_completed, fresh_after_last.
  pose proof (sequence_distance_range sequence (last_sequence_ r)).
  destruct (_ || _)%bool eqn:E.
  - intros [= <- <-]. left. split_and!; try done. intros H1 H2.
    apply orb_true_iff in E as [E|E]; bool_hyps; congruence.
  - bool_hyps. split_if; [|split_if]; intros [= <- <-]; bool_hyps; eauto.
    left. split_and!; try done; intros; lia.
Qed.

Lemma PrepareSequence_completed_fresh route sequence r :
  fresh_after_last r route sequence -> PrepareSequence_completed route sequence r = (kOk, r).
Proof.
  intros Hfresh. unfold PrepareSequence_completed.
  destruct (has_last_sequence_ r) eqn:Eh; [|done].
  destruct (Z.eqb_spec (last_route_id_ r) route) as [El|]; [|done]. cbn [negb orb].
  specialize (Hfresh Eh El). repeat (split_if; bool_hyps; [lia|]). done.
Qed.

(** What a passed check gives: an idle reassembler with an admissible sequence,
    or the active message itself. *)
Lemma PrepareSequence_spec route sequence cont r st r' :
  PrepareSequence route sequence cont r = (st, r') -> wf r ->
  wf r' /\ buffer_ r' = buffer_ r /\
  has_last_sequence_ r' = has_last_sequence_ r /\ last_route_id_ r' = last_route_id_ r /\
  last_sequence_ r' = last_sequence_ r /\
  (st = kOk \/ st = kUnavailable) /\
  (st = kOk ->
    (active_ r' = false /\ fresh_after_last r' route sequence) \/
    (cont = true /\ active_ r = true /\ route = route_id_ r /\ sequence = sequence_ r)).
Proof.
  intros H Hwf. unfold PrepareSequence in H.
  assert (forall q, wf q -> buffer_ q = buffer_ r -> active_ q = false ->
    has_last_sequence_ q = has_last_sequence_ r -> last_route_id_ q = last_route_id_ r ->
    last_sequence_ q = last_sequence_ r ->
    PrepareSequence_completed route sequence q = (st, r') -> 
    wf r' /\ buffer_ r' = buffer_ r /\
    has_last_sequence_ r' = has_last_sequence_ r /\ last_route_id_ r' = last_route_id_ r /\
    last_sequence_ r' = last_sequence_ r /\ (st = kOk \/ st = kUnavailable) /\
    (st = kOk -> (active_ r' = false /\ fresh_after_last r' route sequence) \/
      (cont = true /\ active_ r = true /\ route = route_id_ r /\ sequence = sequence_ r)))
    as Hcompleted.
  { intros q Hq Hb Ha H1 H2 H3 [(-> & -> & Hf)|(-> & s & ->)]%PrepareSequence_completed_spec.
    - split_and!; auto.
    - split_and!; auto; [by apply fast_wf_stats|done]. }
  destruct (active_ r) eqn:Ha; [|by eapply Hcompleted].
  split_if_in H; [eapply Hcompleted in H; try done; by apply wf_SupersedeActive || by cbn; destruct (active_ r)|].
  split_if_in H; [split_if_in H|split_if_in H].
  - injection H as <- <-. bool_hyps. split_and!; auto.
  - injection H as <- <-. split_and!; auto; [by apply fast_wf_stats|done].
  - injection H as <- <-. split_and!; auto; [by apply fast_wf_stats|done].
  - eapply Hcompleted in H; try done; by apply wf_SupersedeActive || by cbn; destruct (active_ r).
Qed.

Lemma fresh_after_last_ext r r' route sequence :
  has_last_sequence_ r' = has_last_sequence_ r -> last_route_id_ r' = last_route_id_ r ->
  last_sequence_ r' = last_sequence_ r ->
  fresh_after_last r' route sequence -> fresh_after_last r route sequence.
Proof. unfold fresh_after_last. by intros -> -> ->. Qed.

(** [Complete] publishes a prefix of the buffer, records the sequence and counts. *)
Lemma Complete_spec route sequence sz r :
  exists s, Complete route sequence sz r =
    (MkReassembledMessage route sequence (take sz (buffer_ r)),
     r <| has_last_sequence_ := true |> <| last_route_id_ := route |>
       <| last_sequence_ := sequence |> <| stats_ := s |>).
Proof.
  unfold Complete. split_if; [|by eexists]. split_if; by eexists.
Qed.

(** Storing a fragment of the active message keeps the invariant; a completed
    message is the active one and lies inside the buffer. *)
Lemma fast_Accept_store_spec frame index count len r st message r' :
  Accept_store frame index count len r = (st, message, r') ->
  wf r -> active_ r = true -> fragment_count_ r = count ->
  fragment_invalid MaximumPayload index count len = false -> 0 <= index ->
  wf r' /\ (length (msg_payload message) <= MaximumPayload)%nat /\
  (st <> kOk -> message = ReassembledMessage_default /\ same_last r r') /\
  (st = kOk ->
     fresh_after_last r (msg_route message) (msg_sequence message) /\
     has_last_sequence_ r' = true /\ last_route_id_ r' = msg_route message /\
     last_sequence_ r' = msg_sequence message /\
     length (msg_payload message) = sum_lengths (fragment_lengths_ r') (Z.to_nat count)).
Proof.
  intros H Hwf Hact Hcount Hinv Hi0.
  apply fragment_invalid_false in Hinv as (Hi & Hc & Hlen & Hinner & Hmax); [|done].
  destruct Hwf as [Hb Hl Ha]. destruct (Ha Hact) as [Hsafe Hfresh].
  rewrite Hcount in Hsafe. pose proof Hsafe as (_ & _ & Hmask & _).
  unfold Accept_store in H. rewrite u16_bit, u16_full_mask in H by lia.
  split_if_in H.
  { injection H as <- <- <-. split_and!; cbn; [|lia|done|done]. split; cbn; done. }
  bool_hyps. split_if_in H.
  { injection H as <- <- <-. split_and!; cbn; [|lia|done|done]. split; cbn; done. }
  bool_hyps. cbn in H. rewrite (u16_lor_bit _ _ count), u8_small in H by lia.
  assert (fragments_safe MaximumPayload count (Z.lor (received_mask_ r) (Z.shiftl 1 index))
    (<[Z.to_nat index := Z.of_nat len]> (fragment_lengths_ r))) as Hsafe'.
  { apply fragments_safe_add; try done; try lia. }
  split_if_in H.
  { injection H as <- <- <-. split_and!; cbn; [|lia|done|done].
    split; cbn; [by rewrite copy_into_length|by rewrite length_insert|].
    rewrite Hcount. auto. }
  bool_hyps. pose proof (fragments_safe_total _ _ _ _ Hsafe' E1) as Htotal.
  match type of H with context [Complete ?a ?b ?c ?d] =>
    destruct (Complete_spec a b c d) as [stats Hc'] end.
  rewrite Hc' in H. injection H as <- <- <-. cbn in *.
  assert (forall n, (n <= MaximumPayload)%nat -> length (take n (copy_into (Z.to_nat index * 6)
    (subspan 2 len (data frame)) (buffer_ r))) = n) as Hpl.
  { intros n Hn. rewrite length_take, copy_into_length. lia. }
  rewrite Hpl by lia. split_and!; try done; try lia.
  split; cbn; [by rewrite copy_into_length|by rewrite length_insert|done].
Qed.

Lemma Accept_single_spec id frame sequence r st message r' :
  Accept_single id frame sequence r = (st, message, r') -> wf r ->
  wf r' /\ (length (msg_payload message) <= MaximumPayload)%nat /\
  (st <> kOk -> message = ReassembledMessage_default /\ same_last r r') /\
  (st = kOk ->
     fresh_after_last r (msg_route message) (msg_sequence message) /\
     has_last_sequence_ r' = true /\ last_route_id_ r' = msg_route message /\
     last_sequence_ r' = msg_sequence message).
Proof.
  unfold Accept_single. intros H Hwf. split_if_in H.
  { injection H as <- <- <-. split_and!; cbn; [by apply fast_wf_stats|lia|done|done]. }
  destruct (PrepareSequence _ _ _ _) as [ps r1] eqn:Hps.
  destruct (PrepareSequence_spec _ _ _ _ _ _ Hps Hwf) as (Hwf1 & Hb & H1 & H2 & H3 & _ & Hok).
  destruct ps; cbn in H; try (injection H as <- <- <-; split_and!; cbn; [done|lia|done|done]).
  match type of H with context [Complete ?a ?b ?c ?d] =>
    destruct (Complete_spec a b c d) as [stats Hc'] end.
  rewrite Hc' in H. injection H as <- <- <-. cbn.
  destruct (Hok eq_refl) as [[Ha Hf]|[? _]]; [|done]. destruct Hwf1 as [Hbl Hll _].
  split_and!; [split; cbn; [by rewrite copy_into_length|done|by rewrite Ha]| |done|].
  - rewrite length_take, copy_into_length. lia.
  - intros _. split_and!; try done. by eapply fresh_after_last_ext.
Qed.

Lemma Accept_fragment_spec id frame sequence r st message r' :
  Accept_fragment id frame sequence r = (st, message, r') -> wf r ->
  wf r' /\ (length (msg_payload message) <= MaximumPayload)%nat /\
  (st <> kOk -> message = ReassembledMessage_default /\ same_last r r') /\
  (st = kOk ->
     fresh_after_last r (msg_route message) (msg_sequence message) /\
     has_last_sequence_ r' = true /\ last_route_id_ r' = msg_route message /\
     last_sequence_ r' = msg_sequence message).
Proof.
  unfold Accept_fragment. intros H Hwf.
  pose proof (u8_range (Z.land (byte_at (data frame) 1) 15)) as Hi.
  split_if_in H.
  { injection H as <- <- <-. split_and!; cbn; [by apply fast_wf_stats|lia|done|done]. }
  pose proof (fragment_invalid_false _ _ _ _ E ltac:(lia)) as (_ & Hc & _ & _ & Hmax).
  split_if_in H; [|split_if_in H].
  - destruct (PrepareSequence _ _ _ _) as [ps r1] eqn:Hps.
    destruct (PrepareSequence_spec _ _ _ _ _ _ Hps Hwf) as (Hwf1 & Hb & H1 & H2 & H3 & _ & Hok).
    destruct ps; cbn in H; try (injection H as <- <- <-; split_and!; cbn; [done|lia|done|done]).
    destruct (Hok eq_refl) as [[Ha Hf]|(_ & Ha & Hr & Hs)].
    + destruct Hwf1 as [Hbl Hll _].
      apply fast_Accept_store_spec in H; cbn; try done; try lia.
      * destruct H as (? & ? & Hbad & Hk). split_and!; try done.
        { intros Hst. destruct (Hbad Hst) as [? Hlast]. unfold same_last in *. cbn in Hlast.
          by rewrite H1, H2, H3 in Hlast. }
        intros Hst. destruct (Hk Hst) as (Hf' & ? & ? & ? & _). split_and!; try done.
        by eapply fresh_after_last_ext; [..|exact Hf'].
      * split; cbn; [done|done|]. intros _.
        split; [by apply fragments_safe_start|done].
    + rewrite Ha, Hr, Hs, !Z.eqb_refl in E0. done.
  - injection H as <- <- <-.
    split_and!; [by apply (fast_wf_stats (Reset r)), fast_wf_Reset|cbn; lia|done|done].
  - bool_hyps. apply fast_Accept_store_spec in H as (? & ? & ? & Hk); try done; try lia.
    split_and!; try done. intros Hst. destruct (Hk Hst) as (? & ? & ? & ? & _). done.
Qed.

Lemma Accept_spec frame r st message r' :
  Accept frame r = (st, message, r') -> wf r ->
  wf r' /\ (length (msg_payload message) <= MaximumPayload)%nat /\
  (st <> kOk -> message = ReassembledMessage_default /\ same_last r r') /\
  (st = kOk ->
     fresh_after_last r (msg_route message) (msg_sequence message) /\
     has_last_sequence_ r' = true /\ last_route_id_ r' = msg_route message /\
     last_sequence_ r' = msg_sequence message).
Proof.
  unfold Accept. intros H Hwf.
  assert (forall st message r', Invalid r = (st, message, r') ->
    wf r' /\ (length (msg_payload message) <= MaximumPayload)%nat /\
    (st <> kOk -> message = ReassembledMessage_default /\ same_last r r') /\
    (st = kOk ->
       fresh_after_last r (msg_route message) (msg_sequence message) /\
       has_last_sequence_ r' = true /\ last_route_id_ r' = msg_route message /\
       last_sequence_ r' = msg_sequence message)) as Hinv.
  { intros ? ? ? [= <- <- <-]. split_and!; cbn; [by apply fast_wf_stats|lia|done|done]. }
  destruct (CanArbitrationId_Decode _) as [id|]; [|by apply Hinv].
  split_if_in H; [by apply Hinv|]. split_if_in H; [by eapply Accept_single_spec|].
  split_if_in H; [by apply Hinv|by eapply Accept_fragment_spec].
Qed.

Lemma fast_reachable_wf r : rtc step init r -> wf r.
Proof.
  intros H. remember init as r0. assert (wf r0) as Hwf by (subst; apply fast_wf_init). clear Heqr0.
  induction H as [|r1 r2 r3 Hs _ IH]; [done|]. apply IH.
  destruct Hs as [frame r st message r' HA|r].
  - by apply Accept_spec in HA as [? _].
  - destruct (fast_wf_Reset _ Hwf) as [Hb Hl _]. split; cbn; done.
Qed.

(** ** Lemmas: reassembly *)

Section Reassembly.
Context (p : CanPriority) (route arb sequence : Z) (payload : list Z).
Context (Hroute : 0 <= route) (Harb : CanArbitrationId_Encode p route = (kOk, arb)).
Context (Hseq : 0 <= sequence <= 0x3f) (Hbytes : Forall is_byte payload).
Context (Hfit : (length payload <= MaximumPayload)%nat).

Let n : nat := fragment_count_of (length payload).
Context (Hn : (n <= 16)%nat) (Hpos : (0 < length payload)%nat).

Let frame (i : nat) : CanFrame := FastCodec.fragment_frame arb sequence payload n i.

(** A reassembler that has some of the message's fragments and no other data. *)
Definition in_progress (r : t) : Prop :=
  wf r /\ active_ r = true /\ route_id_ r = route /\ sequence_ r = sequence /\
  fragment_count_ r = Z.of_nat n /\ 0 <= received_mask_ r < 2 ^ Z.of_nat n /\
  collected payload (received_mask_ r) (fragment_lengths_ r) (buffer_ r).

Lemma frame_fields i :
  (i < n)%nat ->
  arbitration_id (frame i) = arb /\
  size (frame i) = Z.of_nat (fragment_length (length payload) i) + 2 /\
  byte_at (data (frame i)) 0 = 64 + sequence /\
  byte_at (data (frame i)) 1 = fragment_byte (Z.of_nat n) (Z.of_nat i) /\
  subspan 2 (fragment_length (length payload) i) (data (frame i)) = fragment_slice payload i.
Proof.
  intros Hi. pose proof (fragment_length_pos (length payload) i Hi) as Hl.
  unfold frame, FastCodec.fragment_frame. cbn [arbitration_id size data set_field].
  change (Nat.min kFragmentPayload (length payload - i * kFragmentPayload))
    with (fragment_length (length payload) i).
  change (subspan (i * kFragmentPayload) (fragment_length (length payload) i) payload)
    with (fragment_slice payload i).
  destruct (frame_data_lookup (u8 (Z.lor 64 sequence))
    (u8 (Z.lor (Z.shiftl (u8 (Z.of_nat n) - 1) 4) (u8 (Z.of_nat i))))
    (fragment_slice payload i) (fragment_length (length payload) i)) as (H0 & H1 & H2 & _).
  { rewrite fragment_slice_length by done. lia. }
  { by rewrite fragment_slice_length. }
  split_and!; [done|apply u8_small; lia| | |done].
  - rewrite (byte_at_lookup _ _ _ H0), Z.lor_comm.
    pose proof (lor_shiftl_add sequence 1 6) as Hor. change (Z.shiftl 1 6) with 64 in Hor.
    rewrite Hor, u8_small by lia. lia.
  - rewrite (byte_at_lookup _ _ _ H1). by rewrite !(u8_small (Z.of_nat _)) by lia.
Qed.

Lemma frame_header :
  GetFrameKind (64 + sequence) = kFastFragment /\ u8 (Z.land (64 + sequence) 0x3f) = sequence.
Proof.
  unfold GetFrameKind. rewrite land_3f, Z.shiftr_div_pow2 by lia.
  replace ((64 + sequence) / 2 ^ 6) with 1.
  2: { apply Z.div_unique with sequence; lia. }
  split; [done|]. replace (64 + sequence) with (sequence + 1 * 64) by lia.
  rewrite Z.mod_add, Z.mod_small by lia. apply u8_small. lia.
Qed.

(** [Accept] takes such a frame to the fragment branch with the fields decoded. *)
Lemma Accept_frame i r :
  (i < n)%nat ->
  Accept (frame i) r =
    let len := fragment_length (length payload) i in
    if negb (active_ r) || negb (route_id_ r =? route) || negb (sequence_ r =? sequence) then
      let '(sequence_status, r) := PrepareSequence route sequence true r in
      if negb (IsOk sequence_status) then (sequence_status, ReassembledMessage_default, r)
      else
        Accept_store (frame i) (Z.of_nat i) (Z.of_nat n) len
          (r <| active_ := true |> <| route_id_ := route |> <| sequence_ := sequence |>
             <| fragment_count_ := Z.of_nat n |> <| received_mask_ := 0 |>
             <| fragment_lengths_ := zeros 16 |>)
    else if negb (fragment_count_ r =? Z.of_nat n) then Invalid (Reset r)
    else Accept_store (frame i) (Z.of_nat i) (Z.of_nat n) len r.
Proof.
  intros Hi. destruct (frame_fields i Hi) as (Ha & Hs & H0 & H1 & _).
  destruct (fragment_byte_fields (Z.of_nat n) (Z.of_nat i)) as (_ & Hidx & Hcnt); [lia..|].
  destruct frame_header as [Hk Hsq].
  pose proof (fragment_length_pos (length payload) i Hi) as Hl.
  pose proof (fragment_count_bounds (length payload) Hpos) as (Hb1 & Hb2 & _).
  unfold Accept. rewrite Ha, (Encode_Decode _ _ _ Hroute Harb), Hs, H0, Hk, Hsq.
  guard_false ((Z.of_nat (fragment_length (length payload) i) + 2 =? 0) ||
               (8 <? Z.of_nat (fragment_length (length payload) i) + 2))%bool.
  rewrite (bool_decide_false (kFastFragment = kFastSingle)) by done.
  rewrite (bool_decide_true (kFastFragment = kFastFragment)) by done. cbn [negb orb].
  guard_false (Z.of_nat (fragment_length (length payload) i) + 2 <? 3).
  unfold Accept_fragment. rewrite H1, Hidx, Hcnt, Hs, !u8_small by lia. cbn [id_route].
  replace (Z.to_nat (Z.of_nat (fragment_length (length payload) i) + 2 - 2))
    with (fragment_length (length payload) i) by lia.
  pose proof (fragment_valid MaximumPayload _ i Hi Hfit Hn) as Hv. fold n in Hv. by rewrite Hv.
Qed.

(** Storing one fragment of the message: unless it completes the mask, the call
    reports kUnavailable and the reassembler has one fragment more. *)
Lemma Accept_store_frame i r :
  in_progress r -> (i < n)%nat ->
  let '(st, message, r') :=
    Accept_store (frame i) (Z.of_nat i) (Z.of_nat n) (fragment_length (length payload) i) r in
  let mask' := Z.lor (received_mask_ r) (Z.shiftl 1 (Z.of_nat i)) in
  if Z.testbit (received_mask_ r) (Z.of_nat i) || negb (mask' =? Z.shiftl 1 (Z.of_nat n) - 1) then
    st = kUnavailable /\ message = ReassembledMessage_default /\
    in_progress r' /\ received_mask_ r' = mask'
  else
    st = kOk /\ message = MkReassembledMessage route sequence payload /\
    active_ r' = false /\ wf r' /\ has_last_sequence_ r' = true /\
    last_route_id_ r' = route /\ last_sequence_ r' = sequence.
Proof.
  intros (Hwf & Ha & Hr & Hs & Hc & Hm & Hcol) Hi.
  destruct (frame_fields i Hi) as (_ & _ & _ & _ & Hslice).
  pose proof (fragment_length_fits (length payload) i Hi) as Hff.
  pose proof (fragment_length_pos (length payload) i Hi) as Hfl.
  pose proof (fragment_valid MaximumPayload _ i Hi Hfit Hn) as Hinv.
  destruct (Accept_store _ _ _ _ _) as [[st message] r'] eqn:HA.
  pose proof (fast_Accept_store_spec _ _ _ _ _ _ _ _ HA Hwf Ha Hc Hinv ltac:(lia)) as (Hwf' & _ & _ & _).
  unfold Accept_store in HA. destruct Hwf as [Hb Hl _].
  rewrite u16_bit, u16_full_mask in HA by lia. rewrite Nat2Z.id in HA. cbn zeta.
  destruct (Z.testbit _ _) eqn:Hbit.
  - (* a duplicate *)
    destruct (Z.land _ _ =? 0) eqn:El; cbn in HA.
    { bool_hyps. apply land_shiftl_1 in El; [congruence|lia]. }
    assert (Z.lor (received_mask_ r) (Z.shiftl 1 (Z.of_nat i)) = received_mask_ r) as ->.
    { apply Z.bits_inj'. intros k Hk. rewrite testbit_lor_shiftl_1 by lia.
      destruct (Z.eqb_spec (Z.of_nat i) k) as [<-|]; [by rewrite Hbit|by rewrite orb_false_r]. }
    injection HA as <- <- <-. done.
  - apply land_shiftl_1 in Hbit; [|lia]. rewrite Hbit in HA. cbn [negb Z.eqb orb] in HA |- *.
    rewrite Hslice, u8_small in HA by lia.
    assert ((MaximumPayload <? i * 6 + fragment_length (length payload) i)%nat = false) as Hg
      by (solve_guard; lia).
    rewrite Hg in HA. cbn in HA. rewrite (u16_lor_bit _ _ (Z.of_nat n)) in HA by lia.
    pose proof (collected_add payload (received_mask_ r) (fragment_lengths_ r) (buffer_ r) i
      Hcol Hi Hn ltac:(lia) Hl) as Hcol'.
    pose proof (lor_bit_range (received_mask_ r) (Z.of_nat i) (Z.of_nat n) ltac:(lia) Hm) as Hm'.
    destruct (_ =? _) eqn:Efull; cbn in HA.
    + bool_hyps.
      destruct (collected_full _ _ _ _ Hcol' Hpos) as [Hsum Htake];
        [by rewrite copy_into_length; lia|done|].
      match type of HA with context [Complete ?a ?b ?c ?d] =>
        destruct (Complete_spec a b c d) as [stats Hc'] end.
      rewrite Hc' in HA. cbn in HA. fold n in Hsum. rewrite Nat2Z.id, Hsum, Htake, Hr, Hs in HA.
      injection HA as <- <- <-. done.
    + injection HA as <- <- <-. cbn. split_and!; try done; lia.
Qed.

(** The frame that starts the message: any fragment of it may come first. *)
Lemma Accept_first i r :
  wf r -> active_ r = false -> fresh_after_last r route sequence -> (i < n)%nat ->
  exists r0, in_progress r0 /\ received_mask_ r0 = 0 /\
    Accept (frame i) r =
      Accept_store (frame i) (Z.of_nat i) (Z.of_nat n) (fragment_length (length payload) i) r0.
Proof.
  intros Hwf Hact Hfresh Hi. rewrite Accept_frame, Hact by done. cbn [negb orb].
  unfold PrepareSequence. rewrite Hact.
  rewrite PrepareSequence_completed_fresh by done.
  cbn [negb IsOk]. eexists; split_and!; [| |reflexivity]; [|done].
  pose proof (fragment_count_bounds (length payload) Hpos) as (Hb1 & Hb2 & Hb3).
  destruct Hwf as [Hb Hl _]. fold n in Hb1, Hb2, Hb3.
  split_and!; cbn; try done; try lia; try apply collected_start.
  split; cbn; [done|done|]. intros _. split; [apply fragments_safe_start; lia|done].
Qed.

Lemma Accept_next i r :
  in_progress r -> (i < n)%nat ->
  Accept (frame i) r =
    Accept_store (frame i) (Z.of_nat i) (Z.of_nat n) (fragment_length (length payload) i) r.
Proof.
  intros (_ & Ha & Hr & Hs & Hc & _) Hi.
  by rewrite Accept_frame, Ha, Hr, Hs, Hc, !Z.eqb_refl.
Qed.

(** Any sequence of fragments, repeated or out of order, that leaves one
    fragment missing is absorbed without a result. *)
Lemma fast_Accept_all_partial received seen r missing :
  in_progress r -> received_mask_ r = mask_of 0 seen ->
  Forall (fun i => (i < n)%nat) (seen ++ received) ->
  (missing < n)%nat -> missing ∉ seen ++ received ->
  exists r', Accept_all (frame <$> received) r =
      (replicate (length received) (kUnavailable, ReassembledMessage_default), r') /\
    in_progress r' /\ received_mask_ r' = mask_of 0 (seen ++ received).
Proof.
  revert seen r. induction received as [|i l IH]; intros seen r Hp Hm Hl Hmiss Hnot.
  - exists r. by rewrite app_nil_r.
  - assert ((i < n)%nat) as Hi by (rewrite Forall_app, Forall_cons in Hl; tauto).
    assert (mask_of 0 (seen ++ [i]) = Z.lor (received_mask_ r) (Z.shiftl 1 (Z.of_nat i))) as Hs.
    { rewrite Hm. unfold mask_of. by rewrite foldl_app. }
    replace (seen ++ i :: l) with ((seen ++ [i]) ++ l) in * by by rewrite <- app_assoc.
    pose proof (Accept_store_frame i r Hp Hi) as Hstore. rewrite <- (Accept_next i r Hp Hi) in Hstore.
    rewrite fmap_cons. cbn [Accept_all]. destruct (Accept (frame i) r) as [[st message] r1].
    cbn zeta in Hstore. rewrite <- Hs in Hstore.
    replace (_ || _)%bool with true in Hstore; cycle 1.
    { symmetry. apply orb_true_iff. right. solve_guard. rewrite mask_of_full.
      - intros H. apply Hnot, elem_of_app. left. by apply H.
      - by apply Forall_app in Hl as [? _]. }
    destruct Hstore as (-> & -> & Hp1 & Hm1).
    destruct (IH (seen ++ [i]) r1 Hp1 Hm1 Hl Hmiss Hnot) as (r' & -> & Hp' & Hm').
    eauto.
Qed.

Lemma fast_Accept_all_snoc frames last r :
  Accept_all (frames ++ [last]) r =
    let '(outcomes, r) := Accept_all frames r in
    let '(status, message, r) := Accept last r in
    (outcomes ++ [(status, message)], r).
Proof.
  revert r. induction frames as [|x xs IH]; intros r; cbn [app Accept_all].
  - by destruct (Accept last r) as [[? ?] ?].
  - destruct (Accept x r) as [[? ?] r1]. rewrite IH.
    destruct (Accept_all xs r1). by destruct (Accept last _) as [[? ?] ?].
Qed.

(** The delivery lemma: the message is delivered at the frame that brings the
    last missing fragment, and not before. *)
Lemma fast_Accept_all_delivers first received last r :
  wf r -> active_ r = false -> fresh_after_last r route sequence ->
  Forall (fun i => (i < n)%nat) (first :: received) ->
  (last < n)%nat -> last ∉ first :: received ->
  (forall j, (j < n)%nat -> j = last \/ j ∈ first :: received) ->
  exists r', Accept_all (frame <$> (first :: received) ++ [last]) r =
      (replicate (S (length received)) (kUnavailable, ReassembledMessage_default) ++
         [(kOk, MkReassembledMessage route sequence payload)], r') /\
    wf r' /\ active_ r' = false /\ has_last_sequence_ r' = true /\
    last_route_id_ r' = route /\ last_sequence_ r' = sequence.
Proof.
  intros Hwf Hact Hfresh Hall Hlast Hnot Hcover.
  pose proof Hall as [Hfirst _]%Forall_cons.
  destruct (Accept_first first r Hwf Hact Hfresh Hfirst) as (r0 & Hp0 & Hm0 & Hacc).
  destruct (fast_Accept_all_partial (first :: received) [] r0 last Hp0 Hm0 Hall Hlast Hnot)
    as (r1 & Hrun & Hp1 & Hm1).
  rewrite fmap_cons in Hrun. cbn [Accept_all] in Hrun. rewrite (Accept_next _ _ Hp0 Hfirst) in Hrun.
  cbn [app] in Hm1.
  rewrite fmap_app, (fast_Accept_all_snoc _ (frame last)), fmap_cons. cbn [Accept_all]. rewrite Hacc, Hrun.
  pose proof (Accept_store_frame last r1 Hp1 Hlast) as Hstore.
  rewrite <- (Accept_next last r1 Hp1 Hlast) in Hstore.
  destruct (Accept (frame last) r1) as [[st message] r']. cbn zeta in Hstore.
  assert (Z.lor (received_mask_ r1) (Z.shiftl 1 (Z.of_nat last)) =
    mask_of 0 ((first :: received) ++ [last])) as Hs.
  { rewrite Hm1. unfold mask_of. by rewrite foldl_app. }
  rewrite Hs, Hm1 in Hstore.
  assert (Z.testbit (mask_of 0 (first :: received)) (Z.of_nat last) = false) as Hb.
  { apply not_true_iff_false. rewrite mask_of_testbit, Z.bits_0. intros [?|?]; done. }
  rewrite Hb in Hstore.
  assert (Forall (fun i => (i < n)%nat) ((first :: received) ++ [last])) as Hall'.
  { apply Forall_app. auto. }
  apply mask_of_full in Hall' as Hfull. rewrite (proj2 Hfull) in Hstore; clear Hfull.
  - rewrite Z.eqb_refl in Hstore. cbn [negb orb] in Hstore.
    destruct Hstore as (-> & -> & ? & ? & ? & ? & ?). eexists; split; [reflexivity|auto].
  - intros j Hj. apply elem_of_app. destruct (Hcover j Hj) as [->|]; [right; by apply list_elem_of_singleton|by left].
Qed.

End Reassembly.

(** ** Lemmas: a message in one frame *)

Lemma Accept_single_delivers p route arb sequence payload r :
  0 <= route -> CanArbitrationId_Encode p route = (kOk, arb) -> 0 <= sequence <= 0x3f ->
  (1 <= length payload <= 7)%nat -> (length payload <= MaximumPayload)%nat ->
  wf r -> active_ r = false -> fresh_after_last r route sequence ->
  exists r', Accept (FastCodec.single_frame arb sequence payload) r =
      (kOk, MkReassembledMessage route sequence payload, r') /\ active_ r' = false.
Proof.
  intros Hroute Harb Hseq Hlen Hfit [Hb Hl _] Hact Hfresh.
  unfold Accept, FastCodec.single_frame. cbn [arbitration_id size data set_field CanFrame_default].
  change kClassicCanPayloadSize with 8%nat. rewrite (u8_small sequence) by lia.
  rewrite (Encode_Decode _ _ _ Hroute Harb), (u8_small (Z.of_nat _ + 1)) by lia.
  guard_false ((Z.of_nat (length payload) + 1 =? 0) || (8 <? Z.of_nat (length payload) + 1))%bool.
  assert (forall j, copy_into 1 payload (<[0%nat:=sequence]> (zeros 8)) !! j =
    if decide (1 <= j < 1 + length payload)%nat then payload !! (j - 1)%nat
    else <[0%nat:=sequence]> (zeros 8) !! j) as Hl'.
  { intros j. apply lookup_copy_into. autorewrite with aster. lia. }
  assert (byte_at (copy_into 1 payload (<[0%nat:=sequence]> (zeros 8))) 0 = sequence) as ->.
  { apply byte_at_lookup. rewrite Hl', decide_False by lia. done. }
  assert (GetFrameKind sequence = kFastSingle) as ->.
  { unfold GetFrameKind. rewrite Z.shiftr_div_pow2, Z.div_small by lia. done. }
  rewrite (bool_decide_true (kFastSingle = kFastSingle)) by done.
  rewrite land_3f, (Z.mod_small sequence), (u8_small sequence) by lia.
  unfold Accept_single. cbn [size data set_field id_route].
  replace (Z.to_nat (Z.of_nat (length payload) + 1 - 1)) with (length payload) by lia.
  guard_false (MaximumPayload <? length payload)%nat.
  unfold PrepareSequence. rewrite Hact.
  rewrite PrepareSequence_completed_fresh by done.
  cbn [negb IsOk].
  match goal with |- context [Complete ?a ?b ?c ?d] =>
    destruct (Complete_spec a b c d) as [stats ->] end.
  cbn. rewrite subspan_copy_into, take_copy_into by (autorewrite with aster; lia).
  by eexists.
Qed.

End MaximumPayload.
End FastReassembler.

Import FastReassembler.

Section Delivery.
Context (MaximumPayload : nat).

Lemma sequence_distance_mod s f : sequence_distance s f = (s - f) mod 64.
Proof.
  unfold sequence_distance. rewrite land_3f. unfold u8. apply Z.mod_mod_divide.
  by exists 4.
Qed.

Lemma Accept_all_last frames r outcomes r' :
  Accept_all MaximumPayload frames r = (outcomes, r') -> wf MaximumPayload r ->
  Forall (fun o => fst o <> kOk) outcomes -> wf MaximumPayload r' /\ same_last r r'.
Proof.
  revert r outcomes. induction frames as [|frame rest IH]; intros r outcomes H Hwf Ho; cbn in H.
  - by injection H as <- <-.
  - destruct (Accept _ _ _) as [[st m] r1] eqn:HA.
    destruct (Accept_all _ _ _) as [outcomes1 r2] eqn:HR. injection H as <- <-.
    apply Forall_cons in Ho as [Hst Ho].
    destruct (Accept_spec _ _ _ _ _ _ HA Hwf) as (Hwf1 & _ & Hbad & _).
    destruct (IH r1 outcomes1 HR Hwf1 Ho) as [Hwf2 (H1 & H2 & H3)].
    destruct (Hbad Hst) as [_ (H4 & H5 & H6)]. unfold same_last.
    by rewrite H1, H2, H3.
Qed.

(** The frames of a message, and their delivery in any order. *)
Lemma fast_delivery p route sequence payload output r :
  wf MaximumPayload r -> active_ r = false -> fresh_after_last r route sequence ->
  1 <= route <= kMaximumRouteId -> 0 <= sequence <= 0x3f -> Forall is_byte payload ->
  (1 <= length payload <= 96)%nat -> (length payload <= MaximumPayload)%nat ->
  ((if length payload <=? 7 then 1 else fragment_count_of (length payload)) <= length output)%nat ->
  exists frames, let n := length frames in
    FastCodec.Encode route p sequence payload output = (kOk, frames ++ drop n output, n) /\
    (0 < n)%nat /\
    Forall (fun frame => CanArbitrationId_Encode p route = (kOk, arbitration_id frame) /\
      write_completion frame = None /\ write_token frame = 0) frames /\
    forall order last,
      Forall (fun i => (i < n)%nat) order -> (last < n)%nat -> last ∉ order ->
      (forall j, (j < n)%nat -> j = last \/ j ∈ order) ->
      exists r', Accept_all MaximumPayload
          ((fun i => nth i frames CanFrame_default) <$> order ++ [last]) r =
        (replicate (length order) (kUnavailable, ReassembledMessage_default) ++
           [(kOk, MkReassembledMessage route sequence payload)], r').
Proof.
  intros Hr Hact Hfresh Hroute Hseq Hbytes Hlen Hfit Hout.
  pose proof (arbitration_Encode_ok p route Hroute) as Harb.
  set (arb := CanPriority_value p * 512 + route) in *.
  destruct (decide (length payload <= 7)%nat) as [Hsingle|Hmulti].
  - exists [FastCodec.single_frame arb sequence payload]. cbn zeta.
    rewrite (proj2 (Nat.leb_le _ _) Hsingle) in Hout.
    split; [apply FastCodec.Encode_single; (done || lia)|]. split; [cbn; lia|].
    split; [by apply Forall_singleton|].
    intros order last Hall Hlast Hnot Hcover. assert (last = 0%nat) as -> by (cbn in Hlast; lia).
    assert (order = []) as ->.
    { destruct order as [|i l]; [done|]. apply Forall_cons in Hall as [Hi _]. cbn in Hi.
      destruct Hnot. rewrite elem_of_cons. left. lia. }
    destruct (Accept_single_delivers MaximumPayload p route arb sequence payload r)
      as (r' & HA & _); try done; try lia.
    exists r'. cbn. by rewrite HA.
  - rewrite (proj2 (Nat.leb_gt _ _)) in Hout by lia. set (n := fragment_count_of (length payload)) in *.
    pose proof (fragment_count_bounds (length payload) ltac:(lia)) as (Hb1 & Hb2 & _). fold n in Hb1, Hb2.
    exists (FastCodec.fragment_frame arb sequence payload n <$> seq 0 n).
    rewrite length_fmap, length_seq. cbn zeta. split.
    { apply FastCodec.Encode_fragments; try done; fold n; lia. }
    split; [lia|]. split; [by apply Forall_fmap, Forall_true|].
    intros order last Hall Hlast Hnot Hcover.
    assert (forall l, Forall (fun i => (i < n)%nat) l ->
      (fun i => nth i (FastCodec.fragment_frame arb sequence payload n <$> seq 0 n) CanFrame_default)
        <$> l = FastCodec.fragment_frame arb sequence payload n <$> l) as Hnth.
    { intros l Hl. apply list_fmap_ext. intros k i Hk.
      pose proof (proj1 (Forall_lookup _ _) Hl k i Hk) as Hi. cbn in Hi.
      rewrite nth_lookup, list_lookup_fmap, lookup_seq_lt by lia. done. }
    rewrite Hnth by (apply Forall_app; auto).
    destruct order as [|first received].
    { destruct (decide (last = 0%nat)) as [->|].
      - destruct (Hcover 1%nat) as [?|?%elem_of_nil]; [lia|lia|done].
      - destruct (Hcover 0%nat) as [?|?%elem_of_nil]; [lia|lia|done]. }
    destruct (fast_Accept_all_delivers MaximumPayload p route arb sequence payload
      ltac:(lia) Harb Hseq Hfit ltac:(fold n; lia) ltac:(lia) first received last r)
      as (r' & HA & _); try done. by exists r'.
Qed.

End Delivery.

(** ** Properties *)

Section Properties.
Context (MaximumPayload : nat).

(** Whatever frames arrive, the reassembler stays inside its memory: every
    state reached from the initial one keeps its buffer and length table at
    their sizes, its collected fragments below index 16 and inside the buffer;
    a message it returns fits the buffer, and no message is returned unless the
    status is kOk. *)
Theorem fast_reassembler_safe r frame status message r' :
  rtc (step MaximumPayload) (init MaximumPayload) r ->
  Accept MaximumPayload frame r = (status, message, r') ->
  wf MaximumPayload r' /\ (length (msg_payload message) <= MaximumPayload)%nat /\
  (status <> kOk -> message = ReassembledMessage_default).
Proof.
  intros Hr HA. apply Accept_spec in HA as (? & ? & Hbad & _); [|by apply fast_reachable_wf].
  split_and!; try done. intros Hst. by destruct (Hbad Hst).
Qed.


(** C9: an encoded message survives the wire: the frames [Encode] writes, fed
    in any order and with any repetitions before the last missing one, are
    absorbed with kUnavailable, and the frame that completes the set returns
    the route, the sequence number and exactly the bytes that were sent. *)
Theorem fast_roundtrip p route sequence payload output r :
  rtc (step MaximumPayload) (init MaximumPayload) r -> active_ r = false ->
  fresh_after_last r route sequence ->
  1 <= route <= kMaximumRouteId -> 0 <= sequence <= 0x3f -> Forall is_byte payload ->
  (1 <= length payload <= 96)%nat -> (length payload <= MaximumPayload)%nat ->
  (16 <= length output)%nat ->
  exists frames, let n := length frames in
    FastCodec.Encode route p sequence payload output = (kOk, frames ++ drop n output, n) /\
    forall order last,
      Forall (fun i => (i < n)%nat) order -> (last < n)%nat -> last ∉ order ->
      (forall j, (j < n)%nat -> j = last \/ j ∈ order) ->
      exists r', Accept_all MaximumPayload
          ((fun i => nth i frames CanFrame_default) <$> order ++ [last]) r =
        (replicate (length order) (kUnavailable, ReassembledMessage_default) ++
           [(kOk, MkReassembledMessage route sequence payload)], r').
Proof.
  intros Hr%fast_reachable_wf Hact Hfresh Hroute Hseq Hbytes Hlen Hfit Hout.
  pose proof (fragment_count_bounds (length payload) ltac:(lia)) as (Hb1 & Hb2 & _).
  destruct (fast_delivery MaximumPayload p route sequence payload output r) as (frames & HE & _ & _ & HD); try done;
    [split_if; lia|].
  by exists frames.
Qed.

End Properties.

(** *** Witnesses: one node sends on route 8 to a reassembler of 16 bytes *)

Definition sample_arb : Z := 2 * 512 + 8.
Definition sample_single (sequence : Z) : CanFrame :=
  FastCodec.single_frame sample_arb sequence [1; 2; 3].

Lemma fast_reassembler_safe_witness :
  wf 16 (snd (Accept 16 (sample_single 5) (init 16))) /\ (3 <= 16)%nat /\
  (kOk <> kOk -> MkReassembledMessage 8 5 [1; 2; 3] = ReassembledMessage_default).
Proof.
  apply (fast_reassembler_safe 16 (init 16) (sample_single 5) kOk (MkReassembledMessage 8 5 [1; 2; 3]));
    [apply rtc_refl|]. vm_compute. reflexivity.
Defined.


(** Ten bytes in two fragments; the second arrives twice, then the first. *)
Lemma fast_roundtrip_witness :
  exists frames, length frames = 2%nat /\
    FastCodec.Encode 8 kState 5 [1; 2; 3; 4; 5; 6; 7; 8; 9; 10] (replicate 16 CanFrame_default) =
      (kOk, frames ++ replicate 14 CanFrame_default, 2%nat) /\
    fst (Accept_all 16 ((fun i => nth i frames CanFrame_default) <$> [1; 1; 0]%nat) (init 16)) =
      [(kUnavailable, ReassembledMessage_default); (kUnavailable, ReassembledMessage_default);
       (kOk, MkReassembledMessage 8 5 [1; 2; 3; 4; 5; 6; 7; 8; 9; 10])].
Proof.
  destruct (fast_roundtrip 16 kState 8 5 [1; 2; 3; 4; 5; 6; 7; 8; 9; 10]
    (replicate 16 CanFrame_default) (init 16)) as (frames & Henc & Hall).
  - apply rtc_refl.
  - reflexivity.
  - discriminate.
  - by vm_compute.
  - lia.
  - repeat constructor; lia.
  - cbn. lia.
  - cbn. lia.
  - cbn. lia.
  - assert (length frames = 2%nat) as Hlen.
    { pose proof (f_equal snd Henc) as Hn. cbn [snd] in Hn. rewrite <- Hn. by vm_compute. }
    rewrite Hlen in *. exists frames. split; [done|]. split; [done|].
    destruct (Hall [1; 1]%nat 0%nat) as (r' & HA); [| | | |exact (f_equal fst HA)].
    + repeat constructor.
    + lia.
    + by vm_compute; intros [? | [? | []%elem_of_nil]%elem_of_cons]%elem_of_cons.
    + intros j Hj. rewrite !elem_of_cons. lia.
Defined.
