(* ===== verification/ReliableSender.v ===== *)
(** The sending half of the reliable CAN path ([ReliableSender] of
    [transport/can/reliable_path.hpp]): a message is cut into frames that are
    handed out one at a time, an acknowledgement completes it, a deadline without
    one starts it again, and a frame the device refused is handed out again. *)

From S2P Require Export Fragments.

Local Open Scope Z_scope.

Inductive ReliableSubtype := kData | kAck | kNack | kCancel.

#[export] Instance ReliableSubtype_eq_dec : EqDecision ReliableSubtype.
Proof. solve_decision. Defined.

Definition ReliableSubtype_value (s : ReliableSubtype) : Z :=
  match s with kData => 0 | kAck => 1 | kNack => 2 | kCancel => 3 end.

Definition ReliableSubtype_cast (z : Z) : ReliableSubtype :=
  if z =? 0 then kData else if z =? 1 then kAck else if z =? 2 then kNack else kCancel.

Definition ReliableHeader (subtype : ReliableSubtype) (sequence : Z) : Z :=
  let subtype_bits := u32 (Z.shiftl (ReliableSubtype_value subtype) 4) in
  let sequence_bits := Z.land sequence 0x0f in
  u8 (Z.lor (Z.lor 0x80 subtype_bits) sequence_bits).

Definition GetReliableSubtype (header : Z) : ReliableSubtype :=
  ReliableSubtype_cast (Z.land (Z.shiftr header 4) 0x3).

#[global] Arguments ReliableHeader : simpl never.
#[global] Arguments GetReliableSubtype : simpl never.

Inductive ReliableSenderState := kIdle | kSending | kWaitingForAck | kComplete | kFailed.

#[export] Instance ReliableSenderState_eq_dec : EqDecision ReliableSenderState.
Proof. solve_decision. Defined.

Definition state_is (a b : ReliableSenderState) : bool := bool_decide (a = b).

Module ReliableSender.

Record ReliableSenderStats := MkStats {
  messages_started : Z;
  frames_sent : Z;
  retries : Z;
  acknowledgements : Z;
  duplicate_acknowledgements : Z;
  failures : Z;
  write_rejections : Z
}.
#[global] Instance eta_stats : Eta ReliableSenderStats := fun r =>
  MkStats (messages_started r) (frames_sent r) (retries r) (acknowledgements r)
    (duplicate_acknowledgements r) (failures r) (write_rejections r).

Record t := Mk {
  payload_ : list Z;
  payload_size_ : nat;
  retry_timeout_ns_ : Z;
  retry_deadline_ns_ : Z;
  arbitration_id_ : Z;
  sequence_ : Z;
  fragment_count_ : Z;
  next_fragment_ : Z;
  maximum_retries_ : Z;
  retry_count_ : Z;
  pending_fragment_ : Z;
  next_write_token_ : Z;
  pending_write_token_ : Z;
  pending_write_ : bool;
  state_ : ReliableSenderState;
  stats_ : ReliableSenderStats
}.
#[global] Instance eta_t : Eta t := fun r =>
  Mk (payload_ r) (payload_size_ r) (retry_timeout_ns_ r) (retry_deadline_ns_ r)
    (arbitration_id_ r) (sequence_ r) (fragment_count_ r) (next_fragment_ r)
    (maximum_retries_ r) (retry_count_ r) (pending_fragment_ r) (next_write_token_ r)
    (pending_write_token_ r) (pending_write_ r) (state_ r) (stats_ r).

Section MaximumPayload.
Context (MaximumPayload : nat).

(** The default-constructed sender; [sender_ = {}] puts it back. *)
Definition init : t :=
  Mk (zeros MaximumPayload) 0 0 0 0 0 0 0 0 0 0 0 0 false kIdle (MkStats 0 0 0 0 0 0 0).

Definition busy (s : t) : bool := state_is (state_ s) kSending || state_is (state_ s) kWaitingForAck.

(** The identifier is written before the capacity is checked: a refused call may
    leave it changed. *)
Definition Begin (route_id : Z) (p : CanPriority) (sequence : Z) (payload : list Z)
    (now_ns retry_timeout_ns maximum_retries : Z) (s : t) : Status * t :=
  if busy s then (kInvalidState, s)
  else if (length payload =? 0)%nat || (MaximumPayload <? length payload)%nat ||
          (0x0f <? sequence) || (retry_timeout_ns =? 0) then (kInvalidArgument, s)
  else
    let '(status, arb) := CanArbitrationId_Encode p route_id in
    let s := s <| arbitration_id_ := arb |> in
    if negb (IsOk status) then (status, s)
    else
      let fragment_count := fragment_count_of (length payload) in
      if (16 <? fragment_count)%nat then (kCapacityExceeded, s)
      else
        let s := s
          <| payload_ := copy_into 0 payload (payload_ s) |>
          <| payload_size_ := length payload |>
          <| sequence_ := sequence |>
          <| next_fragment_ := 0 |>
          <| fragment_count_ := u8 (Z.of_nat fragment_count) |>
          <| retry_timeout_ns_ := retry_timeout_ns |>
          <| retry_deadline_ns_ := SaturatingAdd now_ns retry_timeout_ns |>
          <| maximum_retries_ := maximum_retries |>
          <| retry_count_ := 0 |>
          <| pending_write_ := false |>
          <| state_ := kSending |> in
        (kOk, s <| stats_ := bump messages_started (stats_ s) |>).

(** The frame of fragment [fragment], without its completion. *)
Definition data_frame (fragment : Z) (s : t) : CanFrame :=
  let offset := (Z.to_nat fragment * 6)%nat in
  let len := Nat.min 6 (payload_size_ s - offset) in
  CanFrame_default
    <| arbitration_id := arbitration_id_ s |>
    <| size := u8 (Z.of_nat len + 2) |>
    <| data := copy_into 2 (subspan offset len (payload_ s))
         (<[1%nat := u8 (Z.lor (Z.shiftl (fragment_count_ s - 1) 4) fragment)]>
           (<[0%nat := ReliableHeader kData (sequence_ s)]> (zeros 8))) |>.

(** Status, the frame left in the reference, and the new state. *)
Definition NextFrame (frame : CanFrame) (s : t) : Status * CanFrame * t :=
  if negb (state_is (state_ s) kSending) then (kUnavailable, frame, s)
  else
    let fragment := next_fragment_ s in
    let frame := data_frame fragment s in
    let s := s <| next_fragment_ := u8 (fragment + 1) |> in
    let s := s <| next_write_token_ :=
      if next_write_token_ s =? UINT32_MAX then 1 else next_write_token_ s + 1 |> in
    let s := s <| pending_write_token_ := next_write_token_ s |>
               <| pending_fragment_ := fragment |> <| pending_write_ := true |> in
    let frame := frame <| write_completion := Some ReliableSender_CompleteFrameWrite |>
                       <| write_token := pending_write_token_ s |> in
    let s := s <| stats_ := bump frames_sent (stats_ s) |> in
    let s := if next_fragment_ s =? fragment_count_ s
             then s <| state_ := kWaitingForAck |> else s in
    (kOk, frame, s).

(** Does [frame] acknowledge the message the sender holds? *)
Definition acknowledges (frame : CanFrame) (s : t) : bool :=
  let header := byte_at (data frame) 0 in
  bool_decide (is_Some (CanArbitrationId_Decode (arbitration_id frame))) &&
  (size frame =? 1) && bool_decide (GetFrameKind header = kReliable) &&
  bool_decide (GetReliableSubtype header = kAck) &&
  (arbitration_id frame =? arbitration_id_ s) && (Z.land header 0x0f =? sequence_ s).

Definition HandleAck (frame : CanFrame) (s : t) : Status * t :=
  if negb (acknowledges frame s) then (kInvalidArgument, s)
  else if state_is (state_ s) kComplete then
    (kUnavailable, s <| stats_ := bump duplicate_acknowledgements (stats_ s) |>)
  else if negb (state_is (state_ s) kWaitingForAck) then (kInvalidArgument, s)
  else
    let s := s <| state_ := kComplete |> <| pending_write_ := false |> in
    (kOk, s <| stats_ := bump acknowledgements (stats_ s) |>).

Definition Poll (now_ns : Z) (s : t) : Status * t :=
  if negb (state_is (state_ s) kWaitingForAck) || (now_ns <? retry_deadline_ns_ s) then
    (kUnavailable, s)
  else if maximum_retries_ s <=? retry_count_ s then
    let s := s <| state_ := kFailed |> <| pending_write_ := false |> in
    (kTimeout, s <| stats_ := bump failures (stats_ s) |>)
  else
    let s := s <| retry_count_ := u8 (retry_count_ s + 1) |> in
    let s := s <| stats_ := bump retries (stats_ s) |> in
    (kOk, s <| next_fragment_ := 0 |> <| pending_write_ := false |>
            <| retry_deadline_ns_ := SaturatingAdd now_ns (retry_timeout_ns_ s) |>
            <| state_ := kSending |>).

Definition ArmAckDeadline (now_ns : Z) (s : t) : Status * t :=
  if negb (state_is (state_ s) kWaitingForAck) then (kInvalidState, s)
  else (kOk, s <| retry_deadline_ns_ := SaturatingAdd now_ns (retry_timeout_ns_ s) |>).

Definition OnFrameWrite (token : Z) (status : Status) (s : t) : t :=
  if negb (pending_write_ s) || negb (token =? pending_write_token_ s) then s
  else
    let s := s <| pending_write_ := false |> in
    if IsOk status then s
    else
      let s := s <| stats_ := bump write_rejections (stats_ s) |> in
      let expected_next := u8 (pending_fragment_ s + 1) in
      if next_fragment_ s =? expected_next then
        s <| next_fragment_ := pending_fragment_ s |> <| state_ := kSending |>
      else s.

(** The call a frame's completion receives, delivered to its sender. *)
Definition CompleteFrameWrite (call : option (Z * Status)) (s : t) : t :=
  match call with
  | None => s
  | Some (token, status) => OnFrameWrite token status s
  end.

#[global] Arguments data_frame : simpl never.
#[global] Arguments NextFrame : simpl never.
#[global] Arguments OnFrameWrite : simpl never.
#[global] Arguments acknowledges : simpl never.

(** ** The send loop

    [while (IsOk(sender.NextFrame(frame))) { status = writer.Send(frame, caller);
    if (!IsOk(status)) { on_failed; return status; } on_sent; }], the loop of the
    three users of the sender, which differ only in what they count ([St]). The
    written frame is completed inside [Send]. The device behind [writer] does not
    call back into the sender during the call. *)
Section Pump.
Context {W St : Type} (writer : CanFrameWriter W) (context : ExecutionContext).
Context (on_sent on_failed : St -> St).

Fixpoint Pump_loop (fuel : nat) (st : St) (s : t) (w : W) : Status * St * t * W :=
  match fuel with
  | O => (kOk, st, s, w)
  | S fuel =>
      let '(next_status, frame, s) := NextFrame CanFrame_default s in
      if negb (IsOk next_status) then (kOk, st, s, w)
      else
        let '(status, completion, w) := CanFrameWriter_Send writer frame context w in
        let s := CompleteFrameWrite completion s in
        if negb (IsOk status) then (status, on_failed st, s, w)
        else Pump_loop fuel (on_sent st) s w
  end.

(** One call per remaining fragment and one that ends the loop. *)
Definition pump_fuel (s : t) : nat := S (Z.to_nat (fragment_count_ s - next_fragment_ s)).

Definition Pump (st : St) (s : t) (w : W) : Status * St * t * W := Pump_loop (pump_fuel s) st s w.
End Pump.

(** ** Invariant *)

Record wf (s : t) : Prop := {
  wf_buffer : length (payload_ s) = MaximumPayload;
  wf_busy : busy s = true ->
    (1 <= payload_size_ s <= MaximumPayload)%nat /\
    (fragment_count_of (payload_size_ s) <= 16)%nat /\
    fragment_count_ s = Z.of_nat (fragment_count_of (payload_size_ s)) /\
    0 <= retry_count_ s <= maximum_retries_ s /\ maximum_retries_ s < 256 /\
    0 <= sequence_ s <= 0x0f /\ is_Some (CanArbitrationId_Decode (arbitration_id_ s));
  wf_sending : state_ s = kSending -> 0 <= next_fragment_ s < fragment_count_ s;
  wf_waiting : state_ s = kWaitingForAck -> next_fragment_ s = fragment_count_ s;
  wf_pending : pending_write_ s = true ->
    busy s = true /\ 0 <= pending_fragment_ s /\ next_fragment_ s = pending_fragment_ s + 1
}.

(** The calls the rest of the node makes, with arguments in their types' ranges. *)
Inductive step : t -> t -> Prop :=
  | step_Begin route p sequence payload now timeout retries s :
      0 <= route -> 0 <= sequence -> 0 <= retries < 256 ->
      step s (snd (Begin route p sequence payload now timeout retries s))
  | step_NextFrame frame s : step s (snd (NextFrame frame s))
  | step_HandleAck frame s : step s (snd (HandleAck frame s))
  | step_Poll now s : step s (snd (Poll now s))
  | step_ArmAckDeadline now s : step s (snd (ArmAckDeadline now s))
  | step_OnFrameWrite token status s : step s (OnFrameWrite token status s).

(** ** Lemmas: invariant *)

Lemma state_is_spec a b : state_is a b = true <-> a = b.
Proof. apply bool_decide_eq_true. Qed.

Lemma state_is_false a b : state_is a b = false <-> a <> b.
Proof. apply bool_decide_eq_false. Qed.

Lemma busy_cases s : busy s = true <-> state_ s = kSending \/ state_ s = kWaitingForAck.
Proof. unfold busy. by rewrite orb_true_iff, !state_is_spec. Qed.

Lemma busy_sending s : state_ s = kSending -> busy s = true.
Proof. rewrite busy_cases. auto. Qed.

Lemma busy_waiting s : state_ s = kWaitingForAck -> busy s = true.
Proof. rewrite busy_cases. auto. Qed.

Lemma sender_wf_init : wf init.
Proof. split; cbn; try done. apply zeros_length. Qed.

(** The five ways [Begin] ends. *)
Lemma Begin_spec route p sequence payload now timeout retries s :
  0 <= route ->
  let r := Begin route p sequence payload now timeout retries s in
  (fst r <> kOk /\ (busy s = true -> snd r = s) /\
     exists arb, snd r = s <| arbitration_id_ := arb |>) \/
  (fst r = kOk /\ busy s = false /\
     (1 <= length payload <= MaximumPayload)%nat /\ sequence <= 0x0f /\ timeout <> 0 /\
     (fragment_count_of (length payload) <= 16)%nat /\
     exists arb stats, CanArbitrationId_Encode p route = (kOk, arb) /\
       snd r = Mk (copy_into 0 payload (payload_ s)) (length payload) timeout
         (SaturatingAdd now timeout) arb sequence (Z.of_nat (fragment_count_of (length payload)))
         0 retries 0 (pending_fragment_ s) (next_write_token_ s) (pending_write_token_ s)
         false kSending stats).
Proof.
  intros Hr. cbn zeta. unfold Begin.
  assert (exists arb, s = s <| arbitration_id_ := arb |>) as Hself.
  { exists (arbitration_id_ s). by destruct s. }
  split_if; [left; split; [done|]; by split|]. split_if; [left; split; [done|]; by split|].
  bool_hyps.
  destruct (CanArbitrationId_Encode p route) as [st arb] eqn:Ha.
  destruct st; cbn [negb IsOk]; try (left; split; [done|]; split; [congruence|by eexists]).
  split_if; [left; split; [done|]; split; [congruence|by eexists]|]. bool_hyps.
  right. split; [done|]. split_and!; try done; try lia.
  exists arb. eexists. split; [done|]. cbn. by rewrite u8_small by lia.
Qed.

Lemma wf_Begin route p sequence payload now timeout retries s :
  0 <= route -> 0 <= sequence -> 0 <= retries < 256 -> wf s ->
  wf (snd (Begin route p sequence payload now timeout retries s)).
Proof.
  intros Hr Hs Hm Hwf.
  destruct (Begin_spec route p sequence payload now timeout retries s Hr)
    as [(_ & Hb & arb & Heq)|(_ & _ & Hp & Hseq & _ & H16 & arb & stats & Ha & Heq)].
  - destruct (busy s) eqn:E; [by rewrite Hb|]. rewrite Heq.
    destruct Hwf as [Hbuf Hbusy Hse Hwa Hpe].
    split; cbn; try done; unfold busy in *; cbn in *; congruence.
  - rewrite Heq. pose proof (fragment_count_bounds (length payload)) as Hc.
    destruct Hwf as [Hbuf _ _ _ _]. split; cbn; try done; try lia.
    + by rewrite copy_into_length.
    + intros _. split_and!; try lia. eexists. exact (Encode_Decode _ _ _ Hr Ha).
Qed.

Lemma wf_NextFrame frame s : wf s -> wf (snd (NextFrame frame s)).
Proof.
  intros [Hbuf Hbusy Hse Hwa Hpe]. unfold NextFrame. split_if; [done|].
  bool_hyps. apply state_is_spec in E. specialize (Hse E).
  destruct (Hbusy (busy_sending _ E)) as (Hp & H16 & Hc & Hrest).
  cbn. rewrite u8_small by lia. split_if; bool_hyps.
  - split; cbn; try done. unfold busy; cbn. auto with lia.
  - split; cbn; try done; rewrite ?E; try done.
    + intros _. lia.
    + intros _. split; [done|lia].
Qed.

Lemma wf_HandleAck frame s : wf s -> wf (snd (HandleAck frame s)).
Proof.
  intros Hwf. pose proof Hwf as [Hbuf Hbusy Hse Hwa Hpe]. unfold HandleAck.
  split_if; [done|]. split_if; [split; done|]. split_if; [done|]. split; done.
Qed.

Lemma wf_Poll now s : wf s -> wf (snd (Poll now s)).
Proof.
  intros Hwf. pose proof Hwf as [Hbuf Hbusy Hse Hwa Hpe]. unfold Poll.
  split_if; [done|]. bool_hyps. apply state_is_spec in H.
  split_if; [split; done|]. bool_hyps.
  destruct (Hbusy (busy_waiting _ H)) as (Hp & H16 & Hc & Hr & Hm & Hsq & Hd).
  pose proof (fragment_count_bounds (payload_size_ s)).
  split; cbn; try done; try lia. intros _. rewrite u8_small by lia. split_and!; try done; lia.
Qed.

Lemma wf_ArmAckDeadline now s : wf s -> wf (snd (ArmAckDeadline now s)).
Proof.
  intros Hwf. pose proof Hwf as [Hbuf Hbusy Hse Hwa Hpe]. unfold ArmAckDeadline.
  split_if; [done|]. split; done.
Qed.

(** A rejected write is undone: the fragment that was handed out is next again. *)
Lemma OnFrameWrite_rejected status s :
  wf s -> pending_write_ s = true -> status <> kOk ->
  OnFrameWrite (pending_write_token_ s) status s =
    s <| pending_write_ := false |> <| next_fragment_ := pending_fragment_ s |>
      <| state_ := kSending |> <| stats_ := bump write_rejections (stats_ s) |>.
Proof.
  intros Hwf Hp Hst. destruct (wf_pending _ Hwf Hp) as (Hb & H0 & Hn).
  assert (next_fragment_ s <= 16) as H16.
  { destruct (wf_busy _ Hwf Hb) as (_ & H & Hc & _).
    apply busy_cases in Hb as [E|E]; [apply (wf_sending _ Hwf) in E|apply (wf_waiting _ Hwf) in E]; lia. }
  unfold OnFrameWrite. rewrite Hp, Z.eqb_refl. cbn [negb orb].
  assert (IsOk status = false) as -> by by destruct status. cbn.
  rewrite u8_small, Hn, Z.eqb_refl by lia. done.
Qed.

Lemma OnFrameWrite_ok s :
  OnFrameWrite (pending_write_token_ s) kOk s = s <| pending_write_ := false |>.
Proof.
  unfold OnFrameWrite. destruct (pending_write_ s) eqn:E; cbn [negb orb].
  - by rewrite Z.eqb_refl.
  - destruct s. cbn in *. by subst.
Qed.

Lemma wf_OnFrameWrite token status s : wf s -> wf (OnFrameWrite token status s).
Proof.
  intros Hwf. pose proof Hwf as [Hbuf Hbusy Hse Hwa Hpe].
  destruct (pending_write_ s) eqn:Hp; [|by unfold OnFrameWrite; rewrite Hp].
  destruct (Z.eq_dec token (pending_write_token_ s)) as [->|Hne].
  2: { unfold OnFrameWrite. rewrite Hp. apply Z.eqb_neq in Hne. by rewrite Hne. }
  destruct (decide (status = kOk)) as [->|Hst].
  - rewrite OnFrameWrite_ok. split; try done.
  - rewrite OnFrameWrite_rejected by done. destruct (Hpe eq_refl) as (Hb & H0 & Hn).
    split; cbn; try done; [auto|]. intros _. apply busy_cases in Hb as [E|E].
    + specialize (Hse E). lia.
    + specialize (Hwa E). lia.
Qed.

Lemma sender_reachable_wf s : rtc step init s -> wf s.
Proof.
  intros H. remember init as s0. assert (wf s0) as Hwf by (subst; apply sender_wf_init). clear Heqs0.
  induction H as [|s1 s2 s3 Hs _ IH]; [done|]. apply IH. destruct Hs;
    eauto using wf_Begin, wf_NextFrame, wf_HandleAck, wf_Poll, wf_ArmAckDeadline, wf_OnFrameWrite.
Qed.

(** ** Lemmas: the send loop *)

(** What the loop leaves alone. *)
Definition same_message (s s' : t) : Prop :=
  payload_ s' = payload_ s /\ payload_size_ s' = payload_size_ s /\
  retry_timeout_ns_ s' = retry_timeout_ns_ s /\ retry_deadline_ns_ s' = retry_deadline_ns_ s /\
  arbitration_id_ s' = arbitration_id_ s /\ sequence_ s' = sequence_ s /\
  fragment_count_ s' = fragment_count_ s /\ maximum_retries_ s' = maximum_retries_ s /\
  retry_count_ s' = retry_count_ s.

#[export] Instance same_message_refl : Reflexive same_message.
Proof. by intros s. Qed.

#[export] Instance same_message_trans : Transitive same_message.
Proof. unfold same_message. intros s1 s2 s3. intuition congruence. Qed.

(** A frame that was handed out and whose write succeeded. *)
Lemma NextFrame_sending frame s :
  wf s -> state_ s = kSending ->
  exists frame' s', NextFrame frame s = (kOk, frame', s') /\
    frame' = (data_frame (next_fragment_ s) s)
      <| write_completion := Some ReliableSender_CompleteFrameWrite |>
      <| write_token := pending_write_token_ s' |> /\
    wf s' /\ same_message s s' /\ pending_write_ s' = true /\
    pending_fragment_ s' = next_fragment_ s /\ next_fragment_ s' = next_fragment_ s + 1 /\
    (state_ s' = if next_fragment_ s + 1 =? fragment_count_ s then kWaitingForAck else kSending).
Proof.
  intros Hwf Hs. pose proof (wf_NextFrame frame s Hwf) as Hwf'.
  pose proof (wf_sending _ Hwf Hs) as Hn.
  destruct (wf_busy _ Hwf (busy_sending _ Hs)) as (_ & H16 & Hc & _).
  unfold NextFrame in *. rewrite (proj2 (state_is_spec _ _) Hs) in *. cbn in *.
  rewrite (u8_small (next_fragment_ s + 1)) in * by lia.
  destruct (_ =? _) eqn:E; cbn in *; do 2 eexists; split_and!; try reflexivity; done.
Qed.

Lemma NextFrame_other frame s : state_ s <> kSending -> NextFrame frame s = (kUnavailable, frame, s).
Proof. intros H. unfold NextFrame. by rewrite (proj2 (state_is_false _ _) H). Qed.

Section PumpLemmas.
Context {W St : Type} (writer : CanFrameWriter W) (context : ExecutionContext).
Context (on_sent on_failed : St -> St).

Lemma Send_completion (frame : CanFrame) (w : W) :
  write_completion frame = Some ReliableSender_CompleteFrameWrite ->
  exists status w', CanFrameWriter_Send writer frame context w =
    (status, Some (write_token frame, status), w').
Proof.
  intros H. unfold CanFrameWriter_Send, CanFrame_CompleteWrite. rewrite H.
  destruct writer as [write|]; [destruct (write _ _ _) as [st w']|]; eauto.
Qed.

(** The worlds the device leaves behind: any number of writes. *)
Definition writes : relation W := rtc (fun w w' => exists frame, w' = (CanFrameWriter_Send writer frame context w).2).

Lemma writes_one frame w : writes w (CanFrameWriter_Send writer frame context w).2.
Proof. apply rtc_once. by exists frame. Qed.

(** The loop acts on the rest of the node by writing frames, and on the statistics
    by its two counters. *)
Lemma Pump_loop_effects (P : St -> Prop) fuel st s w :
  (forall st, P st -> P (on_sent st)) -> (forall st, P st -> P (on_failed st)) -> P st ->
  let '(_, st', _, w') := Pump_loop writer context on_sent on_failed fuel st s w in P st' /\ writes w w'.
Proof.
  intros Hs Hf. revert st s w. induction fuel as [|fuel IH]; intros st s w HP; cbn [Pump_loop]; [done|].
  destruct (NextFrame CanFrame_default s) as [[next frame] s1]. split_if; [done|].
  pose proof (writes_one frame w) as Hw.
  destruct (CanFrameWriter_Send writer frame context w) as [[status completion] w1]. cbn [snd] in Hw. split_if.
  - split; [by apply Hf|done].
  - specialize (IH (on_sent st) (CompleteFrameWrite completion s1) w1 (Hs _ HP)).
    destruct (Pump_loop _ _ _ _ _ _ _ _) as [[[? st'] ?] w']. destruct IH. split; [done|by etransitivity].
Qed.

(** The loop ends by itself: it returns kOk with every fragment handed out, or
    the status of a refused write with that fragment next again. *)
Lemma Pump_loop_spec fuel st s w :
  wf s -> (Z.to_nat (fragment_count_ s - next_fragment_ s) < fuel)%nat ->
  let '(status, st', s', w') := Pump_loop writer context on_sent on_failed fuel st s w in
  wf s' /\ same_message s s' /\
  (status = kOk -> state_ s = kSending -> state_ s' = kWaitingForAck) /\
  (status <> kOk -> state_ s' = kSending /\ next_fragment_ s <= next_fragment_ s') /\
  (state_ s <> kSending -> status = kOk /\ s' = s /\ w' = w /\ st' = st).
Proof.
  revert st s w. induction fuel as [|fuel IH]; intros st s w Hwf Hfuel; [lia|]. cbn [Pump_loop].
  destruct (decide (state_ s = kSending)) as [Hs|Hs].
  2: { rewrite NextFrame_other by done. cbn. split_and!; done. }
  destruct (NextFrame_sending CanFrame_default s Hwf Hs)
    as (frame & s1 & -> & -> & Hwf1 & Hsame & Hpend & Hpf & Hnext & Hstate).
  cbn [negb IsOk].
  match goal with |- context [CanFrameWriter_Send _ ?f _ _] =>
    destruct (Send_completion f w) as (status & w1 & ->); [done|] end.
  cbn [write_token set_field CompleteFrameWrite].
  destruct (IsOk status) eqn:Hst; cbn [negb].
  - assert (status = kOk) as -> by by destruct status.
    pose proof (wf_OnFrameWrite (pending_write_token_ s1) kOk s1 Hwf1) as Hwf2.
    rewrite OnFrameWrite_ok in *. set (s2 := s1 <| pending_write_ := false |>) in *.
    pose proof (wf_sending _ Hwf Hs). destruct Hsame as (? & ? & ? & ? & ? & ? & Hc & ? & ?).
    specialize (IH (on_sent st) s2 w1 Hwf2 ltac:(cbn; rewrite Hc, Hnext; lia)).
    destruct (Pump_loop _ _ _ _ _ _ _ _) as [[[status2 st2] s3] w3].
    destruct IH as (Hwf3 & Hsame3 & Hk & Hbad & Hid). split_and!; [done| | | |done].
    + transitivity s2; [|done]. by repeat split.
    + intros -> _. destruct (decide (state_ s2 = kSending)) as [|Hno]; [by apply Hk|].
      destruct (Hid Hno) as (_ & -> & _). cbn in *. rewrite Hstate in *. by destruct (_ =? _).
    + intros Hne. destruct (Hbad Hne) as [? Hle]. split; [done|]. cbn in Hle. lia.
  - rewrite OnFrameWrite_rejected by (done || by intros ->). cbn.
    assert (wf (OnFrameWrite (pending_write_token_ s1) status s1)) as Hwf2 by by apply wf_OnFrameWrite.
    rewrite OnFrameWrite_rejected in Hwf2 by (done || by intros ->).
    split_and!; try done. intros ->. done. intros _. rewrite Hpf. cbn. split; [done|lia].
Qed.

Lemma Pump_spec st s w :
  wf s ->
  let '(status, st', s', w') := Pump writer context on_sent on_failed st s w in
  wf s' /\ same_message s s' /\
  (status = kOk -> state_ s = kSending -> state_ s' = kWaitingForAck) /\
  (status <> kOk -> state_ s' = kSending /\ next_fragment_ s <= next_fragment_ s') /\
  (state_ s <> kSending -> status = kOk /\ s' = s /\ w' = w /\ st' = st).
Proof. intros Hwf. apply Pump_loop_spec; [done|]. unfold pump_fuel. lia. Qed.

End PumpLemmas.

(** ** Lemmas: what reaches the wire *)

(** A writer that accepts every frame; what it does with one is [emit]. *)
Definition emitting {W} (emit : CanFrame -> W -> W) : CanFrameWrite W := fun frame _ w => (kOk, emit frame w).

Definition emitted {W} (emit : CanFrame -> W -> W) (frames : list CanFrame) (w : W) : W :=
  foldl (fun w frame => emit frame w) w frames.

(** The one that records them. *)
Definition append_frame (frame : CanFrame) (log : list CanFrame) : list CanFrame := log ++ [frame].
Definition record_frame : CanFrameWrite (list CanFrame) := emitting append_frame.

Lemma emitted_append frames log : emitted append_frame frames log = log ++ frames.
Proof.
  unfold emitted. revert log. induction frames as [|frame frames IH]; intros log; cbn; [by rewrite app_nil_r|].
  rewrite IH. unfold append_frame. by rewrite <- app_assoc.
Qed.

Lemma data_frame_same fragment s s' :
  same_message s s' -> data_frame fragment s' = data_frame fragment s.
Proof. intros (H1 & H2 & _ & _ & H5 & H6 & H7 & _). unfold data_frame. by rewrite H1, H2, H5, H6, H7. Qed.

Lemma Pump_loop_emits {W St} (emit : CanFrame -> W -> W) context (on_sent on_failed : St -> St) fuel st s w :
  wf s -> state_ s = kSending ->
  (Z.to_nat (fragment_count_ s - next_fragment_ s) < fuel)%nat ->
  exists st' s', Pump_loop (Some (emitting emit)) context on_sent on_failed fuel st s w =
      (kOk, st', s', emitted emit ((fun i => data_frame (Z.of_nat i) s) <$>
        seq (Z.to_nat (next_fragment_ s)) (Z.to_nat (fragment_count_ s - next_fragment_ s))) w) /\
    wf s' /\ same_message s s' /\ state_ s' = kWaitingForAck.
Proof.
  revert st s w. induction fuel as [|fuel IH]; intros st s w Hwf Hs Hfuel; [lia|].
  pose proof (wf_sending _ Hwf Hs) as Hnx. cbn [Pump_loop].
  destruct (NextFrame_sending CanFrame_default s Hwf Hs)
    as (frame & s1 & -> & -> & Hwf1 & Hsame & Hpend & Hpf & Hnext & Hstate).
  cbn [negb IsOk]. unfold CanFrameWriter_Send. cbn [emitting negb IsOk].
  change (CanFrame_CompleteWrite _ kOk) with (Some (pending_write_token_ s1, kOk)).
  cbn [CompleteFrameWrite]. rewrite OnFrameWrite_ok.
  pose proof (wf_OnFrameWrite (pending_write_token_ s1) kOk s1 Hwf1) as Hwf2.
  rewrite OnFrameWrite_ok in Hwf2.
  assert (same_message s (s1 <| pending_write_ := false |>)) as Hsame2 by done.
  assert (fragment_count_ s1 = fragment_count_ s) as Hc by apply Hsame.
  replace (Z.to_nat (fragment_count_ s - next_fragment_ s)) with
    (S (Z.to_nat (fragment_count_ s - next_fragment_ s1))) by lia.
  cbn [seq]. rewrite fmap_cons, Z2Nat.id by lia.
  replace (S (Z.to_nat (next_fragment_ s))) with (Z.to_nat (next_fragment_ s1)) by lia.
  match goal with |- context [emit ?f w] => change f with (data_frame (next_fragment_ s) s) end.
  cbn [emitted foldl]. fold (emitted emit). set (w1 := emit (data_frame (next_fragment_ s) s) w).
  destruct (Z.eqb_spec (next_fragment_ s + 1) (fragment_count_ s)) as [Hlast|Hmore].
  - replace (Z.to_nat (fragment_count_ s - next_fragment_ s1)) with 0%nat by lia. cbn [seq fmap list_fmap map foldl].
    assert (forall a q w, state_ q = kWaitingForAck -> Pump_loop (Some (emitting emit)) context
      on_sent on_failed fuel a q w = (kOk, a, q, w)) as Hstop.
    { intros a q w' Hq. destruct fuel; [done|]. cbn [Pump_loop]. by rewrite NextFrame_other by congruence. }
    rewrite Hstop by done. by do 2 eexists.
  - destruct (IH (on_sent st) (s1 <| pending_write_ := false |>) w1
      Hwf2 Hstate) as (st' & s' & Hrun & Hwf' & Hsame' & Hst'); [cbn; lia|].
    exists st', s'. cbn [next_fragment_ fragment_count_ set_field] in Hrun.
    rewrite <- Hc.
    split_and!; [|done|by etransitivity|done].
    rewrite (list_fmap_ext _ (fun i => data_frame (Z.of_nat i) s)) in Hrun; [exact Hrun|].
    intros k i _. by apply data_frame_same.
Qed.

(** ** Lemmas: retries

    One poll that finds the deadline passed, and the retransmission it starts. *)
Section Retries.
Context {W : Type} (write : CanFrameWrite W) (context : ExecutionContext).
Context (Hwrite : forall frame w, fst (write frame context w) = kOk).

Definition poll_and_pump (now : Z) (s : t) (w : W) : Status * t * W :=
  let '(status, s) := Poll now s in
  if IsOk status then
    let '(status, _, s, w) := Pump (Some write) context (fun _ => tt) (fun _ => tt) tt s w in
    (status, s, w)
  else (status, s, w).

(** Polls at [nows], each at or after the deadline then in force, with no
    acknowledgement in between. *)
Fixpoint unanswered (nows : list Z) (s : t) (w : W) : list Status * t :=
  match nows with
  | [] => ([], s)
  | now :: rest =>
      let '(status, s, w) := poll_and_pump (Z.max now (retry_deadline_ns_ s)) s w in
      let '(statuses, s) := unanswered rest s w in
      (status :: statuses, s)
  end.

Lemma Pump_loop_accepting fuel s w :
  wf s -> fst (fst (fst (Pump_loop (Some write) context (fun _ => tt) (fun _ => tt) fuel tt s w))) = kOk.
Proof.
  revert s w. induction fuel as [|fuel IH]; intros s w Hwf; [done|]. cbn [Pump_loop].
  pose proof (wf_NextFrame CanFrame_default s Hwf) as Hwf1.
  destruct (NextFrame _ _) as [[st frame] s1]. destruct (negb (IsOk st)); [done|].
  unfold CanFrameWriter_Send.
  match goal with |- context [write ?f context w] => specialize (Hwrite f w);
    destruct (write f context w) as [st' w'] end.
  cbn in Hwrite. subst st'. cbn [negb IsOk].
  apply IH. unfold CompleteFrameWrite, CanFrame_CompleteWrite.
  destruct (write_completion frame); [by apply wf_OnFrameWrite|done].
Qed.

Lemma poll_and_pump_spec now s w :
  wf s -> state_ s = kWaitingForAck -> retry_deadline_ns_ s <= now ->
  let '(status, s', w') := poll_and_pump now s w in
  if maximum_retries_ s <=? retry_count_ s then status = kTimeout /\ state_ s' = kFailed
  else status = kOk /\ wf s' /\ state_ s' = kWaitingForAck /\
    maximum_retries_ s' = maximum_retries_ s /\ retry_count_ s' = retry_count_ s + 1.
Proof.
  intros Hwf Hs Hnow. unfold poll_and_pump.
  pose proof (wf_Poll now s Hwf) as Hwf1. unfold Poll in *.
  rewrite (proj2 (state_is_spec _ _) Hs) in *. cbn [negb orb] in *.
  guard_false (now <? retry_deadline_ns_ s). rewrite (proj2 (Z.ltb_ge _ _) Hnow) in Hwf1.
  destruct (_ <=? _) eqn:E; [done|]. bool_hyps. cbn [IsOk].
  match goal with |- context [Pump _ _ _ _ _ ?q] => set (s1 := q) in * end.
  pose proof (Pump_loop_accepting (pump_fuel s1) s1 w Hwf1) as Hok.
  pose proof (Pump_spec (Some write) context (fun _ => tt) (fun _ => tt) tt s1 w Hwf1) as Hp.
  unfold Pump in *. destruct (Pump_loop _ _ _ _ _ _ _ _) as [[[st u] s'] w'].
  cbn in Hok. subst st. destruct Hp as (Hwf' & (_&_&_&_&_&_&_& Hm & Hr) & Hwait & _).
  destruct (wf_busy _ Hwf (busy_waiting _ Hs)) as (_ & _ & _ & Hc & Hmax & _).
  split_and!; try done; [by apply Hwait|]. rewrite Hr. cbn. apply u8_small. lia.
Qed.

Lemma unanswered_spec n nows s w :
  wf s -> state_ s = kWaitingForAck ->
  maximum_retries_ s - retry_count_ s = Z.of_nat n -> length nows = S n ->
  fst (unanswered nows s w) = replicate n kOk ++ [kTimeout] /\
  state_ (snd (unanswered nows s w)) = kFailed.
Proof.
  revert nows s w. induction n as [|n IH]; intros [|now nows] s w Hwf Hs Hm Hl; try done;
    cbn [unanswered];
    pose proof (poll_and_pump_spec (Z.max now (retry_deadline_ns_ s)) s w Hwf Hs ltac:(lia)) as Hp;
    destruct (poll_and_pump _ s w) as [[st s'] w'].
  - rewrite (proj2 (Z.leb_le (maximum_retries_ s) (retry_count_ s))) in Hp by lia.
    destruct nows; [|done]. destruct Hp as [-> ?]. done.
  - rewrite (proj2 (Z.leb_gt (maximum_retries_ s) (retry_count_ s))) in Hp by lia.
    destruct Hp as (-> & Hwf' & Hs' & Hm' & Hr').
    destruct (IH nows s' w' Hwf' Hs') as [H1 H2]; [lia|by injection Hl|].
    destruct (unanswered nows s' w') as [sts s'']. cbn in *. by rewrite H1.
Qed.

End Retries.

End MaximumPayload.
End ReliableSender.

Import ReliableSender.

(** ** Properties *)

Section Properties.
Context (MaximumPayload : nat).

(** C7: in every state the sender can reach, whatever is begun, acknowledged,
    polled or reported about writes, in any order and with any tokens, the next
    fragment exists and lies inside the copied payload, the retry counter does
    not exceed its limit, and a write still pending belongs to a message in
    flight, so a late report never revives a completed or failed one. *)
Theorem reliable_sender_safe s :
  rtc (step MaximumPayload) (init MaximumPayload) s ->
  wf MaximumPayload s /\
  (state_ s = kSending ->
     (Z.to_nat (next_fragment_ s) * 6 < payload_size_ s <= length (payload_ s))%nat) /\
  (busy s = true -> retry_count_ s <= maximum_retries_ s) /\
  (busy s = false -> forall token status, OnFrameWrite token status s = s).
Proof.
  intros Hwf%sender_reachable_wf. split_and!; [done| | |].
  - intros Hs. destruct (wf_busy _ _ Hwf (busy_sending _ Hs)) as (Hp & _ & Hc & _).
    pose proof (wf_sending _ _ Hwf Hs). pose proof (wf_buffer _ _ Hwf).
    pose proof (fragment_count_bounds (payload_size_ s)). lia.
  - intros Hb. destruct (wf_busy _ _ Hwf Hb) as (_ & _ & _ & Hr & _). lia.
  - intros Hb token status. unfold OnFrameWrite. destruct (pending_write_ s) eqn:Hp; [|done].
    destruct (wf_pending _ _ Hwf Hp) as [? _]. congruence.
Qed.

(** A write the device refuses is taken back: the sender is sending again and
    the next frame it hands out is the refused one, under a new token, while a
    report that carries any other token changes nothing. *)
Theorem reliable_rejection_retried frame s f s1 status :
  rtc (step MaximumPayload) (init MaximumPayload) s ->
  NextFrame frame s = (kOk, f, s1) -> status <> kOk ->
  (forall token, token <> write_token f -> OnFrameWrite token status s1 = s1) /\
  exists f2 s2, NextFrame frame (OnFrameWrite (write_token f) status s1) = (kOk, f2, s2) /\
    f2 <| write_token := write_token f |> = f /\ next_fragment_ s2 = next_fragment_ s1.
Proof.
  intros Hwf%sender_reachable_wf Hf Hst.
  destruct (decide (state_ s = kSending)) as [Hs|Hs]; [|by rewrite NextFrame_other in Hf].
  destruct (NextFrame_sending _ frame s Hwf Hs) as
    (f' & s' & Hf' & Hdata & Hwf1 & Hsame & Hpend & Hpf & Hnext & Hstate).
  rewrite Hf in Hf'. injection Hf' as <- <-.
  assert (write_token f = pending_write_token_ s1) as -> by by subst. split.
  { intros token Hne. unfold OnFrameWrite. by rewrite Hpend, (proj2 (Z.eqb_neq _ _) Hne). }
  pose proof (wf_OnFrameWrite _ (pending_write_token_ s1) status s1 Hwf1) as Hwf2.
  rewrite (OnFrameWrite_rejected MaximumPayload) in * by done.
  destruct (NextFrame_sending _ frame _ Hwf2 eq_refl) as (f2 & s2 & Hf2 & Hd2 & _ & _ & _ & _ & Hn2 & _).
  rewrite Hf2. do 2 eexists. split; [done|]. cbn in Hn2. rewrite Hpf in *. split; [|congruence].
  rewrite Hd2, Hdata. cbn. destruct Hsame as (H1 & H2 & _ & _ & H5 & H6 & H7 & _).
  unfold data_frame. cbn. by rewrite H1, H2, H5, H6, H7.
Qed.


End Properties.

(** *** Witnesses: ten bytes on route 8 with two retries *)

Definition sample_context : ExecutionContext := MkExecutionContext "io" kThread 0.
Definition sample_payload : list Z := [1; 2; 3; 4; 5; 6; 7; 8; 9; 10].
Definition sample_begun : t := snd (Begin 16 8 kState 3 sample_payload 100 50 2 (init 16)).
Definition sample_sent : t :=
  snd (NextFrame CanFrame_default (snd (NextFrame CanFrame_default sample_begun))).

Lemma sample_begun_reachable : rtc (step 16) (init 16) sample_begun.
Proof. apply rtc_once, step_Begin; lia. Defined.

Lemma sample_sent_reachable : rtc (step 16) (init 16) sample_sent.
Proof.
  eapply rtc_r; [eapply rtc_r; [apply sample_begun_reachable|]|]; apply step_NextFrame.
Defined.

Lemma reliable_sender_safe_witness : retry_count_ sample_sent <= maximum_retries_ sample_sent.
Proof. apply (reliable_sender_safe 16 sample_sent sample_sent_reachable). reflexivity. Defined.

Lemma reliable_rejection_retried_witness :
  let r := NextFrame CanFrame_default sample_begun in
  exists f2 s2, NextFrame CanFrame_default (OnFrameWrite 1 kUnavailable (snd r)) = (kOk, f2, s2) /\
    f2 <| write_token := 1 |> = snd (fst r) /\ next_fragment_ s2 = 1.
Proof.
  apply (reliable_rejection_retried 16 CanFrame_default sample_begun
    (snd (fst (NextFrame CanFrame_default sample_begun)))
    (snd (NextFrame CanFrame_default sample_begun)) kUnavailable).
  - apply sample_begun_reachable.
  - vm_compute. reflexivity.
  - discriminate.
Defined.

