(* ===== verification/ReliableReceiver.v ===== *)
(** The receiving half of the reliable CAN path ([ReliableReceiver] of
    [transport/can/reliable_path.hpp]): it reassembles a message, acknowledges it,
    acknowledges a repeated one again without delivering it twice, and drops an
    unfinished one at its deadline. *)

From S2P Require Export ReliableSender FastPath.
From Stdlib Require Import Sorted.

Local Open Scope Z_scope.

Module ReliableReceiver.

Record ReliableReceiverStats := MkStats {
  accepted_frames : Z;
  completed : Z;
  invalid : Z;
  superseded : Z;
  duplicate_fragments : Z;
  duplicate_messages : Z;
  stale_messages : Z;
  sequence_gaps : Z;
  reassembly_timeouts : Z
}.
#[global] Instance eta_stats : Eta ReliableReceiverStats := fun r =>
  MkStats (accepted_frames r) (completed r) (invalid r) (superseded r) (duplicate_fragments r)
    (duplicate_messages r) (stale_messages r) (sequence_gaps r) (reassembly_timeouts r).

Record t := Mk {
  payload_ : list Z;
  fragment_lengths_ : list Z;
  route_id_ : Z;
  arbitration_id_ : Z;
  last_completed_arbitration_id_ : Z;
  received_mask_ : Z;
  reassembly_timeout_ns_ : Z;
  reassembly_deadline_ns_ : Z;
  last_observed_time_ns_ : Z;
  sequence_ : Z;
  fragment_count_ : Z;
  last_completed_sequence_ : Z;
  active_ : bool;
  has_completed_ : bool;
  has_observed_time_ : bool;
  stats_ : ReliableReceiverStats
}.
#[global] Instance eta_t : Eta t := fun r =>
  Mk (payload_ r) (fragment_lengths_ r) (route_id_ r) (arbitration_id_ r)
    (last_completed_arbitration_id_ r) (received_mask_ r) (reassembly_timeout_ns_ r)
    (reassembly_deadline_ns_ r) (last_observed_time_ns_ r) (sequence_ r) (fragment_count_ r)
    (last_completed_sequence_ r) (active_ r) (has_completed_ r) (has_observed_time_ r) (stats_ r).

Section MaximumPayload.
Context (MaximumPayload : nat).

Definition init (reassembly_timeout_ns : Z) : t :=
  Mk (zeros MaximumPayload) (zeros 16) 0 0 0 0 reassembly_timeout_ns 0 0 0 0 0 false false false
    (MkStats 0 0 0 0 0 0 0 0 0).

Definition Reset (r : t) : t :=
  r <| active_ := false |> <| received_mask_ := 0 |> <| fragment_count_ := 0 |>
    <| reassembly_deadline_ns_ := 0 |> <| fragment_lengths_ := zeros 16 |>.

(** What a call returns: the status and what it leaves in the two references. *)
Definition result : Type := Status * ReassembledMessage * CanFrame.

Definition nothing (status : Status) : result := (status, ReassembledMessage_default, CanFrame_default).

Definition Invalid (r : t) : result * t :=
  (nothing kInvalidArgument, r <| stats_ := bump invalid (stats_ r) |>).

(** The call sites with no output parameters use the status alone. *)
Definition ExpireIfDue (now_ns : Z) (r : t) : bool * t :=
  if negb (active_ r) || (reassembly_timeout_ns_ r =? 0) || (now_ns <? reassembly_deadline_ns_ r)
  then (false, r)
  else
    let r := Reset r in
    (true, r <| stats_ := bump reassembly_timeouts (stats_ r) |>).

Definition SequenceDistance (from to : Z) : Z := u8 (Z.land (to - from) 0x0f).

(** The second half of [PrepareMessage], about the last completed message. *)
Definition PrepareMessage_completed (arb sequence : Z) (r : t) : Status * t :=
  if negb (has_completed_ r) || negb (last_completed_arbitration_id_ r =? arb) then (kOk, r)
  else
    let distance := SequenceDistance (last_completed_sequence_ r) sequence in
    if distance =? 0 then (kOk, r)
    else if 7 <? distance then
      (kUnavailable, r <| stats_ := bump stale_messages (stats_ r) |>)
    else if 1 <? distance then (kOk, r <| stats_ := bump sequence_gaps (stats_ r) |>)
    else (kOk, r).

Definition PrepareMessage (arb sequence : Z) (r : t) : Status * t :=
  if active_ r then
    if negb (arbitration_id_ r =? arb) then
      PrepareMessage_completed arb sequence (Reset (r <| stats_ := bump superseded (stats_ r) |>))
    else
      let distance := SequenceDistance (sequence_ r) sequence in
      if distance =? 0 then (kOk, r)
      else if 7 <? distance then
        (kUnavailable, r <| stats_ := bump stale_messages (stats_ r) |>)
      else
        PrepareMessage_completed arb sequence
          (Reset (r <| stats_ := bump superseded (stats_ r) |>))
  else PrepareMessage_completed arb sequence r.

(** The acknowledgement of the message with [sequence]. *)
Definition ack_frame (arb sequence : Z) : CanFrame :=
  CanFrame_default
    <| arbitration_id := arb |> <| size := 1 |>
    <| data := <[0%nat := ReliableHeader kAck sequence]> (zeros 8) |>.

(** [AcceptImpl] from the point where the fragment belongs to the active message. *)
Definition AcceptImpl_store (frame : CanFrame) (index count : Z) (len : nat) (r : t) : result * t :=
  let offset := (Z.to_nat index * 6)%nat in
  let bit := u16 (Z.shiftl 1 index) in
  if negb (Z.land (received_mask_ r) bit =? 0) then
    (nothing kUnavailable, r <| stats_ := bump duplicate_fragments (stats_ r) |>)
  else
    let r := r
      <| payload_ := copy_into offset (subspan 2 len (data frame)) (payload_ r) |>
      <| fragment_lengths_ := <[Z.to_nat index := u8 (Z.of_nat len)]> (fragment_lengths_ r) |>
      <| received_mask_ := u16 (Z.lor (received_mask_ r) bit) |> in
    let r := r <| stats_ := bump accepted_frames (stats_ r) |> in
    let expected := u16 (Z.shiftl 1 count - 1) in
    if negb (received_mask_ r =? expected) then (nothing kUnavailable, r)
    else
      let total := sum_lengths (fragment_lengths_ r) (Z.to_nat count) in
      let acknowledgement := ack_frame (arbitration_id frame) (sequence_ r) in
      if has_completed_ r && (last_completed_arbitration_id_ r =? arbitration_id_ r) &&
         (last_completed_sequence_ r =? sequence_ r) then
        (kUnavailable, ReassembledMessage_default, acknowledgement,
         Reset (r <| stats_ := bump duplicate_messages (stats_ r) |>))
      else
        let message := MkReassembledMessage (route_id_ r) (sequence_ r) (take total (payload_ r)) in
        let r := r <| has_completed_ := true |>
          <| last_completed_arbitration_id_ := arbitration_id_ r |>
          <| last_completed_sequence_ := sequence_ r |> in
        (kOk, message, acknowledgement, Reset (r <| stats_ := bump completed (stats_ r) |>)).

Definition AcceptImpl (frame : CanFrame) (receive_time_ns : Z) (timed : bool) (r : t)
    : result * t :=
  match CanArbitrationId_Decode (arbitration_id frame) with
  | None => Invalid r
  | Some id =>
      let header := byte_at (data frame) 0 in
      if (size frame <? 3) || (8 <? size frame) ||
         negb (bool_decide (GetFrameKind header = kReliable)) ||
         negb (bool_decide (GetReliableSubtype header = kData)) then Invalid r
      else
        let sequence := u8 (Z.land header 0x0f) in
        let fragment := byte_at (data frame) 1 in
        let index := u8 (Z.land fragment 0x0f) in
        let count := u8 (Z.shiftr fragment 4 + 1) in
        let len := Z.to_nat (size frame - 2) in
        let offset := (Z.to_nat index * 6)%nat in
        if fragment_invalid MaximumPayload index count len then Invalid r
        else if (MaximumPayload <? offset + len)%nat then Invalid r
        else if negb (active_ r) || negb (arbitration_id_ r =? arbitration_id frame) ||
                negb (sequence_ r =? sequence) then
          let '(status, r) := PrepareMessage (arbitration_id frame) sequence r in
          if negb (IsOk status) then (nothing status, r)
          else
            let r := r <| active_ := true |> <| arbitration_id_ := arbitration_id frame |>
              <| route_id_ := id_route id |> <| sequence_ := sequence |>
              <| fragment_count_ := count |> in
            let r :=
              if timed && negb (reassembly_timeout_ns_ r =? 0) then
                r <| reassembly_deadline_ns_ :=
                  SaturatingAdd receive_time_ns (reassembly_timeout_ns_ r) |>
              else r in
            AcceptImpl_store frame index count len r
        else if negb (fragment_count_ r =? count) then Invalid r
        else AcceptImpl_store frame index count len r
  end.

(** [Accept(frame, message, acknowledgement)]. *)
Definition Accept (frame : CanFrame) (r : t) : result * t := AcceptImpl frame 0 false r.

(** [Accept(frame, receive_time_ns, message, acknowledgement)]. *)
Definition Accept_timed (frame : CanFrame) (receive_time_ns : Z) (r : t) : result * t :=
  if has_observed_time_ r && (receive_time_ns <? last_observed_time_ns_ r) then Invalid r
  else
    let r := r <| has_observed_time_ := true |> <| last_observed_time_ns_ := receive_time_ns |> in
    let '(_, r) := ExpireIfDue receive_time_ns r in
    AcceptImpl frame receive_time_ns true r.

Definition Poll (now_ns : Z) (r : t) : Status * t :=
  if has_observed_time_ r && (now_ns <? last_observed_time_ns_ r) then (kInvalidArgument, r)
  else
    let r := r <| has_observed_time_ := true |> <| last_observed_time_ns_ := now_ns |> in
    let '(expired, r) := ExpireIfDue now_ns r in
    (if expired then kTimeout else kUnavailable, r).

Definition ResetPeerHistory (r : t) : t :=
  Reset r <| has_completed_ := false |> <| last_completed_arbitration_id_ := 0 |>
    <| last_completed_sequence_ := 0 |> <| has_observed_time_ := false |>
    <| last_observed_time_ns_ := 0 |>.

#[global] Arguments PrepareMessage : simpl never.
#[global] Arguments AcceptImpl_store : simpl never.
#[global] Arguments AcceptImpl : simpl never.
#[global] Arguments ack_frame : simpl never.
#[global] Arguments SequenceDistance : simpl never.

(** ** Invariant *)

(** The relation of an admitted message to the last completed one of its
    identifier: a repetition of it, or at most seven ahead. *)
Definition admissible (r : t) (arb sequence : Z) : Prop :=
  has_completed_ r = true -> last_completed_arbitration_id_ r = arb ->
  SequenceDistance (last_completed_sequence_ r) sequence <= 7.

Definition same_last (r r' : t) : Prop :=
  has_completed_ r' = has_completed_ r /\
  last_completed_arbitration_id_ r' = last_completed_arbitration_id_ r /\
  last_completed_sequence_ r' = last_completed_sequence_ r.

Record wf (r : t) : Prop := {
  wf_payload : length (payload_ r) = MaximumPayload;
  wf_lengths : length (fragment_lengths_ r) = 16%nat;
  wf_sequences : 0 <= sequence_ r <= 0x0f /\ 0 <= last_completed_sequence_ r <= 0x0f;
  wf_inactive : active_ r = false -> received_mask_ r = 0;
  wf_active : active_ r = true ->
    fragments_safe MaximumPayload (fragment_count_ r) (received_mask_ r) (fragment_lengths_ r) /\
    admissible r (arbitration_id_ r) (sequence_ r)
}.

Inductive step : t -> t -> Prop :=
  | step_Accept frame r result r' : Accept frame r = (result, r') -> step r r'
  | step_Accept_timed frame now r result r' : Accept_timed frame now r = (result, r') -> step r r'
  | step_Poll now r status r' : Poll now r = (status, r') -> step r r'
  | step_ResetPeerHistory r : step r (ResetPeerHistory r).

(** ** Lemmas: invariant *)

Lemma SequenceDistance_mod from to : SequenceDistance from to = (to - from) mod 16.
Proof.
  unfold SequenceDistance. rewrite land_0f. apply u8_small.
  pose proof (Z.mod_pos_bound (to - from) 16). lia.
Qed.

Lemma SequenceDistance_0 from to :
  0 <= from <= 0x0f -> 0 <= to <= 0x0f -> SequenceDistance from to = 0 <-> to = from.
Proof.
  intros Hf Ht. rewrite SequenceDistance_mod. split; [|intros ->; by rewrite Z.sub_diag].
  intros H. apply Z.mod_divide in H as [k Hk]; lia.
Qed.

Lemma receiver_wf_init timeout : wf (init timeout).
Proof. split; cbn; try done; try lia. apply zeros_length. Qed.

Lemma receiver_wf_stats r s : wf r -> wf (r <| stats_ := s |>).
Proof. intros [Hb Hl Hs Hi Ha]. by split. Qed.

Lemma receiver_wf_Reset r : wf r -> wf (Reset r).
Proof. intros [Hb Hl Hs Hi Ha]. by split. Qed.

Lemma wf_observed r b n : wf r -> wf (r <| has_observed_time_ := b |> <| last_observed_time_ns_ := n |>).
Proof. intros [Hb Hl Hs Hi Ha]. by split. Qed.

Lemma ExpireIfDue_spec now r :
  wf r -> wf (snd (ExpireIfDue now r)) /\ same_last r (snd (ExpireIfDue now r)).
Proof.
  intros Hwf. unfold ExpireIfDue. split_if; [done|].
  split; [by apply (receiver_wf_stats (Reset r)), receiver_wf_Reset|done].
Qed.

Lemma PrepareMessage_completed_spec arb sequence r st r' :
  PrepareMessage_completed arb sequence r = (st, r') ->
  (st = kOk \/ st = kUnavailable) /\ (exists s, r' = r <| stats_ := s |>) /\
  (st = kOk -> admissible r arb sequence).
Proof.
  unfold PrepareMessage_completed, admissible. intros H.
  assert (exists s, r = r <| stats_ := s |>) as Hself by (exists (stats_ r); by destruct r).
  split_if_in H; [|split_if_in H; [|split_if_in H; [|split_if_in H]]];
    injection H as <- <-; bool_hyps; split_and!; eauto; try (intros; lia); try done.
  intros _ H1 H2. apply orb_true_iff in E as [E|E]; bool_hyps; congruence.
Qed.

(** A passed check leaves the receiver idle with its mask cleared, since a
    fragment of the active message does not get here. *)
Lemma PrepareMessage_spec arb sequence r st r' :
  PrepareMessage arb sequence r = (st, r') -> wf r -> 0 <= sequence <= 0x0f ->
  ~ (active_ r = true /\ arbitration_id_ r = arb /\ sequence_ r = sequence) ->
  wf r' /\ same_last r r' /\ (st = kOk \/ st = kUnavailable) /\
  reassembly_timeout_ns_ r' = reassembly_timeout_ns_ r /\
  (st = kOk -> active_ r' = false /\ admissible r' arb sequence).
Proof.
  unfold PrepareMessage. intros H Hwf Hseq Hnot.
  assert (forall q, wf q -> same_last r q -> active_ q = false ->
    reassembly_timeout_ns_ q = reassembly_timeout_ns_ r ->
    PrepareMessage_completed arb sequence q = (st, r') ->
    wf r' /\ same_last r r' /\ (st = kOk \/ st = kUnavailable) /\
    reassembly_timeout_ns_ r' = reassembly_timeout_ns_ r /\
    (st = kOk -> active_ r' = false /\ admissible r' arb sequence)) as Hdone.
  { intros q Hq Hl Ha Ht (Hst & [s ->] & Hok)%PrepareMessage_completed_spec.
    split_and!; try done; [by apply receiver_wf_stats|auto]. }
  assert (wf (Reset (r <| stats_ := bump superseded (stats_ r) |>))) as Hreset
    by by apply receiver_wf_Reset, receiver_wf_stats.
  destruct (active_ r) eqn:Ha; [|by apply (Hdone r)].
  split_if_in H; [by apply (Hdone _ Hreset)|]. bool_hyps.
  split_if_in H; [|split_if_in H].
  - bool_hyps. exfalso. apply Hnot. split; [done|]. split; [done|].
    destruct (wf_sequences _ Hwf). symmetry. by apply SequenceDistance_0.
  - injection H as <- <-. split_and!; auto; [by apply receiver_wf_stats|done..].
  - by apply (Hdone _ Hreset).
Qed.

(** What every call on [frame] guarantees. *)
Definition accept_post (frame : CanFrame) (r : t) (res : result) (r' : t) : Prop :=
  let '(st, message, ack) := res in
  wf r' /\ (length (msg_payload message) <= MaximumPayload)%nat /\
  (st <> kOk -> message = ReassembledMessage_default /\ same_last r r') /\
  (ack = CanFrame_default \/
     ack = ack_frame (arbitration_id frame) (last_completed_sequence_ r') /\
     (st = kOk \/ st = kUnavailable)) /\
  (st = kOk ->
     (has_completed_ r = true -> last_completed_arbitration_id_ r = arbitration_id frame ->
        1 <= SequenceDistance (last_completed_sequence_ r) (msg_sequence message) <= 7) /\
     has_completed_ r' = true /\ last_completed_arbitration_id_ r' = arbitration_id frame /\
     last_completed_sequence_ r' = msg_sequence message /\
     ack = ack_frame (arbitration_id frame) (msg_sequence message)).

Lemma accept_post_nothing frame r st r' :
  wf r' -> same_last r r' -> st <> kOk -> accept_post frame r (nothing st) r'.
Proof. intros. unfold accept_post, nothing. split_and!; try done; [cbn; lia|auto]. Qed.

Lemma accept_post_ext frame r r1 res r' :
  same_last r r1 -> accept_post frame r1 res r' -> accept_post frame r res r'.
Proof.
  destruct res as [[st m] ack]. unfold accept_post, same_last.
  intros (-> & -> & ->) (? & ? & Hbad & ? & Hgood). done.
Qed.

Lemma receiver_Accept_store_spec frame index count len r :
  wf r -> active_ r = true -> fragment_count_ r = count ->
  arbitration_id_ r = arbitration_id frame ->
  fragment_invalid MaximumPayload index count len = false -> 0 <= index ->
  (Z.to_nat index * 6 + len <= MaximumPayload)%nat ->
  let '(res, r') := AcceptImpl_store frame index count len r in accept_post frame r res r'.
Proof.
  intros Hwf Hact Hcount Harb Hinv Hi0 Hfit.
  apply fragment_invalid_false in Hinv as (Hi & Hc & Hlen & Hinner & Hmax); [|done].
  pose proof Hwf as [Hb Hl Hs _ Ha]. destruct (Ha Hact) as [Hsafe Hadm].
  rewrite Hcount in Hsafe. pose proof Hsafe as (_ & _ & Hmask & _).
  unfold AcceptImpl_store. rewrite u16_bit, u16_full_mask by lia. split_if.
  { apply accept_post_nothing; [by apply receiver_wf_stats|done..]. }
  cbn. rewrite (u16_lor_bit _ _ count), u8_small by lia.
  assert (fragments_safe MaximumPayload count (Z.lor (received_mask_ r) (Z.shiftl 1 index))
    (<[Z.to_nat index := Z.of_nat len]> (fragment_lengths_ r))) as Hsafe'.
  { apply fragments_safe_add; try done; try lia. }
  split_if.
  { apply accept_post_nothing; [|done..].
    split; cbn; [by rewrite copy_into_length|by rewrite length_insert|done|congruence|].
    rewrite Hcount. auto. }
  bool_hyps. pose proof (fragments_safe_total _ _ _ _ Hsafe' E0) as Htotal.
  assert (forall lc, 0 <= lc <= 0x0f -> forall hc la s p, length p = MaximumPayload ->
    wf (Mk p (zeros 16) (route_id_ r) (arbitration_id_ r) la 0
    (reassembly_timeout_ns_ r) 0 (last_observed_time_ns_ r) (sequence_ r) 0 lc false hc
    (has_observed_time_ r) s)) as Hwf'.
  { intros. split; cbn; try done; lia. }
  split_if; bool_hyps.
  - split_and!; try done; cbn; try lia.
    + apply Hwf'; cbn; [lia|by rewrite copy_into_length].
    + right. split; [by f_equal|auto].
  - split_and!; try done; cbn.
    + apply Hwf'; cbn; [lia|by rewrite copy_into_length].
    + rewrite length_take, copy_into_length. lia.
    + right. auto.
    + intros _. split_and!; try done. intros H1 H2. split; [|apply Hadm; congruence].
      rewrite H1, H2, Harb, Z.eqb_refl in E1. cbn in E1. bool_hyps.
      pose proof (SequenceDistance_mod (last_completed_sequence_ r) (sequence_ r)) as Hd.
      pose proof (Z.mod_pos_bound (sequence_ r - last_completed_sequence_ r) 16).
      destruct (Z.eq_dec (SequenceDistance (last_completed_sequence_ r) (sequence_ r)) 0) as [H0|];
        [|lia]. rewrite SequenceDistance_0 in H0 by lia. lia.
Qed.

Lemma AcceptImpl_spec frame now timed r :
  wf r -> let '(res, r') := AcceptImpl frame now timed r in accept_post frame r res r'.
Proof.
  intros Hwf. assert (accept_post frame r (fst (Invalid r)) (snd (Invalid r))) as Hinv.
  { apply accept_post_nothing; [by apply receiver_wf_stats|done..]. }
  unfold AcceptImpl. destruct (CanArbitrationId_Decode _) as [id|]; [|done].
  cbn zeta. split_if; [done|].
  match goal with |- context [fragment_invalid _ ?a ?b ?c] =>
    set (index := a) in *; set (count := b) in *; set (len := c) in * end.
  split_if; [done|].
  pose proof (u8_range (Z.land (byte_at (data frame) 1) 15)) as Hi. fold index in Hi.
  pose proof (fragment_invalid_false _ _ _ _ E0 ltac:(lia)) as (_ & Hc & _ & _ & Hmax).
  split_if; [done|]. bool_hyps.
  assert (0 <= u8 (Z.land (byte_at (data frame) 0) 0x0f) <= 0x0f) as Hsq.
  { rewrite land_0f. pose proof (Z.mod_pos_bound (byte_at (data frame) 0) 16).
    rewrite u8_small; lia. }
  set (sequence := u8 (Z.land (byte_at (data frame) 0) 0x0f)) in *.
  destruct (negb (active_ r) || _ || _)%bool eqn:Eact; [|split_if; [done|]].
  - destruct (PrepareMessage _ _ _) as [ps r1] eqn:Hps.
    apply PrepareMessage_spec in Hps as (Hwf1 & Hlast & Hst & Ht & Hok); try done.
    2: { intros (Hx1 & Hx2 & Hx3). by rewrite Hx1, Hx2, Hx3, !Z.eqb_refl in Eact. }
    destruct ps; cbn [negb IsOk]; try (by apply accept_post_nothing).
    destruct (Hok eq_refl) as [Ha1 Hadm]. destruct Hlast as (Hl1 & Hl2 & Hl3).
    match goal with |- context [AcceptImpl_store _ _ _ _ ?q] => set (r2 := q) end.
    assert (wf r2 /\ same_last r1 r2 /\ active_ r2 = true /\ fragment_count_ r2 = count /\
      arbitration_id_ r2 = arbitration_id frame) as (Hwf2 & (Hl4 & Hl5 & Hl6) & Ha2 & Hc2 & Har2).
    { destruct Hwf1 as [Hb1 Hle1 Hs1 Hi1 _]. unfold r2. split_if; cbn; split_and!; try done;
        split; cbn; try done; try lia; intros _; (split; [|done]);
        rewrite (Hi1 Ha1); by apply fragments_safe_start. }
    pose proof (receiver_Accept_store_spec frame index count len r2 Hwf2 Ha2 Hc2 Har2 E0 ltac:(lia) ltac:(lia))
      as Hpost.
    destruct (AcceptImpl_store _ _ _ _ _) as [res r3]. eapply accept_post_ext; [|exact Hpost].
    unfold same_last. by rewrite Hl4, Hl5, Hl6.
  - bool_hyps. apply receiver_Accept_store_spec; try done; lia.
Qed.

Lemma Accept_timed_spec frame now r :
  wf r -> let '(res, r') := Accept_timed frame now r in accept_post frame r res r'.
Proof.
  intros Hwf. unfold Accept_timed. split_if.
  { apply accept_post_nothing; [by apply receiver_wf_stats|done..]. }
  pose proof (ExpireIfDue_spec now _ (wf_observed r true now Hwf)) as [Hwf1 (H1 & H2 & H3)].
  destruct (ExpireIfDue _ _) as [e r1]. cbn in H1, H2, H3, Hwf1.
  pose proof (AcceptImpl_spec frame now true r1 Hwf1) as Hpost.
  destruct (AcceptImpl _ _ _ _) as [res r']. by eapply accept_post_ext; [|exact Hpost].
Qed.

Lemma receiver_reachable_wf timeout r : rtc step (init timeout) r -> wf r.
Proof.
  intros H. remember (init timeout) as r0. assert (wf r0) as Hwf by (subst; apply receiver_wf_init).
  clear Heqr0. induction H as [|r1 r2 r3 Hs _ IH]; [done|]. apply IH.
  destruct Hs as [frame r [[st m] ack] r' HA|frame now r [[st m] ack] r' HA|now r st r' HP|r].
  - pose proof (AcceptImpl_spec frame 0 false r Hwf) as Hp. unfold Accept in HA.
    rewrite HA in Hp. apply Hp.
  - pose proof (Accept_timed_spec frame now r Hwf) as Hp. rewrite HA in Hp. apply Hp.
  - unfold Poll in HP. split_if_in HP; [by injection HP as _ <-|].
    pose proof (ExpireIfDue_spec now _ (wf_observed r true now Hwf)) as [Hwf1 _].
    destruct (ExpireIfDue _ _) as [e r1]. by injection HP as _ <-.
  - destruct (receiver_wf_Reset _ Hwf) as [Hb Hl Hs _ _]. split; cbn in *; try done; lia.
Qed.

(** ** Lemmas: reassembly of one message *)

(** Either overload of [Accept]. *)
Definition accept_at (timed : bool) (now : Z) (frame : CanFrame) (r : t) : result * t :=
  if timed then Accept_timed frame now r else Accept frame r.

Fixpoint Accept_all (timed : bool) (arrivals : list (Z * CanFrame)) (r : t) : list result * t :=
  match arrivals with
  | [] => ([], r)
  | (now, frame) :: rest =>
      let '(res, r) := accept_at timed now frame r in
      let '(results, r) := Accept_all timed rest r in
      (res :: results, r)
  end.

Section Reassembly.
Context (p : CanPriority) (route arb sequence : Z) (payload : list Z).
Context (Hroute : 0 <= route) (Harb : CanArbitrationId_Encode p route = (kOk, arb)).
Context (Hseq : 0 <= sequence <= 0x0f).
Context (Hpos : (0 < length payload)%nat) (Hfit : (length payload <= MaximumPayload)%nat).

Let n : nat := fragment_count_of (length payload).
Context (Hn : (n <= 16)%nat).

(** The fields of the frame that carries fragment [i]. *)
Definition carries (i : nat) (frame : CanFrame) : Prop :=
  arbitration_id frame = arb /\
  size frame = Z.of_nat (fragment_length (length payload) i) + 2 /\
  byte_at (data frame) 0 = ReliableHeader kData sequence /\
  byte_at (data frame) 1 = fragment_byte (Z.of_nat n) (Z.of_nat i) /\
  subspan 2 (fragment_length (length payload) i) (data frame) = fragment_slice payload i.

Definition in_progress (r : t) : Prop :=
  wf r /\ active_ r = true /\ arbitration_id_ r = arb /\ route_id_ r = route /\
  sequence_ r = sequence /\ fragment_count_ r = Z.of_nat n /\
  0 <= received_mask_ r < 2 ^ Z.of_nat n /\
  collected payload (received_mask_ r) (fragment_lengths_ r) (payload_ r).

(** The message was already delivered. *)
Definition repeated (r : t) : bool :=
  has_completed_ r && (last_completed_arbitration_id_ r =? arb) &&
  (last_completed_sequence_ r =? sequence).

(** The result of the call that completes the message. *)
Definition final_result (r : t) : result :=
  if repeated r then (kUnavailable, ReassembledMessage_default, ack_frame arb sequence)
  else (kOk, MkReassembledMessage route sequence payload, ack_frame arb sequence).

Definition same_clock (r r' : t) : Prop :=
  has_observed_time_ r' = has_observed_time_ r /\
  last_observed_time_ns_ r' = last_observed_time_ns_ r /\
  reassembly_timeout_ns_ r' = reassembly_timeout_ns_ r /\
  reassembly_deadline_ns_ r' = reassembly_deadline_ns_ r.

Lemma header_fields :
  GetFrameKind (ReliableHeader kData sequence) = kReliable /\
  GetReliableSubtype (ReliableHeader kData sequence) = kData /\
  u8 (Z.land (ReliableHeader kData sequence) 0x0f) = sequence.
Proof.
  assert (ReliableHeader kData sequence = 128 + sequence) as ->.
  { unfold ReliableHeader. cbn [ReliableSubtype_value]. change (Z.lor 128 (u32 (Z.shiftl 0 4))) with 128.
    rewrite land_0f, (Z.mod_small sequence) by lia. rewrite Z.lor_comm.
    pose proof (lor_shiftl_add sequence 1 7) as Hor. change (Z.shiftl 1 7) with 128 in Hor.
    rewrite Hor by lia. rewrite u8_small by lia. lia. }
  unfold GetFrameKind, GetReliableSubtype. rewrite !Z.shiftr_div_pow2, land_0f by lia.
  replace ((128 + sequence) / 2 ^ 6) with 2 by (apply Z.div_unique with sequence; lia).
  replace ((128 + sequence) / 2 ^ 4) with 8 by (apply Z.div_unique with sequence; lia).
  replace (128 + sequence) with (sequence + 8 * 16) by lia.
  rewrite Z.mod_add, Z.mod_small, u8_small by lia. done.
Qed.

(** [AcceptImpl] takes such a frame past its guards. *)
Lemma AcceptImpl_frame i frame now timed r :
  (i < n)%nat -> carries i frame ->
  AcceptImpl frame now timed r =
    let len := fragment_length (length payload) i in
    if negb (active_ r) || negb (arbitration_id_ r =? arb) || negb (sequence_ r =? sequence) then
      let '(status, r) := PrepareMessage arb sequence r in
      if negb (IsOk status) then (nothing status, r)
      else
        let r := r <| active_ := true |> <| arbitration_id_ := arb |> <| route_id_ := route |>
                   <| sequence_ := sequence |> <| fragment_count_ := Z.of_nat n |> in
        let r := if timed && negb (reassembly_timeout_ns_ r =? 0)
          then r <| reassembly_deadline_ns_ := SaturatingAdd now (reassembly_timeout_ns_ r) |>
          else r in
        AcceptImpl_store frame (Z.of_nat i) (Z.of_nat n) len r
    else if negb (fragment_count_ r =? Z.of_nat n) then Invalid r
    else AcceptImpl_store frame (Z.of_nat i) (Z.of_nat n) len r.
Proof.
  intros Hi (Ha & Hs & H0 & H1 & _).
  destruct (fragment_byte_fields (Z.of_nat n) (Z.of_nat i)) as (_ & Hidx & Hcnt); [lia..|].
  destruct header_fields as (Hk & Hsub & Hsq).
  pose proof (fragment_length_pos (length payload) i Hi) as Hl.
  pose proof (fragment_length_fits (length payload) i Hi) as Hf.
  pose proof (fragment_valid MaximumPayload _ i Hi Hfit Hn) as Hv.
  unfold AcceptImpl. rewrite Ha, (Encode_Decode _ _ _ Hroute Harb), Hs, H0, H1, Hk, Hsub, Hsq.
  guard_false (Z.of_nat (fragment_length (length payload) i) + 2 <? 3).
  guard_false (8 <? Z.of_nat (fragment_length (length payload) i) + 2).
  rewrite !bool_decide_true by done. cbn [negb orb].
  rewrite Hidx, Hcnt, !u8_small, Nat2Z.id by lia. cbn [id_route].
  replace (Z.to_nat (Z.of_nat (fragment_length (length payload) i) + 2 - 2))
    with (fragment_length (length payload) i) by lia.
  fold n in Hv. rewrite Hv.
  guard_false (MaximumPayload <? i * 6 + fragment_length (length payload) i)%nat. done.
Qed.

Lemma store_frame i frame r :
  in_progress r -> (i < n)%nat -> carries i frame ->
  let '(res, r') :=
    AcceptImpl_store frame (Z.of_nat i) (Z.of_nat n) (fragment_length (length payload) i) r in
  let mask' := Z.lor (received_mask_ r) (Z.shiftl 1 (Z.of_nat i)) in
  if Z.testbit (received_mask_ r) (Z.of_nat i) || negb (mask' =? Z.shiftl 1 (Z.of_nat n) - 1) then
    res = nothing kUnavailable /\ in_progress r' /\ received_mask_ r' = mask' /\
    same_last r r' /\ same_clock r r'
  else
    res = final_result r /\ wf r' /\ active_ r' = false /\ repeated r' = true.
Proof.
  intros (Hwf & Ha & Har & Hro & Hs & Hc & Hm & Hcol) Hi (Hfa & _ & _ & _ & Hslice).
  pose proof (fragment_length_fits (length payload) i Hi) as Hff.
  pose proof (fragment_length_pos (length payload) i Hi) as Hfl.
  pose proof (fragment_valid MaximumPayload _ i Hi Hfit Hn) as Hv.
  pose proof (receiver_Accept_store_spec frame (Z.of_nat i) (Z.of_nat n) (fragment_length (length payload) i)
    r Hwf Ha Hc ltac:(congruence) Hv ltac:(lia) ltac:(lia)) as Hwf'.
  destruct (AcceptImpl_store _ _ _ _ _) as [res r'] eqn:HA.
  destruct res as [[st m] ack]. destruct Hwf' as (Hwf' & _).
  unfold AcceptImpl_store in HA. destruct Hwf as [Hb Hl _ _ _].
  rewrite u16_bit, u16_full_mask in HA by lia. rewrite Nat2Z.id in HA. cbn zeta.
  destruct (Z.testbit _ _) eqn:Hbit.
  - destruct (Z.land _ _ =? 0) eqn:El; cbn in HA.
    { bool_hyps. apply land_shiftl_1 in El; [congruence|lia]. }
    assert (Z.lor (received_mask_ r) (Z.shiftl 1 (Z.of_nat i)) = received_mask_ r) as ->.
    { apply Z.bits_inj'. intros k Hk. rewrite testbit_lor_shiftl_1 by lia.
      destruct (Z.eqb_spec (Z.of_nat i) k) as [<-|]; [by rewrite Hbit|by rewrite orb_false_r]. }
    injection HA as <- <- <- <-. done.
  - apply land_shiftl_1 in Hbit; [|lia]. rewrite Hbit in HA. cbn [negb Z.eqb orb] in HA |- *.
    rewrite Hslice, u8_small in HA by lia.
    cbn in HA. rewrite (u16_lor_bit _ _ (Z.of_nat n)) in HA by lia.
    pose proof (collected_add payload (received_mask_ r) (fragment_lengths_ r) (payload_ r) i
      Hcol Hi Hn ltac:(lia) Hl) as Hcol'.
    pose proof (lor_bit_range (received_mask_ r) (Z.of_nat i) (Z.of_nat n) ltac:(lia) Hm) as Hm'.
    destruct (_ =? Z.shiftl 1 _ - 1) eqn:Efull; cbn in HA.
    + bool_hyps.
      destruct (collected_full _ _ _ _ Hcol' Hpos) as [Hsum Htake];
        [by rewrite copy_into_length; lia|done|].
      fold n in Hsum. rewrite Nat2Z.id, Hsum, Htake, Hro, Hs, Har, Hfa in HA.
      fold (repeated r) in HA. unfold final_result.
      destruct (repeated r) eqn:Erep; injection HA as <- <- <- <-; split_and!; try done.
      unfold repeated. cbn. by rewrite !Z.eqb_refl.
    + injection HA as <- <- <- <-. cbn. split_and!; try done; lia.
Qed.

(** *** Time *)

(** Neither the clock nor the deadline gets in the way of the arrivals at [times]. *)
Definition on_time (timed : bool) (times : list Z) (r : t) : Prop :=
  timed = true ->
  (has_observed_time_ r = true -> Forall (fun now => last_observed_time_ns_ r <= now) times) /\
  StronglySorted Z.le times /\
  (active_ r = true -> reassembly_timeout_ns_ r <> 0 ->
     Forall (fun now => now < reassembly_deadline_ns_ r) times).

Definition observed (timed : bool) (now : Z) (r : t) : t :=
  if timed then r <| has_observed_time_ := true |> <| last_observed_time_ns_ := now |> else r.

Lemma accept_at_on_time timed now times frame r :
  on_time timed (now :: times) r ->
  accept_at timed now frame r =
    AcceptImpl frame (if timed then now else 0) timed (observed timed now r).
Proof.
  intros Ht. unfold accept_at, Accept_timed, Accept, observed. destruct timed; [|done].
  destruct (Ht eq_refl) as (Ho & _ & Hd).
  assert ((has_observed_time_ r && (now <? last_observed_time_ns_ r))%bool = false) as ->.
  { destruct (has_observed_time_ r); [|done]. cbn. solve_guard.
    specialize (Ho eq_refl). by apply Forall_cons in Ho as [? _]. }
  unfold ExpireIfDue. cbn.
  destruct (active_ r); cbn; [|done]. destruct (Z.eqb_spec (reassembly_timeout_ns_ r) 0); [done|].
  specialize (Hd eq_refl n0). apply Forall_cons in Hd as [Hd _].
  by rewrite (proj2 (Z.ltb_lt _ _) Hd).
Qed.

Lemma in_progress_observed timed now r : in_progress r -> in_progress (observed timed now r).
Proof.
  unfold observed. destruct timed; [|done].
  intros (Hwf & H). split; [by apply wf_observed|done].
Qed.

Lemma on_time_next timed now times r r' :
  on_time timed (now :: times) r -> active_ r = true ->
  same_clock (observed timed now r) r' -> on_time timed times r'.
Proof.
  intros Ht Ha (H1 & H2 & H3 & H4) ->. destruct (Ht eq_refl) as (Ho & Hs & Hd). cbn in *.
  apply StronglySorted_inv in Hs as [Hs Hle].
  split_and!; [by rewrite H2|done|]. rewrite H3, H4. intros _ Hne.
  specialize (Hd Ha Hne). by apply Forall_cons in Hd as [_ ?].
Qed.

(** *** Runs *)

Lemma AcceptImpl_next i frame now timed r :
  in_progress r -> (i < n)%nat -> carries i frame ->
  AcceptImpl frame now timed r =
    AcceptImpl_store frame (Z.of_nat i) (Z.of_nat n) (fragment_length (length payload) i) r.
Proof.
  intros (_ & Ha & Har & _ & Hs & Hc & _) Hi Hf.
  by rewrite (AcceptImpl_frame i), Ha, Har, Hs, Hc, !Z.eqb_refl.
Qed.

(** Any fragment may come first; it starts the message and its deadline. *)
Lemma AcceptImpl_first i frame now timed r :
  wf r -> active_ r = false -> admissible r arb sequence -> (i < n)%nat -> carries i frame ->
  exists r0, in_progress r0 /\ received_mask_ r0 = 0 /\ same_last r r0 /\
    has_observed_time_ r0 = has_observed_time_ r /\
    last_observed_time_ns_ r0 = last_observed_time_ns_ r /\
    reassembly_timeout_ns_ r0 = reassembly_timeout_ns_ r /\
    (timed = true -> reassembly_timeout_ns_ r <> 0 ->
       reassembly_deadline_ns_ r0 = SaturatingAdd now (reassembly_timeout_ns_ r)) /\
    AcceptImpl frame now timed r =
      AcceptImpl_store frame (Z.of_nat i) (Z.of_nat n) (fragment_length (length payload) i) r0.
Proof.
  intros Hwf Hact Hadm Hi Hf. rewrite (AcceptImpl_frame i), Hact by done. cbn [negb orb].
  assert (exists s, PrepareMessage arb sequence r = (kOk, r <| stats_ := s |>)) as [s ->].
  { unfold PrepareMessage. rewrite Hact.
    destruct (PrepareMessage_completed _ _ _) as [st r'] eqn:E.
    pose proof E as Hdef. apply PrepareMessage_completed_spec in E as (Hst & [s ->] & _).
    unfold PrepareMessage_completed in Hdef. exists s. f_equal. unfold admissible in Hadm.
    destruct (has_completed_ r); [|by injection Hdef].
    destruct (Z.eqb_spec (last_completed_arbitration_id_ r) arb) as [El|]; [|by injection Hdef].
    specialize (Hadm eq_refl El). cbn in Hdef.
    repeat (split_if_in Hdef; bool_hyps; try lia; try by injection Hdef). }
  cbn [negb IsOk]. eexists; split_and!; [..|reflexivity]; try (destruct (timed && _)%bool; done).
  - destruct Hwf as [Hb Hl Hsq Hi0 _].
    pose proof (fragment_count_bounds (length payload) Hpos) as (Hb1 & Hb2 & Hb3).
    fold n in Hb1, Hb2, Hb3.
    assert (forall d, in_progress (Mk (payload_ r) (fragment_lengths_ r) route arb
      (last_completed_arbitration_id_ r) (received_mask_ r) (reassembly_timeout_ns_ r) d
      (last_observed_time_ns_ r) sequence (Z.of_nat n) (last_completed_sequence_ r) true
      (has_completed_ r) (has_observed_time_ r) s)) as Hp.
    { intros d. split_and!; cbn; try done; rewrite ?(Hi0 Hact); try lia; [|apply collected_start].
      split; cbn; try done; [lia|]. intros _. rewrite ?(Hi0 Hact).
      split; [apply fragments_safe_start; lia|done]. }
    destruct (timed && _)%bool; apply Hp.
  - destruct Hwf as [_ _ _ Hi0 _]. destruct (timed && _)%bool; by apply Hi0.
  - intros -> Hne. cbn. by destruct (Z.eqb_spec (reassembly_timeout_ns_ r) 0).
Qed.

(** Storing a fragment while another one is missing. *)
Lemma store_continues i frame r seen missing :
  in_progress r -> received_mask_ r = mask_of 0 seen ->
  Forall (fun i => (i < n)%nat) (seen ++ [i]) -> carries i frame ->
  (missing < n)%nat -> missing ∉ seen ++ [i] ->
  exists r', AcceptImpl_store frame (Z.of_nat i) (Z.of_nat n) (fragment_length (length payload) i) r =
      (nothing kUnavailable, r') /\
    in_progress r' /\ received_mask_ r' = mask_of 0 (seen ++ [i]) /\
    same_last r r' /\ same_clock r r'.
Proof.
  intros Hp Hm Hall Hf Hmiss Hnot. assert ((i < n)%nat) as Hi.
  { rewrite Forall_app, Forall_singleton in Hall. tauto. }
  pose proof (store_frame i frame r Hp Hi Hf) as Hstore.
  destruct (AcceptImpl_store _ _ _ _ _) as [res r']. cbn zeta in Hstore.
  assert (Z.lor (received_mask_ r) (Z.shiftl 1 (Z.of_nat i)) = mask_of 0 (seen ++ [i])) as Hs.
  { rewrite Hm. unfold mask_of. by rewrite foldl_app. }
  rewrite Hs in Hstore. replace (_ || _)%bool with true in Hstore.
  - destruct Hstore as (-> & ? & ? & ? & ?). by exists r'.
  - symmetry. apply orb_true_iff. right. solve_guard. rewrite mask_of_full by done.
    intros H. by apply Hnot, H.
Qed.

(** Storing the last missing fragment. *)
Lemma store_completes last frame r seen :
  in_progress r -> received_mask_ r = mask_of 0 seen -> Forall (fun i => (i < n)%nat) seen ->
  carries last frame -> (last < n)%nat -> last ∉ seen ->
  (forall j, (j < n)%nat -> j = last \/ j ∈ seen) ->
  exists r', AcceptImpl_store frame (Z.of_nat last) (Z.of_nat n)
      (fragment_length (length payload) last) r = (final_result r, r') /\
    wf r' /\ active_ r' = false /\ repeated r' = true.
Proof.
  intros Hp Hm Hall Hf Hlast Hnot Hcover.
  pose proof (store_frame last frame r Hp Hlast Hf) as Hstore.
  destruct (AcceptImpl_store _ _ _ _ _) as [res r']. cbn zeta in Hstore.
  assert (Z.lor (mask_of 0 seen) (Z.shiftl 1 (Z.of_nat last)) = mask_of 0 (seen ++ [last])) as Hs
    by (unfold mask_of; by rewrite foldl_app).
  assert (Z.testbit (mask_of 0 seen) (Z.of_nat last) = false) as Hb.
  { apply not_true_iff_false. rewrite mask_of_testbit, Z.bits_0. intros [?|?]; done. }
  assert (Forall (fun i => (i < n)%nat) (seen ++ [last])) as Hall' by (apply Forall_app; auto).
  apply mask_of_full in Hall' as Hfull.
  rewrite Hm, Hs, Hb, (proj2 Hfull) in Hstore.
  - rewrite Z.eqb_refl in Hstore. cbn [negb orb] in Hstore.
    destruct Hstore as (-> & ? & ? & ?). by exists r'.
  - intros j Hj. apply elem_of_app.
    destruct (Hcover j Hj) as [->|]; [right; by apply list_elem_of_singleton|by left].
Qed.

Lemma repeated_same_last r r' : same_last r r' -> repeated r' = repeated r.
Proof. unfold repeated. by intros (-> & -> & ->). Qed.

Lemma final_result_same_last r r' : same_last r r' -> final_result r' = final_result r.
Proof. intros H. unfold final_result. by rewrite (repeated_same_last _ _ H). Qed.

Lemma same_last_observed timed now r : same_last r (observed timed now r).
Proof. by destruct timed. Qed.

(** The arrivals of fragments [received] at [times]. *)
Definition arrives (frame : nat -> CanFrame) (times : list Z) (received : list nat)
    : list (Z * CanFrame) :=
  zip times (frame <$> received).

Lemma receiver_Accept_all_snoc timed xs now frame r :
  Accept_all timed (xs ++ [(now, frame)]) r =
    let '(results, r) := Accept_all timed xs r in
    let '(res, r) := accept_at timed now frame r in (results ++ [res], r).
Proof.
  revert r. induction xs as [|[now' x] xs IH]; intros r; cbn [app Accept_all].
  - by destruct (accept_at timed now frame r).
  - destruct (accept_at timed now' x r) as [res r1]. rewrite IH.
    destruct (Accept_all timed xs r1). by destruct (accept_at timed now frame _).
Qed.

(** Fragments that leave one missing are absorbed. *)
Lemma receiver_Accept_all_partial timed frame times received seen r missing late :
  (forall i, (i < n)%nat -> carries i (frame i)) ->
  in_progress r -> received_mask_ r = mask_of 0 seen -> length times = length received ->
  on_time timed (times ++ late) r ->
  Forall (fun i => (i < n)%nat) (seen ++ received) ->
  (missing < n)%nat -> missing ∉ seen ++ received ->
  exists r', Accept_all timed (arrives frame times received) r =
      (replicate (length received) (nothing kUnavailable), r') /\
    in_progress r' /\ received_mask_ r' = mask_of 0 (seen ++ received) /\
    same_last r r' /\ on_time timed late r'.
Proof.
  intros Hf. revert times seen r. induction received as [|i l IH];
    intros [|now times] seen r Hp Hm Hlen Ht Hl Hmiss Hnot; try done.
  - exists r. by rewrite app_nil_r.
  - assert ((i < n)%nat) as Hi by (rewrite Forall_app, Forall_cons in Hl; tauto).
    replace (seen ++ i :: l) with ((seen ++ [i]) ++ l) in * by by rewrite <- app_assoc.
    pose proof (in_progress_observed timed now r Hp) as Hpo.
    assert (received_mask_ (observed timed now r) = mask_of 0 seen) as Hmo by by destruct timed.
    rewrite <- app_assoc in Hnot. cbn [app] in Hnot.
    destruct (store_continues i (frame i) _ seen missing Hpo Hmo) as (r1 & Hst & Hp1 & Hm1 & Hl1 & Hc1);
      [by apply Forall_app in Hl as [? _]|by apply Hf|done| |].
    { intros Hin. apply Hnot. rewrite elem_of_app, elem_of_cons. apply elem_of_app in Hin.
      rewrite list_elem_of_singleton in Hin. tauto. }
    cbn [arrives zip zip_with fmap list_fmap map Accept_all].
    rewrite (accept_at_on_time _ _ _ _ _ Ht), (AcceptImpl_next i), Hst by auto.
    pose proof (on_time_next timed now (times ++ late) r r1 Ht (proj1 (proj2 Hp)) Hc1) as Ht1.
    destruct (IH times (seen ++ [i]) r1 Hp1 Hm1 ltac:(by injection Hlen) Ht1 Hl Hmiss)
      as (r' & Hrun & Hp' & Hm' & Hl' & Ht'); [by rewrite <- app_assoc|].
    exists r'. unfold arrives in Hrun. rewrite Hrun. split_and!; try done.
    pose proof (same_last_observed timed now r) as Hlo. unfold same_last in *.
    intuition congruence.
Qed.

(** The message completes at the frame that brings the last missing fragment. *)
Lemma receiver_Accept_all_delivers timed frame order last times r :
  (forall i, (i < n)%nat -> carries i (frame i)) ->
  wf r -> active_ r = false -> admissible r arb sequence ->
  Forall (fun i => (i < n)%nat) order -> (last < n)%nat -> last ∉ order ->
  (forall j, (j < n)%nat -> j = last \/ j ∈ order) ->
  length times = S (length order) -> on_time timed times r ->
  (timed = true -> reassembly_timeout_ns_ r <> 0 ->
     Forall (fun now => now < SaturatingAdd (hd 0 times) (reassembly_timeout_ns_ r)) (tl times)) ->
  exists r', Accept_all timed (arrives frame times (order ++ [last])) r =
      (replicate (length order) (nothing kUnavailable) ++ [final_result r], r') /\
    wf r' /\ active_ r' = false /\ repeated r' = true.
Proof.
  intros Hf Hwf Hact Hadm Hall Hlast Hnot Hcover Hlen Ht Hdl.
  assert (n <> 0%nat) as Hn0 by lia.
  destruct times as [|now times]; [done|]. cbn [hd tl] in Hdl. injection Hlen as Hlen.
  set (i := hd last order). assert (i < n)%nat as Hi.
  { unfold i. destruct order; [done|]. by apply Forall_cons in Hall as [? _]. }
  assert (wf (observed timed now r) /\ active_ (observed timed now r) = false /\
    admissible (observed timed now r) arb sequence /\
    reassembly_timeout_ns_ (observed timed now r) = reassembly_timeout_ns_ r /\
    same_last r (observed timed now r)) as (Hwfo & Hacto & Hadmo & Hto & Hlo).
  { unfold observed. destruct timed; [|done]. split; [by apply wf_observed|done]. }
  destruct (AcceptImpl_first i (frame i) (if timed then now else 0) timed _ Hwfo Hacto Hadmo Hi (Hf i Hi))
    as (r0 & Hp0 & Hm0 & Hl0 & Ho0 & Hla0 & Hto0 & Hd0 & Hacc).
  assert (repeated r0 = repeated r) as Hrep0.
  { unfold repeated. destruct Hl0 as (-> & -> & ->). by destruct Hlo as (-> & -> & ->). }
  rewrite <- (accept_at_on_time _ _ _ _ _ Ht) in Hacc.
  assert (final_result r0 = final_result r) as Hfinal.
  { rewrite (final_result_same_last _ _ Hl0). by apply final_result_same_last. }
  destruct order as [|first received].
  - destruct times; [|done]. subst i. cbn [hd] in *.
    destruct (store_completes last (frame last) r0 [] Hp0 Hm0) as (r' & Hst & Hrest); auto.
    cbn [app arrives zip zip_with fmap list_fmap map Accept_all replicate length].
    rewrite Hacc, Hst, Hfinal. by exists r'.
  - subst i. cbn [hd] in *. pose proof Hall as [_ Hallr]%Forall_cons.
    destruct (store_continues first (frame first) r0 [] last Hp0 Hm0)
      as (r1 & Hst & Hp1 & Hm1 & Hl1 & (Hc1 & Hc2 & Hc3 & Hc4)); auto.
    { by apply Forall_singleton. }
    { intros H%list_elem_of_singleton. apply Hnot. subst. apply elem_of_cons. by left. }
    destruct (exists_last (l := times)) as (late & tn & ->); [by intros ->|].
    rewrite length_app, Nat.add_comm in Hlen. injection Hlen as Hlen.
    assert (on_time timed (late ++ [tn]) r1) as Ht1.
    { intros ->. destruct (Ht eq_refl) as (_ & [Hs Hle]%StronglySorted_inv & _).
      split_and!; [|done|].
      - intros _. by rewrite Hc2, Hla0.
      - intros _. rewrite Hc3, Hto0, Hc4, Hto. intros Hne. rewrite Hd0, Hto by (done || by rewrite Hto).
        by apply Hdl. }
    destruct (receiver_Accept_all_partial timed frame late received [first] r1 last [tn] Hf Hp1 Hm1 Hlen Ht1 Hall
      Hlast Hnot) as (r2 & Hrun & Hp2 & Hm2 & Hl2 & Ht2).
    pose proof (in_progress_observed timed tn r2 Hp2) as Hpo.
    destruct (store_completes last (frame last) (observed timed tn r2) (first :: received) Hpo)
      as (r' & Hst' & Hrest); auto.
    { change (first :: received) with ([first] ++ received). rewrite <- Hm2. by destruct timed. }
    exists r'. split; [|done]. unfold arrives in *. rewrite <- app_comm_cons, fmap_cons.
    cbn [zip_with Accept_all]. rewrite Hacc, Hst, fmap_app.
    rewrite zip_with_app by by rewrite length_fmap.
    change (zip [tn] (frame <$> [last])) with [(tn, frame last)]. rewrite receiver_Accept_all_snoc, Hrun.
    rewrite (accept_at_on_time _ _ _ _ _ Ht2), (AcceptImpl_next last), Hst' by auto.
    rewrite (final_result_same_last r2) by apply same_last_observed.
    rewrite (final_result_same_last r1), (final_result_same_last r0), Hfinal by done. done.
Qed.

End Reassembly.

End MaximumPayload.
End ReliableReceiver.
