(* ===== verification/ReliablePath.v ===== *)
(** The reliable CAN path end to end: what [ReliableSender] puts on the wire,
    [ReliableReceiver] turns back into the message, once, and acknowledges. *)

From S2P Require Export ReliableReceiver.
From Stdlib Require Import Sorted.

Local Open Scope Z_scope.

Notation sender := ReliableSender.t.
Notation receiver := ReliableReceiver.t.

(** ** Calls that deliver nothing *)

Inductive quiet (MaximumPayload : nat) : receiver -> receiver -> Prop :=
  | quiet_Accept frame r st message ack r' :
      ReliableReceiver.Accept MaximumPayload frame r = (st, message, ack, r') -> st <> kOk ->
      quiet MaximumPayload r r'
  | quiet_Accept_timed frame now r st message ack r' :
      ReliableReceiver.Accept_timed MaximumPayload frame now r = (st, message, ack, r') ->
      st <> kOk -> quiet MaximumPayload r r'
  | quiet_Poll now r st r' : ReliableReceiver.Poll now r = (st, r') -> quiet MaximumPayload r r'.

(** ** Lemmas *)

Section Lemmas.
Context (MaximumPayload : nat).

Lemma quiet_same_last r r' :
  quiet MaximumPayload r r' -> ReliableReceiver.wf MaximumPayload r ->
  ReliableReceiver.wf MaximumPayload r' /\ ReliableReceiver.same_last r r'.
Proof.
  intros [frame q st m ack q' HA Hst|frame now q st m ack q' HA Hst|now q st q' HP] Hwf.
  - pose proof (ReliableReceiver.AcceptImpl_spec MaximumPayload frame 0 false q Hwf) as Hp.
    unfold ReliableReceiver.Accept in HA. rewrite HA in Hp. destruct Hp as (? & _ & Hbad & _).
    by destruct (Hbad Hst).
  - pose proof (ReliableReceiver.Accept_timed_spec MaximumPayload frame now q Hwf) as Hp.
    rewrite HA in Hp. destruct Hp as (? & _ & Hbad & _). by destruct (Hbad Hst).
  - unfold ReliableReceiver.Poll in HP. split_if_in HP; [by injection HP as _ <-|].
    pose proof (ReliableReceiver.ExpireIfDue_spec MaximumPayload now _
      (ReliableReceiver.wf_observed MaximumPayload q true now Hwf)) as [Hwf1 Hl].
    destruct (ReliableReceiver.ExpireIfDue _ _) as [e q1]. by injection HP as _ <-.
Qed.

Lemma quiet_trace r r' :
  rtc (quiet MaximumPayload) r r' -> ReliableReceiver.wf MaximumPayload r ->
  ReliableReceiver.wf MaximumPayload r' /\ ReliableReceiver.same_last r r'.
Proof.
  induction 1 as [|r1 r2 r3 Hq _ IH]; intros Hwf; [done|].
  destruct (quiet_same_last _ _ Hq Hwf) as [Hwf2 (H1 & H2 & H3)].
  destruct (IH Hwf2) as [Hwf3 (H4 & H5 & H6)]. split; [done|].
  unfold ReliableReceiver.same_last. by rewrite H4, H5, H6.
Qed.

(** A sender that holds [payload]. *)
Definition holds (arb sequence : Z) (payload : list Z) (s : sender) : Prop :=
  ReliableSender.payload_size_ s = length payload /\
  take (length payload) (ReliableSender.payload_ s) = payload /\
  ReliableSender.arbitration_id_ s = arb /\ ReliableSender.sequence_ s = sequence /\
  ReliableSender.fragment_count_ s = Z.of_nat (fragment_count_of (length payload)).

Lemma take_subspan (l : list Z) k off len :
  (off + len <= k)%nat -> subspan off len (take k l) = subspan off len l.
Proof.
  intros H. apply list_eq. intros i. destruct (decide (i < len)%nat).
  - rewrite !subspan_lookup by done. by rewrite lookup_take_lt by lia.
  - unfold subspan. rewrite !lookup_ge_None_2; [done|..]; rewrite length_take; lia.
Qed.

Lemma data_frame_carries arb sequence payload s i :
  holds arb sequence payload s -> (i < fragment_count_of (length payload))%nat ->
  (fragment_count_of (length payload) <= 16)%nat ->
  ReliableReceiver.carries arb sequence payload i (ReliableSender.data_frame (Z.of_nat i) s).
Proof.
  intros (Hsz & Hp & Ha & Hs & Hc) Hi H16.
  pose proof (fragment_length_pos (length payload) i Hi) as Hl.
  pose proof (fragment_length_fits (length payload) i Hi) as Hf.
  unfold ReliableSender.data_frame, ReliableReceiver.carries.
  cbn [arbitration_id size data set_field]. rewrite Nat2Z.id, Hsz, Ha, Hs, Hc.
  change (Nat.min 6 (length payload - i * 6)) with (fragment_length (length payload) i).
  rewrite <- (take_subspan _ (length payload)), Hp by lia.
  change (subspan (i * 6) (fragment_length (length payload) i) payload)
    with (fragment_slice payload i).
  match goal with |- context [copy_into 2 _ (<[1%nat:=?b1]> (<[0%nat:=?b0]> _))] =>
    destruct (frame_data_lookup b0 b1 (fragment_slice payload i)
      (fragment_length (length payload) i)) as (H0 & H1 & H2 & _) end.
  { rewrite fragment_slice_length by done. lia. }
  { by rewrite fragment_slice_length. }
  split_and!; [done|apply u8_small; lia|by apply byte_at_lookup|by apply byte_at_lookup|done].
Qed.

(** A begun message is held, and goes out as its data frames in order. *)
Lemma Begin_holds p route sequence payload now timeout retries s s' :
  0 <= route -> 0 <= sequence -> ReliableSender.wf MaximumPayload s ->
  ReliableSender.Begin MaximumPayload route p sequence payload now timeout retries s = (kOk, s') ->
  exists arb, CanArbitrationId_Encode p route = (kOk, arb) /\ holds arb sequence payload s' /\
    sequence <= 0x0f /\ (1 <= length payload <= MaximumPayload)%nat /\
    (fragment_count_of (length payload) <= 16)%nat /\
    ReliableSender.state_ s' = kSending /\ ReliableSender.next_fragment_ s' = 0.
Proof.
  intros Hr Hs Hwf HB.
  pose proof (ReliableSender.Begin_spec MaximumPayload route p sequence payload now timeout
    retries s Hr) as Hspec. rewrite HB in Hspec.
  destruct Hspec as [(? & _)|(_ & _ & Hp & Hseq & _ & H16 & arb & stats & Ha & Heq)]; [done|].
  cbn in Heq. exists arb. subst s'. split_and!; try done; try lia. cbn.
  split_and!; try done. apply take_copy_into. pose proof (ReliableSender.wf_buffer _ _ Hwf). lia.
Qed.

Lemma Begin_accepts p route sequence payload now timeout retries s :
  1 <= route <= kMaximumRouteId -> sequence <= 0x0f -> timeout <> 0 -> ReliableSender.busy s = false ->
  (1 <= length payload <= MaximumPayload)%nat -> (length payload <= 96)%nat ->
  (ReliableSender.Begin MaximumPayload route p sequence payload now timeout retries s).1 = kOk.
Proof.
  intros Hr Hq Ht Hb Hl H96. unfold ReliableSender.Begin. rewrite Hb.
  guard_false ((length payload =? 0)%nat || (MaximumPayload <? length payload)%nat || (15 <? sequence) ||
               (timeout =? 0))%bool.
  rewrite (arbitration_Encode_ok p route Hr). cbn [IsOk negb].
  pose proof (fragment_count_bounds (length payload) ltac:(lia)) as (Hb1 & _).
  guard_false (16 <? fragment_count_of (length payload))%nat. done.
Qed.

(** A begun message goes out whole: the loop writes one frame per fragment and
    leaves the sender waiting for the acknowledgement. *)
Lemma begun_is_emitted {W St} (emit : CanFrame -> W -> W) context (on_sent on_failed : St -> St) st w p route
    sequence payload now timeout retries s s1 :
  ReliableSender.wf MaximumPayload s -> 0 <= route -> 0 <= sequence -> 0 <= retries < 256 ->
  ReliableSender.Begin MaximumPayload route p sequence payload now timeout retries s = (kOk, s1) ->
  exists arb st' s2 wire, CanArbitrationId_Encode p route = (kOk, arb) /\
    ReliableSender.Pump (Some (ReliableSender.emitting emit)) context on_sent on_failed st s1 w =
      (kOk, st', s2, ReliableSender.emitted emit wire w) /\
    length wire = fragment_count_of (length payload) /\
    (forall i, (i < length wire)%nat ->
       ReliableReceiver.carries arb sequence payload i (nth i wire CanFrame_default)) /\
    ReliableSender.wf MaximumPayload s2 /\ holds arb sequence payload s2 /\
    ReliableSender.state_ s2 = kWaitingForAck /\
    sequence <= 0x0f /\ (1 <= length payload <= MaximumPayload)%nat /\
    (fragment_count_of (length payload) <= 16)%nat.
Proof.
  intros Hs Hroute Hseq0 Hretr HB.
  destruct (Begin_holds _ _ _ _ _ _ _ _ _ Hroute Hseq0 Hs HB)
    as (arb & Harb & Hholds & Hseq & Hlen & H16 & Hst & Hnx).
  pose proof (ReliableSender.wf_Begin MaximumPayload route p sequence payload now timeout retries s
    Hroute Hseq0 Hretr Hs) as Hwf1. rewrite HB in Hwf1. cbn [snd] in Hwf1.
  destruct (ReliableSender.Pump_loop_emits MaximumPayload emit context on_sent on_failed
    (ReliableSender.pump_fuel s1) st s1 w Hwf1 Hst ltac:(unfold ReliableSender.pump_fuel; lia))
    as (st' & s2 & Hpump & Hwf2 & Hsame & Hst2).
  assert (holds arb sequence payload s2) as Hholds2.
  { destruct Hsame as (E1 & E2 & _ & _ & E5 & E6 & E7 & _). unfold holds.
    by rewrite E1, E2, E5, E6, E7. }
  pose proof Hholds as (_ & _ & _ & _ & Hc).
  rewrite Hnx, Hc, Z.sub_0_r, Nat2Z.id in Hpump. cbn [Z.to_nat] in Hpump.
  do 4 eexists. split; [exact Harb|]. split; [exact Hpump|].
  rewrite length_fmap, length_seq. split_and!; try done; try lia.
  intros i Hi. rewrite nth_lookup, list_lookup_fmap, lookup_seq_lt by done. by apply data_frame_carries.
Qed.

Lemma begun_goes_out {St} context (on_sent on_failed : St -> St) st log p route sequence payload now timeout
    retries s s1 :
  ReliableSender.wf MaximumPayload s -> 0 <= route -> 0 <= sequence -> 0 <= retries < 256 ->
  ReliableSender.Begin MaximumPayload route p sequence payload now timeout retries s = (kOk, s1) ->
  exists arb st' s2 wire, CanArbitrationId_Encode p route = (kOk, arb) /\
    ReliableSender.Pump (Some ReliableSender.record_frame) context on_sent on_failed st s1 log =
      (kOk, st', s2, log ++ wire) /\
    length wire = fragment_count_of (length payload) /\
    (forall i, (i < length wire)%nat ->
       ReliableReceiver.carries arb sequence payload i (nth i wire CanFrame_default)) /\
    ReliableSender.wf MaximumPayload s2 /\ holds arb sequence payload s2 /\
    ReliableSender.state_ s2 = kWaitingForAck /\
    sequence <= 0x0f /\ (1 <= length payload <= MaximumPayload)%nat /\
    (fragment_count_of (length payload) <= 16)%nat.
Proof.
  intros Hs Hroute Hseq0 Hretr HB.
  destruct (begun_is_emitted ReliableSender.append_frame context on_sent on_failed st log p route sequence payload
    now timeout retries s s1 Hs Hroute Hseq0 Hretr HB) as (arb & st' & s2 & wire & H).
  exists arb, st', s2, wire. by rewrite ReliableSender.emitted_append in H.
Qed.

Lemma ack_frame_fields arb sequence :
  0 <= sequence <= 0x0f ->
  let ack := ReliableReceiver.ack_frame arb sequence in
  arbitration_id ack = arb /\ size ack = 1 /\
  GetFrameKind (byte_at (data ack) 0) = kReliable /\
  GetReliableSubtype (byte_at (data ack) 0) = kAck /\ Z.land (byte_at (data ack) 0) 0x0f = sequence.
Proof.
  intros Hs ack. do 2 (split; [done|]). change (byte_at (data ack) 0) with (ReliableHeader kAck sequence).
  assert (exists k, sequence = k /\ (k = 0 \/ k = 1 \/ k = 2 \/ k = 3 \/ k = 4 \/ k = 5 \/ k = 6 \/
    k = 7 \/ k = 8 \/ k = 9 \/ k = 10 \/ k = 11 \/ k = 12 \/ k = 13 \/ k = 14 \/ k = 15))
    as (k & -> & Hk) by (exists sequence; lia).
  repeat (destruct Hk as [->|Hk]; [by vm_compute|]). subst. by vm_compute.
Qed.

(** The acknowledgement of the held message completes a waiting sender. *)
Lemma HandleAck_completes p route arb sequence payload s :
  0 <= route -> CanArbitrationId_Encode p route = (kOk, arb) -> 0 <= sequence <= 0x0f ->
  holds arb sequence payload s -> ReliableSender.state_ s = kWaitingForAck ->
  let r := ReliableSender.HandleAck (ReliableReceiver.ack_frame arb sequence) s in
  fst r = kOk /\ ReliableSender.state_ (snd r) = kComplete.
Proof.
  intros Hr Harb Hseq (_ & _ & Ha & Hs & _) Hw.
  destruct (ack_frame_fields arb sequence Hseq) as (H1 & H2 & H3 & H4 & H5).
  unfold ReliableSender.HandleAck, ReliableSender.acknowledges.
  rewrite H1, H2, H3, H4, H5, Ha, Hs, (Encode_Decode _ _ _ Hr Harb), !Z.eqb_refl, Hw.
  rewrite bool_decide_true by done. done.
Qed.
End Lemmas.

(** ** Frames of a route *)

Definition routed (route : Z) (frame : CanFrame) : Prop :=
  exists p, CanArbitrationId_Decode (arbitration_id frame) = Some (MkDecodedArbitrationId p route).

Definition reliable_data (route : Z) (frame : CanFrame) : Prop :=
  routed route frame /\ size frame <> 0 /\ GetFrameKind (byte_at (data frame) 0) = kReliable /\
  GetReliableSubtype (byte_at (data frame) 0) = kData.

Lemma carries_reliable_data p route arb sequence payload i frame :
  0 <= route -> CanArbitrationId_Encode p route = (kOk, arb) -> 0 <= sequence <= 0x0f ->
  (0 < length payload)%nat -> (fragment_count_of (length payload) <= 16)%nat ->
  (i < fragment_count_of (length payload))%nat ->
  ReliableReceiver.carries arb sequence payload i frame -> reliable_data route frame.
Proof.
  intros Hr Harb Hseq Hpos H16 Hi (Ha & Hs & H0 & _).
  pose proof (ReliableReceiver.header_fields (length payload) sequence payload Hseq Hpos (le_n _) H16) as (Hk & Hsub & _).
  unfold reliable_data. rewrite H0, Hs. split_and!; try done; [|lia].
  exists p. rewrite Ha. by apply (Encode_Decode p).
Qed.

(** ** Properties *)

Section Properties.
Context (MaximumPayload : nat).

(** C5: a message sent over the reliable path arrives exactly once. Take any
    sender that accepts it and any idle receiver that has not just delivered it:
    the frames the sender's loop writes, in any order, with any repetitions and
    under the clock of either overload, make the receiver return the message and
    an acknowledgement at the frame that completes the set. When that
    acknowledgement is lost and the frames are sent again, the receiver returns no
    message but the same acknowledgement; and it completes the waiting sender. *)
Theorem reliable_exactly_once timeout p route sequence payload now retry retries context s s1 r :
  rtc (ReliableSender.step MaximumPayload) (ReliableSender.init MaximumPayload) s ->
  rtc (ReliableReceiver.step MaximumPayload) (ReliableReceiver.init MaximumPayload timeout) r ->
  0 <= route -> 0 <= sequence -> 0 <= retries < 256 ->
  ReliableSender.Begin MaximumPayload route p sequence payload now retry retries s = (kOk, s1) ->
  exists arb s2 log, CanArbitrationId_Encode p route = (kOk, arb) /\
    ReliableSender.Pump (Some ReliableSender.record_frame) context (fun _ => tt) (fun _ => tt)
      tt s1 [] = (kOk, tt, s2, log) /\
    let n := length log in let ack := ReliableReceiver.ack_frame arb sequence in
    let wire := fun i => nth i log CanFrame_default in
    let delivery timed order last times (q : receiver) :=
      Forall (fun i => (i < n)%nat) order /\ (last < n)%nat /\ last ∉ order /\
      (forall j, (j < n)%nat -> j = last \/ j ∈ order) /\
      length times = S (length order) /\ ReliableReceiver.on_time timed times q /\
      (timed = true -> ReliableReceiver.reassembly_timeout_ns_ q <> 0 ->
         Forall (fun t => t < SaturatingAdd (hd 0 times) (ReliableReceiver.reassembly_timeout_ns_ q))
           (tl times)) in
    (ReliableReceiver.active_ r = false -> ReliableReceiver.admissible r arb sequence ->
     ReliableReceiver.repeated arb sequence r = false ->
     forall timed order last times, delivery timed order last times r ->
     exists r1, ReliableReceiver.Accept_all MaximumPayload timed
         (ReliableReceiver.arrives wire times (order ++ [last])) r =
       (replicate (length order) (ReliableReceiver.nothing kUnavailable) ++
          [(kOk, MkReassembledMessage route sequence payload, ack)], r1) /\
       forall timed' order' last' times', delivery timed' order' last' times' r1 ->
       fst (ReliableReceiver.Accept_all MaximumPayload timed'
              (ReliableReceiver.arrives wire times' (order' ++ [last'])) r1) =
         replicate (length order') (ReliableReceiver.nothing kUnavailable) ++
           [(kUnavailable, ReassembledMessage_default, ack)]) /\
    fst (ReliableSender.HandleAck ack s2) = kOk /\
    ReliableSender.state_ (snd (ReliableSender.HandleAck ack s2)) = kComplete.
Proof.
  intros Hs%ReliableSender.sender_reachable_wf Hr%ReliableReceiver.receiver_reachable_wf Hroute Hseq0 Hretr HB.
  destruct (begun_goes_out MaximumPayload context (fun _ => tt) (fun _ => tt) tt [] p route sequence payload now
    retry retries s s1 Hs Hroute Hseq0 Hretr HB)
    as (arb & [] & s2 & log & Harb & Hpump & Hn & Hf & Hwf2 & Hholds2 & Hst2 & Hseq & Hlen & H16).
  exists arb, s2, log. split; [exact Harb|]. split; [exact Hpump|]. cbn zeta.
  set (wire := fun i => nth i log CanFrame_default). change (forall i, (i < length log)%nat ->
    ReliableReceiver.carries arb sequence payload i (wire i)) in Hf. rewrite Hn in *.
  set (n := fragment_count_of (length payload)) in *.
  split; [|by apply (HandleAck_completes p route arb sequence payload)].
  intros Hact Hadm Hrep timed order last times (H1 & H2 & H3 & H4 & H5 & H6 & H7).
  destruct (ReliableReceiver.receiver_Accept_all_delivers MaximumPayload p route arb sequence payload Hroute Harb
    ltac:(lia) ltac:(lia) ltac:(lia) H16 timed wire order last times r Hf Hr Hact Hadm H1 H2 H3 H4 H5 H6 H7)
    as (r1 & Hrun & Hr1 & Hact1 & Hrep1).
  exists r1. unfold ReliableReceiver.final_result in *. rewrite Hrep in Hrun. split; [done|].
  intros timed' order' last' times' (G1 & G2 & G3 & G4 & G5 & G6 & G7).
  assert (ReliableReceiver.admissible r1 arb sequence) as Hadm1.
  { intros _ _. unfold ReliableReceiver.repeated in Hrep1. bool_hyps. subst sequence.
    rewrite ReliableReceiver.SequenceDistance_mod, Z.sub_diag. by vm_compute. }
  destruct (ReliableReceiver.receiver_Accept_all_delivers MaximumPayload p route arb sequence payload Hroute Harb
    ltac:(lia) ltac:(lia) ltac:(lia) H16 timed' wire order' last' times' r1 Hf Hr1 Hact1 Hadm1
    G1 G2 G3 G4 G5 G6 G7) as (r2 & Hrun2 & _).
  rewrite Hrun2. unfold ReliableReceiver.final_result. by rewrite Hrep1.
Qed.


(** For arbitrary frames and times the receiver keeps its indices and lengths
    inside its buffers; it returns a message only with kOk, always with the
    acknowledgement of that message, and it acknowledges nothing it refuses. *)
Theorem reliable_receiver_safe timeout r frame now st message ack r' :
  rtc (ReliableReceiver.step MaximumPayload) (ReliableReceiver.init MaximumPayload timeout) r ->
  ReliableReceiver.Accept_timed MaximumPayload frame now r = (st, message, ack, r') ->
  ReliableReceiver.wf MaximumPayload r' /\ (length (msg_payload message) <= MaximumPayload)%nat /\
  (st <> kOk -> message = ReassembledMessage_default) /\
  (st = kOk -> ack = ReliableReceiver.ack_frame (arbitration_id frame) (msg_sequence message)) /\
  (st <> kOk -> st <> kUnavailable -> ack = CanFrame_default).
Proof.
  intros Hr%ReliableReceiver.receiver_reachable_wf HA.
  pose proof (ReliableReceiver.Accept_timed_spec MaximumPayload frame now r Hr) as Hp.
  rewrite HA in Hp. destruct Hp as (? & ? & Hbad & Hack & Hok). split_and!; try done.
  - intros Hst. by destruct (Hbad Hst).
  - intros Hst. destruct (Hok Hst) as (_ & _ & _ & _ & ?). done.
  - intros H1 H2. destruct Hack as [|(_ & [?|?])]; done.
Qed.

(** [Poll] never accepts a clock that runs backwards, expires an unfinished
    message exactly when its deadline is reached, dropping every fragment of it,
    and otherwise only records the time. *)
Lemma receiver_poll_expiry now r :
  ReliableReceiver.Poll now r =
    if bool_decide (ReliableReceiver.has_observed_time_ r = true /\
                    now < ReliableReceiver.last_observed_time_ns_ r) then (kInvalidArgument, r)
    else
      let r' := r <| ReliableReceiver.has_observed_time_ := true |>
                  <| ReliableReceiver.last_observed_time_ns_ := now |> in
      if bool_decide (ReliableReceiver.active_ r = true /\
                      ReliableReceiver.reassembly_timeout_ns_ r <> 0 /\
                      ReliableReceiver.reassembly_deadline_ns_ r <= now) then
        (kTimeout, ReliableReceiver.Reset r' <| ReliableReceiver.stats_ :=
           bump ReliableReceiver.reassembly_timeouts (ReliableReceiver.stats_ r) |>)
      else (kUnavailable, r').
Proof.
  unfold ReliableReceiver.Poll, ReliableReceiver.ExpireIfDue.
  assert ((ReliableReceiver.has_observed_time_ r &&
    (now <? ReliableReceiver.last_observed_time_ns_ r))%bool = bool_decide
      (ReliableReceiver.has_observed_time_ r = true /\
       now < ReliableReceiver.last_observed_time_ns_ r)) as ->.
  { apply eq_true_iff_eq. by rewrite bool_decide_eq_true, andb_true_iff, Z.ltb_lt. }
  cbn zeta. destruct (bool_decide _); [done|]. cbn.
  assert ((negb (ReliableReceiver.active_ r) || (ReliableReceiver.reassembly_timeout_ns_ r =? 0) ||
    (now <? ReliableReceiver.reassembly_deadline_ns_ r))%bool = negb (bool_decide
      (ReliableReceiver.active_ r = true /\ ReliableReceiver.reassembly_timeout_ns_ r <> 0 /\
       ReliableReceiver.reassembly_deadline_ns_ r <= now))) as ->; [|by destruct (bool_decide _)].
  apply eq_true_iff_eq. rewrite negb_true_iff, bool_decide_eq_false, !orb_true_iff, negb_true_iff.
  rewrite Z.eqb_eq, Z.ltb_lt. destruct (ReliableReceiver.active_ r); split; intros H.
  all: try lia. all: destruct_or?; try done; intros (? & ? & ?); try done; lia.
Qed.

End Properties.

(** *** Witnesses: ten bytes on route 8, the second fragment arriving twice *)

Definition sample_bytes : list Z := [1; 2; 3; 4; 5; 6; 7; 8; 9; 10].
Definition sample_log : list CanFrame :=
  snd (ReliableSender.Pump (Some ReliableSender.record_frame) sample_context (fun _ => tt)
    (fun _ => tt) tt sample_begun []).
Definition sample_ack : CanFrame := ReliableReceiver.ack_frame (2 * 512 + 8) 3.

Lemma reliable_exactly_once_witness :
  fst (ReliableReceiver.Accept_all 16 true
    (ReliableReceiver.arrives (fun i => nth i sample_log CanFrame_default) [10; 20; 30] [1; 1; 0]%nat)
    (ReliableReceiver.init 16 50)) =
  [ReliableReceiver.nothing kUnavailable; ReliableReceiver.nothing kUnavailable;
   (kOk, MkReassembledMessage 8 3 sample_bytes, sample_ack)].
Proof.
  destruct (reliable_exactly_once 16 50 kState 8 3 sample_bytes 100 50 2 sample_context
    (ReliableSender.init 16) sample_begun (ReliableReceiver.init 16 50))
    as (arb & s2 & log & Harb & Hpump & Hdel & _); try lia.
  - apply rtc_refl.
  - apply rtc_refl.
  - reflexivity.
  - injection Harb as <-.
    assert (log = sample_log) as -> by (unfold sample_log; by rewrite Hpump). clear Hpump.
    destruct (Hdel eq_refl ltac:(discriminate) eq_refl true [1; 1]%nat 0%nat [10; 20; 30])
      as (r1 & Hrun & _); [|exact (f_equal fst Hrun)].
    change (length sample_log) with 2%nat. split_and!.
    + repeat constructor.
    + lia.
    + intros H. by repeat (apply elem_of_cons in H as [?|H]); [..|apply elem_of_nil in H].
    + intros j Hj. rewrite !elem_of_cons. lia.
    + done.
    + intros _. split_and!; [done| |done]. repeat constructor; lia.
    + intros _ _. repeat constructor; vm_compute; done.
Defined.

Definition sample_wire (sequence : Z) : CanFrame :=
  ReliableSender.data_frame 0 (snd (ReliableSender.Begin 16 8 kState sequence [1; 2; 3] 0 50 2
    (ReliableSender.init 16))).


Lemma reliable_receiver_safe_witness :
  (ReliableReceiver.Accept_timed 16 (sample_wire 3) 7 (ReliableReceiver.init 16 0)).1.2
    = ReliableReceiver.ack_frame 1032 3.
Proof.
  destruct (reliable_receiver_safe 16 0 (ReliableReceiver.init 16 0) (sample_wire 3) 7 kOk
    (MkReassembledMessage 8 3 [1; 2; 3]) (ReliableReceiver.ack_frame 1032 3)
    (snd (ReliableReceiver.Accept_timed 16 (sample_wire 3) 7 (ReliableReceiver.init 16 0))))
    as (_ & _ & _ & Hack & _); [apply rtc_refl|vm_compute; reflexivity|].
  rewrite (Hack eq_refl). vm_compute. reflexivity.
Defined.
