(* ===== verification/ControlPlane.v ===== *)
(** The CAN control plane of [transport/can/control_plane.hpp]: the codecs of the
    handshake, heartbeat and time synchronisation, and the small machines that
    judge a peer by them. *)

From S2P Require Export CanProtocol.

Local Open Scope Z_scope.

Definition kHandshakeRouteId : Z := 1.
Definition kHeartbeatRouteId : Z := 2.
Definition kTimeSyncRouteId : Z := 3.
Definition kFaultRouteId : Z := 4.

Inductive Compatibility :=
  kCompatible | kProtocolMismatch | kDeploymentMismatch | kSchemaMismatch.

#[export] Instance Compatibility_eq_dec : EqDecision Compatibility.
Proof. solve_decision. Defined.

Record Handshake := MkHandshake {
  protocol_version : Z;
  hs_node_id : Z;
  deployment_hash : list Z;
  schema_hash : list Z
}.
#[global] Instance eta_Handshake : Eta Handshake := fun r =>
  MkHandshake (protocol_version r) (hs_node_id r) (deployment_hash r) (schema_hash r).

Definition Handshake_default : Handshake := MkHandshake 0 0 (zeros 16) (zeros 16).

(** The range of the fields' C++ types. *)
Definition Handshake_wf (h : Handshake) : Prop :=
  is_byte (protocol_version h) /\ is_byte (hs_node_id h) /\
  length (deployment_hash h) = 16%nat /\ length (schema_hash h) = 16%nat /\
  Forall is_byte (deployment_hash h) /\ Forall is_byte (schema_hash h).

(** ** [HandshakeCodec] *)
Module HandshakeCodec.

Definition kEncodedSize : nat := 34.

Definition Encode (handshake : Handshake) (output : list Z) : Status * list Z * nat :=
  if (length output <? kEncodedSize)%nat || (protocol_version handshake =? 0) ||
     (hs_node_id handshake =? 0) then
    (if (length output <? kEncodedSize)%nat then kCapacityExceeded else kInvalidArgument,
     output, 0%nat)
  else
    let output := <[0%nat := u8 (protocol_version handshake)]> output in
    let output := <[1%nat := u8 (hs_node_id handshake)]> output in
    let output := copy_into 2 (deployment_hash handshake) output in
    let output := copy_into 18 (schema_hash handshake) output in
    (kOk, output, kEncodedSize).

(** The referenced handshake is partly written on some failures. *)
Definition Decode (input : list Z) (handshake : Handshake) : Status * Handshake :=
  if negb (length input =? kEncodedSize)%nat then (kInvalidArgument, handshake)
  else
    let handshake := handshake <| protocol_version := byte_at input 0 |>
                               <| hs_node_id := byte_at input 1 |> in
    if (protocol_version handshake =? 0) || (hs_node_id handshake =? 0) then
      (kInvalidArgument, handshake)
    else
      (kOk, handshake <| deployment_hash := subspan 2 16 input |>
                      <| schema_hash := subspan 18 16 input |>).
End HandshakeCodec.

(** ** [ControlFrameCodec] *)

Record Heartbeat := MkHeartbeat {
  hb_node_id : Z;
  hb_sequence : Z;
  state_flags : Z;
  uptime_ms : Z
}.
#[global] Instance eta_Heartbeat : Eta Heartbeat := fun r =>
  MkHeartbeat (hb_node_id r) (hb_sequence r) (state_flags r) (uptime_ms r).

Record TimeSync := MkTimeSync {
  ts_sequence : Z;
  master_time_us : Z
}.
#[global] Instance eta_TimeSync : Eta TimeSync := fun r =>
  MkTimeSync (ts_sequence r) (master_time_us r).

Module ControlFrameCodec.

Definition EncodeHeartbeat (heartbeat : Heartbeat) (frame : CanFrame) : Status * CanFrame :=
  if hb_node_id heartbeat =? 0 then (kInvalidArgument, frame)
  else
    let '(status, arb) := CanArbitrationId_Encode kCritical kHeartbeatRouteId in
    let frame := CanFrame_default <| arbitration_id := arb |> in
    if negb (IsOk status) then (status, frame)
    else
      (kOk, frame <| size := 8 |>
        <| data := copy_into 4 (write_le 4 (uptime_ms heartbeat))
             (<[3%nat := u8 (state_flags heartbeat)]> (<[2%nat := u8 (hb_sequence heartbeat)]>
               (<[1%nat := u8 (hb_node_id heartbeat)]> (<[0%nat := 0xc0]> (data frame))))) |>).

Definition DecodeHeartbeat (frame : CanFrame) (heartbeat : Heartbeat) : Status * Heartbeat :=
  match CanArbitrationId_Decode (arbitration_id frame) with
  | None => (kInvalidArgument, heartbeat)
  | Some id =>
      if negb (bool_decide (priority id = kCritical)) || negb (id_route id =? kHeartbeatRouteId) ||
         negb (size frame =? 8) || negb (byte_at (data frame) 0 =? 0xc0) then
        (kInvalidArgument, heartbeat)
      else
        let heartbeat := MkHeartbeat (byte_at (data frame) 1) (byte_at (data frame) 2)
          (byte_at (data frame) 3) (read_le (subspan 4 4 (data frame))) in
        (if hb_node_id heartbeat =? 0 then kInvalidArgument else kOk, heartbeat)
  end.

Definition EncodeTimeSync (sync : TimeSync) (frame : CanFrame) : Status * CanFrame :=
  if 0xffffffffffff <? master_time_us sync then (kInvalidArgument, frame)
  else
    let '(status, arb) := CanArbitrationId_Encode kCritical kTimeSyncRouteId in
    let frame := CanFrame_default <| arbitration_id := arb |> in
    if negb (IsOk status) then (status, frame)
    else
      (kOk, frame <| size := 8 |>
        <| data := copy_into 2 (write_le 6 (master_time_us sync))
             (<[1%nat := u8 (ts_sequence sync)]> (<[0%nat := 0xc1]> (data frame))) |>).

Definition DecodeTimeSync (frame : CanFrame) (sync : TimeSync) : Status * TimeSync :=
  match CanArbitrationId_Decode (arbitration_id frame) with
  | None => (kInvalidArgument, sync)
  | Some id =>
      if negb (bool_decide (priority id = kCritical)) || negb (id_route id =? kTimeSyncRouteId) ||
         negb (size frame =? 8) || negb (byte_at (data frame) 0 =? 0xc1) then
        (kInvalidArgument, sync)
      else
        (kOk, MkTimeSync (byte_at (data frame) 1) (read_le (subspan 2 6 (data frame))))
  end.
End ControlFrameCodec.

(** ** [CompatibilityGuard] *)

Definition CompatibilityGuard_Check (local remote : Handshake) : Compatibility :=
  if negb (protocol_version local =? protocol_version remote) then kProtocolMismatch
  else if negb (bool_decide (deployment_hash local = deployment_hash remote)) then
    kDeploymentMismatch
  else if negb (bool_decide (schema_hash local = schema_hash remote)) then kSchemaMismatch
  else kCompatible.

(** ** [HeartbeatMonitor] *)

Inductive LinkState := kLost | kRecovering | kOnline.

#[export] Instance LinkState_eq_dec : EqDecision LinkState.
Proof. solve_decision. Defined.

Module HeartbeatMonitor.

Record t := Mk {
  timeout_ns_ : Z;
  last_observation_ns_ : Z;
  recovery_samples_ : Z;
  consecutive_samples_ : Z;
  last_sequence_ : Z;
  has_observation_ : bool;
  state_ : LinkState
}.
#[global] Instance eta_t : Eta t := fun r =>
  Mk (timeout_ns_ r) (last_observation_ns_ r) (recovery_samples_ r) (consecutive_samples_ r)
    (last_sequence_ r) (has_observation_ r) (state_ r).

Definition init (timeout_ns recovery_samples : Z) : t :=
  Mk timeout_ns 0 recovery_samples 0 0 false kLost.

Definition Observe (sequence now_ns : Z) (m : t) : LinkState * t :=
  let expected := u8 (last_sequence_ m + 1) in
  let m :=
    if negb (has_observation_ m) || bool_decide (state_ m = kLost) || negb (sequence =? expected)
    then m <| consecutive_samples_ := 1 |>
    else if consecutive_samples_ m <? recovery_samples_ m then
      m <| consecutive_samples_ := u8 (consecutive_samples_ m + 1) |>
    else m in
  let m := m <| has_observation_ := true |> <| last_sequence_ := sequence |>
             <| last_observation_ns_ := now_ns |> in
  let m := m <| state_ :=
    if recovery_samples_ m <=? consecutive_samples_ m then kOnline else kRecovering |> in
  (state_ m, m).

(** The subtraction is unsigned. *)
Definition Poll (now_ns : Z) (m : t) : LinkState * t :=
  let m :=
    if negb (has_observation_ m) || (timeout_ns_ m <=? u64 (now_ns - last_observation_ns_ m))
    then m <| state_ := kLost |> <| consecutive_samples_ := 0 |>
    else m in
  (state_ m, m).

End HeartbeatMonitor.

(** ** [TimeSyncFollower] *)

(** [static_cast<std::int64_t>]. *)
Definition i64 (z : Z) : Z := (z + 2 ^ 63) mod 2 ^ 64 - 2 ^ 63.
#[global] Arguments i64 : simpl never.

Module TimeSyncFollower.

Record t := Mk {
  offset_ns_ : Z;
  synchronized_ : bool
}.
#[global] Instance eta_t : Eta t := fun r => Mk (offset_ns_ r) (synchronized_ r).

Definition init : t := Mk 0 false.

(** Signed division truncates. The signed sums are exact while times and offsets
    stay below [2 ^ 62]; C++ leaves an overflow undefined. *)
Definition Observe (master_time_ns local_receive_time_ns : Z) (f : t) : t :=
  let sample := i64 master_time_ns - i64 local_receive_time_ns in
  if negb (synchronized_ f) then f <| offset_ns_ := sample |> <| synchronized_ := true |>
  else f <| offset_ns_ := offset_ns_ f + Z.quot (sample - offset_ns_ f) 8 |>.

Definition ToNetworkTime (local_time_ns : Z) (f : t) : Z :=
  if negb (synchronized_ f) then local_time_ns
  else
    let converted := i64 local_time_ns + offset_ns_ f in
    if converted <=? 0 then 0 else converted.

End TimeSyncFollower.

(** ** [FreshnessGuard] *)

Inductive RearmPolicy := kAutomatic | kFreshSample | kExplicit.

#[export] Instance RearmPolicy_eq_dec : EqDecision RearmPolicy.
Proof. solve_decision. Defined.

Inductive FreshnessState := kUnarmed | kFresh | kStale.

#[export] Instance FreshnessState_eq_dec : EqDecision FreshnessState.
Proof. solve_decision. Defined.

Record FreshnessConfig := MkFreshnessConfig {
  deadline_ns : Z;
  max_age_ns : Z;
  rearm : RearmPolicy
}.

Module FreshnessGuard.

Record t := Mk {
  config_ : FreshnessConfig;
  last_receive_ns_ : Z;
  last_sequence_ : Z;
  has_sample_ : bool;
  explicitly_rearmed_ : bool;
  state_ : FreshnessState
}.
#[global] Instance eta_t : Eta t := fun r =>
  Mk (config_ r) (last_receive_ns_ r) (last_sequence_ r) (has_sample_ r) (explicitly_rearmed_ r)
    (state_ r).

Definition init (config : FreshnessConfig) : t := Mk config 0 0 false false kUnarmed.

Definition Observe (sequence source_timestamp_ns receive_timestamp_ns : Z) (g : t)
    : FreshnessState * t :=
  let age := if receive_timestamp_ns <? source_timestamp_ns then 0
             else receive_timestamp_ns - source_timestamp_ns in
  let g := g <| last_sequence_ := sequence |> <| last_receive_ns_ := receive_timestamp_ns |>
             <| has_sample_ := true |> in
  if negb (max_age_ns (config_ g) =? 0) && (max_age_ns (config_ g) <? age) then
    let g := g <| state_ := kStale |> in (state_ g, g)
  else if bool_decide (state_ g = kStale) && bool_decide (rearm (config_ g) = kExplicit) &&
          negb (explicitly_rearmed_ g) then (state_ g, g)
  else
    let g := g <| explicitly_rearmed_ := false |> <| state_ := kFresh |> in (state_ g, g).

Definition Poll (now_ns : Z) (g : t) : FreshnessState * t :=
  if negb (has_sample_ g) then (state_ g, g)
  else
    let g :=
      if negb (deadline_ns (config_ g) =? 0) &&
         (deadline_ns (config_ g) <=? u64 (now_ns - last_receive_ns_ g))
      then g <| state_ := kStale |> else g in
    (state_ g, g).

Definition Rearm (g : t) : t := g <| explicitly_rearmed_ := true |>.

Definition Reset (g : t) : t :=
  g <| last_receive_ns_ := 0 |> <| last_sequence_ := 0 |> <| has_sample_ := false |>
    <| explicitly_rearmed_ := false |> <| state_ := kUnarmed |>.

End FreshnessGuard.

(** ** Specifications *)

(** What a heartbeat monitor has seen, latest first. *)
Inductive event := Beat (sequence now_ns : Z) | Tick (now_ns : Z).

Definition replay (timeout recovery : Z) (history : list event) : HeartbeatMonitor.t :=
  foldr (fun e m => match e with
    | Beat sequence now => snd (HeartbeatMonitor.Observe sequence now m)
    | Tick now => snd (HeartbeatMonitor.Poll now m)
    end) (HeartbeatMonitor.init timeout recovery) history.

(** The length of the unbroken run of heartbeats that ends the history, and the
    last heartbeat. A run is broken by a missing sequence number and by a poll
    that finds the last heartbeat too old. *)
Fixpoint run (timeout : Z) (history : list event) : nat * option (Z * Z) :=
  match history with
  | [] => (0%nat, None)
  | Beat sequence now :: rest =>
      let '(n, last) := run timeout rest in
      (match last with
       | Some (l, _) => if (n =? 0)%nat || negb (sequence =? u8 (l + 1)) then 1%nat else S n
       | None => 1%nat
       end, Some (sequence, now))
  | Tick now :: rest =>
      let '(n, last) := run timeout rest in
      (match last with
       | Some (_, t) => if timeout <=? u64 (now - t) then 0%nat else n
       | None => 0%nat
       end, last)
  end.

(** The judgement a run deserves. *)
Definition verdict (recovery : Z) (n : nat) : LinkState :=
  if (n =? 0)%nat then kLost else if recovery <=? Z.of_nat n then kOnline else kRecovering.

(** The follower after a list of samples that all show the same offset. *)
Definition observe_offset (offset : Z) (f : TimeSyncFollower.t) (local : Z) : TimeSyncFollower.t :=
  TimeSyncFollower.Observe (local + offset) local f.

(** Calls on a freshness guard other than [Rearm] and [Reset]. *)
Inductive guard_call := GObserve (sequence source receive : Z) | GPoll (now : Z).

Definition apply_call (g : FreshnessGuard.t) (c : guard_call) : FreshnessGuard.t :=
  match c with
  | GObserve sequence source receive => snd (FreshnessGuard.Observe sequence source receive g)
  | GPoll now => snd (FreshnessGuard.Poll now g)
  end.

(** ** Lemmas *)

Lemma HandshakeCodec_bytes h output :
  Handshake_wf h -> protocol_version h <> 0 -> hs_node_id h <> 0 ->
  (HandshakeCodec.kEncodedSize <= length output)%nat ->
  HandshakeCodec.Encode h output =
    (kOk, protocol_version h :: hs_node_id h :: deployment_hash h ++ schema_hash h ++
       drop 34 output, HandshakeCodec.kEncodedSize).
Proof.
  intros (Hv & Hn & Hd & Hs & _) Hv0 Hn0 Hlen. unfold HandshakeCodec.Encode, HandshakeCodec.kEncodedSize in *.
  guard_false (length output <? 34)%nat. cbn [orb].
  guard_false ((protocol_version h =? 0) || (hs_node_id h =? 0))%bool.
  rewrite !u8_small by (unfold is_byte in *; lia). cbn zeta.
  destruct output as [|x0 [|x1 output]]; cbn in Hlen; [lia|lia|].
  change (<[1%nat:=hs_node_id h]> (<[0%nat:=protocol_version h]> (x0 :: x1 :: output)))
    with (protocol_version h :: hs_node_id h :: output).
  rewrite (copy_into_app 2) by (cbn [length]; lia).
  change (take 2 (protocol_version h :: hs_node_id h :: output)) with [protocol_version h; hs_node_id h].
  rewrite Hd. cbn [Nat.add app drop].
  rewrite (copy_into_app 18) by (cbn [length]; rewrite !length_app, length_drop; lia).
  rewrite Hs. cbn [Nat.add app take drop].
  rewrite take_app_length', drop_app_ge, drop_drop by lia. by rewrite Hd.
Qed.

Lemma Handshake_split input :
  length input = 34%nat ->
  input = byte_at input 0 :: byte_at input 1 :: subspan 2 16 input ++ subspan 18 16 input.
Proof.
  intros H. destruct input as [|x0 [|x1 input]]; try done. cbn in H.
  unfold byte_at, subspan. cbn [lookup list_lookup default from_option id drop].
  do 2 f_equal. rewrite <- (take_drop 16 input) at 1. f_equal.
  rewrite take_ge; [done|]. rewrite length_drop. lia.
Qed.

(** A frame built by the control codecs: a header byte, then plain bytes. *)
Lemma heartbeat_frame hb frame :
  is_byte (hb_node_id hb) -> hb_node_id hb <> 0 -> is_byte (hb_sequence hb) ->
  is_byte (state_flags hb) ->
  ControlFrameCodec.EncodeHeartbeat hb frame =
    (kOk, MkCanFrame 2 8 (0xc0 :: hb_node_id hb :: hb_sequence hb :: state_flags hb ::
       write_le 4 (uptime_ms hb)) None 0).
Proof.
  unfold is_byte. intros. unfold ControlFrameCodec.EncodeHeartbeat. guard_false (hb_node_id hb =? 0).
  rewrite arbitration_Encode_ok by (unfold kMaximumRouteId, kHeartbeatRouteId; lia). cbn.
  by rewrite !u8_small by lia.
Qed.

Lemma time_sync_frame ts frame :
  is_byte (ts_sequence ts) -> 0 <= master_time_us ts < 2 ^ 48 ->
  ControlFrameCodec.EncodeTimeSync ts frame =
    (kOk, MkCanFrame 3 8 (0xc1 :: ts_sequence ts :: write_le 6 (master_time_us ts)) None 0).
Proof.
  unfold is_byte. intros. unfold ControlFrameCodec.EncodeTimeSync.
  guard_false (0xffffffffffff <? master_time_us ts).
  rewrite arbitration_Encode_ok by (unfold kMaximumRouteId, kTimeSyncRouteId; lia). cbn.
  by rewrite u8_small by lia.
Qed.

Lemma monitor_refines timeout recovery history :
  0 <= recovery < 256 ->
  let m := replay timeout recovery history in
  let '(n, last) := run timeout history in
  HeartbeatMonitor.recovery_samples_ m = recovery /\ HeartbeatMonitor.timeout_ns_ m = timeout /\
  HeartbeatMonitor.consecutive_samples_ m = Z.min (Z.of_nat n) (Z.max recovery 1) /\
  HeartbeatMonitor.state_ m = verdict recovery n /\
  match last with
  | Some (l, t) => HeartbeatMonitor.has_observation_ m = true /\
      HeartbeatMonitor.last_sequence_ m = l /\ HeartbeatMonitor.last_observation_ns_ m = t
  | None => HeartbeatMonitor.has_observation_ m = false /\ n = 0%nat
  end.
Proof.
  intros Hrec. induction history as [|e history IH]; [cbn; split_and!; try done; lia|].
  cbn [run replay foldr] in *. fold (replay timeout recovery history).
  set (m := replay timeout recovery history) in *. destruct (run timeout history) as [n last].
  destruct IH as (Hr & Ht & Hc & Hs & Hl).
  destruct e as [sequence now|now].
  - unfold HeartbeatMonitor.Observe. set (fresh := negb (HeartbeatMonitor.has_observation_ m) || _ || _).
    assert (fresh = match last with Some (l, _) => (n =? 0)%nat || negb (sequence =? u8 (l + 1))
      | None => true end) as Hfresh.
    { unfold fresh. rewrite Hs. unfold verdict.
      destruct last as [[l t]|]; [destruct Hl as (-> & -> & _)|by destruct Hl as [-> _]].
      destruct n; cbn [Nat.eqb]; [by rewrite bool_decide_true|].
      rewrite bool_decide_false by by destruct (_ <=? _). done. }
    assert ((match last with
      | Some (l, _) => if (n =? 0)%nat || negb (sequence =? u8 (l + 1)) then 1%nat else S n
      | None => 1%nat end) = if fresh then 1%nat else S n) as ->
      by by rewrite Hfresh; destruct last as [[? ?]|].
    destruct fresh eqn:Ef; cbn.
    + rewrite Hr. split_and!; try done; lia.
    + assert (n <> 0%nat) as Hn0.
      { intros ->. destruct last as [[? ?]|]; done. }
      rewrite Hc, Hr. destruct (Z.ltb_spec (Z.min (Z.of_nat n) (Z.max recovery 1)) recovery); cbn.
      * rewrite u8_small by lia. split_and!; try done; try lia.
        unfold verdict. cbn [Nat.eqb]. destruct (Z.leb_spec recovery (Z.of_nat (S n)));
        [guard_true (recovery <=? Z.min (Z.of_nat n) (Z.max recovery 1) + 1)
        |guard_false (recovery <=? Z.min (Z.of_nat n) (Z.max recovery 1) + 1)]; done.
      * rewrite ?Hr, ?Hc. split_and!; try done; try lia.
        unfold verdict. cbn [Nat.eqb]. guard_true (recovery <=? Z.of_nat (S n)).
        guard_true (recovery <=? Z.min (Z.of_nat n) (Z.max recovery 1)). done.
  - unfold HeartbeatMonitor.Poll. rewrite Ht.
    destruct last as [[l t]|].
    + destruct Hl as (Ho & Hsq & Hti). rewrite Ho, Hti. cbn [negb orb].
      destruct (timeout <=? u64 (now - t)); cbn; split_and!; try done; lia.
    + destruct Hl as [Ho ->]. rewrite Ho. cbn. split_and!; try done; lia.
Qed.

Lemma i64_small z : - 2 ^ 63 <= z < 2 ^ 63 -> i64 z = z.
Proof. intros. unfold i64. rewrite Z.mod_small by lia. lia. Qed.

(** One correction removes an eighth of the error and never overshoots. *)
Lemma quot_correction e :
  let e' := e - Z.quot e 8 in
  (0 <= e -> 0 <= e' <= e) /\ (e <= 0 -> e <= e' <= 0) /\ 8 * (Z.abs e' - 7) <= 7 * (Z.abs e - 7).
Proof.
  cbn zeta. pose proof (Z.quot_rem e 8 ltac:(lia)) as Hq.
  destruct (Z.le_ge_cases 0 e).
  - pose proof (Z.rem_bound_pos e 8). lia.
  - pose proof (Z.rem_bound_pos_neg e 8). lia.
Qed.

Lemma observe_offset_error offset f local :
  0 <= local < 2 ^ 62 -> 0 <= local + offset < 2 ^ 62 ->
  TimeSyncFollower.synchronized_ f = true ->
  let f' := observe_offset offset f local in
  let e := offset - TimeSyncFollower.offset_ns_ f in
  TimeSyncFollower.synchronized_ f' = true /\
  offset - TimeSyncFollower.offset_ns_ f' = e - Z.quot e 8.
Proof.
  intros Hl Hm Hs. unfold observe_offset, TimeSyncFollower.Observe.
  rewrite !i64_small, Hs by lia. cbn. split; [done|].
  replace (local + offset - local) with offset by lia. lia.
Qed.

Lemma convergence offset f locals :
  Forall (fun local => 0 <= local < 2 ^ 62 /\ 0 <= local + offset < 2 ^ 62) locals ->
  TimeSyncFollower.synchronized_ f = true ->
  let f' := foldl (observe_offset offset) f locals in
  let e := offset - TimeSyncFollower.offset_ns_ f in
  let e' := offset - TimeSyncFollower.offset_ns_ f' in
  TimeSyncFollower.synchronized_ f' = true /\
  (0 <= e -> 0 <= e' <= e) /\ (e <= 0 -> e <= e' <= 0) /\
  8 ^ Z.of_nat (length locals) * (Z.abs e' - 7) <= 7 ^ Z.of_nat (length locals) * (Z.abs e - 7).
Proof.
  intros Hl. revert f. induction Hl as [|local locals [Hb1 Hb2] Hl IH]; intros f Hs; cbn zeta.
  - cbn. split_and!; try done; lia.
  - cbn [foldl length]. destruct (observe_offset_error offset f local Hb1 Hb2 Hs) as [Hs1 He1].
    destruct (IH _ Hs1) as (Hs2 & Hp & Hn & Hc). rewrite He1 in Hp, Hn, Hc.
    pose proof (quot_correction (offset - TimeSyncFollower.offset_ns_ f)) as (Q1 & Q2 & Q3).
    split; [done|]. split; [intros; lia|]. split; [intros; lia|].
    rewrite Nat2Z.inj_succ, !Z.pow_succ_r by lia.
    assert (0 <= 7 ^ Z.of_nat (length locals)) by (apply Z.pow_nonneg; lia). nia.
Qed.

Lemma stale_latched calls g :
  rearm (FreshnessGuard.config_ g) = kExplicit -> FreshnessGuard.state_ g = kStale ->
  FreshnessGuard.explicitly_rearmed_ g = false ->
  let g' := foldl apply_call g calls in
  FreshnessGuard.config_ g' = FreshnessGuard.config_ g /\ FreshnessGuard.state_ g' = kStale /\
  FreshnessGuard.explicitly_rearmed_ g' = false.
Proof.
  revert g. induction calls as [|c calls IH]; intros g Hc Hs Hr; [done|]. cbn [foldl].
  assert (FreshnessGuard.config_ (apply_call g c) = FreshnessGuard.config_ g /\
    FreshnessGuard.state_ (apply_call g c) = kStale /\
    FreshnessGuard.explicitly_rearmed_ (apply_call g c) = false) as (Hc1 & Hs1 & Hr1).
  { destruct c; cbn; unfold FreshnessGuard.Observe, FreshnessGuard.Poll; cbn.
    - rewrite Hs, Hc, Hr, !bool_decide_true by done. cbn. split_if; done.
    - split_if; [done|]. cbn. split_if; done. }
  destruct (IH (apply_call g c)) as (Hc2 & Hs2 & Hr2); try done; [congruence|].
  split_and!; congruence.
Qed.

(** ** Properties *)

(** The handshake codec loses nothing: a valid handshake encodes into the
    first 34 bytes of any large enough buffer and decodes from them to itself,
    and 34 bytes that decode are the encoding of what they decode to. *)
Theorem handshake_roundtrip h output :
  Handshake_wf h -> protocol_version h <> 0 -> hs_node_id h <> 0 ->
  (HandshakeCodec.kEncodedSize <= length output)%nat ->
  (exists wire, HandshakeCodec.Encode h output = (kOk, wire ++ drop 34 output, 34%nat) /\
     length wire = 34%nat /\ Forall is_byte wire /\
     forall h0, HandshakeCodec.Decode wire h0 = (kOk, h)) /\
  (forall input h0 h1, Forall is_byte input -> HandshakeCodec.Decode input h0 = (kOk, h1) ->
     HandshakeCodec.Encode h1 (zeros 34) = (kOk, input, 34%nat)).
Proof.
  intros Hwf Hv Hn Hlen. pose proof Hwf as (Hbv & Hbn & Hd & Hs & Hbd & Hbs). split.
  - exists (protocol_version h :: hs_node_id h :: deployment_hash h ++ schema_hash h).
    assert (length (protocol_version h :: hs_node_id h :: deployment_hash h ++ schema_hash h) = 34%nat)
      as Hl by (cbn [length]; rewrite length_app; lia).
    split_and!; [|done| |].
    + rewrite HandshakeCodec_bytes by done. cbn [app]. by rewrite <- app_assoc.
    + do 2 (constructor; [done|]). by apply Forall_app.
    + intros h0. unfold HandshakeCodec.Decode, HandshakeCodec.kEncodedSize. rewrite Hl. cbn [negb Nat.eqb].
      unfold byte_at, subspan. cbn [lookup list_lookup default from_option id drop].
      cbn [protocol_version hs_node_id set_field].
      guard_false ((protocol_version h =? 0) || (hs_node_id h =? 0))%bool.
      rewrite drop_0, take_app_length', drop_app_length' by done. rewrite take_ge by lia. by destruct h.
  - intros input h0 h1 Hb. unfold HandshakeCodec.Decode, HandshakeCodec.kEncodedSize.
    split_if; [done|]. bool_hyps. cbn. split_if; [done|]. bool_hyps. intros [= <-]. cbn.
    rewrite HandshakeCodec_bytes; cbn; try done.
    + change (drop 34 (zeros 34)) with (@nil Z). by rewrite app_nil_r, <- Handshake_split.
    + assert (forall i, (i < 34)%nat -> is_byte (byte_at input i)) as Hbyte.
      { intros i Hi. unfold byte_at. destruct (lookup_lt_is_Some_2 input i) as [b Hib]; [lia|].
        rewrite Hib. cbn. by eapply Forall_lookup_1. }
      split_and!; cbn; try (apply subspan_length; lia); try (apply Hbyte; lia); by apply subspan_Forall.
Qed.

(** Heartbeats and time synchronisation samples survive the wire: a valid one
    encodes into a control frame that decodes to it, and the two kinds are never
    mistaken for each other. *)
Theorem control_frames_roundtrip hb ts frame hb0 ts0 :
  is_byte (hb_node_id hb) -> hb_node_id hb <> 0 -> is_byte (hb_sequence hb) ->
  is_byte (state_flags hb) -> 0 <= uptime_ms hb <= UINT32_MAX ->
  is_byte (ts_sequence ts) -> 0 <= master_time_us ts < 2 ^ 48 ->
  exists hf tf, ControlFrameCodec.EncodeHeartbeat hb frame = (kOk, hf) /\
    ControlFrameCodec.DecodeHeartbeat hf hb0 = (kOk, hb) /\
    ControlFrameCodec.EncodeTimeSync ts frame = (kOk, tf) /\
    ControlFrameCodec.DecodeTimeSync tf ts0 = (kOk, ts) /\
    ControlFrameCodec.DecodeHeartbeat tf hb0 = (kInvalidArgument, hb0) /\
    ControlFrameCodec.DecodeTimeSync hf ts0 = (kInvalidArgument, ts0).
Proof.
  intros Hn Hn0 Hs Hf Hu Hts Hm. rewrite heartbeat_frame, time_sync_frame by done.
  eexists. exists (MkCanFrame 3 8 (0xc1 :: ts_sequence ts :: write_le 6 (master_time_us ts)) None 0).
  split; [done|]. unfold UINT32_MAX in Hu.
  unfold ControlFrameCodec.DecodeHeartbeat, ControlFrameCodec.DecodeTimeSync.
  cbn [arbitration_id size data].
  change (CanArbitrationId_Decode 2) with (Some (MkDecodedArbitrationId kCritical 2)).
  change (CanArbitrationId_Decode 3) with (Some (MkDecodedArbitrationId kCritical 3)).
  unfold byte_at, subspan. cbn. rewrite !drop_0, !take_ge by by rewrite write_le_length.
  rewrite !read_write_le, !Z.mod_small, !bool_decide_true by (done || lia).
  guard_false (hb_node_id hb =? 0). by destruct hb, ts.
Qed.

(** C3: the heartbeat monitor judges a peer by its unbroken run of heartbeats:
    after any history it is lost when there is no run, online when the run has
    the configured number of samples, and recovering in between. *)
Theorem heartbeat_monitor_verdict timeout recovery history :
  0 <= recovery < 256 ->
  HeartbeatMonitor.state_ (replay timeout recovery history) =
    verdict recovery (fst (run timeout history)).
Proof.
  intros Hr. pose proof (monitor_refines timeout recovery history Hr) as H.
  destruct (run timeout history) as [n last]. apply H.
Qed.

(** C4: the time follower converges: when the true offset stays put, the error
    never changes sign and never grows, and after [n] samples what exceeds seven
    nanoseconds of it has shrunk by the factor [(7/8)^n], so that it ends within
    seven nanoseconds as soon as that factor has eaten it up. *)
Theorem time_sync_converges offset f locals :
  Forall (fun local => 0 <= local < 2 ^ 62 /\ 0 <= local + offset < 2 ^ 62) locals ->
  TimeSyncFollower.synchronized_ f = true ->
  let e := offset - TimeSyncFollower.offset_ns_ f in
  let e' := offset - TimeSyncFollower.offset_ns_ (foldl (observe_offset offset) f locals) in
  let n := Z.of_nat (length locals) in
  Z.abs e' <= Z.abs e /\ 0 <= e * e' /\ 8 ^ n * (Z.abs e' - 7) <= 7 ^ n * (Z.abs e - 7) /\
  (7 ^ n * (Z.abs e - 7) < 8 ^ n -> Z.abs e' <= 7).
Proof.
  intros Hl Hs. cbn zeta. destruct (convergence offset f locals Hl Hs) as (_ & Hp & Hn & Hc).
  assert (0 < 8 ^ Z.of_nat (length locals)) by (apply Z.pow_pos_nonneg; lia).
  split_and!; [lia| |done|nia].
  destruct (Z.le_ge_cases 0 (offset - TimeSyncFollower.offset_ns_ f)); nia.
Qed.

(** Under the explicit policy a stale input stays stale: no sample, however
    fresh, and no poll revives it; only [Rearm] does, and then a sample is needed. *)
Theorem freshness_latched g calls sequence time :
  0 <= max_age_ns (FreshnessGuard.config_ g) ->
  rearm (FreshnessGuard.config_ g) = kExplicit -> FreshnessGuard.state_ g = kStale ->
  FreshnessGuard.explicitly_rearmed_ g = false ->
  let g' := foldl apply_call g calls in
  FreshnessGuard.state_ g' = kStale /\
  FreshnessGuard.state_ (FreshnessGuard.Rearm g') = kStale /\
  fst (FreshnessGuard.Observe sequence time time (FreshnessGuard.Rearm g')) = kFresh.
Proof.
  intros Hm Hc Hs Hr. cbn zeta. destruct (stale_latched calls g Hc Hs Hr) as (Hc' & Hs' & Hr').
  split_and!; [done|done|].
  unfold FreshnessGuard.Observe, FreshnessGuard.Rearm. cbn. rewrite Z.ltb_irrefl, Z.sub_diag, Hc'.
  rewrite (proj2 (Z.ltb_ge _ 0) Hm). by rewrite !andb_false_r.
Qed.

(** The age of the last sample is an unsigned difference: a poll with a time
    before the last sample finds it older than any deadline short of the wrap. *)
Lemma freshness_poll_backward g now :
  FreshnessGuard.has_sample_ g = true -> 0 < deadline_ns (FreshnessGuard.config_ g) ->
  0 <= now < FreshnessGuard.last_receive_ns_ g -> FreshnessGuard.last_receive_ns_ g < 2 ^ 64 ->
  deadline_ns (FreshnessGuard.config_ g) <= 2 ^ 64 - (FreshnessGuard.last_receive_ns_ g - now) ->
  fst (FreshnessGuard.Poll now g) = kStale.
Proof.
  intros Hs Hd Hn Hl Hw. unfold FreshnessGuard.Poll. rewrite Hs. cbn [negb].
  guard_false (deadline_ns (FreshnessGuard.config_ g) =? 0). cbn [negb andb].
  assert (u64 (now - FreshnessGuard.last_receive_ns_ g) =
    2 ^ 64 - (FreshnessGuard.last_receive_ns_ g - now)) as ->.
  { unfold u64. rewrite <- (Z.mod_add _ 1) by lia. rewrite Z.mod_small; lia. }
  by rewrite (proj2 (Z.leb_le _ _) Hw).
Qed.

(** *** Witnesses *)

Definition sample_handshake : Handshake := MkHandshake 1 7 (replicate 16 0xab) (replicate 16 0xcd).

Lemma handshake_roundtrip_witness :
  exists wire, HandshakeCodec.Encode sample_handshake (zeros 40) = (kOk, wire ++ zeros 6, 34%nat) /\
    HandshakeCodec.Decode wire Handshake_default = (kOk, sample_handshake).
Proof.
  destruct (handshake_roundtrip sample_handshake (zeros 40)) as [(wire & He & _ & _ & Hd) _].
  - unfold Handshake_wf, is_byte. cbn [sample_handshake protocol_version hs_node_id deployment_hash schema_hash].
    split_and!; try lia; try reflexivity; apply Forall_replicate; cbn; lia.
  - discriminate.
  - discriminate.
  - vm_compute. lia.
  - exists wire. split; [exact He|apply Hd].
Defined.

Lemma control_frames_roundtrip_witness :
  exists hf tf,
    ControlFrameCodec.EncodeHeartbeat (MkHeartbeat 7 1 0 1000) CanFrame_default = (kOk, hf) /\
    ControlFrameCodec.DecodeHeartbeat hf (MkHeartbeat 0 0 0 0) = (kOk, MkHeartbeat 7 1 0 1000) /\
    ControlFrameCodec.EncodeTimeSync (MkTimeSync 1 123456789) CanFrame_default = (kOk, tf) /\
    ControlFrameCodec.DecodeTimeSync tf (MkTimeSync 0 0) = (kOk, MkTimeSync 1 123456789).
Proof.
  destruct (control_frames_roundtrip (MkHeartbeat 7 1 0 1000) (MkTimeSync 1 123456789)
    CanFrame_default (MkHeartbeat 0 0 0 0) (MkTimeSync 0 0)) as (hf & tf & H1 & H2 & H3 & H4 & _);
    cbn; unfold is_byte, UINT32_MAX; try lia.
  exists hf, tf. auto.
Defined.

Lemma heartbeat_monitor_verdict_witness :
  HeartbeatMonitor.state_ (replay 100 3 [Beat 7 30; Beat 6 20; Beat 5 10]) = kOnline.
Proof. rewrite (heartbeat_monitor_verdict 100 3); [reflexivity|lia]. Defined.

Lemma time_sync_converges_witness :
  let f := TimeSyncFollower.Mk 100 true in
  Z.abs (50 - TimeSyncFollower.offset_ns_ (foldl (observe_offset 50) f (replicate 30 1000))) <= 7.
Proof.
  apply (time_sync_converges 50 (TimeSyncFollower.Mk 100 true) (replicate 30 1000)).
  - apply Forall_replicate. lia.
  - reflexivity.
  - vm_compute. reflexivity.
Defined.

Lemma freshness_latched_witness :
  let g := snd (FreshnessGuard.Observe 1 0 500 (FreshnessGuard.init (MkFreshnessConfig 0 100 kExplicit))) in
  FreshnessGuard.state_ (foldl apply_call g [GObserve 2 600 600; GPoll 700]) = kStale.
Proof.
  apply (freshness_latched
    (snd (FreshnessGuard.Observe 1 0 500 (FreshnessGuard.init (MkFreshnessConfig 0 100 kExplicit))))
    [GObserve 2 600 600; GPoll 700] 3 800); try reflexivity. vm_compute. discriminate.
Defined.
