(* ===== verification/LinkControl.v ===== *)
(** The CAN link control plane of [transport/can/link_control.hpp]: it exchanges
    handshakes, heartbeats and time samples with one peer and opens the gate for
    application frames while all three are in order. *)

From S2P Require Export ReliablePath ControlPlane.

Local Open Scope Z_scope.

Record CanLinkControlConfig := MkConfig {
  local : Handshake;
  peer_node_id : Z;
  time_authority : bool;
  handshake_period_ns : Z;
  heartbeat_period_ns : Z;
  heartbeat_timeout_ns : Z;
  time_sync_period_ns : Z;
  recovery_samples : Z;
  retry_timeout_ns : Z;
  maximum_retries : Z;
  reassembly_timeout_ns : Z
}.

Record CanLinkControlStats := MkStats {
  handshake_messages : Z;
  handshake_retries : Z;
  heartbeat_messages : Z;
  time_sync_messages : Z;
  received_control_frames : Z;
  invalid_control_frames : Z;
  blocked_application_frames : Z;
  forwarded_application_frames : Z;
  handshake_failures : Z;
  handshake_backpressure : Z;
  handshake_reassembly_timeouts : Z;
  duplicate_heartbeats : Z;
  stale_heartbeats : Z;
  peer_restarts : Z
}.
#[global] Instance eta_stats : Eta CanLinkControlStats := fun r =>
  MkStats (handshake_messages r) (handshake_retries r) (heartbeat_messages r)
    (time_sync_messages r) (received_control_frames r) (invalid_control_frames r)
    (blocked_application_frames r) (forwarded_application_frames r) (handshake_failures r)
    (handshake_backpressure r) (handshake_reassembly_timeouts r) (duplicate_heartbeats r)
    (stale_heartbeats r) (peer_restarts r).

Module CanLinkControlPlane.

Record t := Mk {
  config_ : CanLinkControlConfig;
  heartbeat_ : HeartbeatMonitor.t;
  time_sync_ : TimeSyncFollower.t;
  handshake_sender_ : ReliableSender.t;
  handshake_receiver_ : ReliableReceiver.t;
  handshake_payload_ : list Z;
  next_handshake_ns_ : Z;
  next_heartbeat_ns_ : Z;
  next_time_sync_ns_ : Z;
  last_poll_ns_ : Z;
  compatibility_ : Compatibility;
  handshake_sequence_ : Z;
  heartbeat_sequence_ : Z;
  time_sync_sequence_ : Z;
  peer_heartbeat_sequence_ : Z;
  peer_uptime_ms_ : Z;
  valid_ : bool;
  handshake_received_ : bool;
  application_enabled_ : bool;
  handshake_scheduled_ : bool;
  heartbeat_scheduled_ : bool;
  time_sync_scheduled_ : bool;
  has_last_poll_ : bool;
  has_peer_heartbeat_ : bool;
  stats_ : CanLinkControlStats
}.
#[global] Instance eta_t : Eta t := fun r =>
  Mk (config_ r) (heartbeat_ r) (time_sync_ r) (handshake_sender_ r) (handshake_receiver_ r)
    (handshake_payload_ r) (next_handshake_ns_ r) (next_heartbeat_ns_ r) (next_time_sync_ns_ r)
    (last_poll_ns_ r) (compatibility_ r) (handshake_sequence_ r) (heartbeat_sequence_ r)
    (time_sync_sequence_ r) (peer_heartbeat_sequence_ r) (peer_uptime_ms_ r) (valid_ r)
    (handshake_received_ r) (application_enabled_ r) (handshake_scheduled_ r)
    (heartbeat_scheduled_ r) (time_sync_scheduled_ r) (has_last_poll_ r) (has_peer_heartbeat_ r)
    (stats_ r).

Definition kSize : nat := HandshakeCodec.kEncodedSize.

Definition compatible (c : t) : bool :=
  handshake_received_ c && bool_decide (compatibility_ c = kCompatible).

Definition time_synchronized (c : t) : bool :=
  time_authority (config_ c) || TimeSyncFollower.synchronized_ (time_sync_ c).

Definition ToNetworkTime (local_time_ns : Z) (c : t) : Z :=
  if time_authority (config_ c) then local_time_ns
  else TimeSyncFollower.ToNetworkTime local_time_ns (time_sync_ c).

Definition RefreshApplicationGate (c : t) : t :=
  c <| application_enabled_ :=
    compatible c && bool_decide (HeartbeatMonitor.state_ (heartbeat_ c) = kOnline) &&
    time_synchronized c |>.

Definition StateFlags (c : t) : Z :=
  u8 (Z.lor (Z.lor (if compatible c then 0x01 else 0) (if application_enabled_ c then 0x02 else 0))
        (if time_synchronized c then 0x04 else 0)).

Definition InvalidControlFrame (c : t) : Status * t :=
  (kInvalidArgument, c <| stats_ := bump invalid_control_frames (stats_ c) |>).

Definition HandlePeerRestart (c : t) : t :=
  c <| stats_ := bump peer_restarts (stats_ c) |>
    <| handshake_received_ := false |>
    <| compatibility_ := kProtocolMismatch |>
    <| application_enabled_ := false |>
    <| handshake_scheduled_ := false |>
    <| handshake_sender_ := ReliableSender.init kSize |>
    <| handshake_receiver_ := ReliableReceiver.ResetPeerHistory (handshake_receiver_ c) |>
    <| heartbeat_ :=
         HeartbeatMonitor.init (heartbeat_timeout_ns (config_ c)) (recovery_samples (config_ c)) |>
    <| time_sync_ := TimeSyncFollower.init |>.

Definition Heartbeat_default : Heartbeat := MkHeartbeat 0 0 0 0.

(** What a heartbeat says about the one before it. *)
Inductive heartbeat_verdict := restart | stale | duplicate | next.

Definition heartbeat_relation (heartbeat : Heartbeat) (c : t) : heartbeat_verdict :=
  let sequence_distance := u8 (hb_sequence heartbeat - peer_heartbeat_sequence_ c) in
  let uptime_distance := u32 (uptime_ms heartbeat - peer_uptime_ms_ c) in
  let uptime_moved_backward := UINT32_MAX / 2 <? uptime_distance in
  let restart_sequence := hb_sequence heartbeat <=? 1 in
  if uptime_moved_backward && ((sequence_distance <=? 127) || restart_sequence) then restart
  else if uptime_moved_backward then stale
  else if (uptime_distance =? 0) && (sequence_distance =? 0) then duplicate
  else if (uptime_distance =? 0) && (127 <? sequence_distance) then stale
  else next.

(** The end of [AcceptHeartbeat], where the heartbeat counts. *)
Definition record_heartbeat (heartbeat : Heartbeat) (receive_local_time_ns : Z) (c : t) : t :=
  c <| has_peer_heartbeat_ := true |>
    <| peer_heartbeat_sequence_ := hb_sequence heartbeat |>
    <| peer_uptime_ms_ := uptime_ms heartbeat |>
    <| heartbeat_ :=
         snd (HeartbeatMonitor.Observe (hb_sequence heartbeat) receive_local_time_ns (heartbeat_ c)) |>.

Definition AcceptHeartbeat (frame : CanFrame) (receive_local_time_ns : Z) (c : t) : Status * t :=
  let '(decoded, heartbeat) := ControlFrameCodec.DecodeHeartbeat frame Heartbeat_default in
  if negb (IsOk decoded) || negb (hb_node_id heartbeat =? peer_node_id (config_ c)) then
    (kTypeMismatch, c)
  else if has_peer_heartbeat_ c then
    match heartbeat_relation heartbeat c with
    | restart => (kOk, record_heartbeat heartbeat receive_local_time_ns (HandlePeerRestart c))
    | stale => (kUnavailable, c <| stats_ := bump stale_heartbeats (stats_ c) |>)
    | duplicate => (kUnavailable, c <| stats_ := bump duplicate_heartbeats (stats_ c) |>)
    | next => (kOk, record_heartbeat heartbeat receive_local_time_ns c)
    end
  else (kOk, record_heartbeat heartbeat receive_local_time_ns c).

Definition AcceptTimeSync (frame : CanFrame) (receive_local_time_ns : Z) (c : t) : Status * t :=
  if time_authority (config_ c) then (kUnavailable, c)
  else
    let '(decoded, sync) := ControlFrameCodec.DecodeTimeSync frame (MkTimeSync 0 0) in
    if negb (IsOk decoded) then (kInvalidArgument, c)
    else
      (kOk, c <| time_sync_ := TimeSyncFollower.Observe (u64 (master_time_us sync * 1000))
                 receive_local_time_ns (time_sync_ c) |>).

(** The handles the plane is built with; [W] is what they reach. *)
Section Handles.
Context {W : Type} (physical_writer_ : CanFrameWriter W) (local_clock_ : CanClockReader W).

Definition ConfigValid (config : CanLinkControlConfig) : bool :=
  negb (protocol_version (local config) =? 0) && negb (hs_node_id (local config) =? 0) &&
  negb (peer_node_id config =? 0) && negb (peer_node_id config =? hs_node_id (local config)) &&
  negb (handshake_period_ns config =? 0) && negb (heartbeat_period_ns config =? 0) &&
  (heartbeat_period_ns config <? heartbeat_timeout_ns config) &&
  negb (time_sync_period_ns config =? 0) && negb (recovery_samples config =? 0) &&
  negb (retry_timeout_ns config =? 0) && negb (reassembly_timeout_ns config =? 0) &&
  bool_decide (is_Some physical_writer_) && bool_decide (is_Some local_clock_).

(** The constructor. *)
Definition init (config : CanLinkControlConfig) : t :=
  let '(valid, payload) :=
    if ConfigValid config then
      let '(status, payload, written) := HandshakeCodec.Encode (local config) (zeros kSize) in
      (IsOk status && (written =? kSize)%nat, payload)
    else (false, zeros kSize) in
  Mk config (HeartbeatMonitor.init (heartbeat_timeout_ns config) (recovery_samples config))
    TimeSyncFollower.init (ReliableSender.init kSize)
    (ReliableReceiver.init kSize (reassembly_timeout_ns config)) payload 0 0 0 0 kProtocolMismatch
    0 0 0 0 0 valid false false false false false false false
    (MkStats 0 0 0 0 0 0 0 0 0 0 0 0 0 0).

(** The plane and the world its handles reach. *)
Definition S : Type := t * W.

Definition PumpHandshake (now_ns : Z) (caller : ExecutionContext) (s : S) : Status * S :=
  let '(c, w) := s in
  let '(status, sent_frame, sender, w) :=
    ReliableSender.Pump physical_writer_ caller (fun _ => true) (fun sent => sent) false
      (handshake_sender_ c) w in
  let c := c <| handshake_sender_ := sender |> in
  if negb (IsOk status) then
    (status, (if status_is status kUnavailable || status_is status kCapacityExceeded
              then c <| stats_ := bump handshake_backpressure (stats_ c) |> else c, w))
  else if sent_frame && state_is (ReliableSender.state_ sender) kWaitingForAck then
    let '(status, sender) := ReliableSender.ArmAckDeadline now_ns sender in
    (status, (c <| handshake_sender_ := sender |>, w))
  else (kOk, (c, w)).

(** [if (const auto status = ...; status != Status::kOk) return status;] *)
Definition pump_or_return (now_ns : Z) (caller : ExecutionContext) : stage S Status := fun s =>
  let '(status, s) := PumpHandshake now_ns caller s in
  (if IsOk status then None else Some status, s).

(** *** The stages of [Poll] *)

Definition poll_guard (now_ns : Z) (caller : ExecutionContext) : stage S Status := fun '(c, w) =>
  if negb (valid_ c) then (Some kInvalidArgument, (c, w))
  else if is_interrupt caller || (has_last_poll_ c && (now_ns <? last_poll_ns_ c)) then
    (Some kInvalidArgument, (c, w))
  else
    let c := c <| has_last_poll_ := true |> <| last_poll_ns_ := now_ns |>
               <| heartbeat_ := snd (HeartbeatMonitor.Poll now_ns (heartbeat_ c)) |> in
    (None, (RefreshApplicationGate c, w)).

Definition poll_receiver (now_ns : Z) : stage S Status := fun '(c, w) =>
  let '(receiver_status, receiver) := ReliableReceiver.Poll now_ns (handshake_receiver_ c) in
  let c := c <| handshake_receiver_ := receiver |> in
  if status_is receiver_status kTimeout then
    (None, (c <| stats_ := bump handshake_reassembly_timeouts (stats_ c) |>, w))
  else if negb (status_is receiver_status kUnavailable) then (Some receiver_status, (c, w))
  else (None, (c, w)).

Definition sender_is (state : ReliableSenderState) (s : S) : bool :=
  state_is (ReliableSender.state_ (handshake_sender_ (fst s))) state.

Definition poll_retry (now_ns : Z) (caller : ExecutionContext) : stage S Status := fun '(c, w) =>
  let '(retry_status, sender) := ReliableSender.Poll now_ns (handshake_sender_ c) in
  let c := c <| handshake_sender_ := sender |> in
  if IsOk retry_status then
    pump_or_return now_ns caller (c <| stats_ := bump handshake_retries (stats_ c) |>, w)
  else if status_is retry_status kTimeout then
    (None, (c <| stats_ := bump handshake_failures (stats_ c) |>, w))
  else if negb (status_is retry_status kUnavailable) then (Some retry_status, (c, w))
  else (None, (c, w)).

(** Beginning a handshake, when the sender is free. *)
Definition begin_handshake (now_ns : Z) (caller : ExecutionContext) : stage S Status := fun '(c, w) =>
  let '(status, sender) :=
    ReliableSender.Begin kSize kHandshakeRouteId kCritical (handshake_sequence_ c)
      (handshake_payload_ c) now_ns (retry_timeout_ns (config_ c)) (maximum_retries (config_ c))
      (handshake_sender_ c) in
  let c := c <| handshake_sender_ := sender |> in
  if negb (IsOk status) then (Some status, (c, w))
  else
    let c := c <| handshake_sequence_ := u8 (Z.land (handshake_sequence_ c + 1) 0x0f) |> in
    let '(returned, (c, w)) := pump_or_return now_ns caller (c, w) in
    match returned with
    | Some status => (Some status, (c, w))
    | None => (None, (c <| stats_ := bump handshake_messages (stats_ c) |>, w))
    end.

Definition schedule_handshake (now_ns : Z) : stage S Status := fun '(c, w) =>
  (None, (c <| handshake_scheduled_ := true |>
            <| next_handshake_ns_ := u64 (now_ns + handshake_period_ns (config_ c)) |>, w)).

(** [EncodeX], then [physical_writer_.Send], each returning on failure. *)
Definition send_control (encoded : Status * CanFrame) (caller : ExecutionContext) (s : S)
    : option Status * S :=
  let '(c, w) := s in
  let '(status, frame) := encoded in
  if negb (IsOk status) then (Some status, (c, w))
  else
    let '(status, _, w) := CanFrameWriter_Send physical_writer_ frame caller w in
    (if IsOk status then None else Some status, (c, w)).

Definition send_heartbeat (now_ns : Z) (caller : ExecutionContext) : stage S Status := fun '(c, w) =>
  let heartbeat := MkHeartbeat (hs_node_id (local (config_ c))) (heartbeat_sequence_ c) (StateFlags c)
    (u32 (Z.land (now_ns / 1000000) 0xffffffff)) in
  let c := c <| heartbeat_sequence_ := u8 (heartbeat_sequence_ c + 1) |> in
  let '(returned, (c, w)) :=
    send_control (ControlFrameCodec.EncodeHeartbeat heartbeat CanFrame_default) caller (c, w) in
  match returned with
  | Some status => (Some status, (c, w))
  | None =>
      (None, (c <| stats_ := bump heartbeat_messages (stats_ c) |> <| heartbeat_scheduled_ := true |>
                <| next_heartbeat_ns_ := u64 (now_ns + heartbeat_period_ns (config_ c)) |>, w))
  end.

Definition send_time_sync (now_ns : Z) (caller : ExecutionContext) : stage S Status := fun '(c, w) =>
  let sync := MkTimeSync (time_sync_sequence_ c) (Z.land (now_ns / 1000) 0xffffffffffff) in
  let c := c <| time_sync_sequence_ := u8 (time_sync_sequence_ c + 1) |> in
  let '(returned, (c, w)) :=
    send_control (ControlFrameCodec.EncodeTimeSync sync CanFrame_default) caller (c, w) in
  match returned with
  | Some status => (Some status, (c, w))
  | None =>
      (None, (c <| stats_ := bump time_sync_messages (stats_ c) |> <| time_sync_scheduled_ := true |>
                <| next_time_sync_ns_ := u64 (now_ns + time_sync_period_ns (config_ c)) |>, w))
  end.

Definition Poll (now_ns : Z) (caller : ExecutionContext) (s : S) : Status * S :=
  let '(returned, s) :=
    (poll_guard now_ns caller >>>
     poll_receiver now_ns >>>
     when (sender_is kSending) (pump_or_return now_ns caller) >>>
     when (sender_is kWaitingForAck) (poll_retry now_ns caller) >>>
     when (fun s => negb (handshake_scheduled_ (fst s)) || (next_handshake_ns_ (fst s) <=? now_ns))
       (when (fun s => negb (ReliableSender.busy (handshake_sender_ (fst s))))
          (begin_handshake now_ns caller) >>>
        schedule_handshake now_ns) >>>
     when (fun s => negb (heartbeat_scheduled_ (fst s)) || (next_heartbeat_ns_ (fst s) <=? now_ns))
       (send_heartbeat now_ns caller) >>>
     when (fun s => time_authority (config_ (fst s)) &&
              (negb (time_sync_scheduled_ (fst s)) || (next_time_sync_ns_ (fst s) <=? now_ns)))
       (send_time_sync now_ns caller)) s in
  (default kOk returned, s).

(** *** [Accept] *)

Definition AcceptHandshake (frame : CanFrame) (receive_local_time_ns : Z) (caller : ExecutionContext)
    (s : S) : Status * S :=
  let '(c, w) := s in
  let header := byte_at (data frame) 0 in
  if (size frame =? 0) || negb (bool_decide (GetFrameKind header = kReliable)) then
    (kInvalidArgument, (c, w))
  else if bool_decide (GetReliableSubtype header = kAck) then
    let '(status, sender) := ReliableSender.HandleAck frame (handshake_sender_ c) in
    (status, (c <| handshake_sender_ := sender |>, w))
  else
    let '((status, message, acknowledgement), receiver) :=
      ReliableReceiver.Accept_timed kSize frame receive_local_time_ns (handshake_receiver_ c) in
    let c := c <| handshake_receiver_ := receiver |> in
    let '(ack_status, w) :=
      if negb (size acknowledgement =? 0) then
        let '(ack_status, _, w) := CanFrameWriter_Send physical_writer_ acknowledgement caller w in
        (ack_status, w)
      else (kOk, w) in
    if negb (IsOk ack_status) then (ack_status, (c, w))
    else if negb (IsOk status) then (status, (c, w))
    else
      let '(decoded, remote) := HandshakeCodec.Decode (msg_payload message) Handshake_default in
      if negb (IsOk decoded) || negb (hs_node_id remote =? peer_node_id (config_ c)) then
        (kTypeMismatch, (c, w))
      else
        let compatibility := CompatibilityGuard_Check (local (config_ c)) remote in
        (if bool_decide (compatibility = kCompatible) then kOk else kTypeMismatch,
         (c <| handshake_received_ := true |> <| compatibility_ := compatibility |>, w)).

(** The bookkeeping after the switch. *)
Definition accepted (r : Status * S) : Status * S :=
  let '(status, (c, w)) := r in
  let c := c <| stats_ := bump received_control_frames (stats_ c) |> in
  let c := if negb (IsOk status) && negb (status_is status kUnavailable)
           then c <| stats_ := bump invalid_control_frames (stats_ c) |> else c in
  (status, (RefreshApplicationGate c, w)).

Definition Accept (frame : CanFrame) (receive_local_time_ns : Z) (caller : ExecutionContext)
    (s : S) : Status * S :=
  let '(c, w) := s in
  if negb (valid_ c) then (kInvalidArgument, (c, w))
  else
    match CanArbitrationId_Decode (arbitration_id frame) with
    | None => let '(status, c) := InvalidControlFrame c in (status, (c, w))
    | Some id =>
        if negb (bool_decide (priority id = kCritical)) then
          let '(status, c) := InvalidControlFrame c in (status, (c, w))
        else if id_route id =? kHandshakeRouteId then
          accepted (AcceptHandshake frame receive_local_time_ns caller (c, w))
        else if id_route id =? kHeartbeatRouteId then
          accepted (let '(status, c) := AcceptHeartbeat frame receive_local_time_ns c in (status, (c, w)))
        else if id_route id =? kTimeSyncRouteId then
          accepted (let '(status, c) := AcceptTimeSync frame receive_local_time_ns c in (status, (c, w)))
        else (kUnavailable, (c, w))
    end.

(** The writer the plane offers to the application's bridges. *)
Definition WriteApplication (frame : CanFrame) (caller : ExecutionContext) (s : S) : Status * S :=
  let '(c, w) := s in
  match CanArbitrationId_Decode (arbitration_id frame) with
  | None => (kInvalidArgument, (c, w))
  | Some id =>
      if id_route id <? kFirstApplicationRouteId then (kInvalidArgument, (c, w))
      else if negb (application_enabled_ c) then
        (kUnavailable, (c <| stats_ := bump blocked_application_frames (stats_ c) |>, w))
      else
        let '(status, _, w) := CanFrameWriter_Send physical_writer_ frame caller w in
        (status,
         (if IsOk status then c <| stats_ := bump forwarded_application_frames (stats_ c) |> else c, w))
  end.

(** ** Invariant *)

Definition gate (c : t) : Prop :=
  application_enabled_ c = true ->
  compatible c = true /\ HeartbeatMonitor.state_ (heartbeat_ c) = kOnline /\
  time_synchronized c = true.

Record wf (c : t) : Prop := {
  wf_gate : gate c;
  wf_sender : ReliableSender.wf kSize (handshake_sender_ c);
  wf_receiver : ReliableReceiver.wf kSize (handshake_receiver_ c);
  wf_sequence : 0 <= handshake_sequence_ c <= 0x0f;
  wf_retries : 0 <= maximum_retries (config_ c) < 256
}.

(** The calls on the plane, and everything the rest of the node may do to the
    world between them. *)
Inductive step : S -> S -> Prop :=
  | step_Poll now caller s : step s (snd (Poll now caller s))
  | step_Accept frame time caller s : step s (snd (Accept frame time caller s))
  | step_WriteApplication frame caller s : step s (snd (WriteApplication frame caller s))
  | step_world c w w' : step (c, w) (c, w').

Definition ok (s : S) : Prop := wf (fst s).

(** The calls as data, for runs on concrete inputs. *)
Inductive call :=
  | CallPoll (now : Z) | CallAccept (frame : CanFrame) (time : Z) | CallWrite (frame : CanFrame).

Definition exec (caller : ExecutionContext) (s : S) (k : call) : S :=
  match k with
  | CallPoll now => snd (Poll now caller s)
  | CallAccept frame time => snd (Accept frame time caller s)
  | CallWrite frame => snd (WriteApplication frame caller s)
  end.

(** ** Lemmas: invariant *)

Lemma exec_reachable caller s ks : rtc step s (foldl (exec caller) s ks).
Proof.
  revert s. induction ks as [|k ks IH]; intros s; [apply rtc_refl|].
  eapply rtc_l; [|apply IH]. destruct k; constructor.
Qed.

Lemma gate_refresh c : gate (RefreshApplicationGate c).
Proof.
  unfold gate, RefreshApplicationGate. cbn. rewrite !andb_true_iff, bool_decide_eq_true. tauto.
Qed.

Lemma wf_refresh c :
  ReliableSender.wf kSize (handshake_sender_ c) -> ReliableReceiver.wf kSize (handshake_receiver_ c) ->
  0 <= handshake_sequence_ c <= 0x0f -> 0 <= maximum_retries (config_ c) < 256 ->
  wf (RefreshApplicationGate c).
Proof. intros. split; try done. apply gate_refresh. Qed.

(** Fields that the gate does not look at. *)
Lemma wf_same c c' :
  wf c -> application_enabled_ c' = application_enabled_ c ->
  handshake_received_ c' = handshake_received_ c -> compatibility_ c' = compatibility_ c ->
  heartbeat_ c' = heartbeat_ c -> time_sync_ c' = time_sync_ c -> config_ c' = config_ c ->
  ReliableSender.wf kSize (handshake_sender_ c') ->
  ReliableReceiver.wf kSize (handshake_receiver_ c') -> 0 <= handshake_sequence_ c' <= 0x0f -> wf c'.
Proof.
  intros [Hg Hs Hr Hq Hm] H1 H2 H3 H4 H5 H6 H7 H8 H9. split; try done; [|by rewrite H6].
  unfold gate, compatible, time_synchronized in *. by rewrite H1, H2, H3, H4, H5, H6.
Qed.

Lemma link_wf_init config :
  0 <= maximum_retries config < 256 -> wf (init config).
Proof.
  intros Hm. unfold init. destruct (if ConfigValid config then _ else _) as [valid payload].
  by split; cbn; try apply ReliableSender.sender_wf_init; try apply ReliableReceiver.receiver_wf_init.
Qed.

Ltac same_fields := eapply wf_same; eauto; cbn; eauto using wf_sender, wf_receiver, wf_sequence.

Lemma PumpHandshake_ok now caller s : ok s -> ok (snd (PumpHandshake now caller s)).
Proof.
  unfold ok. destruct s as [c w]. intros Hwf. unfold PumpHandshake.
  pose proof (ReliableSender.Pump_spec kSize physical_writer_ caller (fun _ => true) (fun sent => sent)
    false (handshake_sender_ c) w (wf_sender _ Hwf)) as Hp.
  destruct (ReliableSender.Pump _ _ _ _ _ _ _) as [[[status sent] sender] w'].
  destruct Hp as (Hs & _). split_if; [|split_if].
  - split_if; same_fields.
  - pose proof (ReliableSender.wf_ArmAckDeadline kSize now sender Hs) as Ha.
    destruct (ReliableSender.ArmAckDeadline now sender) as [st sender']. same_fields.
  - same_fields.
Qed.

Lemma pump_or_return_ok now caller s : ok s -> ok (snd (pump_or_return now caller s)).
Proof.
  intros H. unfold pump_or_return. pose proof (PumpHandshake_ok now caller s H) as Hp.
  by destruct (PumpHandshake now caller s) as [st s'].
Qed.

Lemma poll_guard_ok now caller s : ok s -> ok (snd (poll_guard now caller s)).
Proof.
  destruct s as [c w]. intros Hwf. unfold poll_guard. do 2 (split_if; [done|]).
  destruct Hwf. by apply wf_refresh.
Qed.

Lemma poll_receiver_ok now s : ok s -> ok (snd (poll_receiver now s)).
Proof.
  unfold ok. destruct s as [c w]. intros Hwf. unfold poll_receiver.
  destruct (ReliableReceiver.Poll now _) as [st r] eqn:HP.
  assert (ReliableReceiver.wf kSize r) as Hr.
  { apply (quiet_same_last kSize (handshake_receiver_ c) r); [by econstructor|apply wf_receiver, Hwf]. }
  split_if; [|split_if]; same_fields.
Qed.

Lemma poll_retry_ok now caller s : ok s -> ok (snd (poll_retry now caller s)).
Proof.
  destruct s as [c w]. intros Hwf. unfold poll_retry.
  pose proof (ReliableSender.wf_Poll kSize now _ (wf_sender _ Hwf)) as Hs.
  destruct (ReliableSender.Poll now _) as [st sender]. unfold ok in *.
  split_if; [apply pump_or_return_ok; unfold ok|split_if; [|split_if]]; same_fields.
Qed.

Lemma begin_handshake_ok now caller s : ok s -> ok (snd (begin_handshake now caller s)).
Proof.
  destruct s as [c w]. intros Hwf. unfold begin_handshake.
  change (wf c) in Hwf. pose proof Hwf as [_ _ _ Hq Hm].
  pose proof (ReliableSender.wf_Begin kSize kHandshakeRouteId kCritical (handshake_sequence_ c)
    (handshake_payload_ c) now (retry_timeout_ns (config_ c)) (maximum_retries (config_ c)) _
    ltac:(by vm_compute) ltac:(lia) Hm (wf_sender _ Hwf)) as Hs.
  destruct (ReliableSender.Begin _ _ _ _ _ _ _ _ _) as [st sender]. cbn [snd] in Hs.
  assert (0 <= u8 (Z.land (handshake_sequence_ c + 1) 0x0f) <= 0x0f) as Hq'.
  { rewrite land_0f. pose proof (Z.mod_pos_bound (handshake_sequence_ c + 1) 16).
    rewrite u8_small; lia. }
  split_if; [unfold ok; same_fields|].
  match goal with |- context [pump_or_return now caller ?q] =>
    assert (ok q) as Hok by (unfold ok; same_fields);
    pose proof (pump_or_return_ok now caller q Hok) as Hp;
    destruct (pump_or_return now caller q) as [[r|] [c' w']] end; unfold ok in *; cbn in *; [done|same_fields].
Qed.

Lemma send_control_state encoded caller c w :
  fst (snd (send_control encoded caller (c, w))) = c.
Proof.
  unfold send_control. destruct encoded as [st frame]. split_if; [done|].
  by destruct (CanFrameWriter_Send _ _ _ _) as [[? ?] ?].
Qed.

Lemma send_heartbeat_ok now caller s : ok s -> ok (snd (send_heartbeat now caller s)).
Proof.
  destruct s as [c w]. intros Hwf. unfold send_heartbeat.
  match goal with |- context [send_control ?e caller (?q, w)] =>
    pose proof (send_control_state e caller q w) as Hc;
    destruct (send_control e caller (q, w)) as [[r|] [c' w']] end; cbn in Hc; subst c';
    unfold ok in *; same_fields.
Qed.

Lemma send_time_sync_ok now caller s : ok s -> ok (snd (send_time_sync now caller s)).
Proof.
  destruct s as [c w]. intros Hwf. unfold send_time_sync.
  match goal with |- context [send_control ?e caller (?q, w)] =>
    pose proof (send_control_state e caller q w) as Hc;
    destruct (send_control e caller (q, w)) as [[r|] [c' w']] end; cbn in Hc; subst c';
    unfold ok in *; same_fields.
Qed.

Lemma schedule_handshake_ok now s : ok s -> ok (snd (schedule_handshake now s)).
Proof. destruct s as [c w]. intros Hwf. unfold ok in *. cbn. same_fields. Qed.

Lemma Poll_ok now caller s : ok s -> ok (snd (Poll now caller s)).
Proof.
  intros H. unfold Poll.
  match goal with |- context [(?f >>> ?g) s] =>
    assert (ok (snd ((f >>> g) s))) as Hok; [|by destruct ((f >>> g) s)] end.
  repeat (apply and_then_inv; [|clear s H; intros s H]); try apply when_inv; eauto using
    poll_guard_ok, poll_receiver_ok, pump_or_return_ok, poll_retry_ok, send_heartbeat_ok, send_time_sync_ok.
  intros _. apply and_then_inv; [|intros; by apply schedule_handshake_ok].
  apply when_inv; eauto using begin_handshake_ok.
Qed.

Lemma AcceptHandshake_spec frame time caller s :
  ok s ->
  let c' := fst (snd (AcceptHandshake frame time caller s)) in
  ReliableSender.wf kSize (handshake_sender_ c') /\ ReliableReceiver.wf kSize (handshake_receiver_ c') /\
  handshake_sequence_ c' = handshake_sequence_ (fst s) /\ config_ c' = config_ (fst s).
Proof.
  destruct s as [c w]. intros [_ Hs Hr _ _]. unfold AcceptHandshake. cbn in Hs, Hr.
  split_if; [done|]. split_if.
  - pose proof (ReliableSender.wf_HandleAck kSize frame _ Hs) as Hs'.
    by destruct (ReliableSender.HandleAck _ _) as [st sender].
  - pose proof (ReliableReceiver.Accept_timed_spec kSize frame time _ Hr) as Hp.
    destruct (ReliableReceiver.Accept_timed _ _ _ _) as [[[st m] ack] receiver].
    destruct Hp as (Hr' & _). cbn zeta. destruct (if negb (size ack =? 0) then _ else _) as [ast w'].
    split_if; [done|]. split_if; [done|]. destruct (HandshakeCodec.Decode _ _) as [d remote].
    by split_if.
Qed.

Lemma accepted_ok r :
  ReliableSender.wf kSize (handshake_sender_ (fst (snd r))) ->
  ReliableReceiver.wf kSize (handshake_receiver_ (fst (snd r))) ->
  0 <= handshake_sequence_ (fst (snd r)) <= 0x0f ->
  0 <= maximum_retries (config_ (fst (snd r))) < 256 -> ok (snd (accepted r)).
Proof.
  destruct r as [st [c w]]. cbn. intros. unfold ok. cbn. apply wf_refresh; split_if; done.
Qed.

Lemma HandlePeerRestart_spec c :
  wf c -> let c' := HandlePeerRestart c in
  ReliableSender.wf kSize (handshake_sender_ c') /\ ReliableReceiver.wf kSize (handshake_receiver_ c').
Proof.
  intros [_ _ Hr _ _]. split; cbn; [apply ReliableSender.sender_wf_init|].
  destruct (ReliableReceiver.receiver_wf_Reset _ _ Hr) as [Hb Hl Hq _ _].
  split; cbn in *; try done; lia.
Qed.

Lemma AcceptHeartbeat_spec frame time c :
  wf c -> let c' := snd (AcceptHeartbeat frame time c) in
  ReliableSender.wf kSize (handshake_sender_ c') /\ ReliableReceiver.wf kSize (handshake_receiver_ c') /\
  handshake_sequence_ c' = handshake_sequence_ c /\ config_ c' = config_ c.
Proof.
  intros Hwf. unfold AcceptHeartbeat. destruct (ControlFrameCodec.DecodeHeartbeat _ _) as [d hb].
  pose proof (HandlePeerRestart_spec c Hwf) as [Hs' Hr']. pose proof Hwf as [_ Hs Hr _ _].
  split_if; [done|]. split_if; [destruct (heartbeat_relation _ _)|]; done.
Qed.

Lemma Accept_ok frame time caller s : ok s -> ok (snd (Accept frame time caller s)).
Proof.
  intros Hok. destruct s as [c w]. unfold Accept. split_if; [done|].
  pose proof Hok as [Hg Hs Hr Hq Hm]. cbn in Hs, Hr, Hq, Hm.
  destruct (CanArbitrationId_Decode _) as [id|]; [|unfold ok in *; cbn; same_fields].
  split_if; [unfold ok in *; cbn; same_fields|]. split_if; [|split_if; [|split_if; [|done]]].
  - pose proof (AcceptHandshake_spec frame time caller (c, w) Hok) as (H1 & H2 & H3 & H4).
    destruct (AcceptHandshake _ _ _ _) as [st [c' w']]. cbn in H1, H2, H3, H4.
    apply accepted_ok; cbn; try done; [by rewrite H3|by rewrite H4].
  - pose proof (AcceptHeartbeat_spec frame time c Hok) as (H1 & H2 & H3 & H4).
    destruct (AcceptHeartbeat frame time c) as [st c']. cbn in *.
    apply (accepted_ok (st, (c', w))); cbn; try done; [by rewrite H3|by rewrite H4].
  - unfold AcceptTimeSync. split_if; [by apply (accepted_ok (kUnavailable, (c, w)))|].
    destruct (ControlFrameCodec.DecodeTimeSync _ _) as [d ts].
    split_if; by apply (accepted_ok (_, (_, w))).
Qed.

Lemma WriteApplication_ok frame caller s : ok s -> ok (snd (WriteApplication frame caller s)).
Proof.
  destruct s as [c w]. intros Hwf. unfold WriteApplication, ok in *.
  destruct (CanArbitrationId_Decode _) as [id|]; [|done]. split_if; [done|].
  split_if; [same_fields|]. destruct (CanFrameWriter_Send _ _ _ _) as [[st q] w'].
  split_if; same_fields.
Qed.

Lemma reachable_ok s0 s : ok s0 -> rtc step s0 s -> ok s.
Proof.
  intros H0 H. induction H as [|s1 s2 s3 Hs _ IH]; [done|]. apply IH.
  destruct Hs; eauto using Poll_ok, Accept_ok, WriteApplication_ok.
Qed.

End Handles.
End CanLinkControlPlane.

Import CanLinkControlPlane.

(** ** Properties *)

Section Properties.
Context {W : Type} (writer : CanFrameWriter W) (clock : CanClockReader W).
Context (config : CanLinkControlConfig) (w0 : W).
Context (Hretries : 0 <= maximum_retries config < 256).

Definition reachable (s : t * W) : Prop := rtc (step writer) (init writer clock config, w0) s.

Lemma link_reachable_wf s : reachable s -> wf (fst s).
Proof. apply reachable_ok. by apply link_wf_init. Qed.

(** C1: application frames pass only while the peer is compatible, alive and in
    time. In every state the plane can reach, whatever frames arrive and however
    the device behaves, an open gate means that the last handshake matched, that
    the heartbeat monitor is online and that a time base exists; and a frame offered
    through a closed gate, or on a reserved route, never reaches the device. *)
Theorem gate_sound c w frame caller :
  reachable (c, w) ->
  (application_enabled_ c = true ->
     compatible c = true /\ HeartbeatMonitor.state_ (heartbeat_ c) = kOnline /\
     time_synchronized c = true) /\
  (let '(status, (c', w')) := WriteApplication writer frame caller (c, w) in
   w' = w \/ application_enabled_ c = true /\
     exists p route, CanArbitrationId_Decode (arbitration_id frame) =
       Some (MkDecodedArbitrationId p route) /\ kFirstApplicationRouteId <= route).
Proof.
  intros Hr%link_reachable_wf. split; [apply (wf_gate _ Hr)|].
  unfold WriteApplication. destruct (CanArbitrationId_Decode _) as [[p route]|]; [|by left].
  cbn [id_route]. split_if; [by left|]. bool_hyps. split_if; [by left|]. bool_hyps.
  destruct (CanFrameWriter_Send _ _ _ _) as [[st q] w']. right. eauto.
Qed.

(** C2: a peer that restarted must introduce itself again: the heartbeat that
    shows the restart closes the gate at once and forgets the peer's handshake, its
    time base and everything in flight between the two nodes. *)
Theorem restart_closes_gate c w frame hb time caller :
  valid_ c = true ->
  CanArbitrationId_Decode (arbitration_id frame) =
    Some (MkDecodedArbitrationId kCritical kHeartbeatRouteId) ->
  ControlFrameCodec.DecodeHeartbeat frame Heartbeat_default = (kOk, hb) ->
  hb_node_id hb = peer_node_id (config_ c) -> has_peer_heartbeat_ c = true ->
  heartbeat_relation hb c = restart ->
  let '(status, (c', w')) := Accept writer frame time caller (c, w) in
  status = kOk /\ w' = w /\ application_enabled_ c' = false /\ compatible c' = false /\
  TimeSyncFollower.synchronized_ (time_sync_ c') = false /\
  handshake_sender_ c' = ReliableSender.init kSize /\
  ReliableReceiver.active_ (handshake_receiver_ c') = false /\
  ReliableReceiver.has_completed_ (handshake_receiver_ c') = false /\
  HeartbeatMonitor.consecutive_samples_ (heartbeat_ c') = 1.
Proof.
  intros Hv Hid Hhb Hn Hp Hrel. unfold Accept. rewrite Hv, Hid. cbn [negb priority id_route].
  rewrite bool_decide_true by done. cbn [negb].
  guard_false (kHeartbeatRouteId =? kHandshakeRouteId). rewrite Z.eqb_refl.
  unfold AcceptHeartbeat. rewrite Hhb, Hn, Z.eqb_refl, Hp, Hrel. done.
Qed.

(** A plane built from an unusable configuration, or without a device or a
    clock, does nothing for ever: no frame of any kind is written and its
    state never changes but for the counter of blocked frames. *)
Theorem invalid_config_inert c w now caller frame time :
  ConfigValid writer clock config = false -> reachable (c, w) ->
  Poll writer now caller (c, w) = (kInvalidArgument, (c, w)) /\
  Accept writer frame time caller (c, w) = (kInvalidArgument, (c, w)) /\
  snd (snd (WriteApplication writer frame caller (c, w))) = w.
Proof.
  intros Hc Hr.
  assert (valid_ c = false /\ application_enabled_ c = false) as [Hv He].
  { assert (forall s : t * W, valid_ (fst s) = false /\ application_enabled_ (fst s) = false ->
      forall s', step writer s s' -> valid_ (fst s') = false /\ application_enabled_ (fst s') = false)
      as Hstep.
    { intros [q v] [Hv He] s' Hs. cbn in Hv, He.
      inversion Hs as [now' caller' s1|frame' time' caller' s1|frame' caller' s1|c1 w1 w2]; subst; [..|done].
      - unfold Poll, and_then, poll_guard. by rewrite Hv.
      - unfold Accept. by rewrite Hv.
      - unfold WriteApplication. destruct (CanArbitrationId_Decode _); [|done]. split_if; [done|].
        by rewrite He. }
    assert (forall s s', rtc (step writer) s s' ->
      valid_ (fst s) = false /\ application_enabled_ (fst s) = false ->
      valid_ (fst s') = false /\ application_enabled_ (fst s') = false) as Hrtc.
    { intros s s'. induction 1 as [|s1 s2 s3 Hs _ IH]; [done|]. intros H. eapply IH, Hstep; done. }
    apply (Hrtc _ _ Hr). cbn. unfold init. by rewrite Hc. }
  split_and!.
  - unfold Poll, and_then, poll_guard. by rewrite Hv.
  - unfold Accept. by rewrite Hv.
  - unfold WriteApplication. destruct (CanArbitrationId_Decode _); [|done]. split_if; [done|].
    by rewrite He.
Qed.

End Properties.

(** *** Witnesses: node 1 meets node 2, the time authority *)

Definition sample_hash : list Z := replicate 16 0x5a.
Definition sample_config (node peer : Z) (authority : bool) : CanLinkControlConfig :=
  MkConfig (MkHandshake 1 node sample_hash sample_hash) peer authority 1000000000 100000000 300000000
    10000000 3 20000000 2 100000000.
Definition sample_writer : CanFrameWriter (list CanFrame) := Some (fun frame _ log => (kOk, log ++ [frame])).
Definition sample_clock : CanClockReader (list CanFrame) := Some (fun _ => (kOk, 0)).

Definition handshake_of (node : Z) : list CanFrame :=
  snd (ReliableSender.Pump sample_writer sample_context (fun _ => tt) (fun _ => tt) tt
    (snd (ReliableSender.Begin 34 kHandshakeRouteId kCritical 0
      (1 :: node :: sample_hash ++ sample_hash) 0 50 2 (ReliableSender.init 34))) []).
Definition heartbeat_of (node sequence uptime : Z) : CanFrame :=
  snd (ControlFrameCodec.EncodeHeartbeat (MkHeartbeat node sequence 0 uptime) CanFrame_default).
Definition sample_time_sync : CanFrame :=
  snd (ControlFrameCodec.EncodeTimeSync (MkTimeSync 0 5000) CanFrame_default).

Definition sample_calls : list call :=
  CallPoll 1000 :: ((fun f => CallAccept f 2000) <$> handshake_of 2) ++
  [CallAccept (heartbeat_of 2 0 100) 3000; CallAccept (heartbeat_of 2 1 200) 4000;
   CallAccept (heartbeat_of 2 2 300) 5000; CallAccept sample_time_sync 6000].

Definition sample_start : t * list CanFrame :=
  (init sample_writer sample_clock (sample_config 1 2 false), []).
Definition sample_online : t * list CanFrame :=
  foldl (exec sample_writer sample_context) sample_start sample_calls.

Lemma sample_online_enabled : application_enabled_ (fst sample_online) = true.
Proof. vm_compute. reflexivity. Qed.

Lemma gate_sound_witness :
  compatible (fst sample_online) = true /\
  HeartbeatMonitor.state_ (heartbeat_ (fst sample_online)) = kOnline /\
  time_synchronized (fst sample_online) = true.
Proof.
  apply (gate_sound sample_writer sample_clock (sample_config 1 2 false) [] ltac:(cbn; lia)
    (fst sample_online) (snd sample_online) CanFrame_default sample_context).
  - unfold reachable. rewrite <- surjective_pairing. apply exec_reachable.
  - apply sample_online_enabled.
Defined.

Lemma restart_closes_gate_witness :
  let r := Accept sample_writer (heartbeat_of 2 0 50) 7000 sample_context sample_online in
  application_enabled_ (fst sample_online) = true /\ application_enabled_ (fst (snd r)) = false.
Proof.
  split; [apply sample_online_enabled|].
  pose proof (restart_closes_gate sample_writer
    (fst sample_online) (snd sample_online) (heartbeat_of 2 0 50) (MkHeartbeat 2 0 0 50) 7000
    sample_context) as H.
  rewrite <- surjective_pairing in H.
  destruct (Accept sample_writer (heartbeat_of 2 0 50) 7000 sample_context sample_online)
    as [st [c' w']].
  apply H; vm_compute; reflexivity.
Defined.

Lemma invalid_config_inert_witness :
  fst (Poll sample_writer 10 sample_context
    (init sample_writer sample_clock (sample_config 1 1 false), [])) = kInvalidArgument.
Proof.
  rewrite (proj1 (invalid_config_inert sample_writer sample_clock (sample_config 1 1 false) []
    (init sample_writer sample_clock (sample_config 1 1 false)) [] 10 sample_context
    CanFrame_default 0 eq_refl (rtc_refl _ _))). reflexivity.
Defined.
