(* ===== verification/TypeSupport.v ===== *)
(** Type descriptors, channel descriptors and packets: the records that name
    data on a channel and on the wire
    ([aster_module_cpp_interface/type_support.hpp], the descriptors of
    [channel.hpp], [aster_runtime/transport/transport.hpp]). *)

From S2P Require Export Status.

Local Open Scope Z_scope.

(** ** Schema hashes and type descriptors *)

(** [std::array<std::byte, 16>], compared by value. *)
Record SchemaHash := MkSchemaHash { hash_bytes : list Z }.

#[export] Instance SchemaHash_eq_dec : EqDecision SchemaHash.
Proof. solve_decision. Defined.

Definition SchemaHash_zero : SchemaHash := MkSchemaHash (zeros 16).

Record TypeDescriptor := MkTypeDescriptor {
  type_name : string;
  schema_hash : SchemaHash;
  max_serialized_size : Z
}.

#[export] Instance TypeDescriptor_eq_dec : EqDecision TypeDescriptor.
Proof. solve_decision. Defined.

Definition TypeDescriptor_default : TypeDescriptor := MkTypeDescriptor "" SchemaHash_zero 0.

(** The loops copy one byte at a time into a sixteen-byte array. *)
Definition ToAbiSchemaHash (hash : SchemaHash) : list Z := u8 <$> hash_bytes hash.
Definition FromAbiSchemaHash (hash : list Z) : SchemaHash := MkSchemaHash (u8 <$> hash).

Record aster_type_descriptor_t := AbiTypeDescriptor {
  abi_name : aster_string_view_t;
  abi_schema_hash : list Z;
  abi_max_serialized_size : Z
}.

Definition ToAbiTypeDescriptor (descriptor : TypeDescriptor) : aster_type_descriptor_t :=
  AbiTypeDescriptor (ToAbiString (type_name descriptor))
    (ToAbiSchemaHash (schema_hash descriptor)) (max_serialized_size descriptor).

(** [std::numeric_limits<std::size_t>::max()] on a 64-bit target. *)
Definition SIZE_MAX : Z := UINT64_MAX.

(** A nullable pointer in, the result by reference. *)
Definition FromAbiTypeDescriptor (descriptor : option aster_type_descriptor_t)
    (result : TypeDescriptor) : Status * TypeDescriptor :=
  match descriptor with
  | None => (kInvalidArgument, result)
  | Some d =>
      if bool_decide (sv_data (abi_name d) = None) || (sv_size (abi_name d) =? 0)%nat ||
         (abi_max_serialized_size d =? 0) || (SIZE_MAX <? abi_max_serialized_size d)
      then (kInvalidArgument, result)
      else (kOk, MkTypeDescriptor (FromAbiString (abi_name d))
                   (FromAbiSchemaHash (abi_schema_hash d)) (abi_max_serialized_size d))
  end.

Definition SameType (left right : TypeDescriptor) : bool :=
  bool_decide (type_name left = type_name right) &&
  bool_decide (schema_hash left = schema_hash right) &&
  (max_serialized_size left =? max_serialized_size right).

(** ** Channel descriptors *)

Record ChannelDescriptor := MkChannelDescriptor {
  channel_name : string;
  message_type : TypeDescriptor
}.

#[export] Instance ChannelDescriptor_eq_dec : EqDecision ChannelDescriptor.
Proof. solve_decision. Defined.

Definition ChannelDescriptor_default : ChannelDescriptor :=
  MkChannelDescriptor "" TypeDescriptor_default.

Record MessageInfo := MkMessageInfo {
  info_sequence : Z;
  info_source_timestamp_ns : Z
}.

Record aster_channel_descriptor_t := AbiChannelDescriptor {
  abi_channel_name : aster_string_view_t;
  abi_message_type : aster_type_descriptor_t
}.

Definition ToAbiChannelDescriptor (descriptor : ChannelDescriptor) : aster_channel_descriptor_t :=
  AbiChannelDescriptor (ToAbiString (channel_name descriptor))
    (ToAbiTypeDescriptor (message_type descriptor)).

Definition FromAbiChannelDescriptor (descriptor : option aster_channel_descriptor_t)
    (result : ChannelDescriptor) : Status * ChannelDescriptor :=
  match descriptor with
  | None => (kInvalidArgument, result)
  | Some d =>
      if bool_decide (sv_data (abi_channel_name d) = None) ||
         (sv_size (abi_channel_name d) =? 0)%nat
      then (kInvalidArgument, result)
      else
        let '(status, message_type) :=
          FromAbiTypeDescriptor (Some (abi_message_type d)) TypeDescriptor_default in
        if negb (IsOk status) then (status, result)
        else (kOk, MkChannelDescriptor (FromAbiString (abi_channel_name d)) message_type)
  end.

(** ** Packets *)

(** [kPacketKind z] is a value of the enumeration without an enumerator. *)
Inductive PacketKind := kChannel | kRpcRequest | kRpcResponse | kControl | kPacketKind (z : Z).

#[export] Instance PacketKind_eq_dec : EqDecision PacketKind.
Proof. solve_decision. Defined.

Definition PacketKind_value (kind : PacketKind) : Z :=
  match kind with
  | kChannel => 1
  | kRpcRequest => 2
  | kRpcResponse => 3
  | kControl => 4
  | kPacketKind z => z
  end.

(** [static_cast<PacketKind>]. *)
Definition PacketKind_cast (z : Z) : PacketKind :=
  match z with
  | 1 => kChannel
  | 2 => kRpcRequest
  | 3 => kRpcResponse
  | 4 => kControl
  | _ => kPacketKind z
  end.

Record PacketHeader := MkPacketHeader {
  route_id : Z;
  packet_kind : PacketKind;
  sequence : Z;
  source_timestamp_ns : Z;
  deadline_ns : Z;
  packet_schema_hash : SchemaHash
}.

#[global] Instance eta_PacketHeader : Eta PacketHeader := fun h =>
  MkPacketHeader (route_id h) (packet_kind h) (sequence h) (source_timestamp_ns h)
    (deadline_ns h) (packet_schema_hash h).

(** The payload is a span; it is the bytes it shows when the packet is handed
    over. *)
Record PacketView := MkPacketView {
  header : PacketHeader;
  payload : list Z
}.

Definition PacketView_default : PacketView :=
  MkPacketView (MkPacketHeader 0 kChannel 0 0 0 SchemaHash_zero) [].

(** The values a header of the program can hold. *)
Definition hash_wf (hash : SchemaHash) : Prop :=
  length (hash_bytes hash) = 16%nat /\ Forall is_byte (hash_bytes hash).

Record header_wf (h : PacketHeader) : Prop := {
  header_wf_kind : PacketKind_cast (PacketKind_value (packet_kind h)) = packet_kind h;
  header_wf_route : 0 <= route_id h < 2 ^ 16;
  header_wf_sequence : 0 <= sequence h < 2 ^ 32;
  header_wf_source : 0 <= source_timestamp_ns h < 2 ^ 64;
  header_wf_deadline : 0 <= deadline_ns h < 2 ^ 64;
  header_wf_hash : hash_wf (packet_schema_hash h)
}.

Record TransportStats := MkTransportStats {
  packets_sent : Z;
  packets_received : Z;
  bytes_sent : Z;
  bytes_received : Z;
  backpressure : Z;
  invalid_packets : Z;
  deadline_misses : Z
}.

#[global] Instance eta_TransportStats : Eta TransportStats := fun s =>
  MkTransportStats (packets_sent s) (packets_received s) (bytes_sent s) (bytes_received s)
    (backpressure s) (invalid_packets s) (deadline_misses s).

Definition TransportStats_zero : TransportStats := MkTransportStats 0 0 0 0 0 0 0.

(** [stats.bytes += (std::uint32_t)size]. *)
Definition add32 (total : Z) (size : nat) : Z := u32 (total + u32 (Z.of_nat size)).

(** ** Lemmas *)

Lemma PacketKind_cast_value z : PacketKind_value (PacketKind_cast z) = z.
Proof. unfold PacketKind_cast. by repeat case_match. Qed.

Lemma SameType_spec left right : SameType left right = true <-> left = right.
Proof.
  unfold SameType. destruct left as [n h m], right as [n' h' m']. cbn. split.
  - intros H. bool_hyps. congruence.
  - intros [=-> -> ->]. repeat (apply andb_true_intro; split); solve_guard; done.
Qed.

Lemma FromAbiSchemaHash_ToAbi hash :
  hash_wf hash -> FromAbiSchemaHash (ToAbiSchemaHash hash) = hash.
Proof.
  destruct hash as [bytes]. intros [_ H]. unfold FromAbiSchemaHash, ToAbiSchemaHash. cbn in *.
  f_equal. induction H as [|b bytes Hb _ IH]; [done|]. cbn.
  unfold is_byte in Hb. rewrite !u8_small by (rewrite ?u8_small; lia). by rewrite IH.
Qed.

Lemma string_nonempty_length s : s <> ""%string -> (0 < String.length s)%nat.
Proof. destruct s; cbn; [done|lia]. Qed.

(** A descriptor the C side accepts comes back as it was sent. *)
Lemma FromAbiTypeDescriptor_ToAbi d result :
  type_name d <> ""%string -> 0 < max_serialized_size d <= SIZE_MAX -> hash_wf (schema_hash d) ->
  FromAbiTypeDescriptor (Some (ToAbiTypeDescriptor d)) result = (kOk, d).
Proof.
  intros Hn%string_nonempty_length Hm Hh. unfold FromAbiTypeDescriptor, ToAbiTypeDescriptor.
  cbn [abi_name abi_schema_hash abi_max_serialized_size ToAbiString sv_size].
  change (AbiString (Some ?s) (String.length ?s)) with (ToAbiString s).
  rewrite bool_decide_eq_false_2 by done. cbn [orb].
  rewrite FromAbiString_ToAbiString, FromAbiSchemaHash_ToAbi by done.
  guard_false (String.length (type_name d) =? 0)%nat. guard_false (max_serialized_size d =? 0).
  guard_false (SIZE_MAX <? max_serialized_size d). by destruct d.
Qed.

Lemma FromAbiChannelDescriptor_ToAbi d result :
  channel_name d <> ""%string -> type_name (message_type d) <> ""%string ->
  0 < max_serialized_size (message_type d) <= SIZE_MAX -> hash_wf (schema_hash (message_type d)) ->
  FromAbiChannelDescriptor (Some (ToAbiChannelDescriptor d)) result = (kOk, d).
Proof.
  intros Hn%string_nonempty_length Ht Hm Hh. unfold FromAbiChannelDescriptor, ToAbiChannelDescriptor.
  cbn [abi_channel_name abi_message_type]. rewrite FromAbiTypeDescriptor_ToAbi by done.
  cbn [ToAbiString sv_size]. guard_false (String.length (channel_name d) =? 0)%nat.
  rewrite bool_decide_eq_false_2 by done. cbn [orb IsOk negb].
  rewrite FromAbiString_ToAbiString. by destruct d.
Qed.
