(* ===== verification/Cobs.v ===== *)
(** Consistent overhead byte stuffing ([transport/usb/cobs.hpp]): a packet is
    rewritten without zero bytes, so that a zero can end it on the wire. *)

From S2P Require Export Status.

Local Open Scope Z_scope.

(** ** [CobsEncode]

    Status, output and [written]; the loop's three locals are arguments. *)
Fixpoint CobsEncode_loop (input output : list Z) (code_index output_index : nat) (code : Z)
    : Status * list Z * nat :=
  match input with
  | [] => (kOk, <[code_index := code]> output, output_index)
  | value :: rest =>
      if value =? 0 then
        if (length output <=? code_index)%nat then (kCapacityExceeded, output, 0%nat)
        else
          let output := <[code_index := code]> output in
          let code_index := output_index in
          let output_index := S output_index in
          if (length output <? output_index)%nat then (kCapacityExceeded, output, 0%nat)
          else CobsEncode_loop rest output code_index output_index 1
      else if (length output <=? output_index)%nat then (kCapacityExceeded, output, 0%nat)
      else
        let output := <[output_index := value]> output in
        let output_index := S output_index in
        let code := u8 (code + 1) in
        if code =? 0xff then
          let output := <[code_index := code]> output in
          let code_index := output_index in
          let output_index := S output_index in
          if (length output <? output_index)%nat then (kCapacityExceeded, output, 0%nat)
          else CobsEncode_loop rest output code_index output_index 1
        else CobsEncode_loop rest output code_index output_index code
  end.

Definition CobsEncode (input output : list Z) : Status * list Z * nat :=
  if (length output =? 0)%nat then (kCapacityExceeded, output, 0%nat)
  else CobsEncode_loop input output 0 1 1.

(** ** [CobsDecode] *)

(** The inner loop: [count] more bytes of the block. The status is [kOk] when
    the block is copied. *)
Fixpoint CobsDecode_block (count : nat) (input output : list Z) (input_index written : nat)
    : Status * list Z * nat * nat :=
  match count with
  | O => (kOk, output, input_index, written)
  | S count =>
      if (written =? length output)%nat || (byte_at input input_index =? 0) then
        (if (written =? length output)%nat then kCapacityExceeded else kProtocolError,
         output, input_index, written)
      else
        CobsDecode_block count input (<[written := byte_at input input_index]> output)
          (S input_index) (S written)
  end.

(** The outer loop; each round consumes at least the code byte. *)
Fixpoint CobsDecode_loop (fuel : nat) (input output : list Z) (input_index written : nat)
    : Status * list Z * nat :=
  match fuel with
  | O => (kOk, output, written)
  | S fuel =>
      if negb (input_index <? length input)%nat then (kOk, output, written)
      else
        let code := byte_at input input_index in
        let input_index := S input_index in
        if (code =? 0) || (length input <? input_index + Z.to_nat code - 1)%nat then
          (kProtocolError, output, written)
        else
          let '(status, output, input_index, written) :=
            CobsDecode_block (Z.to_nat code - 1) input output input_index written in
          if negb (IsOk status) then (status, output, written)
          else if negb (code =? 0xff) && (input_index <? length input)%nat then
            if (written =? length output)%nat then (kCapacityExceeded, output, written)
            else CobsDecode_loop fuel input (<[written := 0]> output) input_index (S written)
          else CobsDecode_loop fuel input output input_index written
  end.

Definition CobsDecode (input output : list Z) : Status * list Z * nat :=
  if (length input =? 0)%nat then (kProtocolError, output, 0%nat)
  else CobsDecode_loop (S (length input)) input output 0 0.

(** ** Specification

    The stuffed form of [input], with [block] the bytes since the last code. *)
Fixpoint stuffed (block input : list Z) : list Z :=
  match input with
  | [] => Z.of_nat (S (length block)) :: block
  | value :: rest =>
      if value =? 0 then Z.of_nat (S (length block)) :: block ++ stuffed [] rest
      else if (length block =? 253)%nat then 255 :: block ++ value :: stuffed [] rest
      else stuffed (block ++ [value]) rest
  end.

#[global] Arguments CobsEncode : simpl never.
#[global] Arguments CobsDecode : simpl never.

(** ** Lemmas: the stuffed form *)

Lemma stuffed_length_pos block input : (length block < length (stuffed block input))%nat.
Proof.
  revert block. induction input as [|v rest IH]; intros block; cbn [stuffed]; [cbn; lia|].
  split_if; [cbn; rewrite length_app; lia|]. split_if; [cbn; rewrite length_app; cbn; lia|].
  specialize (IH (block ++ [v])). rewrite length_app in IH. cbn in IH. lia.
Qed.

(** One byte of overhead, and one more per 254 bytes. *)
Lemma stuffed_length_bound block input :
  (length block < 254)%nat ->
  (254 * length (stuffed block input) <= 255 * (length block + length input) + 254)%nat.
Proof.
  revert block. induction input as [|v rest IH]; intros block Hb; cbn [stuffed]; [cbn; lia|].
  pose proof (IH [] ltac:(cbn; lia)) as H0. cbn [length] in *.
  split_if; [cbn [length]; rewrite length_app; lia|]. split_if; bool_hyps.
  - cbn [length]. rewrite length_app. cbn [length]. lia.
  - specialize (IH (block ++ [v])). rewrite length_app in IH. cbn in IH. lia.
Qed.

Lemma stuffed_nonzero block input :
  (length block < 254)%nat -> Forall is_byte input -> Forall (fun b => 1 <= b < 256) block ->
  Forall (fun b => 1 <= b < 256) (stuffed block input).
Proof.
  revert block. induction input as [|v rest IH]; intros block Hb Hi Hbl; cbn [stuffed].
  - constructor; [lia|done].
  - apply Forall_cons in Hi as [Hv Hi]. unfold is_byte in Hv. split_if; [|split_if]; bool_hyps.
    + constructor; [lia|]. apply Forall_app. split; [done|]. by apply IH; cbn; try lia.
    + constructor; [lia|]. apply Forall_app. split; [done|]. constructor; [lia|].
      by apply IH; cbn; try lia.
    + apply IH; [rewrite length_app; cbn; lia|done|]. apply Forall_app. split; [done|].
      apply Forall_singleton. lia.
Qed.

(** ** Lemmas: the encoder *)

(** The output while a block is open: the closed blocks, the place of the code,
    the block, and what is still free. *)
Ltac list_len := repeat (progress (rewrite ?length_app, ?length_insert in *; cbn [length] in *)); lia.
Ltac app_eq := repeat (rewrite <- ?app_assoc; cbn [app]); reflexivity.
(** Use an equation of a loop whose arguments agree up to list arithmetic. *)
Ltac same_run Heq :=
  etransitivity; [|etransitivity; [exact Heq|]]; [f_equal|apply f_equal2; [apply f_equal2|]];
  first [app_eq | list_len].
Ltac guard_len b v := let H := fresh in
  assert (b = v) as H by (solve_guard; list_len); rewrite H; clear H.

Lemma CobsEncode_loop_ok input closed x block free :
  (length block < 254)%nat ->
  (length (closed ++ stuffed block input) <= length (closed ++ x :: block ++ free))%nat ->
  exists free',
    CobsEncode_loop input (closed ++ x :: block ++ free) (length closed)
      (S (length closed + length block)) (Z.of_nat (S (length block))) =
    (kOk, closed ++ stuffed block input ++ free', length (closed ++ stuffed block input)).
Proof.
  revert closed x block free. induction input as [|v rest IH]; intros closed x block free Hb Hfit;
    cbn [CobsEncode_loop stuffed] in *.
  - exists free. rewrite insert_middle. f_equal. list_len.
  - destruct (Z.eqb_spec v 0) as [->|Hv].
    + pose proof (stuffed_length_pos [] rest) as Hs.
      destruct free as [|y free]; [exfalso; list_len|].
      guard_len (length (closed ++ x :: block ++ y :: free) <=? length closed)%nat false.
      rewrite insert_middle.
      guard_len (length (closed ++ Z.of_nat (S (length block)) :: block ++ y :: free) <?
        S (S (length closed + length block)))%nat false.
      destruct (IH (closed ++ Z.of_nat (S (length block)) :: block) y [] free) as (free' & Heq);
        [cbn; lia|list_len|].
      exists free'. same_run Heq.
    + destruct (Nat.eqb_spec (length block) 253) as [Hfull|Hmore].
      * pose proof (stuffed_length_pos [] rest) as Hs.
        destruct free as [|y [|z free]]; [exfalso; list_len|exfalso; list_len|].
        guard_len (length (closed ++ x :: block ++ y :: z :: free) <=?
          S (length closed + length block))%nat false.
        rewrite u8_small by lia. replace (Z.of_nat (S (length block)) + 1) with 255 by lia.
        rewrite Z.eqb_refl. replace (S (length closed + length block)) with (length (closed ++ x :: block)) by list_len.
        replace (closed ++ x :: block ++ y :: z :: free) with ((closed ++ x :: block) ++ y :: z :: free)
          by by rewrite <- app_assoc.
        rewrite insert_middle, <- app_assoc. cbn [app]. rewrite insert_middle.
        guard_len (length (closed ++ 255%Z :: block ++ v :: z :: free) <?
          S (S (length (closed ++ x :: block))))%nat false.
        destruct (IH (closed ++ 255 :: block ++ [v]) z [] free) as (free' & Heq); [cbn; lia|list_len|].
        exists free'. same_run Heq.
      * pose proof (stuffed_length_pos (block ++ [v]) rest) as Hs.
        destruct free as [|y free]; [exfalso; list_len|].
        guard_len (length (closed ++ x :: block ++ y :: free) <=? S (length closed + length block))%nat false.
        rewrite u8_small by lia. guard_false (Z.of_nat (S (length block)) + 1 =? 255).
        replace (S (length closed + length block)) with (length (closed ++ x :: block)) by list_len.
        replace (closed ++ x :: block ++ y :: free) with ((closed ++ x :: block) ++ y :: free)
          by by rewrite <- app_assoc.
        rewrite insert_middle, <- app_assoc. cbn [app].
        destruct (IH closed x (block ++ [v]) free) as (free' & Heq); [list_len|list_len|].
        exists free'. same_run Heq.
Qed.

Lemma CobsEncode_loop_full input output code_index output_index code block :
  (length block < 254)%nat -> code = Z.of_nat (S (length block)) ->
  (code_index < output_index)%nat -> (output_index <= length output)%nat ->
  (length output < output_index - S (length block) + length (stuffed block input))%nat ->
  (S (length block) <= output_index)%nat ->
  exists output', CobsEncode_loop input output code_index output_index code =
    (kCapacityExceeded, output', 0%nat).
Proof.
  revert output code_index output_index code block.
  induction input as [|v rest IH]; intros output ci oi code block Hb -> Hci Hoi Hover Hbo;
    cbn [CobsEncode_loop stuffed length] in *; [lia|].
  destruct (Z.eqb_spec v 0) as [->|Hv].
  - guard_false (length output <=? ci)%nat. rewrite length_insert.
    destruct (Nat.ltb_spec (length output) (S oi)); [by eexists|].
    apply (IH _ _ _ _ []); cbn [length]; try lia; list_len.
  - destruct (Nat.leb_spec (length output) oi); [by eexists|].
    rewrite u8_small by lia. rewrite !length_insert.
    destruct (Nat.eqb_spec (length block) 253) as [Hfull|Hmore].
    + guard_true (Z.of_nat (S (length block)) + 1 =? 255).
      destruct (Nat.ltb_spec (length output) (S (S oi))); [by eexists|].
      apply (IH _ _ _ _ []); cbn [length]; try lia; list_len.
    + guard_false (Z.of_nat (S (length block)) + 1 =? 255).
      apply (IH _ _ _ _ (block ++ [v])); list_len.
Qed.

Lemma CobsEncode_loop_length input output code_index output_index code :
  length (CobsEncode_loop input output code_index output_index code).1.2 = length output.
Proof.
  revert output code_index output_index code.
  induction input as [|v rest IH]; intros output ci oi code; cbn [CobsEncode_loop].
  - apply length_insert.
  - repeat split_if; cbn [fst snd]; rewrite ?IH; by rewrite ?length_insert.
Qed.

Lemma CobsEncode_length input output : length (CobsEncode input output).1.2 = length output.
Proof. unfold CobsEncode. split_if; [done|]. apply CobsEncode_loop_length. Qed.

(** ** Lemmas: the decoder *)

(** Position arithmetic: the input is [before ++ rest], the output
    [result ++ free], and the indices point at the seams. *)
Lemma CobsDecode_block_spec block before after result free :
  Forall (fun b => 1 <= b < 256) block -> (length block <= length free)%nat ->
  CobsDecode_block (length block) (before ++ block ++ after) (result ++ free) (length before)
    (length result) =
  (kOk, (result ++ block) ++ drop (length block) free, length (before ++ block),
   length (result ++ block)).
Proof.
  intros Hb. revert before result free. induction Hb as [|b block Hb _ IH]; intros before result free Hf;
    cbn [CobsDecode_block length app].
  - by rewrite !app_nil_r.
  - destruct free as [|y free]; cbn in Hf; [lia|].
    assert (byte_at (before ++ b :: block ++ after) (length before) = b) as ->.
    { unfold byte_at. by rewrite lookup_app_r, Nat.sub_diag by lia. }
    guard_len (length result =? length (result ++ y :: free))%nat false. cbn [orb].
    guard_false (b =? 0). rewrite insert_middle. cbn [drop].
    specialize (IH (before ++ [b]) (result ++ [b]) free ltac:(lia)).
    rewrite <- !app_assoc in IH. cbn [app] in IH. rewrite !length_app in IH. cbn [length] in IH.
    rewrite !Nat.add_1_r in IH. rewrite IH, <- !app_assoc. cbn [app]. do 2 f_equal; list_len.
Qed.

(** One round of the outer loop over a complete block. *)
Lemma CobsDecode_round fuel block before after result free :
  (length block < 255)%nat -> Forall (fun b => 1 <= b < 256) block ->
  (length block <= length free)%nat ->
  let input := before ++ Z.of_nat (S (length block)) :: block ++ after in
  let index := length (before ++ Z.of_nat (S (length block)) :: block) in
  let output := (result ++ block) ++ drop (length block) free in
  CobsDecode_loop (S fuel) input (result ++ free) (length before) (length result) =
    if negb (length block =? 254)%nat && negb (length after =? 0)%nat then
      if (length free =? length block)%nat then (kCapacityExceeded, output, length (result ++ block))
      else CobsDecode_loop fuel input (<[length (result ++ block) := 0]> output) index
             (S (length (result ++ block)))
    else CobsDecode_loop fuel input output index (length (result ++ block)).
Proof.
  intros Hlen Hb Hf. cbn zeta. cbn [CobsDecode_loop].
  set (code := Z.of_nat (S (length block))).
  assert (byte_at (before ++ code :: block ++ after) (length before) = code) as Hcode.
  { unfold byte_at. by rewrite lookup_app_r, Nat.sub_diag by lia. }
  guard_len (length before <? length (before ++ code :: block ++ after))%nat true. cbn [negb].
  rewrite Hcode.
  guard_len ((code =? 0) || (length (before ++ code :: block ++ after) <?
    S (length before) + Z.to_nat code - 1)%nat)%bool false.
  replace (Z.to_nat code - 1)%nat with (length block) by lia.
  replace (before ++ code :: block ++ after) with ((before ++ [code]) ++ block ++ after) at 1
    by app_eq.
  replace (S (length before)) with (length (before ++ [code])) by list_len.
  rewrite CobsDecode_block_spec by done. cbn [negb IsOk].
  replace (length ((before ++ [code]) ++ block)) with (length (before ++ code :: block)) by list_len.
  assert ((length (before ++ code :: block) <? length (before ++ code :: block ++ after))%nat =
    negb (length after =? 0)%nat) as ->.
  { apply eq_true_iff_eq. rewrite negb_true_iff, Nat.ltb_lt, Nat.eqb_neq. list_len. }
  assert ((code =? 255) = (length block =? 254)%nat) as ->.
  { apply eq_true_iff_eq. rewrite Z.eqb_eq, Nat.eqb_eq. lia. }
  destruct (_ && _)%bool; [|done].
  assert ((length (result ++ block) =? length ((result ++ block) ++ drop (length block) free))%nat =
    (length free =? length block)%nat) as ->; [|done].
  apply eq_true_iff_eq. rewrite !Nat.eqb_eq, (length_app (result ++ block)), length_drop. lia.
Qed.

Lemma CobsDecode_loop_done fuel input output index written :
  (length input <= index)%nat ->
  CobsDecode_loop fuel input output index written = (kOk, output, written).
Proof. intros H. destruct fuel; [done|]. cbn [CobsDecode_loop]. by guard_false (index <? length input)%nat. Qed.

Lemma CobsDecode_loop_stuffed input block before result free fuel :
  (length block < 254)%nat -> Forall is_byte input -> Forall (fun b => 1 <= b < 256) block ->
  (length block + length input <= length free)%nat ->
  (length (stuffed block input) < fuel)%nat ->
  CobsDecode_loop fuel (before ++ stuffed block input) (result ++ free) (length before)
    (length result) =
  (kOk, result ++ block ++ input ++ drop (length block + length input) free,
   (length result + (length block + length input))%nat).
Proof.
  revert block before result free fuel.
  induction input as [|v rest IH]; intros block before result free fuel Hb Hi Hbl Hf Hfuel;
    cbn [stuffed] in *.
  - destruct fuel as [|fuel]; [lia|].
    pose proof (CobsDecode_round fuel block before [] result free ltac:(lia) Hbl ltac:(cbn in Hf; lia)) as Hr.
    rewrite !app_nil_r in Hr. cbn zeta in Hr. rewrite Hr. cbn [length Nat.eqb negb].
    rewrite andb_false_r, CobsDecode_loop_done by lia. cbn [app]. rewrite Nat.add_0_r.
    apply f_equal2; [apply f_equal2; [done|app_eq]|list_len].
  - apply Forall_cons in Hi as [Hv Hi]. unfold is_byte in Hv. cbn [length] in Hf.
    destruct (Z.eqb_spec v 0) as [->|Hv0]; [|destruct (Nat.eqb_spec (length block) 253) as [Hfull|Hmore]].
    + destruct fuel as [|fuel]; [lia|]. rewrite CobsDecode_round by (done || lia).
      pose proof (stuffed_length_pos [] rest) as Hs. cbn [length] in Hs, Hfuel. rewrite length_app in Hfuel.
      guard_false (length block =? 254)%nat. guard_false (length (stuffed [] rest) =? 0)%nat.
      guard_false (length free =? length block)%nat. cbn [negb andb].
      destruct (drop (length block) free) as [|y free'] eqn:Hd.
      { apply (f_equal length) in Hd. rewrite length_drop in Hd. cbn in Hd. lia. }
      assert (length free = length block + S (length free'))%nat as Hfl.
      { apply (f_equal length) in Hd. rewrite length_drop in Hd. cbn in Hd. lia. }
      rewrite insert_middle.
      pose proof (IH [] (before ++ Z.of_nat (S (length block)) :: block) ((result ++ block) ++ [0]) free'
        fuel ltac:(cbn; lia) Hi ltac:(constructor) ltac:(cbn; lia) ltac:(lia)) as Heq.
      etransitivity; [|etransitivity; [exact Heq|]]; [f_equal; first [app_eq|list_len]|].
      apply f_equal2; [apply f_equal2; [done|]|list_len].
      replace (drop (length block + length (0 :: rest)) free) with (drop (length rest) free'); [app_eq|].
      rewrite <- (drop_drop free), Hd. done.
    + destruct fuel as [|fuel]; [lia|].
      pose proof (CobsDecode_round fuel (block ++ [v]) before (stuffed [] rest) result free ltac:(list_len)
        ltac:(apply Forall_app; split; [done|apply Forall_singleton; lia]) ltac:(list_len)) as Hr.
      cbn zeta in Hr. replace (Z.of_nat (S (length (block ++ [v])))) with 255 in Hr by list_len.
      replace (before ++ 255 :: block ++ v :: stuffed [] rest) with
        (before ++ 255 :: (block ++ [v]) ++ stuffed [] rest) by app_eq.
      rewrite Hr. guard_len (length (block ++ [v]) =? 254)%nat true. cbn [negb andb].
      pose proof (IH [] (before ++ 255 :: block ++ [v]) (result ++ block ++ [v])
        (drop (length (block ++ [v])) free) fuel ltac:(cbn; lia) Hi ltac:(constructor)
        ltac:(rewrite length_drop; list_len) ltac:(list_len)) as Heq.
      etransitivity; [|etransitivity; [exact Heq|]]; [f_equal; first [app_eq|list_len]|].
      apply f_equal2; [apply f_equal2; [done|]|list_len].
      rewrite drop_drop. replace (length (block ++ [v]) + (length (@nil Z) + length rest))%nat with
        (length block + length (v :: rest))%nat by list_len. app_eq.
    + rewrite IH; try done; try list_len.
      * apply f_equal2; [apply f_equal2; [done|]|list_len].
        replace (length (block ++ [v]) + length rest)%nat with (length block + length (v :: rest))%nat
          by list_len. app_eq.
      * apply Forall_app. split; [done|]. apply Forall_singleton. lia.
Qed.

(** ** Lemmas: arbitrary input

    The decoder's input comes from the wire: on every input it stays inside both
    buffers, and the fuel of the outer loop never runs out. *)
Definition decode_safe (output : list Z) (result : Status * list Z * nat) : Prop :=
  let '(status, output', written) := result in
  length output' = length output /\ (written <= length output)%nat /\
  status ∈ [kOk; kCapacityExceeded; kProtocolError].

Lemma CobsDecode_block_safe count input output index written :
  (written <= length output)%nat ->
  let '(status, output', index', written') := CobsDecode_block count input output index written in
  decode_safe output (status, output', written') /\ (index <= index' <= index + count)%nat.
Proof.
  revert output index written. induction count as [|count IH]; intros output index written Hw;
    cbn [CobsDecode_block].
  - split; [|lia]. split_and!; [done|done|set_solver].
  - split_if; bool_hyps.
    + split; [|lia]. split_and!; [done|done|]. split_if; set_solver.
    + specialize (IH (<[written := byte_at input index]> output) (S index) (S written)).
      rewrite length_insert in IH. specialize (IH ltac:(lia)).
      destruct (CobsDecode_block _ _ _ _ _) as [[[status output'] index'] written'].
      destruct IH as [(Hl & Hw' & Hs) Hi]. rewrite length_insert in *. split; [done|lia].
Qed.

Lemma CobsDecode_loop_safe fuel fuel' input output index written :
  (written <= length output)%nat ->
  (length input - index < fuel)%nat -> (fuel <= fuel')%nat ->
  decode_safe output (CobsDecode_loop fuel input output index written) /\
  CobsDecode_loop fuel' input output index written =
    CobsDecode_loop fuel input output index written.
Proof.
  revert fuel' output index written. induction fuel as [|fuel IH]; intros fuel' output index written Hw Hf Hf';
    [lia|].
  destruct fuel' as [|fuel']; [lia|]. cbn [CobsDecode_loop].
  destruct (Nat.ltb_spec index (length input)) as [Hin|]; cbn [negb];
    [|split; [split_and!; [done|done|set_solver]|done]].
  split_if; [split; [split_and!; [done|done|set_solver]|done]|]. bool_hyps.
  pose proof (CobsDecode_block_safe (Z.to_nat (byte_at input index) - 1) input output (S index) written Hw) as Hb.
  destruct (CobsDecode_block _ _ _ _ _) as [[[status output'] index'] written'].
  destruct Hb as [(Hl & Hw' & Hs) Hi].
  destruct (negb (IsOk status)); [by split|].
  split_if; [split_if|]; bool_hyps.
  - split; [split_and!; [done|done|set_solver]|done].
  - destruct (IH fuel' (<[written' := 0]> output') index' (S written')) as [Hsafe Heq];
      [rewrite length_insert; lia|lia|lia|].
    split; [|exact Heq]. unfold decode_safe in *. by rewrite length_insert, Hl in Hsafe.
  - destruct (IH fuel' output' index' written') as [Hsafe Heq]; [lia|lia|lia|].
    split; [|exact Heq]. unfold decode_safe in *. by rewrite Hl in Hsafe.
Qed.

(** ** What the two routines promise their callers *)

Lemma CobsEncode_ok input output :
  (length (stuffed [] input) <= length output)%nat ->
  exists free, CobsEncode input output =
    (kOk, stuffed [] input ++ free, length (stuffed [] input)).
Proof.
  intros H. unfold CobsEncode. pose proof (stuffed_length_pos [] input). cbn in *.
  guard_false (length output =? 0)%nat. destruct output as [|x output]; [cbn in *; lia|].
  apply (CobsEncode_loop_ok input [] x [] output); cbn; [lia|done].
Qed.

Lemma CobsEncode_full input output :
  (length output < length (stuffed [] input))%nat ->
  exists output', CobsEncode input output = (kCapacityExceeded, output', 0%nat).
Proof.
  intros H. unfold CobsEncode. destruct (Nat.eqb_spec (length output) 0); [by eexists|].
  apply (CobsEncode_loop_full input output 0 1 1 []); cbn; lia.
Qed.

Lemma CobsDecode_ok input output :
  Forall is_byte input -> (length input <= length output)%nat ->
  CobsDecode (stuffed [] input) output =
    (kOk, input ++ drop (length input) output, length input).
Proof.
  intros Hi Hl. unfold CobsDecode. pose proof (stuffed_length_pos [] input).
  guard_false (length (stuffed [] input) =? 0)%nat.
  exact (CobsDecode_loop_stuffed input [] [] [] output (S (length (stuffed [] input)))
    ltac:(cbn; lia) Hi ltac:(constructor) ltac:(cbn; lia) ltac:(lia)).
Qed.

Lemma CobsDecode_total input output : decode_safe output (CobsDecode input output).
Proof.
  unfold CobsDecode. split_if; [split_and!; [done|lia|set_solver]|].
  apply (CobsDecode_loop_safe _ (S (length input))); lia.
Qed.

(** ** Properties *)

(** Byte stuffing is lossless and tight: [CobsEncode] succeeds exactly when
    the output has room for the stuffed form, which holds no zero byte and is at
    most one byte in 254 and one longer than its input, and reports a full output
    otherwise; [CobsDecode] of the stuffed form returns exactly the input. *)
Theorem cobs_roundtrip input output decoded :
  Forall is_byte input -> (length input <= length decoded)%nat ->
  let wire := stuffed [] input in
  Forall (fun b => 1 <= b < 256) wire /\
  (254 * length wire <= 255 * length input + 254)%nat /\
  ((length wire <= length output)%nat ->
     exists free, CobsEncode input output = (kOk, wire ++ free, length wire)) /\
  ((length output < length wire)%nat ->
     exists output', CobsEncode input output = (kCapacityExceeded, output', 0%nat)) /\
  CobsDecode wire decoded = (kOk, input ++ drop (length input) decoded, length input).
Proof.
  intros Hi Hl. cbn zeta. split_and!.
  - by apply stuffed_nonzero; cbn; try lia.
  - pose proof (stuffed_length_bound [] input). cbn in *. lia.
  - apply CobsEncode_ok.
  - apply CobsEncode_full.
  - by apply CobsDecode_ok.
Qed.

Lemma cobs_roundtrip_witness :
  exists free, CobsEncode [17; 0; 34] (zeros 8) = (kOk, [2; 17; 2; 34] ++ free, 4%nat).
Proof.
  destruct (cobs_roundtrip [17; 0; 34] (zeros 8) (zeros 8)) as (_ & _ & H & _).
  - repeat constructor; lia.
  - vm_compute. lia.
  - apply H. vm_compute. lia.
Defined.

(** On any input the decoder is total and memory safe: the loop ends (more
    fuel changes nothing), the output keeps its size, [written] stays inside it,
    and the status is success, a full output or a protocol error; an input of
    bytes that starts with a zero is refused. *)
Theorem cobs_decode_safe input output :
  decode_safe output (CobsDecode input output) /\
  (forall fuel, (length input < fuel)%nat -> input <> [] ->
     CobsDecode_loop fuel input output 0 0 = CobsDecode input output) /\
  (forall rest, input = 0 :: rest -> (CobsDecode input output).1.1 = kProtocolError).
Proof.
  split_and!; [apply CobsDecode_total|unfold CobsDecode..].
  - intros fuel Hf Hn. destruct input as [|b input]; [done|].
    guard_false (length (b :: input) =? 0)%nat.
    apply CobsDecode_loop_safe; lia.
  - by intros rest ->.
Qed.
