(* ===== verification/Framing.v ===== *)
(** The packet framing of byte streams: the CRC-32C checksum
    ([transport/usb/crc32c.hpp]) and [PacketCodec] ([transport/usb/framing.hpp]),
    which lays a packet out in a scratch buffer, checksums it and stuffs it. *)

From S2P Require Export TypeSupport Cobs.

Local Open Scope Z_scope.

(** ** [Crc32c] *)

(** One turn of the inner loop; [mask] is all ones when the low bit is set. *)
Definition crc_bit (crc : Z) : Z :=
  let mask := u32 (- Z.land crc 1) in
  Z.lxor (Z.shiftr crc 1) (Z.land 0x82f63b78 mask).

Definition crc_byte (crc value : Z) : Z := Nat.iter 8 crc_bit (Z.lxor crc value).

Definition Crc32c (input : list Z) : Z := u32 (Z.lnot (fold_left crc_byte input 0xffffffff)).

(** ** [PacketCodec] *)

Definition kMagic : Z := 0xa57e.
Definition kProtocolVersion : Z := 1.
Definition kHeaderSize : nat := 44.
Definition kChecksumSize : nat := 4.

Module PacketCodec.
Section PacketCodec.
Variable MaxPayload : nat.

Definition kRawCapacity : nat := kHeaderSize + MaxPayload + kChecksumSize.
Definition kEncodedCapacity : nat := kRawCapacity + kRawCapacity / 254 + 2.

(** The kinds between [kChannel] and [kControl]. *)
Definition kind_valid (kind : PacketKind) : bool :=
  negb ((PacketKind_value kind <? PacketKind_value kChannel) ||
        (PacketKind_value kControl <? PacketKind_value kind)).

(** The stores into [raw_] before the checksum. *)
Definition Encode_body (raw : list Z) (packet : PacketView) : list Z :=
  let h := header packet in
  let raw := copy_into 0 (write_le 2 kMagic) raw in
  let raw := <[2%nat := kProtocolVersion]> raw in
  let raw := <[3%nat := u8 (PacketKind_value (packet_kind h))]> raw in
  let raw := copy_into 4 (write_le 2 (route_id h)) raw in
  let raw := copy_into 6 (write_le 4 (sequence h)) raw in
  let raw := copy_into 10 (write_le 8 (source_timestamp_ns h)) raw in
  let raw := copy_into 18 (write_le 8 (deadline_ns h)) raw in
  let raw := copy_into 26 (hash_bytes (packet_schema_hash h)) raw in
  let raw := copy_into 42 (write_le 2 (u16 (Z.of_nat (length (payload packet))))) raw in
  copy_into kHeaderSize (payload packet) raw.

(** Status, [raw_], the caller's output and [written]. *)
Definition Encode (raw : list Z) (packet : PacketView) (output : list Z)
    : Status * list Z * list Z * nat :=
  let h := header packet in
  if (route_id h =? 0) || (MaxPayload <? length (payload packet))%nat ||
     negb (kind_valid (packet_kind h))
  then (kInvalidArgument, raw, output, 0%nat)
  else
    let raw_size := (kHeaderSize + length (payload packet) + kChecksumSize)%nat in
    let raw := Encode_body raw packet in
    let body_size := (kHeaderSize + length (payload packet))%nat in
    let raw := copy_into body_size (write_le 4 (Crc32c (take body_size raw))) raw in
    if (length output <? 2)%nat then (kCapacityExceeded, raw, output, 0%nat)
    else
      let '(status, encoded, encoded_size) :=
        CobsEncode (take raw_size raw) (take (length output - 1) output) in
      let output := encoded ++ drop (length output - 1) output in
      if negb (IsOk status) then (status, raw, output, 0%nat)
      else (kOk, raw, <[encoded_size := 0]> output, S encoded_size).

(** The header fields read back from [raw_], and the payload. *)
Definition Decode_packet (raw : list Z) (kind : PacketKind) (payload_size : nat) : PacketView :=
  MkPacketView
    (MkPacketHeader (read_le (subspan 4 2 raw)) kind (read_le (subspan 6 4 raw))
       (read_le (subspan 10 8 raw)) (read_le (subspan 18 8 raw))
       (MkSchemaHash (subspan 26 16 raw)))
    (subspan kHeaderSize payload_size raw).

(** The checks on a decoded [raw_], in their order. *)
Definition Decode_raw (raw : list Z) (raw_size : nat) : Status * PacketView :=
  if (raw_size <? kHeaderSize + kChecksumSize)%nat then (kProtocolError, PacketView_default)
  else if negb (read_le (subspan 0 2 raw) =? kMagic) then (kProtocolError, PacketView_default)
  else if negb (byte_at raw 2 =? kProtocolVersion) then (kVersionMismatch, PacketView_default)
  else
    let payload_size := Z.to_nat (read_le (subspan 42 2 raw)) in
    if (MaxPayload <? payload_size)%nat then (kCapacityExceeded, PacketView_default)
    else if negb (raw_size =? kHeaderSize + payload_size + kChecksumSize)%nat
    then (kProtocolError, PacketView_default)
    else
      let expected_crc := read_le (subspan (raw_size - 4) 4 raw) in
      if negb (Crc32c (take (raw_size - 4) raw) =? expected_crc)
      then (kProtocolError, PacketView_default)
      else
        let kind := PacketKind_cast (byte_at raw 3) in
        if negb (kind_valid kind) then (kProtocolError, PacketView_default)
        else
          let packet := Decode_packet raw kind payload_size in
          (if route_id (header packet) =? 0 then kProtocolError else kOk, packet).

(** Status, [raw_] and the packet. *)
Definition Decode (raw encoded : list Z) : Status * list Z * PacketView :=
  if (length encoded <? 2)%nat || negb (byte_at encoded (length encoded - 1) =? 0)
  then (kProtocolError, raw, PacketView_default)
  else
    let '(status, raw, raw_size) := CobsDecode (take (length encoded - 1) encoded) raw in
    if negb (IsOk status) then (status, raw, PacketView_default)
    else
      let '(status, packet) := Decode_raw raw raw_size in
      (status, raw, packet).
End PacketCodec.

(** ** Specification

    The layout of a packet: the checksummed body and the whole raw image. *)
Definition body_image (packet : PacketView) : list Z :=
  let h := header packet in
  write_le 2 kMagic ++ [kProtocolVersion] ++ [u8 (PacketKind_value (packet_kind h))] ++
  write_le 2 (route_id h) ++ write_le 4 (sequence h) ++
  write_le 8 (source_timestamp_ns h) ++ write_le 8 (deadline_ns h) ++
  hash_bytes (packet_schema_hash h) ++
  write_le 2 (u16 (Z.of_nat (length (payload packet)))) ++ payload packet.

Definition raw_image (packet : PacketView) : list Z :=
  body_image packet ++ write_le 4 (Crc32c (body_image packet)).

Definition wire_image (packet : PacketView) : list Z :=
  stuffed [] (raw_image packet) ++ [0].

(** What a caller may hand to [Encode]. *)
Record packet_legal (MaxPayload : nat) (packet : PacketView) : Prop := {
  legal_header : header_wf (header packet);
  legal_route : route_id (header packet) <> 0;
  legal_kind : kind_valid (packet_kind (header packet)) = true;
  legal_payload : Forall is_byte (payload packet);
  legal_size : (length (payload packet) <= MaxPayload)%nat;
  legal_length : Z.of_nat (length (payload packet)) < 2 ^ 16
}.
End PacketCodec.

#[global] Arguments crc_bit : simpl never.
#[global] Arguments Crc32c : simpl never.
#[global] Arguments PacketCodec.kRawCapacity : simpl never.
#[global] Arguments PacketCodec.kEncodedCapacity : simpl never.
#[global] Arguments PacketCodec.Encode : simpl never.
#[global] Arguments PacketCodec.Decode : simpl never.

(** ** Lemmas: the checksum is linear and loses nothing *)

Lemma Zlxor_range a b n :
  0 <= n -> 0 <= a < 2 ^ n -> 0 <= b < 2 ^ n -> 0 <= Z.lxor a b < 2 ^ n.
Proof.
  intros Hn Ha Hb. split; [apply Z.lxor_nonneg; lia|].
  assert (Z.lxor a b = Z.lxor a b mod 2 ^ n) as ->; [|apply Z.mod_pos_bound; lia].
  apply Z.bits_inj'. intros i Hi. destruct (Z.lt_ge_cases i n).
  - by rewrite Z.mod_pow2_bits_low by lia.
  - rewrite Z.mod_pow2_bits_high, Z.lxor_spec by lia.
    rewrite <- (Z.mod_small a (2 ^ n)), <- (Z.mod_small b (2 ^ n)) by lia.
    by rewrite !Z.mod_pow2_bits_high by lia.
Qed.

Lemma crc_bit_eq crc :
  crc_bit crc = Z.lxor (Z.shiftr crc 1) (if Z.odd crc then 0x82f63b78 else 0).
Proof.
  unfold crc_bit. change 1 with (Z.ones 1) at 2. rewrite Z.land_ones by lia.
  change (2 ^ 1) with 2. rewrite Zmod_odd. by destruct (Z.odd crc).
Qed.

Lemma crc_bit_lxor a b : crc_bit (Z.lxor a b) = Z.lxor (crc_bit a) (crc_bit b).
Proof.
  rewrite !crc_bit_eq, Z.shiftr_lxor, <- !Z.bit0_odd, Z.lxor_spec.
  rewrite !Z.lxor_assoc. f_equal.
  rewrite (Z.lxor_comm _ (Z.lxor (Z.shiftr b 1) _)), Z.lxor_assoc. f_equal.
  by destruct (Z.testbit a 0), (Z.testbit b 0).
Qed.

Lemma crc_iter_lxor n a b :
  Nat.iter n crc_bit (Z.lxor a b) = Z.lxor (Nat.iter n crc_bit a) (Nat.iter n crc_bit b).
Proof. induction n as [|n IH]; [done|]. by rewrite !Nat.iter_succ, IH, crc_bit_lxor. Qed.

Lemma crc_bit_range crc : 0 <= crc < 2 ^ 32 -> 0 <= crc_bit crc < 2 ^ 32.
Proof.
  intros H. rewrite crc_bit_eq. apply Zlxor_range; [lia| |by destruct (Z.odd crc)].
  rewrite Z.shiftr_div_pow2 by lia. change (2 ^ 1) with 2. Z.to_euclidean_division_equations; lia.
Qed.

Lemma crc_bit_zero crc : 0 <= crc < 2 ^ 32 -> crc_bit crc = 0 -> crc = 0.
Proof.
  rewrite crc_bit_eq. intros H Heq%Z.lxor_eq. rewrite Z.shiftr_div_pow2 in Heq by lia.
  change (2 ^ 1) with 2 in Heq. pose proof (Zmod_odd crc) as Hm.
  destruct (Z.odd crc); Z.to_euclidean_division_equations; lia.
Qed.

Lemma crc_iter_range n crc : 0 <= crc < 2 ^ 32 -> 0 <= Nat.iter n crc_bit crc < 2 ^ 32.
Proof. intros. induction n; [done|]. rewrite Nat.iter_succ. by apply crc_bit_range. Qed.

Lemma crc_iter_zero n crc : 0 <= crc < 2 ^ 32 -> Nat.iter n crc_bit crc = 0 -> crc = 0.
Proof.
  intros H. induction n as [|n IH]; [done|]. rewrite Nat.iter_succ. intros Heq%crc_bit_zero; [by apply IH|].
  by apply crc_iter_range.
Qed.

(** The bits above the lowest [n] only move down. *)
Lemma crc_iter_shiftl n value : Nat.iter n crc_bit (Z.shiftl value (Z.of_nat n)) = value.
Proof.
  revert value. induction n as [|n IH]; intros value; [apply Z.shiftl_0_r|].
  rewrite Nat.iter_succ_r.
  replace (crc_bit (Z.shiftl value (Z.of_nat (S n)))) with (Z.shiftl value (Z.of_nat n)); [apply IH|].
  rewrite crc_bit_eq, <- Z.bit0_odd, Z.shiftl_spec_low by lia.
  rewrite Z.lxor_0_r, Z.shiftr_shiftl_l by lia. f_equal. lia.
Qed.

Lemma crc_byte_split n crc value :
  Nat.iter n crc_bit (Z.lxor crc (Z.shiftl value (Z.of_nat n))) =
    Z.lxor (Nat.iter n crc_bit crc) value.
Proof. by rewrite crc_iter_lxor, crc_iter_shiftl. Qed.

Lemma crc_byte_eq crc value : crc_byte crc value = Nat.iter 8 crc_bit (Z.lxor crc value).
Proof. reflexivity. Qed.

Lemma fold_left_cons {A B} (f : A -> B -> A) b l a :
  fold_left f (b :: l) a = fold_left f l (f a b).
Proof. reflexivity. Qed.

(** A stretch of bytes acts on the register like the number it denotes. *)
Lemma crc_fold_value input crc :
  Forall is_byte input ->
  fold_left crc_byte input crc =
    Nat.iter (8 * length input) crc_bit (Z.lxor crc (le_value input)).
Proof.
  intros H. revert crc. induction H as [|b input Hb Hi IH]; intros crc.
  - cbn. by rewrite Z.lxor_0_r.
  - rewrite fold_left_cons, IH, crc_byte_eq. cbn [length le_value].
    replace (8 * S (length input))%nat with (8 * length input + 8)%nat by lia.
    rewrite Nat.iter_add. apply (f_equal (Nat.iter (8 * length input) crc_bit)).
    assert (b + 256 * le_value input = Z.lxor b (Z.shiftl (le_value input) 8)) as ->.
    { pose proof (le_value_bound input Hi). unfold is_byte in Hb.
      pose proof (lor_shiftl_add b (le_value input) 8 ltac:(lia) ltac:(lia) ltac:(lia)) as Hor.
      rewrite Z.shiftl_mul_pow2 in * by lia.
      pose proof (Z.add_lor_land b (le_value input * 2 ^ 8)).
      rewrite <- Z.add_nocarry_lxor by lia. lia. }
    rewrite <- Z.lxor_assoc. symmetry. apply (crc_byte_split 8).
Qed.

Lemma crc_fold_range input crc :
  Forall is_byte input -> 0 <= crc < 2 ^ 32 -> 0 <= fold_left crc_byte input crc < 2 ^ 32.
Proof.
  intros H. revert crc. induction H as [|b input Hb _ IH]; intros crc Hc; [done|].
  rewrite fold_left_cons, crc_byte_eq. apply IH, crc_iter_range.
  apply Zlxor_range; unfold is_byte in Hb; lia.
Qed.

Lemma crc_fold_inj input a b :
  Forall is_byte input -> 0 <= a < 2 ^ 32 -> 0 <= b < 2 ^ 32 ->
  fold_left crc_byte input a = fold_left crc_byte input b -> a = b.
Proof.
  intros Hi Ha Hb. rewrite !crc_fold_value by done. intros Heq.
  apply Z.lxor_eq, (crc_iter_zero (8 * length input)); [by apply Zlxor_range|].
  apply Z.lxor_eq_0_iff in Heq. rewrite <- crc_iter_lxor in Heq.
  rewrite (Z.lxor_comm b), Z.lxor_assoc, <- (Z.lxor_assoc (le_value input)), Z.lxor_nilpotent,
    Z.lxor_0_l in Heq. done.
Qed.

Lemma u32_lnot z : 0 <= z < 2 ^ 32 -> u32 (Z.lnot z) = 2 ^ 32 - 1 - z.
Proof.
  intros. unfold u32, Z.lnot. rewrite <- (Z.mod_add _ 1) by lia. rewrite Z.mod_small; lia.
Qed.

Lemma Crc32c_range input : 0 <= Crc32c input < 2 ^ 32.
Proof. apply u32_range. Qed.

(** Every change of at most four adjacent bytes changes the checksum. *)
Lemma Crc32c_burst before window window' after :
  Forall is_byte before -> Forall is_byte window -> Forall is_byte window' ->
  Forall is_byte after -> length window = length window' -> (length window <= 4)%nat ->
  Crc32c (before ++ window ++ after) = Crc32c (before ++ window' ++ after) ->
  window = window'.
Proof.
  intros Hb Hw Hw' Ha Hlen Hmax. unfold Crc32c. rewrite !fold_left_app.
  pose proof (crc_fold_range before 0xffffffff Hb ltac:(lia)) as Hr.
  set (s := fold_left crc_byte before _) in *.
  pose proof (crc_fold_range window s Hw Hr) as Hs.
  pose proof (crc_fold_range window' s Hw' Hr) as Hs'.
  rewrite !u32_lnot by (by apply crc_fold_range). intros Heq.
  assert (fold_left crc_byte window s = fold_left crc_byte window' s) as Hwin
    by (apply (crc_fold_inj after); [done..|lia]).
  rewrite !crc_fold_value, <- Hlen in Hwin by done.
  apply Z.lxor_eq_0_iff in Hwin. rewrite <- crc_iter_lxor in Hwin.
  rewrite (Z.lxor_comm s), Z.lxor_assoc, <- (Z.lxor_assoc s), Z.lxor_nilpotent, Z.lxor_0_l in Hwin.
  pose proof (le_value_bound window Hw). pose proof (le_value_bound window' Hw').
  assert (2 ^ (8 * Z.of_nat (length window)) <= 2 ^ 32) by (apply Z.pow_le_mono_r; lia).
  apply crc_iter_zero in Hwin; [|rewrite <- Hlen in *; apply Zlxor_range; lia].
  apply Z.lxor_eq in Hwin.
  rewrite <- (write_le_value window), <- (write_le_value window') by done. congruence.
Qed.

(** ** Lemmas: the layout *)

(** Read a field of an image made of consecutive fields. *)
Ltac field_len := rewrite ?write_le_length in *; cbn [length] in *; lia.
Ltac read_field :=
  repeat first [rewrite subspan_skip by field_len | rewrite byte_at_skip by field_len];
  try (apply subspan_field; field_len).

Module PacketCodecFacts.
Export PacketCodec.

Lemma body_image_length packet :
  hash_wf (packet_schema_hash (header packet)) ->
  length (body_image packet) = (kHeaderSize + length (payload packet))%nat.
Proof.
  intros [Hh _]. unfold body_image, kHeaderSize. rewrite !length_app, Hh, !write_le_length. cbn [length]. lia.
Qed.

Lemma body_image_bytes packet :
  hash_wf (packet_schema_hash (header packet)) -> Forall is_byte (payload packet) ->
  Forall is_byte (body_image packet).
Proof.
  intros [_ Hh] Hp. unfold body_image.
  repeat apply Forall_app_2; auto using write_le_bytes; apply Forall_singleton;
    [unfold is_byte, kProtocolVersion; lia|apply u8_range].
Qed.

Lemma raw_image_length packet :
  hash_wf (packet_schema_hash (header packet)) ->
  length (raw_image packet) = (kHeaderSize + length (payload packet) + kChecksumSize)%nat.
Proof. intros. unfold raw_image. by rewrite length_app, body_image_length, write_le_length. Qed.

(** The stores build the image at the front of the scratch buffer. *)
Lemma Encode_body_image raw packet :
  hash_wf (packet_schema_hash (header packet)) ->
  (length (raw_image packet) <= length raw)%nat ->
  Encode_body raw packet =
    body_image packet ++ drop (kHeaderSize + length (payload packet)) raw.
Proof.
  intros Hh Hl. rewrite raw_image_length in Hl by done. unfold kHeaderSize, kChecksumSize in Hl.
  unfold Encode_body. set (h := header packet) in *. destruct Hh as [Hh _].
  change raw with ([] ++ raw) at 1.
  repeat first
    [ rewrite copy_into_next by (rewrite ?length_app, ?write_le_length, ?Hh, ?length_drop; cbn [length]; unfold kHeaderSize; lia)
    | rewrite insert_next by (rewrite ?length_app, ?write_le_length, ?Hh, ?length_drop; cbn [length]; lia) ].
  unfold body_image. fold h. rewrite !drop_drop, ?write_le_length, Hh. rewrite <- ?app_assoc. cbn [app].
  unfold kHeaderSize. repeat f_equal; lia.
Qed.

Lemma kind_valid_spec kind :
  kind_valid kind = true -> 1 <= PacketKind_value kind <= 4.
Proof. unfold kind_valid. intros. bool_hyps. cbn in *. lia. Qed.

(** ** Lemmas: the encoder *)

Lemma wire_image_fits MaxPayload packet :
  packet_legal MaxPayload packet ->
  (length (stuffed [] (raw_image packet)) + 1 <= kEncodedCapacity MaxPayload)%nat.
Proof.
  intros L. pose proof (stuffed_length_bound [] (raw_image packet) ltac:(cbn; lia)) as H.
  rewrite raw_image_length in H by apply L. cbn [length] in H.
  assert (kHeaderSize + length (payload packet) + kChecksumSize <= kRawCapacity MaxPayload)%nat
    by (unfold kRawCapacity; pose proof (legal_size _ _ L); lia).
  unfold kEncodedCapacity.
  pose proof (Nat.div_mod_eq (kRawCapacity MaxPayload) 254).
  pose proof (Nat.mod_upper_bound (kRawCapacity MaxPayload) 254). lia.
Qed.

Lemma Encode_raw_image MaxPayload raw packet :
  packet_legal MaxPayload packet -> length raw = kRawCapacity MaxPayload ->
  let body_size := (kHeaderSize + length (payload packet))%nat in
  let raw' := Encode_body raw packet in
  copy_into body_size (write_le 4 (Crc32c (take body_size raw'))) raw' =
    raw_image packet ++ drop (length (raw_image packet)) raw.
Proof.
  intros L Hraw. cbn zeta. pose proof (legal_size _ _ L).
  pose proof (header_wf_hash _ (legal_header _ _ L)) as Hh.
  assert (length (raw_image packet) <= length raw)%nat
    by (rewrite raw_image_length, Hraw by done; unfold kRawCapacity; lia).
  rewrite Encode_body_image by done. rewrite raw_image_length in * by done.
  rewrite take_app_le, take_ge by (rewrite body_image_length by done; lia).
  rewrite copy_into_next;
    [|by apply body_image_length|rewrite write_le_length, length_drop; unfold kChecksumSize in *; lia].
  rewrite drop_drop, write_le_length. done.
Qed.

Lemma packet_Encode_ok MaxPayload raw packet output :
  packet_legal MaxPayload packet -> length raw = kRawCapacity MaxPayload ->
  (length (wire_image packet) <= length output)%nat ->
  exists raw' free, length raw' = kRawCapacity MaxPayload /\
    Encode MaxPayload raw packet output =
      (kOk, raw', wire_image packet ++ free, length (wire_image packet)).
Proof.
  intros L Hraw Hout. pose proof (Encode_raw_image MaxPayload raw packet L Hraw) as Himg.
  unfold wire_image in *. rewrite length_app in *. cbn [length] in *.
  pose proof (stuffed_length_pos [] (raw_image packet)) as Hpos. cbn [length] in Hpos.
  unfold Encode. pose proof (legal_route _ _ L). pose proof (legal_size _ _ L).
  guard_false (route_id (header packet) =? 0).
  guard_false (MaxPayload <? length (payload packet))%nat. rewrite (legal_kind _ _ L).
  cbn [orb negb]. cbn zeta in Himg. rewrite Himg.
  guard_false (length output <? 2)%nat.
  assert (length (raw_image packet) <= length raw)%nat.
  { rewrite raw_image_length, Hraw by apply L. unfold kRawCapacity. lia. }
  rewrite <- (raw_image_length packet) by apply L. rewrite take_app_length.
  destruct (CobsEncode_ok (raw_image packet) (take (length output - 1) output)) as [free Hcobs];
    [rewrite length_take; lia|].
  rewrite Hcobs. cbn [IsOk negb].
  eexists (raw_image packet ++ drop (length (raw_image packet)) raw), _. split; [rewrite length_app, length_drop; lia|].
  rewrite <- app_assoc, insert_next; [|done|].
  - rewrite Nat.add_1_r. done.
  - rewrite length_app, length_drop. lia.
Qed.

(** ** Lemmas: the decoder *)

Lemma Decode_wire MaxPayload raw image :
  Forall is_byte image -> (length image <= length raw)%nat ->
  exists raw', raw' = image ++ drop (length image) raw /\
    Decode MaxPayload raw (stuffed [] image ++ [0]) =
      let '(status, packet) := Decode_raw MaxPayload raw' (length image) in (status, raw', packet).
Proof.
  intros Hi Hl. eexists. split; [done|]. unfold Decode.
  pose proof (stuffed_length_pos [] image) as Hpos. cbn [length] in Hpos.
  rewrite length_app. cbn [length].
  rewrite byte_at_skip by lia. rewrite Nat.add_sub, Nat.sub_diag.
  guard_false (length (stuffed [] image) + 1 <? 2)%nat. cbn [orb].
  change (negb (byte_at [0] 0 =? 0)) with false. cbn iota.
  rewrite take_app_length, CobsDecode_ok by done. done.
Qed.

(** Every field of an image is where the decoder reads it. *)
Lemma image_fields packet rest :
  hash_wf (packet_schema_hash (header packet)) ->
  let raw := raw_image packet ++ rest in
  let h := header packet in
  let size := length (payload packet) in
  subspan 0 2 raw = write_le 2 kMagic /\ byte_at raw 2 = kProtocolVersion /\
  byte_at raw 3 = u8 (PacketKind_value (packet_kind h)) /\
  subspan 42 2 raw = write_le 2 (u16 (Z.of_nat size)) /\
  take (kHeaderSize + size) raw = body_image packet /\
  subspan (kHeaderSize + size) 4 raw = write_le 4 (Crc32c (body_image packet)) /\
  subspan 4 2 raw = write_le 2 (route_id h) /\ subspan 6 4 raw = write_le 4 (sequence h) /\
  subspan 10 8 raw = write_le 8 (source_timestamp_ns h) /\
  subspan 18 8 raw = write_le 8 (deadline_ns h) /\
  subspan 26 16 raw = hash_bytes (packet_schema_hash h) /\
  subspan kHeaderSize size raw = payload packet.
Proof.
  intros Hh. cbn zeta. pose proof (body_image_length packet Hh) as Hbody.
  assert (take (kHeaderSize + length (payload packet)) (raw_image packet ++ rest) = body_image packet) as Htake.
  { unfold raw_image. by rewrite <- app_assoc, <- Hbody, take_app_length. }
  assert (subspan (kHeaderSize + length (payload packet)) 4 (raw_image packet ++ rest) =
    write_le 4 (Crc32c (body_image packet))) as Hcrc.
  { unfold raw_image. rewrite <- app_assoc, subspan_skip, Hbody, Nat.sub_diag by lia.
    by apply subspan_here, write_le_length. }
  destruct Hh as [Hl _]. split_and!; try assumption; clear Htake Hcrc Hbody;
    unfold raw_image; generalize (Crc32c (body_image packet)); intros crc;
    unfold body_image, kHeaderSize; rewrite <- !app_assoc; read_field.
  all: by rewrite ?write_le_length.
Qed.

Lemma read_write_small n v : 0 <= v < 2 ^ (8 * Z.of_nat n) -> read_le (write_le n v) = v.
Proof. intros. rewrite read_write_le. by apply Z.mod_small. Qed.

Lemma Decode_raw_ok MaxPayload packet rest :
  packet_legal MaxPayload packet ->
  Decode_raw MaxPayload (raw_image packet ++ rest) (length (raw_image packet)) = (kOk, packet).
Proof.
  intros L. pose proof (header_wf_hash _ (legal_header _ _ L)) as Hh.
  pose proof (legal_size _ _ L). pose proof (legal_length _ _ L). pose proof (legal_route _ _ L).
  pose proof (legal_kind _ _ L) as Hk. pose proof (kind_valid_spec _ Hk).
  pose proof (Crc32c_range (body_image packet)).
  destruct (legal_header _ _ L) as [Hc Hr Hs Ht Hd _].
  destruct (image_fields packet rest Hh) as
    (Hmagic & Hversion & Hkind & Hsize & Hbody & Hcrc & Hroute & Hseq & Htime & Hdead & Hhash & Hpay).
  unfold Decode_raw. rewrite raw_image_length by done.
  guard_false (kHeaderSize + length (payload packet) + kChecksumSize <? kHeaderSize + kChecksumSize)%nat.
  rewrite Hmagic, Hversion, Hsize. change (read_le (write_le 2 kMagic) =? kMagic) with true.
  change (kProtocolVersion =? kProtocolVersion) with true. cbn [negb].
  rewrite u16_small, read_write_small, Nat2Z.id by lia.
  guard_false (MaxPayload <? length (payload packet))%nat. rewrite Nat.eqb_refl. cbn [negb].
  replace (kHeaderSize + length (payload packet) + kChecksumSize - 4)%nat
    with (kHeaderSize + length (payload packet))%nat by (unfold kChecksumSize; lia).
  rewrite Hbody, Hcrc, read_write_small, Z.eqb_refl by lia. cbn [negb].
  rewrite Hkind, u8_small, Hc, Hk by lia. cbn [negb].
  unfold Decode_packet. rewrite Hroute, Hseq, Htime, Hdead, Hhash, Hpay, !read_write_small by lia.
  cbn [header route_id]. guard_false (route_id (header packet) =? 0).
  by destruct packet as [[? ? ? ? ? []] ?].
Qed.

(** What an accepted raw image satisfies. *)
Lemma Decode_raw_sound MaxPayload raw raw_size packet :
  Decode_raw MaxPayload raw raw_size = (kOk, packet) ->
  (kHeaderSize + kChecksumSize <= raw_size)%nat /\
  Crc32c (take (raw_size - 4) raw) = read_le (subspan (raw_size - 4) 4 raw) /\
  kind_valid (packet_kind (header packet)) = true /\ route_id (header packet) <> 0 /\
  (length (payload packet) <= MaxPayload)%nat.
Proof.
  unfold Decode_raw. intros H.
  repeat (split_if_in H; [discriminate|]). bool_hyps.
  injection H as <-. split_and!; try done.
  cbn [payload Decode_packet]. unfold subspan at 1. rewrite length_take. lia.
Qed.

(** The buffers keep their sizes. *)
Lemma Encode_lengths MaxPayload raw packet output :
  length (Encode MaxPayload raw packet output).1.1.2 = length raw /\
  length (Encode MaxPayload raw packet output).1.2 = length output.
Proof.
  unfold Encode. split_if; [done|]. cbn zeta.
  assert (length (Encode_body raw packet) = length raw) as Hb
    by (unfold Encode_body; by autorewrite with aster).
  split_if; cbn [fst snd]; [split; [by autorewrite with aster|done]|].
  pose proof (CobsEncode_length
    (take (kHeaderSize + length (payload packet) + kChecksumSize)
       (copy_into (kHeaderSize + length (payload packet))
          (write_le 4 (Crc32c (take (kHeaderSize + length (payload packet)) (Encode_body raw packet))))
          (Encode_body raw packet))) (take (length output - 1) output)) as Hc.
  destruct (CobsEncode _ _) as [[status encoded] size]. cbn in Hc.
  assert (length (encoded ++ drop (length output - 1) output) = length output)
    by (rewrite length_app, length_drop, Hc, length_take; bool_hyps; lia).
  split_if; cbn [fst snd]; split; autorewrite with aster; done.
Qed.

Lemma Decode_length MaxPayload raw encoded :
  length (Decode MaxPayload raw encoded).1.2 = length raw.
Proof.
  unfold Decode. split_if; [done|].
  pose proof (CobsDecode_total (take (length encoded - 1) encoded) raw) as Hs.
  destruct (CobsDecode _ _) as [[status raw'] size]. destruct Hs as [Hl _].
  split_if; [done|]. by destruct (Decode_raw _ _ _).
Qed.

(** ** Properties *)

(** A packet survives the byte stream: whatever the two scratch buffers held,
    a legal packet encodes into any output of [kEncodedCapacity] bytes, as a
    frame whose only zero byte is its last, and decoding that frame gives the
    packet back, field by field. *)
Theorem packet_roundtrip MaxPayload raw_tx raw_rx packet output :
  packet_legal MaxPayload packet ->
  length raw_tx = kRawCapacity MaxPayload -> length raw_rx = kRawCapacity MaxPayload ->
  (kEncodedCapacity MaxPayload <= length output)%nat ->
  exists raw_tx' free wire,
    Encode MaxPayload raw_tx packet output = (kOk, raw_tx', (wire ++ [0]) ++ free, S (length wire)) /\
    Forall (fun b => 1 <= b < 256) wire /\
    exists raw_rx', Decode MaxPayload raw_rx (wire ++ [0]) = (kOk, raw_rx', packet).
Proof.
  intros L Htx Hrx Hout. pose proof (wire_image_fits MaxPayload packet L) as Hfit.
  pose proof (header_wf_hash _ (legal_header _ _ L)) as Hh. pose proof (legal_size _ _ L).
  assert (Forall is_byte (raw_image packet)) as Hbytes
    by (apply Forall_app_2; [apply body_image_bytes; [done|apply L]|apply write_le_bytes]).
  destruct (packet_Encode_ok MaxPayload raw_tx packet output L Htx) as (raw_tx' & free & _ & Henc);
    [unfold wire_image; rewrite length_app; cbn; lia|].
  exists raw_tx', free, (stuffed [] (raw_image packet)). split_and!.
  - rewrite Henc. unfold wire_image. rewrite length_app, Nat.add_1_r. done.
  - by apply stuffed_nonzero; cbn; try lia.
  - destruct (Decode_wire MaxPayload raw_rx (raw_image packet) Hbytes) as (raw' & -> & Hdec);
      [rewrite raw_image_length, Hrx by done; unfold kRawCapacity; lia|].
    rewrite Hdec, Decode_raw_ok by done. by eexists.
Qed.

Definition witness_packet : PacketView :=
  MkPacketView (MkPacketHeader 7 kRpcRequest 3 1000 0 SchemaHash_zero) [1; 0; 2].

Lemma witness_packet_legal : packet_legal 8 witness_packet.
Proof.
  split; cbn; try done; try lia; [split; cbn; try done; try lia|repeat constructor; unfold is_byte; lia].
  split; [done|apply zeros_bytes].
Qed.

Lemma packet_roundtrip_witness :
  exists raw_tx' free wire, Encode 8 (zeros 56) witness_packet (zeros 58) =
      (kOk, raw_tx', (wire ++ [0]) ++ free, S (length wire)) /\
    Forall (fun b => 1 <= b < 256) wire /\
    exists raw_rx', Decode 8 (zeros 56) (wire ++ [0]) = (kOk, raw_rx', witness_packet).
Proof.
  apply (packet_roundtrip 8 (zeros 56) (zeros 56) witness_packet (zeros 58) witness_packet_legal);
    [reflexivity|reflexivity|vm_compute; lia].
Defined.

(** C14: corruption is caught: in any frame whose stuffing decodes to a packet
    image with up to four adjacent bytes of the body changed, the decoder
    reports an error, for any payload size and any place of the damage. *)
Theorem packet_corruption_detected MaxPayload raw packet before window window' after :
  packet_legal MaxPayload packet -> length raw = kRawCapacity MaxPayload ->
  body_image packet = before ++ window ++ after ->
  Forall is_byte window' -> length window = length window' -> (length window <= 4)%nat ->
  window <> window' ->
  let image := (before ++ window' ++ after) ++ write_le 4 (Crc32c (body_image packet)) in
  (Decode MaxPayload raw (stuffed [] image ++ [0])).1.1 <> kOk.
Proof.
  intros L Hraw Hbody Hw' Hlen Hmax Hne image Hst. apply Hne. pose proof (legal_size _ _ L).
  pose proof (header_wf_hash _ (legal_header _ _ L)) as Hh.
  pose proof (body_image_bytes packet Hh (legal_payload _ _ L)) as Hbytes. rewrite Hbody in Hbytes.
  apply Forall_app in Hbytes as [Hb [Hw Ha]%Forall_app].
  pose proof (body_image_length packet Hh) as Hsize. rewrite Hbody in Hsize.
  rewrite !length_app in Hsize.
  assert (length image = kHeaderSize + length (payload packet) + 4)%nat as Himage
    by (unfold image; rewrite !length_app, write_le_length; lia).
  destruct (Decode_wire MaxPayload raw image) as (raw' & -> & Hdec).
  { unfold image. repeat apply Forall_app_2; auto using write_le_bytes. }
  { rewrite Himage, Hraw. unfold kRawCapacity, kChecksumSize. lia. }
  rewrite Hdec in Hst. destruct (Decode_raw _ _ _) as [status result] eqn:Hd. cbn in Hst. subst status.
  apply Decode_raw_sound in Hd as (_ & Hcrc & _).
  rewrite Himage, Nat.add_sub in Hcrc. unfold image in Hcrc. rewrite <- app_assoc in Hcrc.
  rewrite take_app_le, take_ge in Hcrc by (rewrite !length_app; lia).
  rewrite subspan_skip in Hcrc by (rewrite !length_app; lia).
  rewrite subspan_field in Hcrc by (rewrite ?write_le_length, ?length_app; lia).
  rewrite read_write_small in Hcrc by (pose proof (Crc32c_range (body_image packet)); lia).
  rewrite Hbody in Hcrc. by apply (Crc32c_burst before window window' after).
Qed.

Lemma packet_corruption_detected_witness :
  let damaged := [0x7e; 0xa5; 1; 2; 9] ++ drop 5 (raw_image witness_packet) in
  (Decode 8 (zeros 56) (stuffed [] damaged ++ [0])).1.1 <> kOk.
Proof.
  exact (packet_corruption_detected 8 (zeros 56) witness_packet [0x7e; 0xa5; 1; 2] [7] [9]
    (drop 5 (body_image witness_packet)) witness_packet_legal eq_refl eq_refl
    ltac:(repeat constructor; unfold is_byte; lia) eq_refl ltac:(cbn; lia) ltac:(done)).
Defined.
End PacketCodecFacts.
