(* ===== verification/Transport.v ===== *)
(** The transport interface and its in-process implementation
    ([transport/transport.hpp], [transport/local.hpp],
    [transport/usb/byte_stream.hpp]) and the router that spreads received packets
    over their handlers ([transport/router.hpp]). *)

From S2P Require Export TypeSupport.

Local Open Scope Z_scope.

(** ** Receivers

    A receiver is a function pointer with its state; the state it may reach is
    part of [W], the rest of the program. A receiver that calls back into the
    transport that is running it is outside the model. *)
Definition PacketReceiver (W : Type) : Type :=
  PacketView -> ExecutionContext -> W -> Status * W.

(** ** The abstract class [Transport]

    [T] is the object. [started] is whether it holds a receiver. *)
Class Transport (T W : Type) := {
  transport_Start : option (PacketReceiver W) -> T -> Status * T;
  transport_Send : PacketView -> ExecutionContext -> T -> W -> Status * T * W;
  transport_Poll : ExecutionContext -> T -> W -> Status * T * W;
  transport_Stop : T -> T;
  transport_stats : T -> TransportStats;
  transport_started : T -> bool
}.

(** What every transport promises its owner. *)
Class TransportLaws (T W : Type) `{Transport T W} : Prop := {
  start_null : forall t, transport_Start None t = (kInvalidArgument, t);
  start_twice : forall receiver t,
    transport_started t = true -> transport_Start (Some receiver) t = (kInvalidState, t);
  start_once : forall receiver t,
    transport_started t = false ->
    (transport_Start (Some receiver) t).1 = kOk /\
    transport_started (transport_Start (Some receiver) t).2 = true;
  send_stopped : forall packet caller t w,
    transport_started t = false -> transport_Send packet caller t w = (kInvalidState, t, w);
  poll_stopped : forall caller t w,
    transport_started t = false -> transport_Poll caller t w = (kInvalidState, t, w);
  send_started : forall packet caller t w,
    transport_started (transport_Send packet caller t w).1.2 = transport_started t;
  poll_started : forall caller t w,
    transport_started (transport_Poll caller t w).1.2 = transport_started t;
  stop_stopped : forall t, transport_started (transport_Stop t) = false
}.

(** ** The abstract class [ByteStream]

    [Read] returns the bytes it put at the front of the caller's array, whose
    size is its first argument. *)
Class ByteStream (S : Type) := {
  stream_Write : list Z -> S -> Status * nat * S;
  stream_Read : nat -> S -> Status * list Z * S;
  stream_Close : S -> S
}.

(** A driver stays inside the array it is given. *)
Class ByteStreamLaws (S : Type) `{ByteStream S} : Prop := {
  read_fits : forall n s, (length (stream_Read n s).1.2 <= n)%nat;
  read_bytes : forall n s, Forall is_byte (stream_Read n s).1.2
}.

(** ** [LocalTransport] *)

Module LocalTransport.
Section LocalTransport.
Context {W : Type}.

Record t := Mk {
  receiver_ : option (PacketReceiver W);
  stats_ : TransportStats
}.
#[global] Instance eta_t : Eta t := fun r => Mk (receiver_ r) (stats_ r).

Definition init : t := Mk None TransportStats_zero.

Definition Start (receiver : option (PacketReceiver W)) (self : t) : Status * t :=
  match receiver with
  | None => (kInvalidArgument, self)
  | Some _ =>
      match receiver_ self with
      | Some _ => (kInvalidState, self)
      | None => (kOk, self <| receiver_ := receiver |>)
      end
  end.

Definition Send (packet : PacketView) (caller : ExecutionContext) (self : t) (w : W)
    : Status * t * W :=
  match receiver_ self with
  | None => (kInvalidState, self, w)
  | Some receiver =>
      let stats := bump packets_sent (stats_ self) in
      let stats := stats <| bytes_sent := add32 (bytes_sent stats) (length (payload packet)) |> in
      let '(status, w) := receiver packet caller w in
      let stats :=
        if IsOk status then
          let stats := bump packets_received stats in
          stats <| bytes_received := add32 (bytes_received stats) (length (payload packet)) |>
        else bump invalid_packets stats in
      (status, self <| stats_ := stats |>, w)
  end.

Definition Poll (caller : ExecutionContext) (self : t) (w : W) : Status * t * W :=
  match receiver_ self with
  | None => (kInvalidState, self, w)
  | Some _ => (kUnavailable, self, w)
  end.

Definition Stop (self : t) : t := self <| receiver_ := None |>.
End LocalTransport.
Arguments t : clear implicits.

#[export] Instance transport W : Transport (t W) W := {|
  transport_Start := Start;
  transport_Send := Send;
  transport_Poll := Poll;
  transport_Stop := Stop;
  transport_stats := stats_;
  transport_started := fun self => bool_decide (is_Some (receiver_ self))
|}.

#[export] Instance transport_laws W : TransportLaws (t W) W.
Proof.
  split; cbn; [done|..].
  - intros receiver [[old|] stats]; [done|]. by intros [? ?]%bool_decide_eq_true.
  - intros receiver [[old|] stats]; [|done]. intros H%bool_decide_eq_false. by destruct H.
  - intros packet caller [[old|] stats] w; [|done]. intros H%bool_decide_eq_false. by destruct H.
  - intros caller [[old|] stats] w; [|done]. intros H%bool_decide_eq_false. by destruct H.
  - intros packet caller [[old|] stats] w; [|done]. unfold Send. cbn. by destruct (old packet caller w).
  - by intros caller [[old|] stats] w.
  - done.
Qed.
End LocalTransport.

(** ** [StaticRouter] *)

Module StaticRouter.
Section StaticRouter.
Context {W : Type}.
Variable MaxRoutes : nat.

Record Route := MkRoute {
  r_route_id : Z;
  r_kind : PacketKind;
  r_schema_hash : SchemaHash;
  r_handler : PacketReceiver W
}.

(** [routes_] is the used part of the array; [route_count_] is its length. *)
Record t := Mk {
  routes_ : list Route;
  sealed_ : bool
}.
#[global] Instance eta_t : Eta t := fun r => Mk (routes_ r) (sealed_ r).

Definition init : t := Mk [] false.

Definition same_route (route_id : Z) (kind : PacketKind) (route : Route) : bool :=
  (r_route_id route =? route_id) && bool_decide (r_kind route = kind).

Definition Register (route_id : Z) (kind : PacketKind) (hash : SchemaHash)
    (handler : option (PacketReceiver W)) (self : t) : Status * t :=
  match sealed_ self, handler with
  | true, _ => (kInvalidState, self)
  | false, None => (kInvalidArgument, self)
  | false, Some handler =>
      if route_id =? 0 then (kInvalidArgument, self)
      else if existsb (same_route route_id kind) (routes_ self) then (kAlreadyExists, self)
      else if (length (routes_ self) =? MaxRoutes)%nat then (kCapacityExceeded, self)
      else (kOk, self <| routes_ := routes_ self ++ [MkRoute route_id kind hash handler] |>)
  end.

Definition Seal (self : t) : Status * t :=
  if sealed_ self then (kInvalidState, self) else (kOk, self <| sealed_ := true |>).

(** The scan over [routes_]: the first route of the packet decides. *)
Fixpoint Accept_loop (routes : list Route) (packet : PacketView) (caller : ExecutionContext) (w : W)
    : Status * W :=
  match routes with
  | [] => (kNotFound, w)
  | route :: routes =>
      if negb (r_route_id route =? route_id (header packet)) ||
         negb (bool_decide (r_kind route = packet_kind (header packet)))
      then Accept_loop routes packet caller w
      else if negb (bool_decide (r_schema_hash route = packet_schema_hash (header packet)))
      then (kTypeMismatch, w)
      else r_handler route packet caller w
  end.

Definition Accept (self : t) : PacketReceiver W := fun packet caller w =>
  if negb (sealed_ self) then (kInvalidState, w)
  else Accept_loop (routes_ self) packet caller w.

(** The state pointer may be null. *)
Definition Receive (state : option t) : PacketReceiver W := fun packet caller w =>
  match state with
  | None => (kInvalidArgument, w)
  | Some self => Accept self packet caller w
  end.

(** ** Invariant: at most [MaxRoutes] routes, no two of them alike. *)
Definition wf (self : t) : Prop :=
  (length (routes_ self) <= MaxRoutes)%nat /\
  NoDup ((fun route => (r_route_id route, r_kind route)) <$> routes_ self) /\
  Forall (fun route => r_route_id route <> 0) (routes_ self).

Lemma same_route_spec id kind route :
  same_route id kind route = true <-> (r_route_id route, r_kind route) = (id, kind).
Proof.
  unfold same_route. split; [intros; bool_hyps; congruence|].
  intros [=-> ->]. apply andb_true_intro. split; solve_guard; done.
Qed.

Lemma existsb_same_route id kind routes :
  existsb (same_route id kind) routes = false ->
  (id, kind) ∉ (fun route => (r_route_id route, r_kind route)) <$> routes.
Proof.
  intros H (route & Hr & Hin)%list_elem_of_fmap. enough (existsb (same_route id kind) routes = true) by congruence.
  apply existsb_exists. exists route. split; [by apply list_elem_of_In|]. by apply same_route_spec.
Qed.

Lemma router_init_wf : wf init.
Proof. split_and!; [cbn; lia|constructor|constructor]. Qed.

Lemma router_Register_wf id kind hash handler self : wf self -> wf (Register id kind hash handler self).2.
Proof.
  intros (Hl & Hn & Hz). unfold Register. destruct (sealed_ self); [done|].
  destruct handler as [handler|]; [|done]. split_if; [done|]. destruct (existsb _ _) eqn:He; [done|].
  split_if; [done|]. bool_hyps. split_and!; cbn.
  - rewrite length_app. cbn. lia.
  - rewrite fmap_app. apply NoDup_app. split_and!; [done| |by apply NoDup_singleton].
    intros x Hx Heq%list_elem_of_singleton. apply existsb_same_route in He. by subst.
  - by apply Forall_app_2, Forall_singleton.
Qed.

Lemma Seal_wf self : wf self -> wf (Seal self).2.
Proof. intros. unfold Seal. by destruct (sealed_ self). Qed.

(** The scan finds the one route a packet can take. *)
Lemma Accept_loop_route routes route packet caller w :
  NoDup ((fun route => (r_route_id route, r_kind route)) <$> routes) -> route ∈ routes ->
  r_route_id route = route_id (header packet) -> r_kind route = packet_kind (header packet) ->
  Accept_loop routes packet caller w =
    if bool_decide (r_schema_hash route = packet_schema_hash (header packet))
    then r_handler route packet caller w else (kTypeMismatch, w).
Proof.
  intros Hn Hin Hid Hkind. induction routes as [|first routes IH]; [by apply not_elem_of_nil in Hin|].
  rewrite fmap_cons in Hn. apply NoDup_cons in Hn as [Hfirst Hn]. cbn [Accept_loop].
  apply elem_of_cons in Hin as [->|Hin].
  - rewrite Hid, Hkind, Z.eqb_refl, bool_decide_eq_true_2 by done. cbn [negb orb].
    by destruct (bool_decide _).
  - destruct (negb _ || negb _)%bool eqn:E; [by apply IH|].
    bool_hyps. destruct Hfirst. apply list_elem_of_fmap. exists route. split; [congruence|done].
Qed.

Lemma Accept_loop_none routes packet caller w :
  (forall route, route ∈ routes ->
     (r_route_id route, r_kind route) <> (route_id (header packet), packet_kind (header packet))) ->
  Accept_loop routes packet caller w = (kNotFound, w).
Proof.
  intros H. induction routes as [|route routes IH]; [done|]. cbn [Accept_loop].
  destruct (negb _ || negb _)%bool eqn:E; [apply IH; intros r Hr; apply H; by right|].
  bool_hyps. destruct (H route); [by left|congruence].
Qed.

(** The states a router reaches through its operations. *)
Inductive reachable : t -> Prop :=
  | reachable_init : reachable init
  | reachable_Register id kind hash handler self :
      reachable self -> reachable (Register id kind hash handler self).2
  | reachable_Seal self : reachable self -> reachable (Seal self).2.

Lemma router_reachable_wf self : reachable self -> wf self.
Proof. induction 1; auto using router_init_wf, router_Register_wf, Seal_wf. Qed.

(** A registration on an open router, on every branch. *)
Lemma Register_open id kind hash handler self :
  sealed_ self = false -> id <> 0 ->
  Register id kind hash (Some handler) self =
    if decide ((id, kind) ∈ (fun route => (r_route_id route, r_kind route)) <$> routes_ self)
    then (kAlreadyExists, self)
    else if (length (routes_ self) =? MaxRoutes)%nat then (kCapacityExceeded, self)
    else (kOk, self <| routes_ := routes_ self ++ [MkRoute id kind hash handler] |>).
Proof.
  intros Hs Hid. unfold Register. rewrite Hs. guard_false (id =? 0).
  destruct (existsb _ _) eqn:He; destruct (decide _) as [Hin|Hnot]; [done| | |done].
  - apply existsb_exists in He as (route & Hin & Hr). destruct Hnot. apply list_elem_of_fmap.
    exists route. apply list_elem_of_In in Hin. by apply same_route_spec in Hr.
  - by destruct (existsb_same_route _ _ _ He).
Qed.
End StaticRouter.
Arguments t : clear implicits.
Arguments Route : clear implicits.

(** Dispatch is a function of the registrations: in every reachable router
    the routes have distinct keys and no more than [MaxRoutes] exist; once
    sealed, a packet goes to the one handler registered for its route and kind
    when the schema agrees, fails with [kTypeMismatch] when it does not, and with
    [kNotFound], calling nothing, when there is no such route; before sealing
    nothing is dispatched and after it nothing is registered. *)
Theorem router_dispatch {W} MaxRoutes (self : t W) :
  reachable MaxRoutes self ->
  (length (routes_ self) <= MaxRoutes)%nat /\
  (forall packet caller w, sealed_ self = false -> Accept self packet caller w = (kInvalidState, w)) /\
  (forall id kind hash handler, sealed_ self = true ->
     Register MaxRoutes id kind hash handler self = (kInvalidState, self)) /\
  (forall packet caller w, sealed_ self = true ->
     (forall route, route ∈ routes_ self -> r_route_id route = route_id (header packet) ->
        r_kind route = packet_kind (header packet) ->
        Accept self packet caller w =
          if bool_decide (r_schema_hash route = packet_schema_hash (header packet))
          then r_handler route packet caller w else (kTypeMismatch, w)) /\
     ((forall route, route ∈ routes_ self ->
         (r_route_id route, r_kind route) <> (route_id (header packet), packet_kind (header packet))) ->
      Accept self packet caller w = (kNotFound, w))).
Proof.
  intros (Hl & Hn & _)%router_reachable_wf. split_and!; [done|..].
  - intros packet caller w Hs. unfold Accept. by rewrite Hs.
  - intros id kind hash handler Hs. unfold Register. by rewrite Hs.
  - intros packet caller w Hs. unfold Accept. rewrite Hs. cbn [negb]. split.
    + intros route Hin Hid Hk. by apply Accept_loop_route.
    + apply Accept_loop_none.
Qed.

Definition witness_router : t nat :=
  (Seal (Register 2 5 kChannel SchemaHash_zero (Some (fun _ _ w => (kOk, S w))) init).2).2.

Lemma router_dispatch_witness :
  Accept witness_router (MkPacketView (MkPacketHeader 5 kChannel 0 0 0 SchemaHash_zero) [])
    (MkExecutionContext "io" kThread 0) 3%nat = (kOk, 4%nat).
Proof.
  destruct (router_dispatch 2 witness_router) as (_ & _ & _ & H).
  - apply reachable_Seal, reachable_Register, reachable_init.
  - destruct (H (MkPacketView (MkPacketHeader 5 kChannel 0 0 0 SchemaHash_zero) [])
      (MkExecutionContext "io" kThread 0) 3%nat eq_refl) as [Hroute _].
    rewrite (Hroute (MkRoute 5 kChannel SchemaHash_zero (fun _ _ w => (kOk, S w)))); [reflexivity|by left|done|done].
Defined.
End StaticRouter.
