(* ===== verification/StreamTransport.v ===== *)
(** [StreamTransport] ([transport/usb/stream_transport.hpp]): packets over a byte
    stream, framed by [PacketCodec]. *)

From S2P Require Export Framing Transport.

Local Open Scope Z_scope.

Module StreamTransport.
Export PacketCodec.
Import PacketCodecFacts.
Section StreamTransport.
Context {S W : Type} `{!ByteStream S}.
Variable MaxPayload : nat.

Record t := Mk {
  stream_ : S;
  codec_ : list Z;
  encoded_ : list Z;
  received_ : list Z;
  received_size_ : nat;
  receiver_ : option (PacketReceiver W);
  stats_ : TransportStats
}.
#[global] Instance eta_t : Eta t := fun r =>
  Mk (stream_ r) (codec_ r) (encoded_ r) (received_ r) (received_size_ r) (receiver_ r) (stats_ r).

Definition init (stream : S) : t :=
  Mk stream (zeros (kRawCapacity MaxPayload)) (zeros (kEncodedCapacity MaxPayload))
    (zeros (kEncodedCapacity MaxPayload)) 0 None TransportStats_zero.

Definition Start (receiver : option (PacketReceiver W)) (self : t) : Status * t :=
  match receiver with
  | None => (kInvalidArgument, self)
  | Some _ =>
      match receiver_ self with
      | Some _ => (kInvalidState, self)
      | None => (kOk, self <| receiver_ := receiver |>)
      end
  end.

Definition Send (packet : PacketView) (caller : ExecutionContext) (self : t) (w : W)
    : Status * t * W :=
  match receiver_ self with
  | None => (kInvalidState, self, w)
  | Some _ =>
      let '(encode_status, codec, encoded, encoded_size) :=
        Encode MaxPayload (codec_ self) packet (encoded_ self) in
      let self := self <| codec_ := codec |> <| encoded_ := encoded |> in
      if negb (IsOk encode_status) then
        (encode_status, self <| stats_ := bump invalid_packets (stats_ self) |>, w)
      else
        let '(status, written, stream) :=
          stream_Write (take encoded_size encoded) (stream_ self) in
        let self := self <| stream_ := stream |> in
        if negb (IsOk status) || negb (written =? encoded_size)%nat then
          (if IsOk status then kUnavailable else status,
           self <| stats_ := bump backpressure (stats_ self) |>, w)
        else
          let stats := bump packets_sent (stats_ self) in
          (kOk, self <| stats_ := stats <| bytes_sent := add32 (bytes_sent stats) (length (payload packet)) |> |>, w)
  end.

(** A complete frame in [received_]: decode and hand over. *)
Definition Poll_frame (receiver : PacketReceiver W) (caller : ExecutionContext) (self : t) (w : W)
    : Status * t * W :=
  let '(decode_status, codec, packet) :=
    Decode MaxPayload (codec_ self) (take (received_size_ self) (received_ self)) in
  let self := self <| codec_ := codec |> <| received_size_ := 0%nat |> in
  if negb (IsOk decode_status) then
    (decode_status, self <| stats_ := bump invalid_packets (stats_ self) |>, w)
  else
    let '(receive_status, w) := receiver packet caller w in
    if negb (IsOk receive_status) then
      (receive_status, self <| stats_ := bump invalid_packets (stats_ self) |>, w)
    else
      let stats := bump packets_received (stats_ self) in
      (kOk, self <| stats_ := stats <| bytes_received := add32 (bytes_received stats) (length (payload packet)) |> |>, w).

(** [received_[received_size_++] = value]. *)
Definition push (value : Z) (self : t) : t :=
  self <| received_ := <[received_size_ self := value]> (received_ self) |>
       <| received_size_ := Datatypes.S (received_size_ self) |>.

(** One byte of the chunk. *)
Definition Poll_byte (receiver : PacketReceiver W) (caller : ExecutionContext) (value : Z)
    (self : t) (w : W) : Status * t * W :=
  if negb (value =? 0) then
    if (length (received_ self) <=? received_size_ self + 1)%nat then
      (kCapacityExceeded,
       self <| received_size_ := 0%nat |> <| stats_ := bump invalid_packets (stats_ self) |>, w)
    else (kOk, push value self, w)
  else if (received_size_ self =? 0)%nat then (kOk, self, w)
  else Poll_frame receiver caller (push 0 self) w.

(** The loop over the bytes read; an error returns at once. *)
Fixpoint Poll_loop (receiver : PacketReceiver W) (caller : ExecutionContext) (chunk : list Z)
    (self : t) (w : W) : Status * t * W :=
  match chunk with
  | [] => (kOk, self, w)
  | value :: chunk =>
      let '(status, self, w) := Poll_byte receiver caller value self w in
      if negb (IsOk status) then (status, self, w)
      else Poll_loop receiver caller chunk self w
  end.

Definition kChunkSize : nat := 64.

Definition Poll (caller : ExecutionContext) (self : t) (w : W) : Status * t * W :=
  match receiver_ self with
  | None => (kInvalidState, self, w)
  | Some receiver =>
      let '(read_status, chunk, stream) := stream_Read kChunkSize (stream_ self) in
      let self := self <| stream_ := stream |> in
      if negb (IsOk read_status) then (read_status, self, w)
      else if (length chunk =? 0)%nat then (kUnavailable, self, w)
      else Poll_loop receiver caller chunk self w
  end.

Definition Stop (self : t) : t :=
  self <| receiver_ := None |> <| received_size_ := 0%nat |> <| stream_ := stream_Close (stream_ self) |>.

(** ** Invariant: the buffers keep their sizes, and the partial frame leaves room
    for its terminator and holds no zero byte. *)
Record inv (self : t) : Prop := {
  inv_codec : length (codec_ self) = kRawCapacity MaxPayload;
  inv_encoded : length (encoded_ self) = kEncodedCapacity MaxPayload;
  inv_received : length (received_ self) = kEncodedCapacity MaxPayload;
  inv_size : (received_size_ self < kEncodedCapacity MaxPayload)%nat;
  inv_partial : Forall (fun b => b <> 0) (take (received_size_ self) (received_ self))
}.

(** ** Lemmas: the invariant *)

Lemma stream_init_inv stream : inv (init stream).
Proof.
  split; cbn; autorewrite with aster; try done. unfold kEncodedCapacity. lia.
Qed.

Lemma Start_inv receiver self : inv self -> inv (Start receiver self).2.
Proof. intros [? ? ? ? ?]. unfold Start. destruct receiver, (receiver_ self); by split. Qed.

Lemma capacity_pos : (0 < kEncodedCapacity MaxPayload)%nat.
Proof. unfold kEncodedCapacity. lia. Qed.

(** Dropping the partial frame keeps the invariant. *)
Lemma reset_inv self :
  length (codec_ self) = kRawCapacity MaxPayload ->
  length (encoded_ self) = kEncodedCapacity MaxPayload ->
  length (received_ self) = kEncodedCapacity MaxPayload ->
  received_size_ self = 0%nat -> inv self.
Proof.
  intros Hc He Hr Hz. pose proof capacity_pos. split; rewrite ?Hz; try done.
Qed.

Lemma Stop_inv self : inv self -> inv (Stop self).
Proof. intros []. by apply reset_inv. Qed.

Lemma Send_inv packet caller self w : inv self -> inv (Send packet caller self w).1.2.
Proof.
  intros [Hc He Hr Hs Hp]. unfold Send. destruct (receiver_ self); [|by split].
  pose proof (Encode_lengths MaxPayload (codec_ self) packet (encoded_ self)) as [Hlc Hle].
  destruct (Encode _ _ _ _) as [[[st codec] encoded] size]. cbn in Hlc, Hle.
  split_if; [split; cbn; first [done|congruence]|].
  destruct (stream_Write _ _) as [[status written] stream].
  split_if; split; cbn; first [done|congruence].
Qed.

Lemma push_inv value self :
  inv self -> value <> 0 -> (received_size_ self + 1 < kEncodedCapacity MaxPayload)%nat ->
  inv (push value self).
Proof.
  intros [Hc He Hr Hs Hp] Hv Hn. split; cbn; try done; [by rewrite length_insert|lia|].
  rewrite (take_S_r _ _ value) by (apply list_lookup_insert_eq; lia).
  rewrite take_insert_ge by lia. by apply Forall_app_2, Forall_singleton.
Qed.

Lemma Poll_frame_inv receiver caller self w :
  length (codec_ self) = kRawCapacity MaxPayload ->
  length (encoded_ self) = kEncodedCapacity MaxPayload ->
  length (received_ self) = kEncodedCapacity MaxPayload ->
  let self' := (Poll_frame receiver caller self w).1.2 in
  inv self' /\ received_size_ self' = 0%nat.
Proof.
  intros Hc He Hr. cbn zeta. unfold Poll_frame.
  pose proof (Decode_length MaxPayload (codec_ self) (take (received_size_ self) (received_ self))) as Hl.
  destruct (Decode _ _ _) as [[st codec] packet]. cbn in Hl.
  split_if; [|destruct (receiver packet caller w); split_if];
    (split; [apply reset_inv|]; cbn; congruence).
Qed.

(** A byte keeps the invariant; a zero byte or an error empties the buffer. *)
Lemma Poll_byte_inv receiver caller value self w :
  inv self ->
  let '(status, self', _) := Poll_byte receiver caller value self w in
  inv self' /\ (value = 0 \/ status <> kOk -> received_size_ self' = 0%nat).
Proof.
  intros I. pose proof I as [Hc He Hr Hs Hp]. unfold Poll_byte. destruct (Z.eqb_spec value 0) as [->|Hv]; cbn [negb].
  - destruct (Nat.eqb_spec (received_size_ self) 0) as [Hz|]; [done|].
    pose proof (Poll_frame_inv receiver caller (push 0 self) w Hc He
      ltac:(cbn; by rewrite length_insert)) as [Hi Hz].
    destruct (Poll_frame _ _ _ _) as [[st self'] w']. by cbn in *.
  - split_if; bool_hyps.
    + split; [|done]. by apply reset_inv.
    + split; [|by intros [?|?]]. apply push_inv; [done|done|lia].
Qed.

Lemma Poll_loop_inv receiver caller chunk self w :
  inv self ->
  let '(status, self', _) := Poll_loop receiver caller chunk self w in
  inv self' /\ (last chunk = Some 0 \/ status <> kOk -> received_size_ self' = 0%nat).
Proof.
  revert self w. induction chunk as [|value chunk IH]; intros self w I; cbn [Poll_loop];
    [split; [done|by intros [?|?]]|].
  pose proof (Poll_byte_inv receiver caller value self w I) as Hb.
  destruct (Poll_byte _ _ _ _ _) as [[st self'] w']. destruct Hb as [I' Hz].
  destruct (IsOk st) eqn:Hst; cbn [negb].
  - specialize (IH self' w' I'). destruct chunk as [|next chunk]; [|exact IH].
    cbn [Poll_loop]. split; [done|]. intros [[=]|[]]; [apply Hz; by left|done].
  - split; [done|]. intros _. apply Hz. right. by apply IsOk_false.
Qed.

Lemma Poll_inv caller self w : inv self -> inv (Poll caller self w).1.2.
Proof.
  intros I. unfold Poll. destruct (receiver_ self) as [receiver|]; [|done].
  destruct (stream_Read _ _) as [[st chunk] stream].
  assert (inv (self <| stream_ := stream |>)) as I' by (destruct I; by split).
  split_if; [done|]. split_if; [done|].
  pose proof (Poll_loop_inv receiver caller chunk _ w I') as H.
  destruct (Poll_loop _ _ _ _ _) as [[? ?] ?]. by destruct H.
Qed.

(** ** Lemmas: delivery *)

Lemma Poll_loop_app receiver caller a b self w :
  Poll_loop receiver caller (a ++ b) self w =
    let '(status, self', w') := Poll_loop receiver caller a self w in
    if negb (IsOk status) then (status, self', w') else Poll_loop receiver caller b self' w'.
Proof.
  revert self w. induction a as [|value a IH]; intros self w; [done|]. cbn [app Poll_loop].
  destruct (Poll_byte _ _ _ _ _) as [[st self'] w']. destruct (IsOk st) eqn:E; cbn [negb]; [apply IH|].
  by rewrite E.
Qed.

(** The loop reads neither the stream nor the registered receiver. *)
Lemma Poll_loop_stream receiver caller chunk self w stream :
  Poll_loop receiver caller chunk (self <| stream_ := stream |>) w =
    let '(status, self', w') := Poll_loop receiver caller chunk self w in
    (status, self' <| stream_ := stream |>, w').
Proof.
  revert self w. induction chunk as [|value chunk IH]; intros self w; [done|]. cbn [Poll_loop].
  assert (Poll_byte receiver caller value (self <| stream_ := stream |>) w =
    let '(status, self', w') := Poll_byte receiver caller value self w in
    (status, self' <| stream_ := stream |>, w')) as ->.
  { unfold Poll_byte, Poll_frame, push. cbn. repeat split_if; try done.
    destruct (Decode _ _ _) as [[st codec] packet]. split_if; [done|].
    destruct (receiver packet caller w). by split_if. }
  destruct (Poll_byte _ _ _ _ _) as [[st self'] w']. by split_if.
Qed.

Lemma Poll_loop_receiver receiver caller chunk self w :
  receiver_ (Poll_loop receiver caller chunk self w).1.2 = receiver_ self.
Proof.
  revert self w. induction chunk as [|value chunk IH]; intros self w; [done|]. cbn [Poll_loop].
  assert (receiver_ (Poll_byte receiver caller value self w).1.2 = receiver_ self) as Hb.
  { unfold Poll_byte, Poll_frame, push. repeat split_if; try done.
    destruct (Decode _ _ _) as [[st codec] packet]. split_if; [done|].
    destruct (receiver packet caller w). by split_if. }
  destruct (Poll_byte _ _ _ _ _) as [[st self'] w']. cbn in Hb. split_if; [done|]. by rewrite IH.
Qed.

(** Bytes other than zero accumulate. *)
Lemma Poll_loop_block receiver caller bytes self w :
  inv self -> Forall (fun b => b <> 0) bytes ->
  (received_size_ self + length bytes < kEncodedCapacity MaxPayload)%nat ->
  exists received,
    Poll_loop receiver caller bytes self w =
      (kOk, self <| received_ := received |>
                 <| received_size_ := (received_size_ self + length bytes)%nat |>, w) /\
    length received = kEncodedCapacity MaxPayload /\
    take (received_size_ self + length bytes) received =
      take (received_size_ self) (received_ self) ++ bytes.
Proof.
  intros I Hb. revert self I. induction Hb as [|value bytes Hv Hb IH]; intros self I Hfit; cbn [Poll_loop length].
  - exists (received_ self). rewrite Nat.add_0_r, app_nil_r. split_and!; [by destruct self|apply I|done].
  - cbn [length] in Hfit. pose proof (inv_received _ I) as Hr.
    unfold Poll_byte at 1. guard_false (value =? 0). cbn [negb].
    guard_false (length (received_ self) <=? received_size_ self + 1)%nat. cbn [IsOk negb].
    destruct (IH (push value self)) as (received & Heq & Hlen & Htake);
      [apply push_inv; [done|done|lia]|cbn; lia|].
    exists received. cbn [push received_ received_size_ set_field] in *. split_and!; [|done|].
    + etransitivity; [exact Heq|]. cbn. repeat f_equal; lia.
    + replace (received_size_ self + Datatypes.S (length bytes))%nat
        with (Datatypes.S (received_size_ self) + length bytes)%nat by lia.
      etransitivity; [exact Htake|]. cbn.
      rewrite (take_S_r _ _ value) by (apply list_lookup_insert_eq; lia).
      rewrite take_insert_ge by lia. by rewrite <- app_assoc.
Qed.

Definition count_packet (status : Status) (size : nat) (stats : TransportStats) : TransportStats :=
  if IsOk status then
    (bump packets_received stats) <| bytes_received := add32 (bytes_received stats) size |>
  else bump invalid_packets stats.

Lemma Poll_frame_wire receiver caller packet self w :
  length (codec_ self) = kRawCapacity MaxPayload -> packet_legal MaxPayload packet ->
  take (received_size_ self) (received_ self) = wire_image packet ->
  exists codec, Poll_frame receiver caller self w =
    let '(status, w) := receiver packet caller w in
    (status, self <| codec_ := codec |> <| received_size_ := 0%nat |>
                  <| stats_ := count_packet status (length (payload packet)) (stats_ self) |>, w).
Proof.
  intros Hc L Htake. pose proof (header_wf_hash _ (legal_header _ _ L)) as Hh.
  pose proof (legal_size _ _ L). unfold Poll_frame. rewrite Htake. unfold wire_image.
  destruct (Decode_wire MaxPayload (codec_ self) (raw_image packet)) as (codec & -> & Hdec);
    [apply Forall_app_2; [apply body_image_bytes; [done|apply L]|apply write_le_bytes]
    |rewrite raw_image_length, Hc by done; unfold kRawCapacity; lia|].
  rewrite Hdec, Decode_raw_ok by done. eexists. cbn [IsOk negb].
  destruct (receiver packet caller w) as [status w1]. unfold count_packet.
  destruct (IsOk status) eqn:E; cbn [negb]; [|reflexivity]. apply IsOk_spec in E. by subst.
Qed.

(** A whole frame reaches the receiver once, as the packet it encodes. *)
Lemma Poll_loop_packet receiver caller packet self w :
  inv self -> received_size_ self = 0%nat -> packet_legal MaxPayload packet ->
  let '(status, w1) := receiver packet caller w in
  exists self', Poll_loop receiver caller (wire_image packet) self w = (status, self', w1) /\
    inv self' /\ received_size_ self' = 0%nat /\
    stats_ self' = count_packet status (length (payload packet)) (stats_ self).
Proof.
  intros I Hz L. pose proof (wire_image_fits MaxPayload packet L) as Hfit.
  pose proof (header_wf_hash _ (legal_header _ _ L)) as Hh.
  assert (Forall is_byte (raw_image packet)) as Hbytes
    by (apply Forall_app_2; [apply body_image_bytes; [done|apply L]|apply write_le_bytes]).
  pose proof (Poll_loop_inv receiver caller (wire_image packet) self w I) as Hinv.
  unfold wire_image in Hinv |- *. rewrite last_snoc in Hinv.
  pose proof (stuffed_length_pos [] (raw_image packet)) as Hpos. cbn [length] in Hpos.
  destruct (Poll_loop_block receiver caller (stuffed [] (raw_image packet)) self w I)
    as (received & Hblock & Hlen & Htake).
  { eapply Forall_impl; [by apply stuffed_nonzero; cbn; try lia|]. cbn. lia. }
  { rewrite Hz. lia. }
  rewrite Poll_loop_app, Hblock in *. rewrite Hz in *. cbn [Nat.add IsOk negb] in *.
  set (self1 := self <| received_ := received |>
                     <| received_size_ := length (stuffed [] (raw_image packet)) |>) in *.
  destruct (Poll_frame_wire receiver caller packet (push 0 self1) w) as [codec Hframe]; [apply I|done|..].
  { cbn. rewrite (take_S_r _ _ 0) by (apply list_lookup_insert_eq; lia).
    rewrite take_insert_ge by lia. by rewrite Htake, take_0. }
  cbn [Poll_loop] in *. unfold Poll_byte in *. cbn [Z.eqb negb] in *.
  assert ((received_size_ self1 =? 0)%nat = false) as Hne by (apply Nat.eqb_neq; cbn; lia).
  rewrite Hne, Hframe in *. destruct (receiver packet caller w) as [status w1].
  exists ((push 0 self1) <| codec_ := codec |> <| received_size_ := 0%nat |>
    <| stats_ := count_packet status (length (payload packet)) (stats_ (push 0 self1)) |>).
  destruct (IsOk status) eqn:E; cbn [negb] in Hinv |- *; destruct Hinv as [I' _]; split_and!; try done.
  by apply IsOk_spec in E as ->.
Qed.

(** What a receiver does with a sequence of packets it accepts. *)
Fixpoint deliver (receiver : PacketReceiver W) (caller : ExecutionContext)
    (packets : list PacketView) (w : W) : option W :=
  match packets with
  | [] => Some w
  | packet :: packets =>
      let '(status, w) := receiver packet caller w in
      if IsOk status then deliver receiver caller packets w else None
  end.

Lemma Poll_loop_packets receiver caller packets self w w' :
  inv self -> received_size_ self = 0%nat -> Forall (packet_legal MaxPayload) packets ->
  deliver receiver caller packets w = Some w' ->
  exists self', Poll_loop receiver caller (concat (wire_image <$> packets)) self w = (kOk, self', w') /\
    inv self' /\ received_size_ self' = 0%nat /\
    stats_ self' = fold_left (fun stats packet => count_packet kOk (length (payload packet)) stats)
      packets (stats_ self).
Proof.
  intros I Hz L. revert self w I Hz. induction L as [|packet packets Hp L IH]; intros self w I Hz; cbn [deliver].
  - intros [=->]. by exists self.
  - rewrite fmap_cons. cbn [concat fold_left]. rewrite Poll_loop_app.
    pose proof (Poll_loop_packet receiver caller packet self w I Hz Hp) as Hone.
    destruct (receiver packet caller w) as [status w1]. destruct Hone as (self1 & -> & I1 & Hz1 & Hs1).
    destruct (IsOk status) eqn:E; [|done]. apply IsOk_spec in E as ->. cbn [IsOk negb]. intros Hd.
    rewrite <- Hs1. by apply IH.
Qed.

(** Polling a stream that hands out [chunks]. *)
Inductive reads : S -> list (list Z) -> S -> Prop :=
  | reads_nil stream : reads stream [] stream
  | reads_cons stream chunk stream' chunks stream'' :
      stream_Read kChunkSize stream = (kOk, chunk, stream') -> chunk <> [] ->
      reads stream' chunks stream'' -> reads stream (chunk :: chunks) stream''.

(** [Poll] once per chunk, while it succeeds. *)
Fixpoint Polls (n : nat) (caller : ExecutionContext) (self : t) (w : W) : Status * t * W :=
  match n with
  | O => (kOk, self, w)
  | Datatypes.S n =>
      let '(status, self, w) := Poll caller self w in
      if negb (IsOk status) then (status, self, w) else Polls n caller self w
  end.

Lemma Poll_chunk receiver caller stream chunk stream' self w :
  receiver_ self = Some receiver -> stream_Read kChunkSize stream = (kOk, chunk, stream') -> chunk <> [] ->
  Poll caller (self <| stream_ := stream |>) w =
    Poll_loop receiver caller chunk (self <| stream_ := stream' |>) w.
Proof.
  intros Hrec Hread Hne. unfold Poll. cbn [receiver_ stream_ set_field]. rewrite Hrec, Hread.
  destruct chunk as [|b chunk]; [done|]. reflexivity.
Qed.

Lemma Polls_reads receiver caller stream chunks stream' self w self' w' :
  reads stream chunks stream' -> receiver_ self = Some receiver ->
  Poll_loop receiver caller (concat chunks) self w = (kOk, self', w') ->
  Polls (length chunks) caller (self <| stream_ := stream |>) w =
    (kOk, self' <| stream_ := stream' |>, w').
Proof.
  intros Hreads. revert self w. induction Hreads as [stream|stream chunk stream1 chunks stream2 Hread Hne _ IH];
    intros self w Hrec; cbn [concat length Polls]; [by intros [=<- <-]|].
  rewrite Poll_loop_app, (Poll_chunk receiver _ _ chunk stream1) by done.
  pose proof (Poll_loop_receiver receiver caller chunk self w) as Hkeep.
  rewrite Poll_loop_stream.
  destruct (Poll_loop receiver caller chunk self w) as [[st self1] w1]. cbn [fst snd] in Hkeep.
  destruct (IsOk st) eqn:E; cbn [negb]; [|intros [=-> -> ->]; done].
  apply IH. congruence.
Qed.

(** [Send] offers the stream exactly the frame of the packet. *)
Lemma Send_wire packet caller self w :
  inv self -> receiver_ self <> None -> packet_legal MaxPayload packet ->
  exists codec encoded,
    Send packet caller self w =
      let '(status, written, stream) := stream_Write (wire_image packet) (stream_ self) in
      let self := self <| codec_ := codec |> <| encoded_ := encoded |> <| stream_ := stream |> in
      if IsOk status && (written =? length (wire_image packet))%nat then
        (kOk, self <| stats_ := (bump packets_sent (stats_ self))
           <| bytes_sent := add32 (bytes_sent (stats_ self)) (length (payload packet)) |> |>, w)
      else (if IsOk status then kUnavailable else status,
            self <| stats_ := bump backpressure (stats_ self) |>, w).
Proof.
  intros I Hrec L. unfold Send. destruct (receiver_ self); [|done].
  destruct (packet_Encode_ok MaxPayload (codec_ self) packet (encoded_ self) L) as (codec & free & _ & Henc);
    [apply I| |].
  { pose proof (wire_image_fits MaxPayload packet L). unfold wire_image. rewrite length_app, (inv_encoded _ I).
    cbn. lia. }
  rewrite Henc. cbn [IsOk negb]. rewrite take_app_length. exists codec, (wire_image packet ++ free).
  cbn [stream_ set_field]. destruct (stream_Write _ _) as [[status written] stream].
  destruct (IsOk status), (written =? _)%nat; reflexivity.
Qed.
End StreamTransport.
Arguments t : clear implicits.

#[export] Instance transport S W `{!ByteStream S} (MaxPayload : nat) : Transport (t S W) W := {|
  transport_Start := Start;
  transport_Send := Send MaxPayload;
  transport_Poll := Poll MaxPayload;
  transport_Stop := Stop;
  transport_stats := stats_;
  transport_started := fun self => bool_decide (is_Some (receiver_ self))
|}.

Lemma Send_receiver {S W} `{!ByteStream S} MaxPayload packet caller (self : t S W) w :
  receiver_ (Send MaxPayload packet caller self w).1.2 = receiver_ self.
Proof.
  unfold Send. destruct (receiver_ self) eqn:E; [|done]. destruct (Encode _ _ _ _) as [[[st codec] encoded] size].
  split_if; [done|]. destruct (stream_Write _ _) as [[status written] stream]. by split_if.
Qed.

Lemma Poll_receiver {S W} `{!ByteStream S} MaxPayload caller (self : t S W) w :
  receiver_ (Poll MaxPayload caller self w).1.2 = receiver_ self.
Proof.
  unfold Poll. destruct (receiver_ self) eqn:E; [|done]. destruct (stream_Read _ _) as [[st chunk] stream].
  split_if; [done|]. split_if; [done|]. by rewrite Poll_loop_receiver.
Qed.

#[export] Instance transport_laws S W `{!ByteStream S} MaxPayload :
  @TransportLaws (t S W) W (transport S W MaxPayload).
Proof.
  split; cbn -[Send Poll]; [done|..].
  - intros receiver self. unfold Start. destruct (receiver_ self); [done|]. by intros [? ?]%bool_decide_eq_true.
  - intros receiver self. unfold Start. destruct (receiver_ self); [|done].
    intros H%bool_decide_eq_false. by destruct H.
  - intros packet caller self w H%bool_decide_eq_false. unfold Send.
    destruct (receiver_ self); [by destruct H|done].
  - intros caller self w H%bool_decide_eq_false. unfold Poll.
    destruct (receiver_ self); [by destruct H|done].
  - intros. by rewrite Send_receiver.
  - intros. by rewrite Poll_receiver.
  - done.
Qed.

(** ** Properties *)

(** C12: a byte stream carries packets in order, each exactly once, however the
    driver cuts it: an idle sender offers the stream exactly one frame per
    legal packet, and a receiving transport that polls those frames in any
    chunks hands its receiver exactly that sequence of packets, ends idle and
    counts them, whenever the receiver accepts them. *)
Theorem stream_delivery {S W} `{!ByteStream S} MaxPayload receiver caller packets chunks
    stream stream' (self : t S W) w w' :
  inv MaxPayload self -> received_size_ self = 0%nat -> receiver_ self = Some receiver ->
  Forall (packet_legal MaxPayload) packets ->
  stream_ self = stream -> reads stream chunks stream' ->
  concat chunks = concat (wire_image <$> packets) ->
  deliver receiver caller packets w = Some w' ->
  (forall packet v, packet ∈ packets ->
     stream_Write (wire_image packet) stream = (kOk, length (wire_image packet), v) ->
     (Send MaxPayload packet caller self w).1.1 = kOk /\
     stream_ (Send MaxPayload packet caller self w).1.2 = v) /\
  exists self', Polls MaxPayload (length chunks) caller self w = (kOk, self', w') /\
    inv MaxPayload self' /\ received_size_ self' = 0%nat /\ stream_ self' = stream' /\
    stats_ self' = fold_left (fun stats packet => count_packet kOk (length (payload packet)) stats)
      packets (stats_ self).
Proof.
  intros I Hz Hrec L Hstream Hreads Hconcat Hd. split.
  - intros packet v Hin Hw. destruct (Send_wire MaxPayload packet caller self w I) as (codec & encoded & Hs);
      [congruence|by eapply Forall_forall in L|].
    rewrite Hs, Hstream, Hw, Nat.eqb_refl. done.
  - destruct (Poll_loop_packets MaxPayload receiver caller packets self w w' I Hz L Hd)
      as (self' & Hloop & I' & Hz' & Hs'). rewrite <- Hconcat in Hloop.
    pose proof (Polls_reads MaxPayload receiver caller stream chunks stream' self w self' w' Hreads Hrec Hloop) as Hp.
    exists (self' <| stream_ := stream' |>). rewrite <- Hp. split_and!; [|by destruct I'; split|done|done|done].
    destruct self; cbn in *. by subst.
Qed.

(** C13: the receiver recovers from anything on the line: on arbitrary bytes,
    statuses and receivers the buffers stay within bounds, and every poll that
    fails, or whose chunk ends with a zero byte, leaves the reassembly buffer
    empty, from where the next frame is decoded and delivered as if nothing had
    happened before. *)
Theorem stream_resynchronises {S W} `{!ByteStream S} MaxPayload receiver caller chunk stream' packet
    (self : t S W) w :
  inv MaxPayload self -> receiver_ self = Some receiver -> packet_legal MaxPayload packet ->
  stream_Read kChunkSize (stream_ self) = (kOk, chunk, stream') -> chunk <> [] ->
  let '(status, self', w') := Poll MaxPayload caller self w in
  inv MaxPayload self' /\
  (status <> kOk \/ last chunk = Some 0 ->
     received_size_ self' = 0%nat /\
     exists self'', Poll_loop MaxPayload receiver caller (wire_image packet) self' w' =
       ((receiver packet caller w').1, self'', (receiver packet caller w').2)).
Proof.
  intros I Hrec L Hread Hne.
  assert (Poll MaxPayload caller self w =
    Poll_loop MaxPayload receiver caller chunk (self <| stream_ := stream' |>) w) as Hpoll.
  { rewrite <- (Poll_chunk MaxPayload receiver caller (stream_ self) chunk stream' self w) by done.
    by destruct self. }
  rewrite Hpoll. pose proof (Poll_loop_inv MaxPayload receiver caller chunk (self <| stream_ := stream' |>) w
    ltac:(destruct I; by split)) as Hinv.
  destruct (Poll_loop _ _ _ chunk _ _) as [[status self'] w']. destruct Hinv as [I' Hz].
  split; [done|]. intros Hc. assert (received_size_ self' = 0%nat) as Hz' by (apply Hz; tauto). split; [done|].
  pose proof (Poll_loop_packet MaxPayload receiver caller packet self' w' I' Hz' L) as Hp.
  destruct (receiver packet caller w') as [st w1]. destruct Hp as (self'' & -> & _). by exists self''.
Qed.

(** *** Witnesses: a queue of chunks as the stream. *)

#[local] Instance queue_stream : ByteStream (list (list Z)) := {|
  stream_Write := fun bytes queue => (kOk, length bytes, queue ++ [bytes]);
  stream_Read := fun n queue =>
    match queue with [] => (kOk, [], []) | chunk :: queue => (kOk, take n chunk, queue) end;
  stream_Close := fun _ => []
|}.

Definition witness_transport (queue : list (list Z)) : t (list (list Z)) (list (list Z)) :=
  (Start (Some (fun packet _ seen => (kOk, seen ++ [payload packet]))) (init 8 queue)).2.

Definition witness_caller : ExecutionContext := MkExecutionContext "io" kThread 0.

Lemma witness_transport_inv queue : inv 8 (witness_transport queue).
Proof. apply Start_inv, stream_init_inv. Qed.

Definition witness_chunks : list (list Z) :=
  [take 5 (wire_image witness_packet); drop 5 (wire_image witness_packet) ++ take 9 (wire_image witness_packet);
   drop 9 (wire_image witness_packet)].

Lemma stream_delivery_witness :
  exists self', Polls 8 3 witness_caller (witness_transport witness_chunks) [] =
    (kOk, self', [payload witness_packet; payload witness_packet]).
Proof.
  destruct (stream_delivery 8 (fun packet _ seen => (kOk, seen ++ [payload packet])) witness_caller
    [witness_packet; witness_packet] witness_chunks witness_chunks [] (witness_transport witness_chunks) []
    [payload witness_packet; payload witness_packet]) as [_ (self' & Hp & _)].
  - apply witness_transport_inv.
  - reflexivity.
  - reflexivity.
  - repeat constructor; apply witness_packet_legal.
  - reflexivity.
  - repeat (econstructor; [vm_compute; reflexivity|done|]). constructor.
  - vm_compute. reflexivity.
  - reflexivity.
  - exists self'. exact Hp.
Defined.

Lemma stream_resynchronises_witness :
  let '(status, self', _) :=
    Poll 8 witness_caller (witness_transport [[9; 9; 0; 7]; wire_image witness_packet]) [] in
  status = kProtocolError /\ received_size_ self' = 0%nat.
Proof.
  pose proof (stream_resynchronises 8 (fun packet _ seen => (kOk, seen ++ [payload packet])) witness_caller
    [9; 9; 0; 7] [wire_image witness_packet] witness_packet
    (witness_transport [[9; 9; 0; 7]; wire_image witness_packet]) []
    (witness_transport_inv _) eq_refl witness_packet_legal eq_refl ltac:(done)) as H.
  destruct (Poll _ _ _ _) as [[status self'] w'] eqn:E. destruct H as [_ H].
  assert (status = kProtocolError) as -> by (apply (f_equal (fun r => r.1.1)) in E; vm_compute in E; congruence).
  split; [reflexivity|]. by apply H; left.
Defined.

(** An error ends the poll: a good frame behind a bad one in the same chunk is
    read from the stream and lost. *)
Lemma stream_error_drops_chunk :
  let '(status, self', delivered) :=
    Poll 8 witness_caller (witness_transport [[9; 9; 0] ++ wire_image witness_packet]) [] in
  status = kProtocolError /\ delivered = [] /\ stream_ self' = [].
Proof. vm_compute. done. Qed.
End StreamTransport.
