(* ===== verification/Value.v ===== *)
(** Configuration values ([aster_module_cpp_interface/util/value.hpp],
    [aster_module_c_interface/util/value.h]). *)

From Stdlib Require Export SpecFloat.
From S2P Require Export Status.

Local Open Scope Z_scope.

(** [aster_value_t]: the tag and the union member it selects; a tag without a
    member is [VOther]. [real] is an IEEE double. A view is a nullable pointer
    and a size. *)
Record aster_bytes_view_t := AbiBytes {
  bv_data : option (list Z);
  bv_size : nat
}.

Inductive ValueView :=
  | VNull
  | VBool (boolean : Z)
  | VInt64 (integer : Z)
  | VUint64 (unsigned_integer : Z)
  | VFloat64 (real : spec_float)
  | VString (string : aster_string_view_t)
  | VBytes (bytes : aster_bytes_view_t)
  | VOther (tag : Z).

(** [ASTER_VALUE_NULL] to [ASTER_VALUE_BYTES]. *)
Definition value_kind (value : ValueView) : Z :=
  match value with
  | VNull => 0
  | VBool _ => 1
  | VInt64 _ => 2
  | VUint64 _ => 3
  | VFloat64 _ => 4
  | VString _ => 5
  | VBytes _ => 6
  | VOther tag => tag
  end.

(** [std::isfinite]. *)
Definition isfinite (x : spec_float) : bool :=
  match x with
  | S754_zero _ | S754_finite _ _ _ => true
  | S754_infinity _ | S754_nan => false
  end.

Definition Validate (value : ValueView) : Status :=
  match value with
  | VNull => kOk
  | VBool boolean => if boolean <=? 1 then kOk else kInvalidArgument
  | VInt64 _ | VUint64 _ => kOk
  | VFloat64 real => if isfinite real then kOk else kInvalidArgument
  | VString s =>
      if (sv_size s =? 0)%nat || bool_decide (is_Some (sv_data s)) then kOk else kInvalidArgument
  | VBytes b =>
      if (bv_size b =? 0)%nat || bool_decide (is_Some (bv_data b)) then kOk else kInvalidArgument
  | VOther _ => kTypeMismatch
  end.

(** ** Reading a value

    [Get<T>] by the family of [T]; [T]'s range is [low] to [high]. The result is
    the status and what [output] holds afterwards. *)
Definition Get_bool (value : ValueView) (output : bool) : Status * bool :=
  if negb (IsOk (Validate value)) then (Validate value, output)
  else match value with
       | VBool boolean => (kOk, negb (boolean =? 0))
       | _ => (kTypeMismatch, output)
       end.

(** [std::in_range<T>]. *)
Definition in_range (low high z : Z) : bool := (low <=? z) && (z <=? high).

Definition Get_integral (low high : Z) (value : ValueView) (output : Z) : Status * Z :=
  if negb (IsOk (Validate value)) then (Validate value, output)
  else match value with
       | VInt64 z | VUint64 z =>
           if in_range low high z then (kOk, z) else (kInvalidArgument, output)
       | _ => (kTypeMismatch, output)
       end.

Definition Get_string (value : ValueView) (output : string) : Status * string :=
  if negb (IsOk (Validate value)) then (Validate value, output)
  else match value with
       | VString s => (kOk, FromAbiString s)
       | _ => (kTypeMismatch, output)
       end.

Definition bytes_of (view : aster_bytes_view_t) : list Z :=
  match bv_data view with
  | None => []
  | Some data => take (bv_size view) data
  end.

Definition Get_bytes (value : ValueView) (output : list Z) : Status * list Z :=
  if negb (IsOk (Validate value)) then (Validate value, output)
  else match value with
       | VBytes b => (kOk, bytes_of b)
       | _ => (kTypeMismatch, output)
       end.

(** [T = double]; the guards compare with the extreme finite doubles. *)
Definition double_max : spec_float := S754_finite false (2 ^ 53 - 1) 971.
Definition double_lowest : spec_float := S754_finite true (2 ^ 53 - 1) 971.

Definition Get_double (value : ValueView) (output : spec_float) : Status * spec_float :=
  if negb (IsOk (Validate value)) then (Validate value, output)
  else match value with
       | VFloat64 real =>
           if SFltb double_max real || SFltb real double_lowest then (kInvalidArgument, output)
           else (kOk, real)
       | _ => (kTypeMismatch, output)
       end.

(** ** Copying a value

    [std::memmove] of the characters or bytes to the front of [storage]; the
    result views the storage. *)
Definition string_bytes (s : string) : list Z :=
  (fun c => Z.of_N (Ascii.N_of_ascii c)) <$> String.list_ascii_of_string s.

Definition CopyTo (value : ValueView) (storage : list Z) (output : ValueView)
    : Status * list Z * ValueView :=
  if negb (IsOk (Validate value)) then (Validate value, storage, output)
  else match value with
       | VString s =>
           if (length storage <? sv_size s)%nat then (kCapacityExceeded, storage, output)
           else (kOk, copy_into 0 (string_bytes (FromAbiString s)) storage,
                 VString (AbiString (Some (FromAbiString s)) (sv_size s)))
       | VBytes b =>
           if (length storage <? bv_size b)%nat then (kCapacityExceeded, storage, output)
           else (kOk, copy_into 0 (bytes_of b) storage,
                 VBytes (AbiBytes (Some (bytes_of b)) (bv_size b)))
       | _ => (kOk, storage, value)
       end.

(** ** Specification: what a value means, and the room it needs. *)
Inductive meaning :=
  | MNull
  | MBool (b : bool)
  | MInteger (z : Z)
  | MFloat (x : spec_float)
  | MString (s : string)
  | MBytes (l : list Z).

Definition denote (value : ValueView) : option meaning :=
  if negb (IsOk (Validate value)) then None
  else match value with
       | VNull => Some MNull
       | VBool b => Some (MBool (negb (b =? 0)))
       | VInt64 z | VUint64 z => Some (MInteger z)
       | VFloat64 x => Some (MFloat x)
       | VString s => Some (MString (FromAbiString s))
       | VBytes b => Some (MBytes (bytes_of b))
       | VOther _ => None
       end.

Definition copy_size (value : ValueView) : nat :=
  match value with
  | VString s => sv_size s
  | VBytes b => bv_size b
  | _ => 0
  end.

(** A view over memory it may read: the pointer, if any, reaches that far. *)
Definition view_wf (value : ValueView) : Prop :=
  match value with
  | VBool b => 0 <= b < 256
  | VString s => forall c, sv_data s = Some c -> (sv_size s <= String.length c)%nat
  | VBytes b => forall l, bv_data b = Some l -> (bv_size b <= length l)%nat
  | VOther tag => tag < 0 \/ 6 < tag
  | _ => True
  end.

(** ** Lemmas *)

Lemma Validate_status value : Validate value = kOk \/ Validate value = kInvalidArgument \/
  Validate value = kTypeMismatch.
Proof. destruct value; cbn; try split_if; auto. Qed.

Lemma denote_ok value : Validate value = kOk <-> is_Some (denote value).
Proof.
  unfold denote. split.
  - intros H. rewrite H. cbn. destruct value; cbn in *; first [done|by eexists].
  - by destruct (Validate value) eqn:E; intros [? ?].
Qed.

Lemma substring_substring n s : String.substring 0 n (String.substring 0 n s) = String.substring 0 n s.
Proof. revert n. induction s as [|c s IH]; intros [|n]; cbn; [done..|by rewrite IH]. Qed.

(** A successful copy means the same as the original, in the caller's storage. *)
Lemma CopyTo_spec value storage output :
  let '(status, storage', copy) := CopyTo value storage output in
  length storage' = length storage /\
  match denote value with
  | None => status = Validate value /\ status <> kOk /\ storage' = storage /\ copy = output
  | Some m =>
      if (length storage <? copy_size value)%nat
      then status = kCapacityExceeded /\ storage' = storage /\ copy = output
      else status = kOk /\ denote copy = Some m /\ value_kind copy = value_kind value
  end.
Proof.
  unfold CopyTo, denote. destruct (IsOk (Validate value)) eqn:Hv; cbn [negb].
  - destruct value as [|b|z|z|x|s|b|k]; cbn [copy_size Validate] in *; try done.
    + by rewrite Hv.
    + by rewrite Hv.
    + destruct (length storage <? sv_size s)%nat; [done|].
      split; [by autorewrite with aster|]. split_and!; [done| |done].
      cbn. rewrite orb_true_r. cbn. do 2 f_equal.
      unfold FromAbiString. destruct (sv_data s); [apply substring_substring|]. by destruct (sv_size s).
    + destruct (length storage <? bv_size b)%nat; [done|].
      split; [by autorewrite with aster|]. split_and!; [done| |done].
      cbn. rewrite orb_true_r. cbn. do 2 f_equal.
      unfold bytes_of. destruct (bv_data b); cbn; [|by destruct (bv_size b)].
      by rewrite take_take, Nat.min_id.
  - split; [done|]. split_and!; try done. by apply IsOk_false.
Qed.

(** ** Properties *)

