(* ===== verification/Registry.v ===== *)
(** Sealed registries ([aster_runtime/registry.hpp]) and the bounded registries
    of configuration values, parameters and devices ([configuration.hpp],
    [static_hardware.hpp]). *)

From stdpp Require Export gmap.
From S2P Require Export Value.

Local Open Scope Z_scope.

(** ** The abstract class [Registry] *)

Class Registry (R : Type) := {
  registry_Seal : R -> Status * R;
  registry_sealed : R -> bool
}.

(** Sealing is final and happens at most once. *)
Class RegistryLaws (R : Type) `{Registry R} : Prop := {
  seal_sealed : forall r, registry_sealed r = true -> registry_Seal r = (kInvalidState, r);
  seal_open : forall r, registry_sealed r = false -> (registry_Seal r).1 = kOk ->
    registry_sealed (registry_Seal r).2 = true;
  seal_failed : forall r, (registry_Seal r).1 <> kOk -> registry_sealed (registry_Seal r).2 = registry_sealed r
}.

(** ** Bounded tables

    An array with a count, in which the scan for a key stops at the first match;
    the used part is a list. *)
Section Table.
Context {E V : Type} (key : E -> string) (val : E -> V).

Fixpoint find_entry (k : string) (entries : list E) : option E :=
  match entries with
  | [] => None
  | entry :: entries =>
      if bool_decide (key entry = k) then Some entry else find_entry k entries
  end.

(** Assign to the entry the scan stops at. *)
Fixpoint update_entry (k : string) (f : E -> E) (entries : list E) : list E :=
  match entries with
  | [] => []
  | entry :: entries =>
      if bool_decide (key entry = k) then f entry :: entries else entry :: update_entry k f entries
  end.

(** The finite map a table stands for. *)
Definition table_map (entries : list E) : gmap string V :=
  list_to_map ((fun entry => (key entry, val entry)) <$> entries).

Lemma table_map_lookup k entries : table_map entries !! k = val <$> find_entry k entries.
Proof.
  unfold table_map. induction entries as [|entry entries IH]; [apply lookup_empty|].
  cbn [find_entry fmap list_fmap list_to_map foldr uncurry]. destruct (bool_decide_reflect (key entry = k)) as [<-|Hne].
  - cbn. by rewrite lookup_insert_eq.
  - cbn. rewrite lookup_insert_ne by done. exact IH.
Qed.

Lemma find_entry_key k entries entry : find_entry k entries = Some entry -> key entry = k.
Proof.
  induction entries as [|first entries IH]; [done|]. cbn.
  destruct (bool_decide_reflect (key first = k)); [|exact IH]. by intros [=->].
Qed.

Lemma find_entry_elem k entries entry : find_entry k entries = Some entry -> entry ∈ entries.
Proof.
  induction entries as [|first entries IH]; [done|]. cbn.
  destruct (bool_decide_reflect (key first = k)); [intros [=->]; by left|].
  intros. right. by apply IH.
Qed.

Lemma find_entry_app k entries entries' :
  find_entry k (entries ++ entries') =
    match find_entry k entries with Some entry => Some entry | None => find_entry k entries' end.
Proof.
  induction entries as [|entry entries IH]; [done|]. cbn. by destruct (bool_decide _).
Qed.

Lemma table_map_snoc entries entry :
  find_entry (key entry) entries = None ->
  table_map (entries ++ [entry]) = <[key entry := val entry]> (table_map entries).
Proof.
  intros Hnone. apply map_eq. intros k. rewrite table_map_lookup, find_entry_app.
  destruct (decide (key entry = k)) as [<-|Hne].
  - rewrite lookup_insert_eq, Hnone. cbn. by rewrite bool_decide_eq_true_2.
  - rewrite lookup_insert_ne, table_map_lookup by done. destruct (find_entry k entries); [done|].
    cbn. by rewrite bool_decide_eq_false_2.
Qed.

Lemma update_entry_keys k f entries :
  (forall entry, key (f entry) = key entry) -> key <$> update_entry k f entries = key <$> entries.
Proof.
  intros Hf. induction entries as [|entry entries IH]; [done|]. cbn.
  destruct (bool_decide _); cbn; [by rewrite Hf|]. f_equal. exact IH.
Qed.

Lemma update_entry_length k f entries : length (update_entry k f entries) = length entries.
Proof. induction entries as [|entry entries IH]; [done|]. cbn. destruct (bool_decide _); cbn; congruence. Qed.

Lemma update_entry_Forall (P : E -> Prop) k f entries :
  Forall P entries -> (forall entry, P entry -> P (f entry)) -> Forall P (update_entry k f entries).
Proof.
  intros H Hf. induction H as [|entry entries Hp H IH]; [constructor|]. cbn.
  destruct (bool_decide _); constructor; auto.
Qed.

Lemma find_update_entry k k' f entries :
  (forall entry, key (f entry) = key entry) ->
  find_entry k' (update_entry k f entries) =
    if bool_decide (k = k') then f <$> find_entry k' entries else find_entry k' entries.
Proof.
  intros Hf. induction entries as [|entry entries IH]; [by destruct (bool_decide _)|]. cbn.
  destruct (bool_decide_reflect (key entry = k)) as [<-|Hne]; cbn.
  - rewrite Hf. destruct (bool_decide_reflect (key entry = k')) as [<-|Hne']; done.
  - rewrite IH. destruct (bool_decide_reflect (key entry = k')) as [<-|Hne']; [|done].
    by rewrite bool_decide_eq_false_2 by done.
Qed.

Lemma table_map_update k f entry entries :
  (forall entry, key (f entry) = key entry) -> find_entry k entries = Some entry ->
  table_map (update_entry k f entries) = <[k := val (f entry)]> (table_map entries).
Proof.
  intros Hf Hfind. apply map_eq. intros k'. rewrite table_map_lookup, find_update_entry by done.
  destruct (bool_decide_reflect (k = k')) as [<-|Hne].
  - by rewrite lookup_insert_eq, Hfind.
  - by rewrite lookup_insert_ne, table_map_lookup by done.
Qed.
End Table.

#[export] Hint Rewrite @update_entry_length : aster.
