(* ===== verification/Configuration.v ===== *)
(** The bounded registries of configuration values and parameters
    ([aster_runtime/configuration.hpp]) and of devices ([static_hardware.hpp]). *)

From S2P Require Export Registry.

Local Open Scope Z_scope.

(** ** [StaticConfigurator] *)

Module StaticConfigurator.
Section StaticConfigurator.
Variables MaxEntries MaxValueSize : nat.

Record Entry := MkEntry {
  e_key : string;
  e_value : ValueView;
  e_storage : list Z
}.

(** [entries_] is the used part of the array; [size_] is its length. *)
Record t := Mk {
  entries_ : list Entry;
  sealed_ : bool
}.
#[global] Instance eta_t : Eta t := fun r => Mk (entries_ r) (sealed_ r).

Definition init : t := Mk [] false.

Definition Put (key : string) (value : ValueView) (self : t) : Status * t :=
  if sealed_ self then (kInvalidState, self)
  else if bool_decide (key = ""%string) then (kInvalidArgument, self)
  else if bool_decide (is_Some (find_entry e_key key (entries_ self))) then (kAlreadyExists, self)
  else if (length (entries_ self) =? MaxEntries)%nat then (kCapacityExceeded, self)
  else
    let '(status, storage, copy) := CopyTo value (zeros MaxValueSize) VNull in
    if negb (IsOk status) then (status, self)
    else (kOk, self <| entries_ := entries_ self ++ [MkEntry key copy storage] |>).

Definition Get (key : string) (output : ValueView) (self : t) : Status * ValueView :=
  if negb (sealed_ self) then (kInvalidState, output)
  else match find_entry e_key key (entries_ self) with
       | Some entry => (kOk, e_value entry)
       | None => (kNotFound, output)
       end.

Definition Seal (self : t) : Status * t :=
  if sealed_ self then (kInvalidState, self) else (kOk, self <| sealed_ := true |>).

(** ** Specification: a finite map from keys to meanings. *)
Definition contents (self : t) : gmap string (option meaning) :=
  table_map e_key (fun entry => denote (e_value entry)) (entries_ self).

Lemma configurator_contents_lookup key self :
  contents self !! key = (fun entry => denote (e_value entry)) <$> find_entry e_key key (entries_ self).
Proof. apply table_map_lookup. Qed.

(** What [Put] answers, as a function of the contents. *)
Definition put_status (key : string) (value : ValueView) (self : t) : Status :=
  if sealed_ self then kInvalidState
  else if bool_decide (key = ""%string) then kInvalidArgument
  else if bool_decide (is_Some (contents self !! key)) then kAlreadyExists
  else if (length (entries_ self) =? MaxEntries)%nat then kCapacityExceeded
  else match denote value with
       | None => Validate value
       | Some _ => if (MaxValueSize <? copy_size value)%nat then kCapacityExceeded else kOk
       end.

Lemma Put_spec key value self :
  let '(status, self') := Put key value self in
  status = put_status key value self /\ sealed_ self' = sealed_ self /\
  contents self' = if IsOk status then <[key := denote value]> (contents self) else contents self.
Proof.
  unfold Put, put_status. destruct (sealed_ self) eqn:Hs; [done|].
  destruct (bool_decide_reflect (key = ""%string)); [done|].
  rewrite configurator_contents_lookup.
  destruct (find_entry e_key key (entries_ self)) as [entry|] eqn:Hfind; [done|].
  rewrite !bool_decide_eq_false_2 by by intros [? ?].
  destruct (length (entries_ self) =? MaxEntries)%nat; [done|].
  pose proof (CopyTo_spec value (zeros MaxValueSize) VNull) as Hc. rewrite zeros_length in Hc.
  destruct (CopyTo _ _ _) as [[status storage] copy]. destruct Hc as [_ Hc].
  destruct (denote value) as [m|] eqn:Hd.
  - destruct (MaxValueSize <? copy_size value)%nat.
    + destruct Hc as (-> & _). done.
    + destruct Hc as (-> & Hm & _). cbn [IsOk negb]. split_and!; [done|done|].
      unfold contents. cbn [entries_ set_field]. rewrite table_map_snoc by done. cbn. by rewrite Hm.
  - destruct Hc as (-> & Hne & _). apply IsOk_false in Hne. rewrite Hne. cbn [negb]. by rewrite Hne.
Qed.

Lemma Get_spec key output self :
  Get key output self =
    if negb (sealed_ self) then (kInvalidState, output)
    else match find_entry e_key key (entries_ self) with
         | Some entry => (kOk, e_value entry)
         | None => (kNotFound, output)
         end.
Proof. reflexivity. Qed.
End StaticConfigurator.

#[export] Instance registry : Registry t := {|
  registry_Seal := Seal;
  registry_sealed := sealed_
|}.

#[export] Instance registry_laws : RegistryLaws t.
Proof. split; cbn; intros [entries []]; by cbn. Qed.
End StaticConfigurator.

(** ** [StaticParameterStore] *)

Module StaticParameterStore.
Section StaticParameterStore.
Variables MaxEntries MaxValueSize : nat.

Record Entry := MkEntry {
  e_name : string;
  e_value : ValueView;
  e_storage : list Z;
  e_writable : bool
}.
#[global] Instance eta_Entry : Eta Entry := fun r =>
  MkEntry (e_name r) (e_value r) (e_storage r) (e_writable r).

Record t := Mk {
  entries_ : list Entry;
  sealed_ : bool
}.
#[global] Instance eta_t : Eta t := fun r => Mk (entries_ r) (sealed_ r).

Definition init : t := Mk [] false.

Definition Find (name : string) (self : t) : option Entry := find_entry e_name name (entries_ self).

(** The name is not checked again: [Register] has the same shape as
    [StaticConfigurator::Put]. *)
Definition Register (name : string) (value : ValueView) (writable : bool) (self : t) : Status * t :=
  if sealed_ self then (kInvalidState, self)
  else if bool_decide (name = ""%string) then (kInvalidArgument, self)
  else if bool_decide (is_Some (Find name self)) then (kAlreadyExists, self)
  else if (length (entries_ self) =? MaxEntries)%nat then (kCapacityExceeded, self)
  else
    let '(status, storage, copy) := CopyTo value (zeros MaxValueSize) VNull in
    if negb (IsOk status) then (status, self)
    else (kOk, self <| entries_ := entries_ self ++ [MkEntry name copy storage writable] |>).

(** Status, the caller's storage and output. *)
Definition Get (name : string) (storage : list Z) (output : ValueView) (self : t)
    : Status * list Z * ValueView :=
  if negb (sealed_ self) then (kInvalidState, storage, output)
  else match Find name self with
       | None => (kNotFound, storage, output)
       | Some entry => CopyTo (e_value entry) storage output
       end.

Definition Set_ (name : string) (value : ValueView) (caller : ExecutionContext) (self : t)
    : Status * t :=
  if negb (sealed_ self) then (kInvalidState, self)
  else match Find name self with
       | None => (kNotFound, self)
       | Some entry =>
           if negb (e_writable entry) then (kInvalidState, self)
           else if negb (value_kind (e_value entry) =? value_kind value) then (kTypeMismatch, self)
           else
             let '(status, storage, copy) := CopyTo value (e_storage entry) (e_value entry) in
             (status, self <| entries_ :=
                update_entry e_name name
                  (fun entry => entry <| e_storage := storage |> <| e_value := copy |>)
                  (entries_ self) |>)
       end.

Definition Seal (self : t) : Status * t :=
  if sealed_ self then (kInvalidState, self) else (kOk, self <| sealed_ := true |>).

(** ** Specification: a finite map from names to kind, access and meaning. *)
Record cell := MkCell { c_kind : Z; c_writable : bool; c_meaning : option meaning }.

Definition cell_of (entry : Entry) : cell :=
  MkCell (value_kind (e_value entry)) (e_writable entry) (denote (e_value entry)).

Definition contents (self : t) : gmap string cell := table_map e_name cell_of (entries_ self).

Lemma store_contents_lookup name self : contents self !! name = cell_of <$> Find name self.
Proof. apply table_map_lookup. Qed.

(** Every stored value is valid and fits the storage it views. *)
Definition entry_wf (entry : Entry) : Prop :=
  is_Some (denote (e_value entry)) /\ (copy_size (e_value entry) <= MaxValueSize)%nat /\
  length (e_storage entry) = MaxValueSize.

Definition wf (self : t) : Prop :=
  (length (entries_ self) <= MaxEntries)%nat /\ Forall entry_wf (entries_ self).

Definition set_status (name : string) (value : ValueView) (self : t) : Status :=
  if negb (sealed_ self) then kInvalidState
  else match contents self !! name with
       | None => kNotFound
       | Some c =>
           if negb (c_writable c) then kInvalidState
           else if negb (c_kind c =? value_kind value) then kTypeMismatch
           else match denote value with
                | None => Validate value
                | Some _ => if (MaxValueSize <? copy_size value)%nat then kCapacityExceeded else kOk
                end
       end.

Lemma CopyTo_size value storage output status storage' copy :
  CopyTo value storage output = (status, storage', copy) -> status = kOk ->
  copy_size copy = copy_size value /\ (copy_size copy <= length storage)%nat.
Proof.
  unfold CopyTo. intros H ->. split_if_in H.
  - injection H as Hv <- <-. rewrite Hv in E. done.
  - destruct value; try (injection H as <- <-; cbn; lia).
    all: split_if_in H; [done|]; injection H as <- <-; bool_hyps; cbn; lia.
Qed.

Lemma Find_wf name entry self : wf self -> Find name self = Some entry -> entry_wf entry.
Proof.
  intros [_ H] Hf%find_entry_elem. rewrite Forall_forall in H. by apply H.
Qed.

Lemma store_init_wf : wf init.
Proof. split; [cbn; lia|constructor]. Qed.

Lemma store_Register_wf name value writable self : wf self -> wf (Register name value writable self).2.
Proof.
  intros [Hl Hf]. unfold Register. repeat (split_if; [done|]). bool_hyps.
  pose proof (CopyTo_spec value (zeros MaxValueSize) VNull) as Hc. rewrite zeros_length in Hc.
  destruct (CopyTo _ _ _) as [[status storage] copy] eqn:Hcopy. destruct Hc as [Hs Hc].
  split_if; [done|]. bool_hyps. apply IsOk_spec in E3. subst status.
  pose proof (CopyTo_size _ _ _ _ _ _ Hcopy eq_refl) as [Hz Hle]. rewrite zeros_length in Hle.
  destruct (denote value) as [m|]; [|naive_solver]. split_if_in Hc; [naive_solver|].
  destruct Hc as (_ & Hm & _). split; cbn.
  - rewrite length_app. cbn. lia.
  - apply Forall_app_2; [done|]. apply Forall_singleton. split_and!; cbn; [by eexists|lia|done].
Qed.

Lemma Set_spec name value caller self :
  wf self ->
  let '(status, self') := Set_ name value caller self in
  status = set_status name value self /\ sealed_ self' = sealed_ self /\ wf self' /\
  contents self' =
    if IsOk status then
      <[name := MkCell (value_kind value) true (denote value)]> (contents self)
    else contents self.
Proof.
  intros W. unfold Set_, set_status. destruct (sealed_ self) eqn:Hs; cbn [negb]; [|done].
  rewrite store_contents_lookup.
  destruct (Find name self) as [entry|] eqn:Hfind; cbn [fmap option_fmap option_map]; [|done].
  cbn [c_writable c_kind cell_of]. destruct (e_writable entry) eqn:Hw; cbn [negb]; [|done].
  destruct (Z.eqb_spec (value_kind (e_value entry)) (value_kind value)) as [Hk|]; cbn [negb]; [|done].
  destruct (Find_wf _ _ _ W Hfind) as (Hden & Hsize & Hlen).
  pose proof (CopyTo_spec value (e_storage entry) (e_value entry)) as Hc. rewrite Hlen in Hc.
  destruct (CopyTo _ _ _) as [[status storage] copy] eqn:Hcopy. destruct Hc as [Hl Hc].
  set (f := fun e : Entry => e <| e_storage := storage |> <| e_value := copy |>).
  assert (is_Some (denote copy) /\ (copy_size copy <= MaxValueSize)%nat /\
    status = match denote value with
             | None => Validate value
             | Some _ => if (MaxValueSize <? copy_size value)%nat then kCapacityExceeded else kOk
             end /\
    MkCell (value_kind copy) true (denote copy) =
      (if IsOk status then MkCell (value_kind value) true (denote value) else cell_of entry))
    as (Hcd & Hcs & Hst & Hcell).
  { unfold cell_of. rewrite Hw. destruct (denote value) as [m|].
    - destruct (MaxValueSize <? copy_size value)%nat eqn:E; [by destruct Hc as (-> & _ & ->)|].
      destruct Hc as (-> & Hm & Hkind). pose proof (CopyTo_size _ _ _ _ _ _ Hcopy eq_refl).
      rewrite Hm, Hkind. split_and!; [by eexists|lia|done|done].
    - destruct Hc as (-> & Hne & _ & ->). apply IsOk_false in Hne. by rewrite Hne. }
  split_and!; [done|done| |].
  - destruct W as [Hn Hf]. split; cbn [entries_ set_field]; [by rewrite update_entry_length|].
    apply update_entry_Forall; [done|]. intros e He. split_and!; [exact Hcd|exact Hcs|cbn; lia].
  - unfold contents. cbn [entries_ set_field]. rewrite (table_map_update _ _ name f entry) by done.
    unfold cell_of at 1. cbn [f e_value e_writable set_field]. rewrite Hw, Hcell.
    destruct (IsOk status); [done|]. apply insert_id.
    etransitivity; [apply store_contents_lookup|by rewrite Hfind].
Qed.
End StaticParameterStore.

#[export] Instance registry : Registry t := {|
  registry_Seal := Seal;
  registry_sealed := sealed_
|}.

#[export] Instance registry_laws : RegistryLaws t.
Proof. split; cbn; intros [entries []]; by cbn. Qed.
End StaticParameterStore.

(** ** [StaticHardwareManager] *)

Module StaticHardwareManager.
Section StaticHardwareManager.
(** [D] is what a device pointer points to; [None] is the null pointer. *)
Context {D : Type}.
Variable MaxDevices : nat.

Record Device := MkDevice {
  d_name : string;
  d_type : string;
  d_device : D
}.

Record t := Mk {
  devices_ : list Device;
  sealed_ : bool
}.
#[global] Instance eta_t : Eta t := fun r => Mk (devices_ r) (sealed_ r).

Definition init : t := Mk [] false.

Definition Register (name type : string) (device : option D) (self : t) : Status * t :=
  if sealed_ self then (kInvalidState, self)
  else
    match device with
    | None => (kInvalidArgument, self)
    | Some device =>
        if bool_decide (name = ""%string) || bool_decide (type = ""%string)
        then (kInvalidArgument, self)
        else if bool_decide (is_Some (find_entry d_name name (devices_ self)))
        then (kAlreadyExists, self)
        else if (length (devices_ self) =? MaxDevices)%nat then (kCapacityExceeded, self)
        else (kOk, self <| devices_ := devices_ self ++ [MkDevice name type device] |>)
    end.

Definition Seal (self : t) : Status * t :=
  if sealed_ self then (kInvalidState, self) else (kOk, self <| sealed_ := true |>).

(** The status and the device pointer, null unless found. *)
Definition Resolve (name type : string) (self : t) : Status * option D :=
  match find_entry d_name name (devices_ self) with
  | None => (kNotFound, None)
  | Some device =>
      if negb (bool_decide (d_type device = type)) then (kTypeMismatch, None)
      else (kOk, Some (d_device device))
  end.

Definition contents (self : t) : gmap string (string * D) :=
  table_map d_name (fun device => (d_type device, d_device device)) (devices_ self).

Lemma hardware_contents_lookup name self :
  contents self !! name =
    (fun device => (d_type device, d_device device)) <$> find_entry d_name name (devices_ self).
Proof. apply table_map_lookup. Qed.
End StaticHardwareManager.
Arguments t : clear implicits.

#[export] Instance registry D : Registry (t D) := {|
  registry_Seal := Seal;
  registry_sealed := sealed_
|}.

#[export] Instance registry_laws D : RegistryLaws (t D).
Proof. split; cbn; intros [devices []]; by cbn. Qed.

(** The device table is a typed finite map: a registration is accepted
    exactly for a non-null device with a fresh name and a type, while the table
    is open and has room, and then adds exactly that entry; resolving returns
    the registered pointer under the registered type, and null with
    [kTypeMismatch] or [kNotFound] otherwise. *)
Theorem hardware_refines_map {D} MaxDevices name type (device : option D) (self : t D) :
  (let '(status, self') := Register MaxDevices name type device self in
   (status = kOk <-> sealed_ self = false /\ name <> ""%string /\ type <> ""%string /\
      device <> None /\ contents self !! name = None /\ length (devices_ self) <> MaxDevices) /\
   match device with
   | Some d => status = kOk -> contents self' = <[name := (type, d)]> (contents self)
   | None => True
   end /\
   (status <> kOk -> self' = self)) /\
  Resolve name type self =
    match contents self !! name with
    | None => (kNotFound, None)
    | Some (t, d) => if bool_decide (t = type) then (kOk, Some d) else (kTypeMismatch, None)
    end.
Proof.
  rewrite hardware_contents_lookup. split.
  - unfold Register. destruct (sealed_ self) eqn:Hs; [split_and!; [naive_solver|by destruct device|done]|].
    destruct device as [d|]; [|split_and!; naive_solver].
    destruct (bool_decide_reflect (name = ""%string)) as [->|Hn]; cbn [orb]; [split_and!; naive_solver|].
    destruct (bool_decide_reflect (type = ""%string)) as [->|Ht]; [split_and!; naive_solver|].
    destruct (find_entry d_name name (devices_ self)) as [e|] eqn:Hfind;
      [rewrite bool_decide_eq_true_2 by done; split_and!; naive_solver|].
    rewrite bool_decide_eq_false_2 by by intros [? ?].
    destruct (Nat.eqb_spec (length (devices_ self)) MaxDevices); [split_and!; naive_solver|].
    split_and!; [naive_solver| |done]. intros _. unfold contents. cbn [devices_ set_field].
    by rewrite table_map_snoc.
  - unfold Resolve. destruct (find_entry d_name name (devices_ self)) as [e|]; [|done]. cbn.
    by destruct (bool_decide _).
Qed.
End StaticHardwareManager.

(** ** Properties *)

(** The configurator is a write-once finite map: [Put] answers by the
    contents alone (sealed, empty or known key, full table, invalid or oversized
    value) and, when it accepts, adds exactly that key with the meaning of the
    value; reads are refused until the registry is sealed and afterwards return a
    value that means what was put, or [kNotFound]; sealing happens once and
    freezes the contents. *)
Theorem configurator_refines_map MaxEntries MaxValueSize key value output
    (self : StaticConfigurator.t) :
  (let '(status, self') := StaticConfigurator.Put MaxEntries MaxValueSize key value self in
   status = StaticConfigurator.put_status MaxEntries MaxValueSize key value self /\
   StaticConfigurator.contents self' =
     if IsOk status then <[key := denote value]> (StaticConfigurator.contents self)
     else StaticConfigurator.contents self) /\
  (StaticConfigurator.sealed_ self = false ->
     StaticConfigurator.Get key output self = (kInvalidState, output)) /\
  (StaticConfigurator.sealed_ self = true ->
     StaticConfigurator.Put MaxEntries MaxValueSize key value self = (kInvalidState, self) /\
     StaticConfigurator.Seal self = (kInvalidState, self) /\
     let '(status, result) := StaticConfigurator.Get key output self in
     match StaticConfigurator.contents self !! key with
     | None => status = kNotFound /\ result = output
     | Some m => status = kOk /\ denote result = m
     end).
Proof.
  split_and!.
  - pose proof (StaticConfigurator.Put_spec MaxEntries MaxValueSize key value self) as H.
    destruct (StaticConfigurator.Put _ _ _ _ _). naive_solver.
  - intros Hs. unfold StaticConfigurator.Get. by rewrite Hs.
  - intros Hs. unfold StaticConfigurator.Put, StaticConfigurator.Seal, StaticConfigurator.Get.
    rewrite Hs, StaticConfigurator.configurator_contents_lookup. split_and!; [done|done|]. cbn [negb].
    by destruct (find_entry _ _ _).
Qed.

(** Parameters keep their type: in a well-formed store [Set] answers by the
    contents alone, changes at most the named parameter, only if it is
    registered as writable, only to a valid value of the same kind that fits,
    and leaves the store as it was on every error; no parameter ever appears,
    disappears, or changes kind or access; [Get] copies out a value that means
    the stored one, or reports what is missing, and every operation keeps the
    store well formed. *)
Theorem parameters_refine_map MaxEntries MaxValueSize name value caller storage output
    (self : StaticParameterStore.t) :
  StaticParameterStore.wf MaxEntries MaxValueSize self ->
  (let '(status, self') := StaticParameterStore.Set_ name value caller self in
   StaticParameterStore.wf MaxEntries MaxValueSize self' /\
   status = StaticParameterStore.set_status MaxValueSize name value self /\
   StaticParameterStore.contents self' =
     (if IsOk status then
        <[name := StaticParameterStore.MkCell (value_kind value) true (denote value)]>
          (StaticParameterStore.contents self)
      else StaticParameterStore.contents self) /\
   (forall other, StaticParameterStore.c_kind <$> StaticParameterStore.contents self' !! other =
                  StaticParameterStore.c_kind <$> StaticParameterStore.contents self !! other)) /\
  (let '(status, storage', result) := StaticParameterStore.Get name storage output self in
   length storage' = length storage /\
   if negb (StaticParameterStore.sealed_ self) then status = kInvalidState /\ result = output
   else match StaticParameterStore.contents self !! name with
        | None => status = kNotFound /\ result = output
        | Some c =>
            (status = kOk /\ denote result = StaticParameterStore.c_meaning c /\
             value_kind result = StaticParameterStore.c_kind c) \/
            (status = kCapacityExceeded /\ result = output)
        end) /\
  (forall writable, StaticParameterStore.wf MaxEntries MaxValueSize
     (StaticParameterStore.Register MaxEntries MaxValueSize name value writable self).2).
Proof.
  intros W. split_and!.
  - pose proof (StaticParameterStore.Set_spec MaxEntries MaxValueSize name value caller self W) as H.
    destruct (StaticParameterStore.Set_ _ _ _ _) as [status self']. destruct H as (Hst & _ & W' & Hc).
    split_and!; [done|done|done|]. intros other. rewrite Hc. destruct (IsOk status) eqn:Hok; [|done].
    destruct (decide (name = other)) as [<-|Hne]; [|by rewrite lookup_insert_ne].
    rewrite lookup_insert_eq. apply IsOk_spec in Hok. subst status. unfold StaticParameterStore.set_status in Hok.
    destruct (negb _); [done|].
    destruct (StaticParameterStore.contents self !! name) as [c|]; [|done]. cbn.
    destruct (negb (StaticParameterStore.c_writable c)); [done|].
    destruct (Z.eqb_spec (StaticParameterStore.c_kind c) (value_kind value)); [by f_equal|done].
  - unfold StaticParameterStore.Get. destruct (StaticParameterStore.sealed_ self); cbn [negb]; [|done].
    rewrite StaticParameterStore.store_contents_lookup.
    destruct (StaticParameterStore.Find name self) as [entry|] eqn:Hfind; cbn; [|done].
    destruct (StaticParameterStore.Find_wf _ _ _ _ _ W Hfind) as ([m Hm] & _ & _).
    pose proof (CopyTo_spec (StaticParameterStore.e_value entry) storage output) as Hc.
    destruct (CopyTo _ _ _) as [[status storage'] copy]. rewrite Hm in Hc. destruct Hc as [Hl Hc].
    split; [done|]. rewrite Hm. split_if_in Hc; naive_solver.
  - intros writable. by apply StaticParameterStore.store_Register_wf.
Qed.

Definition witness_store : StaticParameterStore.t :=
  (StaticParameterStore.Seal
    (StaticParameterStore.Register 2 4 "gain" (VInt64 5) true StaticParameterStore.init).2).2.

Lemma parameters_refine_map_witness :
  StaticParameterStore.wf 2 4
    (StaticParameterStore.Set_ "gain" (VInt64 7) (MkExecutionContext "io" kThread 0) witness_store).2.
Proof.
  pose proof (parameters_refine_map 2 4 "gain" (VInt64 7) (MkExecutionContext "io" kThread 0) [] VNull
    witness_store) as H.
  destruct (StaticParameterStore.Set_ _ _ _ _) as [status self'] eqn:E.
  refine (proj1 (proj1 (H _))).
  split; [vm_compute; lia|]. apply Forall_singleton. split_and!; [by eexists|vm_compute; lia|done].
Defined.
