(* ===== verification/NameResolver.v ===== *)
(** Names of channels and services ([aster_runtime/name_resolver.hpp]): validity,
    expansion in a namespace and remapping. Character sequences are lists. *)

From Stdlib Require Export Ascii.
From S2P Require Export Status.

Local Open Scope Z_scope.
Local Open Scope char_scope.

Abbreviation chars := (list ascii).

Record NameRemap := MkRemap {
  from : chars;
  to : chars
}.

Module NameResolver.

(** The namespace is never empty: the constructor replaces the empty one. *)
Record t := Mk {
  namespace_ : chars;
  remaps_ : list NameRemap
}.

Definition make (name_space : chars) (remaps : list NameRemap) : t :=
  Mk (match name_space with [] => ["/"] | _ => name_space end) remaps.

(** ** [ValidName] *)

(** [std::string_view::find('/')]: [None] is [npos]. *)
Fixpoint find_slash (name : chars) : option nat :=
  match name with
  | [] => None
  | c :: name => if bool_decide (c = "/") then Some 0%nat else S <$> find_slash name
  end.

Definition char_between (low high c : ascii) : bool :=
  (nat_of_ascii low <=? nat_of_ascii c)%nat && (nat_of_ascii c <=? nat_of_ascii high)%nat.

Definition valid_char (c : ascii) : bool :=
  char_between "a" "z" c || char_between "A" "Z" c || char_between "0" "9" c ||
  bool_decide (c = "_") || bool_decide (c = "-") || bool_decide (c = ".").

Definition valid_part (part : chars) : bool :=
  negb (bool_decide (part = [])) && negb (bool_decide (part = ["."])) &&
  negb (bool_decide (part = ["."; "."])) && forallb valid_char part.

(** The loop; each round removes at least one character. *)
Fixpoint ValidName_loop (fuel : nat) (name : chars) : bool :=
  match fuel with
  | O => false
  | S fuel =>
      match name with
      | [] => true
      | _ =>
          let end_ := find_slash name in
          let part := match end_ with Some n => take n name | None => name end in
          if negb (valid_part part) then false
          else match end_ with
               | None => true
               | Some n => ValidName_loop fuel (drop (S n) name)
               end
      end
  end.

Definition front_is_slash (name : chars) : bool := bool_decide (head name = Some "/").

Definition ValidName (name : chars) : bool :=
  if bool_decide (name = []) || bool_decide (last name = Some "/") then false
  else
    let name := if front_is_slash name then drop 1 name else name in
    ValidName_loop (S (length name)) name.

(** ** [Validate] and [Resolve] *)

Fixpoint Validate_remaps (seen remaps : list NameRemap) : Status :=
  match remaps with
  | [] => kOk
  | rule :: remaps =>
      if negb (ValidName (from rule)) || negb (ValidName (to rule)) ||
         negb (front_is_slash (from rule)) || negb (front_is_slash (to rule))
      then kInvalidArgument
      else if existsb (fun earlier => bool_decide (from earlier = from rule)) seen
      then kAlreadyExists
      else Validate_remaps (seen ++ [rule]) remaps
  end.

Definition Validate (self : t) : Status :=
  if negb (bool_decide (namespace_ self = ["/"])) &&
     (negb (ValidName (namespace_ self)) || negb (front_is_slash (namespace_ self)))
  then kInvalidArgument
  else Validate_remaps [] (remaps_ self).

(** [std::copy] of characters into the storage. *)
Definition store (off : nat) (src storage : chars) : chars := list_inserts off src storage.

Fixpoint find_remap (expanded : chars) (remaps : list NameRemap) : option NameRemap :=
  match remaps with
  | [] => None
  | rule :: remaps =>
      if bool_decide (expanded = from rule) then Some rule else find_remap expanded remaps
  end.

(** Status, storage and output; the output views the storage. *)
Definition Resolve (name storage output : chars) (self : t) : Status * chars * chars :=
  let status := Validate self in
  if negb (IsOk status) then (status, storage, output)
  else if negb (ValidName name) then (kInvalidArgument, storage, output)
  else
    let prefix := if front_is_slash name then [] else namespace_ self in
    let separator :=
      negb (bool_decide (prefix = [])) && negb (bool_decide (last prefix = Some "/")) in
    let separator_size := if separator then 1%nat else 0%nat in
    if (length storage <? length prefix)%nat ||
       (length storage - length prefix <? separator_size)%nat ||
       (length storage - length prefix - separator_size <? length name)%nat
    then (kCapacityExceeded, storage, output)
    else
      let storage := store 0 prefix storage in
      let storage := if separator then <[length prefix := "/"]> storage else storage in
      let storage := store (length prefix + separator_size) name storage in
      let expanded := take (length prefix + separator_size + length name) storage in
      match find_remap expanded (remaps_ self) with
      | Some rule =>
          if (length storage <? length (to rule))%nat then (kCapacityExceeded, storage, output)
          else
            let storage := store 0 (to rule) storage in
            (kOk, storage, take (length (to rule)) storage)
      | None => (kOk, storage, expanded)
      end.

(** ** Specification: the grammar of names and the meaning of resolution. *)
Fixpoint join (parts : list chars) : chars :=
  match parts with
  | [] => []
  | [part] => part
  | part :: parts => part ++ "/" :: join parts
  end.

Definition is_name (absolute : bool) (name : chars) : Prop :=
  exists parts, parts <> [] /\ Forall (fun part => valid_part part = true) parts /\
    name = (if absolute then ["/"] else []) ++ join parts.

Definition expand (self : t) (name : chars) : chars :=
  if front_is_slash name then name
  else if bool_decide (namespace_ self = ["/"]) then "/" :: name
  else namespace_ self ++ "/" :: name.

Definition remap (self : t) (name : chars) : chars :=
  match find_remap name (remaps_ self) with Some rule => to rule | None => name end.

(** ** Lemmas: the grammar *)

Lemma valid_char_not_slash c : valid_char c = true -> c <> "/".
Proof. by intros H ->. Qed.

Lemma valid_part_nonempty part : valid_part part = true -> part <> [].
Proof. unfold valid_part. intros H ->. discriminate. Qed.

Lemma valid_part_chars part c : valid_part part = true -> c ∈ part -> c <> "/".
Proof.
  unfold valid_part. intros H Hc. bool_hyps. apply valid_char_not_slash.
  eapply forallb_forall; [eassumption|by apply list_elem_of_In].
Qed.

Lemma find_slash_none name : (forall c, c ∈ name -> c <> "/") -> find_slash name = None.
Proof.
  induction name as [|c name IH]; intros H; [done|]. cbn.
  rewrite bool_decide_eq_false_2 by (apply H; by left). rewrite IH; [done|]. intros d Hd. apply H. by right.
Qed.

Lemma find_slash_app part rest :
  (forall c, c ∈ part -> c <> "/") -> find_slash (part ++ "/" :: rest) = Some (length part).
Proof.
  induction part as [|c part IH]; intros H; [done|]. cbn.
  rewrite bool_decide_eq_false_2 by (apply H; by left).
  cbn in IH. rewrite IH; [done|]. intros d Hd. apply H. by right.
Qed.

Lemma find_slash_split name n :
  find_slash name = Some n -> name = take n name ++ "/" :: drop (S n) name.
Proof.
  revert n. induction name as [|c name IH]; intros n; [done|]. cbn.
  destruct (bool_decide_reflect (c = "/")) as [->|]; [by intros [=<-]|].
  destruct (find_slash name) as [m|]; [|done]. intros [=<-]. cbn. by rewrite <- (IH m).
Qed.

Lemma join_cons part parts :
  parts <> [] -> join (part :: parts) = part ++ "/" :: join parts.
Proof. by destruct parts. Qed.

Lemma join_app parts parts' :
  parts <> [] -> parts' <> [] -> join (parts ++ parts') = join parts ++ "/" :: join parts'.
Proof.
  intros Hp Hp'. induction parts as [|part parts IH]; [done|]. destruct parts as [|next parts].
  - by apply join_cons.
  - change ((part :: next :: parts) ++ parts') with (part :: ((next :: parts) ++ parts')).
    rewrite join_cons, IH, (join_cons part) by done. by rewrite <- app_assoc.
Qed.

Lemma join_nonempty parts :
  parts <> [] -> Forall (fun part => valid_part part = true) parts -> join parts <> [].
Proof.
  intros Hp Hv. destruct Hv as [|part parts H _]; [done|]. apply valid_part_nonempty in H.
  destruct part; [done|]. by destruct parts.
Qed.

(** The first and the last character of a name's text belong to parts. *)
Lemma join_head parts :
  parts <> [] -> Forall (fun part => valid_part part = true) parts -> head (join parts) <> Some "/".
Proof.
  intros Hp Hv. destruct Hv as [|part parts H _]; [done|].
  destruct part as [|c part]; [by apply valid_part_nonempty in H|].
  assert (c <> "/") by (eapply valid_part_chars; [exact H|by left]).
  destruct parts; cbn; congruence.
Qed.

Lemma last_part part : valid_part part = true -> last part <> Some "/".
Proof.
  intros H Hl. apply last_Some in Hl as [l Hl]. eapply valid_part_chars; [exact H| |reflexivity].
  rewrite Hl. apply elem_of_app. right. by left.
Qed.

Lemma join_last parts :
  parts <> [] -> Forall (fun part => valid_part part = true) parts -> last (join parts) <> Some "/".
Proof.
  intros Hp Hv. induction Hv as [|part parts H Hv IH]; [done|].
  destruct parts as [|next parts]; [by apply last_part|]. rewrite join_cons by done.
  rewrite last_app_cons, last_cons. pose proof (IH ltac:(done)) as Hl.
  destruct (last (join (next :: parts))) eqn:E; [done|].
  apply last_None in E. by apply join_nonempty in E.
Qed.

(** The loop accepts exactly the joined parts; the fuel is enough for any name. *)
Lemma ValidName_loop_spec fuel name :
  (length name < fuel)%nat -> last name <> Some "/" -> name <> [] ->
  ValidName_loop fuel name = true <->
    exists parts, parts <> [] /\ Forall (fun part => valid_part part = true) parts /\ name = join parts.
Proof.
  revert name. induction fuel as [|fuel IH]; intros name Hf Hlast Hne; [lia|]. cbn [ValidName_loop].
  destruct name as [|c name]; [done|]. set (full := c :: name) in *.
  destruct (find_slash full) as [n|] eqn:Hs.
  - pose proof (find_slash_split _ _ Hs) as Hsplit.
    assert (drop (S n) full <> []) as Hrest.
    { intros Hd. rewrite Hsplit, Hd, last_snoc in Hlast. done. }
    assert (length (drop (S n) full) < fuel)%nat by (rewrite length_drop; cbn in *; lia).
    assert (last (drop (S n) full) <> Some "/") as Hlast'.
    { rewrite Hsplit, last_app_cons, last_cons in Hlast. by destruct (last (drop (S n) full)). }
    destruct (valid_part (take n full)) eqn:Hpart; cbn [negb].
    + rewrite (IH (drop (S n) full)) by done. split.
      * intros (parts & Hp & Hv & Heq). exists (take n full :: parts). split_and!; [done|by constructor|].
        by rewrite join_cons, <- Heq, <- Hsplit.
      * intros (parts & Hp & Hv & Heq). destruct Hv as [|part parts H0 Hv]; [done|].
        destruct parts as [|next parts].
        { cbn in Heq. rewrite Heq, find_slash_none in Hs; [done|]. intros d. by apply valid_part_chars. }
        rewrite join_cons in Heq by done. rewrite Heq, find_slash_app in Hs by (intros d; by apply valid_part_chars).
        injection Hs as <-. exists (next :: parts). split_and!; [done|done|].
        rewrite Heq, drop_app_ge by lia. by replace (S (length part) - length part)%nat with 1%nat by lia.
    + split; [done|]. intros (parts & Hp & Hv & Heq). destruct Hv as [|part parts H0 Hv]; [done|].
      destruct parts as [|next parts].
      { cbn in Heq. rewrite Heq, find_slash_none in Hs; [done|]. intros d. by apply valid_part_chars. }
      rewrite join_cons in Heq by done. rewrite Heq, find_slash_app in Hs by (intros d; by apply valid_part_chars).
      injection Hs as <-. rewrite Heq, take_app_length in Hpart. congruence.
  - destruct (valid_part full) eqn:Hpart; cbn [negb]; split; try done.
    + intros _. exists [full]. split_and!; [done|by constructor|done].
    + intros (parts & Hp & Hv & Heq). destruct Hv as [|part parts H0 Hv]; [done|].
      destruct parts as [|next parts]; [cbn in Heq; congruence|].
      rewrite join_cons in Heq by done. rewrite Heq, find_slash_app in Hs; [done|].
      intros d. by apply valid_part_chars.
Qed.

Lemma ValidName_spec name : ValidName name = true <-> is_name (front_is_slash name) name.
Proof.
  unfold ValidName, is_name, front_is_slash. destruct name as [|c name].
  { split; [done|]. intros (parts & Hp & Hv & Heq). by apply eq_sym, join_nonempty in Heq. }
  rewrite bool_decide_eq_false_2 by done. cbn [orb head drop].
  destruct (bool_decide_reflect (last (c :: name) = Some "/")) as [Hl|Hl].
  { split; [done|]. intros (parts & Hp & Hv & Heq). exfalso. rewrite Heq in Hl.
    pose proof (join_last parts Hp Hv) as Hlast. pose proof (join_nonempty parts Hp Hv) as Hne.
    destruct (bool_decide _); cbn [app] in Hl; [|done]. rewrite last_cons in Hl.
    destruct (last (join parts)) eqn:E; [done|]. by apply last_None in E. }
  destruct (bool_decide_reflect (Some c = Some "/")) as [[=->]|Hc].
  - cbn [app]. rewrite last_cons in Hl. destruct (last name) as [d|] eqn:E; [|done].
    rewrite drop_0, ValidName_loop_spec by (rewrite ?E; first [done | lia | by intros ->]). naive_solver.
  - rewrite ValidName_loop_spec by (done || cbn; lia). naive_solver.
Qed.

Lemma is_name_valid absolute name : is_name absolute name -> ValidName name = true /\ front_is_slash name = absolute.
Proof.
  intros (parts & Hp & Hv & ->). assert (front_is_slash ((if absolute then ["/"] else []) ++ join parts) = absolute) as Hf.
  { unfold front_is_slash. destruct absolute; [by apply bool_decide_eq_true|].
    apply bool_decide_eq_false. by apply join_head. }
  split; [|done]. apply ValidName_spec. rewrite Hf. by exists parts.
Qed.

(** ** Lemmas: resolution *)

Lemma Validate_namespace self :
  Validate self = kOk -> namespace_ self = ["/"] \/ is_name true (namespace_ self).
Proof.
  unfold Validate. destruct (bool_decide_reflect (namespace_ self = ["/"])); [by left|]. cbn [negb andb].
  destruct (negb _ || negb _)%bool eqn:E; [done|]. bool_hyps. intros _. right.
  apply ValidName_spec in H. by rewrite H0 in H.
Qed.

Lemma Validate_remaps_spec seen remaps :
  Validate_remaps seen remaps = kOk ->
  Forall (fun rule => is_name true (from rule) /\ is_name true (to rule)) remaps /\
  NoDup (from <$> remaps) /\ (forall rule earlier, rule ∈ remaps -> earlier ∈ seen -> from earlier <> from rule).
Proof.
  revert seen. induction remaps as [|rule remaps IH]; intros seen; cbn [Validate_remaps].
  { intros _. split_and!; [constructor|constructor|]. by intros rule earlier H%not_elem_of_nil. }
  destruct (negb (ValidName (from rule)) || _ || _ || _)%bool eqn:E; [done|]. bool_hyps.
  destruct (existsb _ seen) eqn:Hseen; [done|]. intros (Hf & Hn & Hs)%IH.
  repeat match goal with
  | H : ValidName _ = true |- _ => apply ValidName_spec in H
  | H : front_is_slash ?x = true, H' : is_name (front_is_slash ?x) _ |- _ => rewrite H in H'
  end.
  split_and!; [by constructor| |].
  - rewrite fmap_cons. constructor; [|done]. intros (other & Heq & Hin)%list_elem_of_fmap.
    apply (Hs other rule Hin); [apply elem_of_app; right; by left|done].
  - intros other earlier [->|Hin]%elem_of_cons He; [|apply Hs; [done|apply elem_of_app; by left]].
    intros Heq. enough (existsb (fun earlier => bool_decide (from earlier = from rule)) seen = true) by congruence.
    apply existsb_exists. exists earlier. split; [by apply list_elem_of_In|by apply bool_decide_eq_true].
Qed.

Lemma Validate_remaps_ok self :
  Validate self = kOk ->
  Forall (fun rule => is_name true (from rule) /\ is_name true (to rule)) (remaps_ self) /\
  NoDup (from <$> remaps_ self).
Proof.
  unfold Validate. split_if; [done|]. intros (? & ? & _)%Validate_remaps_spec. done.
Qed.

Lemma find_remap_elem name remaps rule :
  find_remap name remaps = Some rule -> rule ∈ remaps /\ from rule = name.
Proof.
  induction remaps as [|first remaps IH]; [done|]. cbn.
  destruct (bool_decide_reflect (name = from first)) as [->|].
  - intros [=->]. split; [by left|done].
  - intros [? ?]%IH. split; [by right|done].
Qed.

(** An expanded name is absolute. *)
Lemma expand_absolute self name :
  Validate self = kOk -> ValidName name = true -> is_name true (expand self name).
Proof.
  intros Hv%Validate_namespace Hn%ValidName_spec. unfold expand.
  destruct (front_is_slash name); [done|]. destruct Hn as (parts & Hp & Hparts & ->). cbn [app].
  destruct (bool_decide_reflect (namespace_ self = ["/"])) as [|Hne]; [by exists parts|].
  destruct Hv as [|(ns & Hns & Hnsv & ->)]; [done|]. exists (ns ++ parts). split_and!.
  - by destruct ns.
  - by apply Forall_app_2.
  - rewrite join_app by done. by rewrite <- app_assoc.
Qed.

Lemma remap_absolute self name :
  Validate self = kOk -> is_name true name -> is_name true (remap self name).
Proof.
  intros [Hr _]%Validate_remaps_ok Hn. unfold remap. destruct (find_remap _ _) as [rule|] eqn:E; [|done].
  apply find_remap_elem in E as [Hin _]. rewrite Forall_forall in Hr. by apply Hr.
Qed.

Lemma store_length off src storage : length (store off src storage) = length storage.
Proof. apply length_inserts. Qed.

Lemma store_front (front src rest : chars) off :
  off = length front -> (length src <= length rest)%nat ->
  store off src (front ++ rest) = (front ++ src) ++ drop (length src) rest.
Proof.
  intros -> H. unfold store. rewrite <- (Nat.add_0_r (length front)), list_inserts_app_r, <- app_assoc.
  f_equal. rewrite <- (take_drop (length src) rest) at 1. apply list_inserts_0_r.
  rewrite length_take. lia.
Qed.

Lemma store_0 (src storage : chars) :
  (length src <= length storage)%nat -> store 0 src storage = src ++ drop (length src) storage.
Proof. intros. by apply (store_front []). Qed.

(** Status and output of [Resolve], in terms of the specification. *)
Lemma Resolve_spec name storage output self :
  Validate self = kOk -> ValidName name = true ->
  let '(status, storage', result) := Resolve name storage output self in
  length storage' = length storage /\
  if (length storage <? length (expand self name))%nat || (length storage <? length (remap self (expand self name)))%nat
  then status = kCapacityExceeded /\ result = output
  else status = kOk /\ result = remap self (expand self name).
Proof.
  intros Hv Hn. unfold Resolve. rewrite Hv, Hn. cbn [IsOk negb].
  set (prefix := if front_is_slash name then [] else namespace_ self).
  set (separator := (negb (bool_decide (prefix = [])) && negb (bool_decide (last prefix = Some "/")))%bool).
  assert (expand self name = prefix ++ (if separator then ["/"] else []) ++ name) as Hexp.
  { unfold expand, separator, prefix. destruct (front_is_slash name); [done|].
    destruct (bool_decide_reflect (namespace_ self = ["/"])) as [->|Hne]; [done|].
    destruct (Validate_namespace self Hv) as [|(parts & Hp & Hparts & Heq)]; [done|].
    rewrite Heq. rewrite !bool_decide_eq_false_2; [done| |done].
    cbn [app]. rewrite last_cons. pose proof (join_last parts Hp Hparts).
    pose proof (join_nonempty parts Hp Hparts) as Hj. destruct (last (join parts)) eqn:E; [done|].
    by apply last_None in E. }
  clearbody prefix. clearbody separator.
  assert (length (expand self name) = length prefix + (if separator then 1 else 0) + length name)%nat as Hlen
    by (rewrite Hexp, !length_app; destruct separator; cbn; lia).
  destruct (Nat.ltb_spec (length storage) (length (expand self name))) as [Hsmall|Hroom]; cbn [orb].
  - assert (((length storage <? length prefix)%nat || (length storage - length prefix <? (if separator then 1 else 0))%nat
      || (length storage - length prefix - (if separator then 1 else 0) <? length name)%nat)%bool = true) as ->; [|done].
    rewrite !orb_true_iff, !Nat.ltb_lt. lia.
  - guard_false ((length storage <? length prefix)%nat || (length storage - length prefix <? (if separator then 1 else 0))%nat
      || (length storage - length prefix - (if separator then 1 else 0) <? length name)%nat)%bool.
    set (expanded := expand self name) in *.
    assert (store (length prefix + (if separator then 1 else 0)) name
      (if separator then <[length prefix := "/"]> (store 0 prefix storage) else store 0 prefix storage) =
      expanded ++ drop (length expanded) storage) as ->.
    { rewrite (store_0 prefix), Hlen by lia.
      destruct separator.
      - destruct (drop (length prefix) storage) as [|c rest] eqn:Hd.
        { apply (f_equal length) in Hd. rewrite length_drop in Hd. cbn in Hd. lia. }
        assert (length rest = length storage - length prefix - 1)%nat.
        { apply (f_equal length) in Hd. rewrite length_drop in Hd. cbn in Hd. lia. }
        rewrite insert_app_r_alt, Nat.sub_diag by lia. cbn [list_insert insert].
        change (prefix ++ "/" :: rest) with (prefix ++ ["/"] ++ rest). rewrite app_assoc.
        rewrite store_front by (rewrite ?length_app; cbn; lia).
        rewrite Hexp, <- !app_assoc. do 3 f_equal. replace rest with (drop 1 (c :: rest)) by done.
        rewrite <- Hd, !drop_drop. f_equal. lia.
      - rewrite store_front by (rewrite ?length_drop; lia). rewrite Hexp. cbn [app]. f_equal.
        rewrite drop_drop. f_equal. lia. }
    rewrite <- Hlen, take_app_length. unfold remap. destruct (find_remap expanded (remaps_ self)) as [rule|].
    + rewrite length_app, length_drop. replace (length expanded + (length storage - length expanded))%nat
        with (length storage) by lia.
      destruct (Nat.ltb_spec (length storage) (length (to rule))); [split; [rewrite length_app, length_drop; lia|done]|].
      split; [rewrite store_length, length_app, length_drop; lia|]. split; [done|].
      rewrite store_0 by (rewrite length_app, length_drop; lia). apply take_app_length.
    + guard_false (length storage <? length expanded)%nat.
      split; [rewrite length_app, length_drop; lia|done].
Qed.

(** ** Properties *)

(** Name resolution is total and closed: a valid name expands in the
    namespace and is remapped exactly once by the one rule that matches; the
    result is again a valid absolute name; it needs exactly the room of the
    expanded and the remapped text, is refused with [kCapacityExceeded]
    otherwise and writes only inside the storage; [ValidName] accepts exactly
    the texts made of non-empty parts of letters, digits, '_', '-' and '.',
    none of them "." or "..", separated by single slashes. *)
Theorem name_resolution self name storage output :
  (ValidName name = true <-> is_name (front_is_slash name) name) /\
  let '(status, storage', result) := Resolve name storage output self in
  length storage' = length storage /\
  match Validate self with
  | kOk =>
      if ValidName name then
        is_name true (remap self (expand self name)) /\
        (forall rule, rule ∈ remaps_ self -> from rule = expand self name ->
           remap self (expand self name) = to rule) /\
        if (length storage <? length (expand self name))%nat ||
           (length storage <? length (remap self (expand self name)))%nat
        then status = kCapacityExceeded /\ result = output
        else status = kOk /\ result = remap self (expand self name)
      else status = kInvalidArgument /\ result = output
  | invalid => status = invalid /\ result = output /\ storage' = storage
  end.
Proof.
  split; [apply ValidName_spec|].
  destruct (decide (Validate self = kOk)) as [Hv|Hv].
  - destruct (ValidName name) eqn:Hn.
    + pose proof (Resolve_spec name storage output self Hv Hn) as H.
      destruct (Resolve _ _ _ _) as [[status storage'] result]. destruct H as [Hl H]. split; [done|].
      rewrite Hv. pose proof (expand_absolute self name Hv Hn) as He.
      split_and!; [by apply remap_absolute| |done].
      intros rule Hin Hfrom. destruct (Validate_remaps_ok self Hv) as [_ Hnd]. unfold remap. rewrite <- Hfrom.
      clear -Hin Hnd. induction (remaps_ self) as [|first remaps IH]; [by apply not_elem_of_nil in Hin|].
      rewrite fmap_cons in Hnd. apply NoDup_cons in Hnd as [Hf Hnd]. cbn.
      apply elem_of_cons in Hin as [->|Hin]; [by rewrite bool_decide_eq_true_2|].
      rewrite bool_decide_eq_false_2; [by apply IH|].
      intros Heq. apply Hf. rewrite <- Heq. apply list_elem_of_fmap. by exists rule.
    + unfold Resolve. rewrite Hv, Hn. done.
  - unfold Resolve. pose proof Hv as Hne. apply IsOk_false in Hne. rewrite Hne. cbn [negb].
    split; [done|]. destruct (Validate self); done.
Qed.
End NameResolver.
