(* ===== verification/PeerRegistry.v ===== *)
(** Peer hellos and the registry of expected peers
    ([transport/peer_registry.hpp]). *)

From S2P Require Export TypeSupport Registry.

Local Open Scope Z_scope.

Definition kPeerProtocolVersion : Z := 1.

(** [std::array<std::byte, 32>], compared by value. *)
Record DeploymentId := MkDeploymentId { deployment_bytes : list Z }.

#[export] Instance DeploymentId_eq_dec : EqDecision DeploymentId.
Proof. solve_decision. Defined.

Record PeerHello := MkPeerHello {
  protocol_version : Z;
  node_id : Z;
  deployment_id : DeploymentId;
  hello_schema_hash : SchemaHash
}.

Definition kPeerHelloEncodedSize : nat := 52.

(** The output is a span of exactly [kPeerHelloEncodedSize] bytes. *)
Definition EncodePeerHello (hello : PeerHello) (output : list Z) : Status * list Z :=
  if (protocol_version hello =? 0) || (node_id hello =? 0) then (kInvalidArgument, output)
  else
    let output := <[0%nat := u8 (Z.land (protocol_version hello) 0xff)]> output in
    let output := <[1%nat := u8 (Z.shiftr (protocol_version hello) 8)]> output in
    let output := <[2%nat := u8 (Z.land (node_id hello) 0xff)]> output in
    let output := <[3%nat := u8 (Z.shiftr (node_id hello) 8)]> output in
    let output := copy_into 4 (deployment_bytes (deployment_id hello)) output in
    (kOk, copy_into 36 (hash_bytes (hello_schema_hash hello)) output).

Definition DecodePeerHello (input : list Z) (hello : PeerHello) : Status * PeerHello :=
  if negb (length input =? kPeerHelloEncodedSize)%nat then (kInvalidArgument, hello)
  else
    let hello :=
      MkPeerHello (u16 (Z.lor (byte_at input 0) (Z.shiftl (byte_at input 1) 8)))
        (u16 (Z.lor (byte_at input 2) (Z.shiftl (byte_at input 3) 8)))
        (MkDeploymentId (subspan 4 32 input)) (MkSchemaHash (drop 36 input)) in
    (if (protocol_version hello =? 0) || (node_id hello =? 0) then kInvalidArgument else kOk, hello).

Record hello_wf (hello : PeerHello) : Prop := {
  wf_version : 0 <= protocol_version hello < 2 ^ 16;
  wf_node : 0 <= node_id hello < 2 ^ 16;
  wf_deployment : length (deployment_bytes (deployment_id hello)) = 32%nat;
  wf_schema : length (hash_bytes (hello_schema_hash hello)) = 16%nat
}.

Lemma hello_word v : 0 <= v < 2 ^ 16 ->
  u16 (Z.lor (u8 (Z.land v 0xff)) (Z.shiftl (u8 (Z.shiftr v 8)) 8)) = v.
Proof.
  intros Hv. rewrite land_ff, Z.shiftr_div_pow2 by lia. change (2 ^ 8) with 256.
  rewrite !u8_small by (Z.to_euclidean_division_equations; lia).
  rewrite lor_shiftl_add by (try apply Z.mod_pos_bound; Z.to_euclidean_division_equations; lia).
  change (2 ^ 8) with 256. rewrite u16_small; Z.to_euclidean_division_equations; lia.
Qed.

Ltac list_len := rewrite ?length_app, ?length_drop, ?length_app; cbn [length]; lia.

Lemma PeerHello_roundtrip hello output out :
  hello_wf hello -> length output = kPeerHelloEncodedSize ->
  if (protocol_version hello =? 0) || (node_id hello =? 0)
  then EncodePeerHello hello output = (kInvalidArgument, output)
  else exists wire, EncodePeerHello hello output = (kOk, wire) /\
    length wire = kPeerHelloEncodedSize /\ DecodePeerHello wire out = (kOk, hello).
Proof.
  intros [Hv Hn Hd Hs] Hl. unfold EncodePeerHello. destruct (_ || _)%bool eqn:Hz; [done|].
  unfold kPeerHelloEncodedSize in *.
  destruct hello as [pv node [dep] [hash]]. cbn [protocol_version node_id deployment_id deployment_bytes
    hello_schema_hash hash_bytes] in *.
  set (v0 := u8 (Z.land pv 0xff)). set (v1 := u8 (Z.shiftr pv 8)).
  set (n0 := u8 (Z.land node 0xff)). set (n1 := u8 (Z.shiftr node 8)).
  change output with ([] ++ output) at 1. do 4 rewrite insert_next by list_len.
  do 2 rewrite copy_into_next by list_len.
  change (((([] ++ [v0]) ++ [v1]) ++ [n0]) ++ [n1]) with [v0; v1; n0; n1].
  rewrite (drop_ge _ (length hash)) by list_len. rewrite app_nil_r, <- app_assoc.
  eexists. split; [done|]. split; [list_len|]. unfold DecodePeerHello, kPeerHelloEncodedSize.
  assert ((length ([v0; v1; n0; n1] ++ dep ++ hash) =? 52)%nat = true) as -> by (apply Nat.eqb_eq; list_len).
  cbn [negb]. rewrite (subspan_skip 4 32 [v0; v1; n0; n1]) by (cbn; lia). cbn [length Nat.sub].
  rewrite subspan_here by done. rewrite app_assoc, drop_app_ge, <- app_assoc by list_len.
  replace (36 - length ([v0; v1; n0; n1] ++ dep))%nat with 0%nat by list_len. rewrite drop_0.
  change (byte_at ([v0; v1; n0; n1] ++ dep ++ hash) 0) with v0.
  change (byte_at ([v0; v1; n0; n1] ++ dep ++ hash) 1) with v1.
  change (byte_at ([v0; v1; n0; n1] ++ dep ++ hash) 2) with n0.
  change (byte_at ([v0; v1; n0; n1] ++ dep ++ hash) 3) with n1.
  unfold v0, v1, n0, n1. rewrite !hello_word by done. cbn [protocol_version node_id]. by rewrite Hz.
Qed.

(** ** [StaticPeerRegistry] *)

Record ExpectedPeer := MkExpectedPeer {
  peer_node_id : Z;
  peer_schema_hash : SchemaHash;
  peer_timeout_ns : Z
}.

Module StaticPeerRegistry.

Record PeerState := MkPeerState {
  expected : ExpectedPeer;
  last_seen_ns : Z;
  seen : bool
}.
#[global] Instance eta_PeerState : Eta PeerState := fun r =>
  MkPeerState (expected r) (last_seen_ns r) (seen r).

(** [peers_] is the used part of the array; [size_] is its length. *)
Record t := Mk {
  deployment_id_ : DeploymentId;
  peers_ : list PeerState;
  sealed_ : bool
}.
#[global] Instance eta_t : Eta t := fun r => Mk (deployment_id_ r) (peers_ r) (sealed_ r).

Definition init (deployment : DeploymentId) : t := Mk deployment [] false.

Definition has_node (node : Z) (peer : PeerState) : bool := peer_node_id (expected peer) =? node.

Fixpoint find_peer (node : Z) (peers : list PeerState) : option PeerState :=
  match peers with
  | [] => None
  | peer :: peers => if has_node node peer then Some peer else find_peer node peers
  end.

Definition Find (node : Z) (self : t) : option PeerState := find_peer node (peers_ self).

(** The assignments through the pointer [Find] returns. *)
Fixpoint update_peer (node : Z) (f : PeerState -> PeerState) (peers : list PeerState) : list PeerState :=
  match peers with
  | [] => []
  | peer :: peers =>
      if has_node node peer then f peer :: peers else peer :: update_peer node f peers
  end.

Definition Register (MaxPeers : nat) (peer : ExpectedPeer) (self : t) : Status * t :=
  if sealed_ self then (kInvalidState, self)
  else if (peer_node_id peer =? 0) || (peer_timeout_ns peer =? 0) then (kInvalidArgument, self)
  else if existsb (has_node (peer_node_id peer)) (peers_ self) then (kAlreadyExists, self)
  else if (length (peers_ self) =? MaxPeers)%nat then (kCapacityExceeded, self)
  else (kOk, self <| peers_ := peers_ self ++ [MkPeerState peer 0 false] |>).

Definition Seal (self : t) : Status * t :=
  if sealed_ self then (kInvalidState, self) else (kOk, self <| sealed_ := true |>).

Definition Observe (hello : PeerHello) (receive_time_ns : Z) (self : t) : Status * t :=
  if negb (sealed_ self) then (kInvalidState, self)
  else if negb (protocol_version hello =? kPeerProtocolVersion) ||
          negb (bool_decide (deployment_id hello = deployment_id_ self))
  then (kVersionMismatch, self)
  else match Find (node_id hello) self with
       | None => (kNotFound, self)
       | Some peer =>
           if negb (bool_decide (peer_schema_hash (expected peer) = hello_schema_hash hello))
           then (kTypeMismatch, self)
           else (kOk, self <| peers_ := update_peer (node_id hello)
                   (fun peer => peer <| last_seen_ns := receive_time_ns |> <| seen := true |>)
                   (peers_ self) |>)
       end.

Definition Alive (node now_ns : Z) (self : t) : bool :=
  match Find node self with
  | None => false
  | Some peer =>
      seen peer && (last_seen_ns peer <=? now_ns) &&
      (u64 (now_ns - last_seen_ns peer) <=? peer_timeout_ns (expected peer))
  end.

(** The loop asks [Alive] for each registered node. *)
Definition AllAlive (now_ns : Z) (self : t) : bool :=
  if negb (sealed_ self) then false
  else forallb (fun peer => Alive (peer_node_id (expected peer)) now_ns self) (peers_ self).

#[export] Instance registry : Registry t := {|
  registry_Seal := Seal;
  registry_sealed := sealed_
|}.

#[export] Instance registry_laws : RegistryLaws t.
Proof. split; cbn; intros [deployment peers []]; by cbn. Qed.

(** ** Specification

    The history of hellos a sealed registry was shown, each with its time of
    reception; the verdict depends on the last acceptable one. *)
Definition history : Type := list (PeerHello * Z).

Fixpoint observe_all (events : history) (self : t) : t :=
  match events with
  | [] => self
  | (hello, time) :: events => observe_all events (Observe hello time self).2
  end.

Definition acceptable (deployment : DeploymentId) (peer : ExpectedPeer) (hello : PeerHello) : bool :=
  (protocol_version hello =? kPeerProtocolVersion) &&
  bool_decide (deployment_id hello = deployment) && (node_id hello =? peer_node_id peer) &&
  bool_decide (peer_schema_hash peer = hello_schema_hash hello).

Fixpoint last_accepted (deployment : DeploymentId) (peer : ExpectedPeer) (events : history)
    (current : option Z) : option Z :=
  match events with
  | [] => current
  | (hello, time) :: events =>
      last_accepted deployment peer events
        (if acceptable deployment peer hello then Some time else current)
  end.

Definition fresh (peer : ExpectedPeer) (now_ns : Z) (time : option Z) : bool :=
  match time with
  | None => false
  | Some time => (time <=? now_ns) && (now_ns - time <=? peer_timeout_ns peer)
  end.

(** ** Lemmas *)

Definition heard (peer : PeerState) : option Z := if seen peer then Some (last_seen_ns peer) else None.

Lemma find_update_peer node node' f peers :
  (forall peer, expected (f peer) = expected peer) ->
  find_peer node' (update_peer node f peers) =
    if node =? node' then f <$> find_peer node' peers else find_peer node' peers.
Proof.
  intros Hf. induction peers as [|peer peers IH]; [by destruct (node =? node')|]. cbn.
  unfold has_node in *. destruct (Z.eqb_spec (peer_node_id (expected peer)) node) as [<-|Hne]; cbn; unfold has_node.
  - rewrite Hf. by destruct (_ =? node').
  - rewrite IH. destruct (Z.eqb_spec (peer_node_id (expected peer)) node') as [<-|]; [|done].
    by guard_false (node =? peer_node_id (expected peer)).
Qed.

Lemma update_peer_expected node f peers :
  (forall peer, expected (f peer) = expected peer) ->
  expected <$> update_peer node f peers = expected <$> peers.
Proof.
  intros Hf. induction peers as [|peer peers IH]; [done|]. cbn.
  destruct (has_node node peer); cbn; [by rewrite Hf|]. f_equal. exact IH.
Qed.

(** [Observe] moves exactly the record of the peer it accepts. *)
Lemma Observe_spec hello time node self :
  sealed_ self = true ->
  let self' := (Observe hello time self).2 in
  sealed_ self' = true /\ deployment_id_ self' = deployment_id_ self /\
  expected <$> peers_ self' = expected <$> peers_ self /\
  match Find node self with
  | None => Find node self' = None
  | Some peer => exists peer', Find node self' = Some peer' /\ expected peer' = expected peer /\
      heard peer' =
        if acceptable (deployment_id_ self) (expected peer) hello && (node_id hello =? node)
        then Some time else heard peer
  end.
Proof.
  intros Hs. cbn zeta. unfold Observe, acceptable. rewrite Hs. cbn [negb].
  destruct (protocol_version hello =? kPeerProtocolVersion); cbn [negb orb andb];
    [|split_and!; [done..|]; cbn; destruct (Find node self) as [peer|]; [by exists peer|done]].
  destruct (bool_decide (deployment_id hello = deployment_id_ self)); cbn [negb andb];
    [|split_and!; [done..|]; cbn; destruct (Find node self) as [peer|]; [by exists peer|done]].
  destruct (Find (node_id hello) self) as [target|] eqn:Htarget.
  2:{ split_and!; [done..|]. cbn. destruct (Find node self) as [peer|] eqn:Hpeer; [|done].
      exists peer. split_and!; [done|done|]. destruct (Z.eqb_spec (node_id hello) node) as [Heq|]; [rewrite Heq in Htarget; congruence|].
      by rewrite andb_false_r. }
  destruct (bool_decide_reflect (peer_schema_hash (expected target) = hello_schema_hash hello)) as [Hh|Hh]; cbn [negb].
  2:{ split_and!; [done..|]. cbn. destruct (Find node self) as [peer|] eqn:Hpeer; [|done].
      exists peer. split_and!; [done|done|]. destruct (Z.eqb_spec (node_id hello) node) as [Heq|]; [|by rewrite andb_false_r].
      rewrite Heq in Htarget.
      assert (target = peer) as -> by congruence. by rewrite bool_decide_eq_false_2, andb_false_r by done. }
  cbn [snd sealed_ deployment_id_ peers_ set_field]. split_and!; [done|done|by apply update_peer_expected|].
  unfold Find in *. cbn [peers_ set_field]. rewrite find_update_peer by done.
  destruct (Z.eqb_spec (node_id hello) node) as [<-|Hne].
  - rewrite Htarget. cbn. eexists. split_and!; [done|done|]. cbn.
    assert (node_id hello = peer_node_id (expected target)) as Hid.
    { revert Htarget. induction (peers_ self) as [|first peers IH]; [done|]. cbn. unfold has_node.
      destruct (Z.eqb_spec (peer_node_id (expected first)) (node_id hello)) as [<-|]; [by intros [=->]|exact IH]. }
    rewrite Hid, Z.eqb_refl, bool_decide_eq_true_2 by done. done.
  - destruct (find_peer node (peers_ self)); [|done]. eexists. split_and!; [done|done|]. by rewrite andb_false_r.
Qed.

Lemma find_peer_node node peers peer : find_peer node peers = Some peer -> peer_node_id (expected peer) = node.
Proof.
  induction peers as [|first peers IH]; [done|]. cbn. unfold has_node.
  destruct (Z.eqb_spec (peer_node_id (expected first)) node) as [<-|]; [by intros [=->]|exact IH].
Qed.

Lemma observe_all_spec events node self :
  sealed_ self = true ->
  let self' := observe_all events self in
  sealed_ self' = true /\ expected <$> peers_ self' = expected <$> peers_ self /\
  match Find node self with
  | None => Find node self' = None
  | Some peer => exists peer', Find node self' = Some peer' /\ expected peer' = expected peer /\
      heard peer' = last_accepted (deployment_id_ self) (expected peer) events (heard peer)
  end.
Proof.
  revert self. induction events as [|[hello time] events IH]; intros self Hs; cbn zeta; cbn [observe_all last_accepted].
  { split_and!; [done|done|]. destruct (Find node self) as [peer|]; [|done]. by exists peer. }
  pose proof (Observe_spec hello time node self Hs) as (Hs' & Hd & He & Hf). cbn zeta in *.
  destruct (IH (Observe hello time self).2 Hs') as (Hs2 & He2 & Hf2). split_and!; [done|congruence|].
  destruct (Find node self) as [peer|] eqn:Hpeer; [|by rewrite Hf in Hf2].
  destruct Hf as (peer' & Hfind & Hexp & Hheard). rewrite Hfind in Hf2.
  destruct Hf2 as (peer2 & Hfind2 & Hexp2 & Hheard2). exists peer2. split_and!; [done|congruence|].
  rewrite Hheard2, Hd, Hexp, Hheard. apply find_peer_node in Hpeer. do 2 f_equal.
  unfold acceptable. rewrite Hpeer. by destruct (node_id hello =? node); rewrite ?andb_false_r, ?andb_true_r.
Qed.

Lemma Alive_heard node now_ns peer self :
  Find node self = Some peer -> 0 <= now_ns < 2 ^ 64 -> 0 <= last_seen_ns peer ->
  Alive node now_ns self = fresh (expected peer) now_ns (heard peer).
Proof.
  intros Hf Hn Hl. unfold Alive, fresh, heard. rewrite Hf. destruct (seen peer); [|done]. cbn [andb].
  destruct (Z.leb_spec (last_seen_ns peer) now_ns); [|done]. cbn [andb]. by rewrite u64_small by lia.
Qed.

(** What registration builds: distinct nodes, none heard from yet. *)
Definition fresh_registry (MaxPeers : nat) (self : t) : Prop :=
  (length (peers_ self) <= MaxPeers)%nat /\
  NoDup ((fun peer => peer_node_id (expected peer)) <$> peers_ self) /\
  Forall (fun peer => heard peer = None) (peers_ self).

Lemma init_fresh MaxPeers deployment : fresh_registry MaxPeers (init deployment).
Proof. split_and!; [cbn; lia|constructor|constructor]. Qed.

Lemma existsb_has_node node peers :
  existsb (has_node node) peers = false ->
  node ∉ (fun peer => peer_node_id (expected peer)) <$> peers.
Proof.
  intros H (peer & -> & Hin)%list_elem_of_fmap.
  enough (existsb (has_node (peer_node_id (expected peer))) peers = true) by congruence.
  apply existsb_exists. exists peer. split; [by apply list_elem_of_In|]. apply Z.eqb_refl.
Qed.

Lemma Register_fresh MaxPeers peer self :
  fresh_registry MaxPeers self -> fresh_registry MaxPeers (Register MaxPeers peer self).2.
Proof.
  intros (Hl & Hn & Hf). unfold Register. repeat (split_if; [done|]). bool_hyps. split_and!; cbn.
  - rewrite length_app. cbn. lia.
  - rewrite fmap_app. apply NoDup_app. split_and!; [done| |by apply NoDup_singleton].
    intros x Hx ->%list_elem_of_singleton. by apply existsb_has_node in Hx.
  - by apply Forall_app_2, Forall_singleton.
Qed.

Lemma Seal_fresh MaxPeers self : fresh_registry MaxPeers self -> fresh_registry MaxPeers (Seal self).2.
Proof. intros H. unfold Seal. by destruct (sealed_ self). Qed.

Lemma find_peer_elem peers peer :
  NoDup ((fun peer => peer_node_id (expected peer)) <$> peers) -> peer ∈ peers ->
  find_peer (peer_node_id (expected peer)) peers = Some peer.
Proof.
  induction peers as [|first peers IH]; intros Hn Hin; [by apply not_elem_of_nil in Hin|].
  rewrite fmap_cons in Hn. apply NoDup_cons in Hn as [Hf Hn]. cbn. unfold has_node.
  apply elem_of_cons in Hin as [->|Hin]; [by rewrite Z.eqb_refl|].
  destruct (Z.eqb_spec (peer_node_id (expected first)) (peer_node_id (expected peer))) as [Heq|]; [|by apply IH].
  destruct Hf. rewrite Heq. apply list_elem_of_fmap. by exists peer.
Qed.

Lemma last_accepted_nonneg deployment peer events current :
  Forall (fun event => 0 <= event.2) events -> (forall t, current = Some t -> 0 <= t) ->
  forall t, last_accepted deployment peer events current = Some t -> 0 <= t.
Proof.
  intros H. revert current. induction H as [|[hello time] events Ht _ IH]; intros current Hc; cbn; [done|].
  apply IH. destruct (acceptable _ _ _); [by intros t [=<-]|done].
Qed.

(** Liveness is decided by history: after any sequence of hellos, whoever
    sent them and in whatever order, a registered node is alive exactly when
    the last hello it was accepted for (same protocol version, deployment, node
    and schema) was received at most its timeout ago and not in the future; an
    unregistered node never is; all are alive exactly when each registered one
    is; and refused hellos change nothing. *)
Theorem peer_liveness MaxPeers events now_ns (self : t) :
  fresh_registry MaxPeers self -> sealed_ self = true ->
  Forall (fun event => 0 <= event.2) events -> 0 <= now_ns < 2 ^ 64 ->
  let self' := observe_all events self in
  (forall peer, peer ∈ peers_ self ->
     Alive (peer_node_id (expected peer)) now_ns self' =
       fresh (expected peer) now_ns (last_accepted (deployment_id_ self) (expected peer) events None)) /\
  (forall node, node ∉ (fun peer => peer_node_id (expected peer)) <$> peers_ self ->
     Alive node now_ns self' = false) /\
  (AllAlive now_ns self' = true <->
     forall peer, peer ∈ peers_ self ->
       fresh (expected peer) now_ns (last_accepted (deployment_id_ self) (expected peer) events None) = true) /\
  (forall hello time, (Observe hello time self').1 <> kOk -> (Observe hello time self').2 = self').
Proof.
  intros (_ & Hn & Hf) Hs Ht Hnow self'.
  assert (forall peer, peer ∈ peers_ self ->
     Alive (peer_node_id (expected peer)) now_ns self' =
       fresh (expected peer) now_ns (last_accepted (deployment_id_ self) (expected peer) events None)) as Halive.
  { intros peer Hin.
    destruct (observe_all_spec events (peer_node_id (expected peer)) self Hs) as (_ & _ & Hfind).
    unfold Find in Hfind at 1. rewrite (find_peer_elem _ _ Hn Hin) in Hfind.
    destruct Hfind as (peer' & Hfind & Hexp & Hheard).
    rewrite Forall_forall in Hf. rewrite (Hf peer Hin) in Hheard.
    fold self' in Hfind. pose proof Hheard as Hh. rewrite <- Hh.
    destruct (seen peer') eqn:Hseen.
    - rewrite (Alive_heard _ _ peer' _ Hfind Hnow); [by rewrite Hexp|].
      unfold heard in Hheard. rewrite Hseen in Hheard. eapply last_accepted_nonneg; [exact Ht| |symmetry; exact Hheard]. done.
    - unfold Alive, heard. by rewrite Hfind, Hseen. }
  destruct (observe_all_spec events 0 self Hs) as (Hs' & Hexp & _). fold self' in Hs', Hexp.
  split_and!; [exact Halive| | |].
  - intros node Hnode. destruct (observe_all_spec events node self Hs) as (_ & _ & Hfind). fold self' in Hfind.
    destruct (Find node self) as [peer|] eqn:E; [|by unfold Alive; rewrite Hfind].
    destruct Hnode. unfold Find in E. pose proof (find_peer_node _ _ _ E) as <-. apply list_elem_of_fmap. exists peer.
    split; [done|]. clear -E. induction (peers_ self) as [|first peers IH]; [done|]. cbn in E.
    destruct (has_node _ first); [injection E as ->; by left|right; by apply IH].
  - unfold AllAlive. rewrite Hs'. cbn [negb]. rewrite forallb_forall.
    assert (forall P : ExpectedPeer -> Prop,
      (forall peer, In peer (peers_ self') -> P (expected peer)) <-> (forall peer, peer ∈ peers_ self -> P (expected peer))) as Hswap.
    { intros P. setoid_rewrite <- list_elem_of_In. rewrite <- !(Forall_forall (fun peer => P (expected peer))).
      by rewrite <- !(Forall_fmap expected P), Hexp. }
    rewrite (Hswap (fun peer => Alive (peer_node_id peer) now_ns self' = true)).
    split; intros H peer Hin; specialize (H peer Hin); [by rewrite <- Halive|by rewrite Halive].
  - intros hello time. unfold Observe. repeat (split_if; [done|]). destruct (Find _ _); [|done].
    by split_if.
Qed.

Definition witness_registry : t :=
  (Seal (Register 2 (MkExpectedPeer 5 SchemaHash_zero 100) (init (MkDeploymentId []))).2).2.

Definition witness_hello : PeerHello := MkPeerHello 1 5 (MkDeploymentId []) SchemaHash_zero.

Lemma peer_liveness_witness :
  AllAlive 150 (observe_all [(witness_hello, 40); (witness_hello, 60)] witness_registry) = true.
Proof.
  apply (peer_liveness 2 [(witness_hello, 40); (witness_hello, 60)] 150 witness_registry).
  - apply Seal_fresh, Register_fresh, init_fresh.
  - reflexivity.
  - repeat constructor; cbn; lia.
  - lia.
  - intros peer Hin. apply elem_of_cons in Hin as [->|Hin]; [reflexivity|by apply not_elem_of_nil in Hin].
Defined.
End StaticPeerRegistry.
