(* ===== verification/Execution.v ===== *)
(** Call contexts and executors: scopes and [ResolveCallContext]
    ([aster_runtime/execution.hpp], [core/execution.cpp]), the clock and executor
    handles of modules ([clock/clock.hpp], [executor.hpp]) and the functions
    behind them ([core/service/clock.cpp], [core/service/executor.cpp]). *)

From S2P Require Export TypeSupport.

Local Open Scope Z_scope.

Definition ASTER_STATUS_OK : Z := status_value kOk.
Definition ASTER_STATUS_INVALID_ARGUMENT : Z := status_value kInvalidArgument.
Definition ASTER_STATUS_CAPACITY_EXCEEDED : Z := status_value kCapacityExceeded.
Definition ASTER_STATUS_UNAVAILABLE : Z := status_value kUnavailable.
Definition ASTER_STATUS_TIMEOUT : Z := status_value kTimeout.
Definition ASTER_STATUS_INTERNAL : Z := status_value kInternal.

(** ** Clocks

    A table of nullable functions; [W] is the state they may read. The table is
    [complete] when its [struct_size] covers the structure. *)
Inductive ClockDomain := kMonotonic | kSynchronized | kSimulated | kReplay.

#[export] Instance ClockDomain_eq_dec : EqDecision ClockDomain.
Proof. solve_decision. Defined.

Definition ClockDomain_value (domain : ClockDomain) : Z :=
  match domain with kMonotonic => 0 | kSynchronized => 1 | kSimulated => 2 | kReplay => 3 end.

Definition ClockDomain_cast (z : Z) : ClockDomain :=
  if z =? 0 then kMonotonic else if z =? 1 then kSynchronized
  else if z =? 2 then kSimulated else kReplay.

Definition ASTER_CLOCK_DOMAIN_REPLAY : Z := 3.

Section Execution.
Context {W : Type}.

Record aster_clock_base_t := AbiClock {
  clock_complete : bool;
  abi_get_domain : option (W -> Z * Z);
  abi_now_ns : option (W -> Z * Z)
}.

Definition ClockRef : Type := option aster_clock_base_t.

Definition ClockRef_make (clock : option aster_clock_base_t) : ClockRef :=
  match clock with
  | Some base => if clock_complete base then clock else None
  | None => None
  end.

(** Status and output. *)
Definition ClockRef_GetDomain (clock : ClockRef) (output : ClockDomain) (w : W) : Status * ClockDomain :=
  match clock with
  | Some (AbiClock _ (Some get_domain) _) =>
      let '(code, domain) := get_domain w in
      let status := FromAbiStatus code in
      if negb (IsOk status) then (status, output)
      else if ASTER_CLOCK_DOMAIN_REPLAY <? domain then (kProtocolError, output)
      else (kOk, ClockDomain_cast domain)
  | _ => (kUnavailable, output)
  end.

Definition ClockRef_NowNs (clock : ClockRef) (output : Z) (w : W) : Status * Z :=
  match clock with
  | Some (AbiClock _ _ (Some now_ns)) =>
      let '(code, now) := now_ns w in
      let status := FromAbiStatus code in
      (status, if IsOk status then now else output)
  | _ => (kUnavailable, output)
  end.

(** The abstract class [Clock] and its table; the context and the outputs the
    handle passes are never null. *)
Record Clock := MkClock {
  clock_domain : W -> ClockDomain;
  clock_NowNs : W -> Z
}.

Definition ClockGetDomain (clock : Clock) (w : W) : Z * Z :=
  (ASTER_STATUS_OK, ClockDomain_value (clock_domain clock w)).

Definition ClockNowNs (clock : Clock) (w : W) : Z * Z := (ASTER_STATUS_OK, clock_NowNs clock w).

Definition Clock_NativeHandle (clock : Clock) : aster_clock_base_t :=
  AbiClock true (Some (ClockGetDomain clock)) (Some (ClockNowNs clock)).

(** ** Scopes

    [active_scope] points to a chain of scopes through [previous_]; the chain is
    a list, innermost first. *)
Record ExecutionScope := MkScope {
  executor_ : string;
  clock_ : option aster_clock_base_t
}.

Definition ExecutionScope_enter (scope : ExecutionScope) (active : list ExecutionScope)
    : list ExecutionScope := scope :: active.

Definition ExecutionScope_leave (active : list ExecutionScope) : list ExecutionScope := tail active.

(** The platform supplies [NativeExecutionContext]. *)
Variable NativeExecutionContext : W -> ExecutionContext.

(** Status and [result]. *)
Definition ResolveCallContext (active : list ExecutionScope)
    (requested : option aster_execution_context_t) (result : ExecutionContext)
    (allow_interrupt : bool) (w : W) : Status * ExecutionContext :=
  let native := NativeExecutionContext w in
  if bool_decide (kind native = kInterrupt) then
    if negb allow_interrupt then (kInvalidState, result) else (kOk, native)
  else match requested with
  | Some context =>
      let status := ValidateAbiExecutionContext requested in
      if negb (IsOk status) then (status, result)
      else
        let result := FromAbiExecutionContext context in
        (if negb allow_interrupt && bool_decide (kind result = kInterrupt)
         then kInvalidState else kOk, result)
  | None =>
      match active with
      | [] => (kOk, native)
      | scope :: _ =>
          match clock_ scope with
          | None => (kOk, MkExecutionContext (executor_ scope) kThread (timestamp_ns native))
          | Some (AbiClock false _ _) | Some (AbiClock _ _ None) => (kUnavailable, result)
          | Some (AbiClock true _ (Some now_ns)) =>
              let '(code, now) := now_ns w in
              let status := FromAbiStatus code in
              if negb (IsOk status) then (status, result)
              else (kOk, MkExecutionContext (executor_ scope) kThread now)
          end
      end
  end.

(** [ExecutionContext resolved("unmanaged", ExecutionKind::kThread, 0)]. *)
Definition unmanaged : ExecutionContext := MkExecutionContext "unmanaged" kThread 0.

(** ** Executors *)

Context {P : Type}.

Record aster_executor_base_t := AbiExecutor {
  executor_complete : bool;
  abi_get_name : option (W -> Z * aster_string_view_t);
  abi_try_post : option (WorkItem P -> option aster_execution_context_t -> W -> Z * W);
  abi_try_post_at : option (Z -> WorkItem P -> option aster_execution_context_t -> W -> Z * W)
}.

Definition ExecutorRef : Type := option aster_executor_base_t.

Definition ExecutorRef_make (executor : option aster_executor_base_t) : ExecutorRef :=
  match executor with
  | Some base => if executor_complete base then executor else None
  | None => None
  end.

Definition ExecutorRef_Name (executor : ExecutorRef) (w : W) : string :=
  match executor with
  | Some (AbiExecutor _ (Some get_name) _ _) =>
      let '(code, name) := get_name w in
      if code =? ASTER_STATUS_OK then FromAbiString name else ""%string
  | _ => ""%string
  end.

(** The overloads without a caller. *)
Definition ExecutorRef_TryPost_unmanaged (executor : ExecutorRef) (work : WorkItem P) (w : W) : Status * W :=
  match executor with
  | Some (AbiExecutor _ _ (Some try_post) _) =>
      match work with
      | None => (kInvalidArgument, w)
      | Some _ => let '(code, w) := try_post work None w in (FromAbiStatus code, w)
      end
  | _ => (kUnavailable, w)
  end.

Definition ExecutorRef_TryPostAt_unmanaged (executor : ExecutorRef) (timestamp : Z) (work : WorkItem P)
    (w : W) : Status * W :=
  match executor with
  | Some (AbiExecutor _ _ _ (Some try_post_at)) =>
      match work with
      | None => (kInvalidArgument, w)
      | Some _ => let '(code, w) := try_post_at timestamp work None w in (FromAbiStatus code, w)
      end
  | _ => (kUnavailable, w)
  end.

(** The overloads with a caller: a missing function is [kInvalidArgument]. *)
Definition ExecutorRef_TryPost (executor : ExecutorRef) (work : WorkItem P) (caller : ExecutionContext)
    (w : W) : Status * W :=
  match executor with
  | None => (kUnavailable, w)
  | Some base =>
      match abi_try_post base, work with
      | Some try_post, Some _ =>
          let '(code, w) := try_post work (Some (ToAbiExecutionContext caller)) w in
          (FromAbiStatus code, w)
      | _, _ => (kInvalidArgument, w)
      end
  end.

Definition ExecutorRef_TryPostAt (executor : ExecutorRef) (timestamp : Z) (work : WorkItem P)
    (caller : ExecutionContext) (w : W) : Status * W :=
  match executor with
  | None => (kUnavailable, w)
  | Some base =>
      match abi_try_post_at base, work with
      | Some try_post_at, Some _ =>
          let '(code, w) := try_post_at timestamp work (Some (ToAbiExecutionContext caller)) w in
          (FromAbiStatus code, w)
      | _, _ => (kInvalidArgument, w)
      end
  end.

(** The abstract class [Executor] and its table. [active] is the scope chain of
    the calling thread. *)
Record Executor := MkExecutor {
  executor_Name : W -> string;
  executor_TryPost : WorkItem P -> ExecutionContext -> W -> Status * W;
  executor_TryPostAt : Z -> WorkItem P -> ExecutionContext -> W -> Status * W
}.

Definition ExecutorGetName (self : Executor) (w : W) : Z * aster_string_view_t :=
  let value := executor_Name self w in
  if bool_decide (value = ""%string) then (ASTER_STATUS_INTERNAL, AbiString None 0)
  else (ASTER_STATUS_OK, ToAbiString value).

Definition ExecutorTryPost (self : Executor) (active : list ExecutionScope) (work : WorkItem P)
    (caller : option aster_execution_context_t) (w : W) : Z * W :=
  match work with
  | None => (ASTER_STATUS_INVALID_ARGUMENT, w)
  | Some _ =>
      let '(context_status, resolved) := ResolveCallContext active caller unmanaged true w in
      if negb (IsOk context_status) then (ToAbiStatus context_status, w)
      else let '(status, w) := executor_TryPost self work resolved w in (ToAbiStatus status, w)
  end.

Definition ExecutorTryPostAt (self : Executor) (active : list ExecutionScope) (timestamp : Z)
    (work : WorkItem P) (caller : option aster_execution_context_t) (w : W) : Z * W :=
  match work with
  | None => (ASTER_STATUS_INVALID_ARGUMENT, w)
  | Some _ =>
      let '(context_status, resolved) := ResolveCallContext active caller unmanaged true w in
      if negb (IsOk context_status) then (ToAbiStatus context_status, w)
      else let '(status, w) := executor_TryPostAt self timestamp work resolved w in (ToAbiStatus status, w)
  end.

Definition Executor_NativeHandle (self : Executor) (active : list ExecutionScope)
    : aster_executor_base_t :=
  AbiExecutor true (Some (ExecutorGetName self)) (Some (ExecutorTryPost self active))
    (Some (ExecutorTryPostAt self active)).
End Execution.

Arguments aster_clock_base_t : clear implicits.
Arguments ClockRef : clear implicits.
Arguments Clock : clear implicits.
Arguments ExecutionScope : clear implicits.
Arguments aster_executor_base_t : clear implicits.
Arguments ExecutorRef : clear implicits.
Arguments Executor : clear implicits.
#[global] Arguments ResolveCallContext : simpl never.

(** ** Lemmas *)

Lemma FromAbiStatus_ToAbi s : FromAbiStatus (ToAbiStatus s) = s.
Proof. by destruct s. Qed.

Lemma ValidateAbiExecutionContext_named context :
  executor_name context <> ""%string ->
  ValidateAbiExecutionContext (Some (ToAbiExecutionContext context)) = kOk.
Proof. destruct context as [[|c name] [] t]; cbn; done. Qed.

Lemma ClockDomain_cast_value domain : ClockDomain_cast (ClockDomain_value domain) = domain.
Proof. by destruct domain. Qed.

Lemma kind_thread_or_interrupt k : k <> kInterrupt <-> k = kThread.
Proof. by destruct k. Qed.

(** A managed call keeps the caller's context; an interrupt overrides it. *)
Lemma ResolveCallContext_named {W} (native : W -> ExecutionContext) active context result allow w :
  kind (native w) = kThread -> executor_name context <> ""%string ->
  allow = true \/ kind context = kThread ->
  ResolveCallContext native active (Some (ToAbiExecutionContext context)) result allow w = (kOk, context).
Proof.
  intros Hn He Ha. unfold ResolveCallContext. rewrite Hn. cbn [bool_decide].
  rewrite bool_decide_eq_false_2 by done. rewrite ValidateAbiExecutionContext_named by done. cbn [IsOk negb].
  rewrite FromAbiExecutionContext_ToAbi. destruct Ha as [-> | ->]; [done|].
  by rewrite bool_decide_eq_false_2, andb_false_r by done.
Qed.

(** Going through the handle is calling the clock, or the executor. *)
Lemma ClockRef_handle {W} (clock : Clock W) output domain w :
  ClockRef_NowNs (ClockRef_make (Some (Clock_NativeHandle clock))) output w = (kOk, clock_NowNs clock w) /\
  ClockRef_GetDomain (ClockRef_make (Some (Clock_NativeHandle clock))) domain w = (kOk, clock_domain clock w).
Proof. split; [done|]. cbn. by destruct (clock_domain clock w). Qed.

Lemma ExecutorRef_handle {W P} (native : W -> ExecutionContext) (self : Executor W P) active (work : P) caller w :
  kind (native w) = kThread -> executor_name caller <> ""%string ->
  ExecutorRef_TryPost (ExecutorRef_make (Some (Executor_NativeHandle native self active))) (Some work) caller w =
    executor_TryPost self (Some work) caller w.
Proof.
  intros Hn He. cbn. rewrite ResolveCallContext_named by auto. cbn.
  destruct (executor_TryPost self (Some work) caller w) as [status w']. by rewrite FromAbiStatus_ToAbi.
Qed.

(** ** Properties *)

(** Who is calling is decided in one order: on an interrupt the native
    context always wins, and is refused unless interrupts are allowed; otherwise
    a context supplied by the caller is validated and used as it is, a thread
    call never accepting an interrupt context; without one the innermost scope
    supplies executor and clock, and only without a scope does the native thread
    context count. Leaving a nested scope restores the outer answer, and the
    result is never an interrupt context unless interrupts are allowed. *)
Theorem call_context_resolution {W} (native : W -> ExecutionContext) active scope requested result allow w :
  (kind (native w) = kInterrupt ->
     ResolveCallContext native active requested result allow w =
       if allow then (kOk, native w) else (kInvalidState, result)) /\
  (kind (native w) = kThread -> forall context, requested = Some context ->
     (ResolveCallContext native active requested result allow w).1 =
       (if IsOk (ValidateAbiExecutionContext requested) then
          if negb allow && bool_decide (kind (FromAbiExecutionContext context) = kInterrupt)
          then kInvalidState else kOk
        else ValidateAbiExecutionContext requested)) /\
  (kind (native w) = kThread -> requested = None ->
     ResolveCallContext native [] requested result allow w = (kOk, native w) /\
     (clock_ scope = None ->
        ResolveCallContext native (ExecutionScope_enter scope active) requested result allow w =
          (kOk, MkExecutionContext (executor_ scope) kThread (timestamp_ns (native w)))) /\
     (forall clock, clock_ scope = Some (Clock_NativeHandle clock) ->
        ResolveCallContext native (ExecutionScope_enter scope active) requested result allow w =
          (kOk, MkExecutionContext (executor_ scope) kThread (clock_NowNs clock w)))) /\
  ResolveCallContext native (ExecutionScope_leave (ExecutionScope_enter scope active)) requested result allow w =
    ResolveCallContext native active requested result allow w /\
  (allow = false -> (ResolveCallContext native active requested result allow w).1 = kOk ->
     kind (ResolveCallContext native active requested result allow w).2 = kThread).
Proof.
  unfold ResolveCallContext. split_and!.
  - intros ->. rewrite bool_decide_eq_true_2 by done. by destruct allow.
  - intros -> context ->. rewrite bool_decide_eq_false_2 by done.
    by destruct (ValidateAbiExecutionContext _).
  - intros -> ->. rewrite bool_decide_eq_false_2 by done. cbn. split_and!; [done| |].
    + by intros ->.
    + by intros clock ->.
  - done.
  - intros ->. destruct (bool_decide_reflect (kind (native w) = kInterrupt)) as [|Hn]; [done|].
    apply kind_thread_or_interrupt in Hn. destruct requested as [context|].
    + destruct (ValidateAbiExecutionContext _); cbn [IsOk negb]; try done.
      destruct (bool_decide_reflect (kind (FromAbiExecutionContext context) = kInterrupt)) as [|Hk]; [done|].
      intros _. by apply kind_thread_or_interrupt.
    + destruct active as [|[executor [[[] get [now|]]|]] rest]; cbn; try done.
      destruct (now w) as [code t]. by destruct (FromAbiStatus code).
Qed.
