(* ===== verification/Channel.v ===== *)
(** Channels inside a process: the handle of modules, typed publishers and
    subscribers ([aster_module_cpp_interface/channel.hpp]), the functions behind
    the handle ([core/service/channel.cpp]) and [LocalChannel]
    ([aster_runtime/local_channel.hpp]). *)

From S2P Require Export Registry Execution.

Local Open Scope Z_scope.

(** ** The C interface

    [W] is the state of the program, as far as callbacks and backends reach it.
    A message is a nullable pointer and a size. *)
Record aster_message_info_t := AbiMessageInfo {
  abi_sequence : Z;
  abi_source_timestamp_ns : Z
}.

Definition ToAbiMessageInfo (info : MessageInfo) : aster_message_info_t :=
  AbiMessageInfo (info_sequence info) (info_source_timestamp_ns info).

Definition buffer_of (message : list Z) : aster_bytes_view_t :=
  AbiBytes (Some message) (length message).

(** [detail::ValidBuffer]. *)
Definition ValidBuffer (buffer : aster_bytes_view_t) : bool :=
  (bv_size buffer =? 0)%nat || bool_decide (is_Some (bv_data buffer)).

Section ChannelInterface.
Context {W : Type}.

Definition aster_channel_callback_t : Type :=
  aster_bytes_view_t -> option aster_message_info_t -> option aster_execution_context_t -> W -> Z * W.

Record aster_channel_base_t := AbiChannel {
  channel_complete : bool;
  abi_register_publisher : option (option aster_channel_descriptor_t -> W -> Z * W);
  abi_register_subscriber :
    option (option aster_channel_descriptor_t -> option aster_channel_callback_t -> W -> Z * W);
  abi_publish :
    option (option aster_channel_descriptor_t -> aster_bytes_view_t -> Z ->
            option aster_execution_context_t -> W -> Z * W)
}.

(** ** [ChannelRef] *)

Definition ChannelRef : Type := option aster_channel_base_t.

Definition ChannelRef_make (channel : option aster_channel_base_t) : ChannelRef :=
  match channel with
  | Some base => if channel_complete base then channel else None
  | None => None
  end.

Definition ChannelRef_RegisterPublisher (channel : ChannelRef) (descriptor : ChannelDescriptor)
    (w : W) : Status * W :=
  match channel with
  | Some (AbiChannel _ (Some register_publisher) _ _) =>
      let '(code, w) := register_publisher (Some (ToAbiChannelDescriptor descriptor)) w in
      (FromAbiStatus code, w)
  | _ => (kUnavailable, w)
  end.

Definition ChannelRef_RegisterSubscriberAbi (channel : ChannelRef) (descriptor : ChannelDescriptor)
    (callback : option aster_channel_callback_t) (w : W) : Status * W :=
  match channel with
  | Some (AbiChannel _ _ (Some register_subscriber) _) =>
      let '(code, w) := register_subscriber (Some (ToAbiChannelDescriptor descriptor)) callback w in
      (FromAbiStatus code, w)
  | _ => (kUnavailable, w)
  end.

(** The caller pointer may be null. *)
Definition ChannelRef_Publish (channel : ChannelRef) (descriptor : ChannelDescriptor)
    (message : list Z) (source_timestamp_ns : Z) (caller : option ExecutionContext) (w : W)
    : Status * W :=
  match channel with
  | Some (AbiChannel _ _ _ (Some publish)) =>
      let '(code, w) := publish (Some (ToAbiChannelDescriptor descriptor)) (buffer_of message)
        source_timestamp_ns (ToAbiExecutionContext <$> caller) w in
      (FromAbiStatus code, w)
  | _ => (kUnavailable, w)
  end.

Definition RawChannelCallback : Type :=
  list Z -> MessageInfo -> ExecutionContext -> W -> Status * W.

(** The generated [Invoke<Callback>]. *)
Definition ChannelRef_Invoke (callback : RawChannelCallback) : aster_channel_callback_t :=
  fun message info context w =>
    if bool_decide (bv_data message = None) && negb (bv_size message =? 0)%nat
    then (ASTER_STATUS_INVALID_ARGUMENT, w)
    else match info with
    | None => (ASTER_STATUS_INVALID_ARGUMENT, w)
    | Some info =>
        let context_status := ValidateAbiExecutionContext context in
        match context with
        | Some context =>
            if negb (IsOk context_status) then (ToAbiStatus context_status, w)
            else
              let '(status, w) := callback (bytes_of message)
                (MkMessageInfo (abi_sequence info) (abi_source_timestamp_ns info))
                (FromAbiExecutionContext context) w in
              (ToAbiStatus status, w)
        | None => (ToAbiStatus context_status, w)
        end
    end.

Definition ChannelRef_RegisterSubscriber (callback : RawChannelCallback) (channel : ChannelRef)
    (descriptor : ChannelDescriptor) (w : W) : Status * W :=
  ChannelRef_RegisterSubscriberAbi channel descriptor (Some (ChannelRef_Invoke callback)) w.

(** ** The abstract class [ChannelBackend] and its table *)

Record ChannelBackend := MkChannelBackend {
  backend_RegisterPublisher : ChannelDescriptor -> W -> Status * W;
  backend_RegisterSubscriber :
    ChannelDescriptor -> option aster_channel_callback_t -> W -> Status * W;
  backend_Publish : ChannelDescriptor -> list Z -> Z -> ExecutionContext -> W -> Status * W
}.

Variable NativeExecutionContext : W -> ExecutionContext.

Definition ChannelRegisterPublisher (self : ChannelBackend)
    (descriptor : option aster_channel_descriptor_t) (w : W) : Z * W :=
  let '(status, native) := FromAbiChannelDescriptor descriptor ChannelDescriptor_default in
  if IsOk status then
    let '(status, w) := backend_RegisterPublisher self native w in (ToAbiStatus status, w)
  else (ToAbiStatus status, w).

Definition ChannelRegisterSubscriber (self : ChannelBackend)
    (descriptor : option aster_channel_descriptor_t) (callback : option aster_channel_callback_t)
    (w : W) : Z * W :=
  match callback with
  | None => (ASTER_STATUS_INVALID_ARGUMENT, w)
  | Some _ =>
      let '(status, native) := FromAbiChannelDescriptor descriptor ChannelDescriptor_default in
      if IsOk status then
        let '(status, w) := backend_RegisterSubscriber self native callback w in
        (ToAbiStatus status, w)
      else (ToAbiStatus status, w)
  end.

Definition ChannelPublish (self : ChannelBackend) (active : list (ExecutionScope W))
    (descriptor : option aster_channel_descriptor_t) (message : aster_bytes_view_t)
    (source_timestamp_ns : Z) (caller : option aster_execution_context_t) (w : W) : Z * W :=
  if negb (ValidBuffer message) then (ASTER_STATUS_INVALID_ARGUMENT, w)
  else
    let '(context_status, resolved) :=
      ResolveCallContext NativeExecutionContext active caller unmanaged false w in
    if negb (IsOk context_status) then (ToAbiStatus context_status, w)
    else
      let '(status, native) := FromAbiChannelDescriptor descriptor ChannelDescriptor_default in
      if negb (IsOk status) then (ToAbiStatus status, w)
      else
        let '(status, w) := backend_Publish self native (bytes_of message)
          (if bool_decide (caller = None) && (source_timestamp_ns =? 0)
           then timestamp_ns resolved else source_timestamp_ns)
          resolved w in
        (ToAbiStatus status, w).

Definition ChannelBackend_NativeHandle (self : ChannelBackend) (active : list (ExecutionScope W))
    : aster_channel_base_t :=
  AbiChannel true (Some (ChannelRegisterPublisher self)) (Some (ChannelRegisterSubscriber self))
    (Some (ChannelPublish self active)).
End ChannelInterface.

Arguments aster_channel_callback_t : clear implicits.
Arguments aster_channel_base_t : clear implicits.
Arguments ChannelRef : clear implicits.
Arguments RawChannelCallback : clear implicits.
Arguments ChannelBackend : clear implicits.

(** ** Typed endpoints

    [TypeSupport<Message>] is generated per message type: a descriptor and a
    codec. [Encode] fills a buffer of the descriptor's capacity and reports the
    size it wrote. *)
Class MessageType (Message : Type) := {
  message_default : Message;
  descriptor : TypeDescriptor;
  Encode : Message -> list Z -> Status * list Z * nat;
  Decode : list Z -> Message -> Status * Message
}.

(** What generated code promises: a message is written inside the buffer and
    read back unchanged. *)
Class MessageTypeLaws (Message : Type) `{MessageType Message} : Prop := {
  descriptor_wf : type_name descriptor <> ""%string /\
    0 < max_serialized_size descriptor <= SIZE_MAX /\ hash_wf (schema_hash descriptor);
  Encode_fits : forall message output status encoded written,
    Encode message output = (status, encoded, written) ->
    (Z.to_nat (max_serialized_size descriptor) <= length output)%nat -> status = kOk ->
    length encoded = length output /\ (written <= Z.to_nat (max_serialized_size descriptor))%nat;
  Decode_Encode : forall message output encoded written out,
    Encode message output = (kOk, encoded, written) ->
    Decode (take written encoded) out = (kOk, message)
}.

Section TypedEndpoints.
Context {W Message : Type} `{!MessageType Message}.

Record Publisher := MkPublisher {
  pub_channel_ : ChannelRef W;
  pub_descriptor_ : ChannelDescriptor
}.

Definition Publisher_init : Publisher := MkPublisher None ChannelDescriptor_default.

Definition Publisher_Bind (channel : ChannelRef W) (name : string) (self : Publisher) (w : W)
    : Status * Publisher * W :=
  let candidate := MkChannelDescriptor name descriptor in
  let '(status, w) := ChannelRef_RegisterPublisher channel candidate w in
  if negb (IsOk status) then (status, self, w) else (kOk, MkPublisher channel candidate, w).

Definition Publisher_Publish (message : Message) (source_timestamp_ns : Z)
    (caller : option ExecutionContext) (self : Publisher) (w : W) : Status * W :=
  let capacity := Z.to_nat (max_serialized_size descriptor) in
  let '(status, encoded, written) := Encode message (zeros capacity) in
  if negb (IsOk status) then (status, w)
  else if (length encoded <? written)%nat then (kInternal, w)
  else ChannelRef_Publish (pub_channel_ self) (pub_descriptor_ self) (take written encoded)
         source_timestamp_ns caller w.

Definition SubscriberCallback : Type :=
  Message -> MessageInfo -> ExecutionContext -> W -> Status * W.

(** [Subscriber::Dispatch] on a bound subscriber. *)
Definition Subscriber_Dispatch (callback : SubscriberCallback) : RawChannelCallback W :=
  fun encoded info caller w =>
    let '(status, message) := Decode encoded message_default in
    if IsOk status then callback message info caller w else (status, w).

Record Subscriber := MkSubscriber {
  sub_callback_ : option SubscriberCallback;
  sub_bound_ : bool
}.

Definition Subscriber_Bind (channel : ChannelRef W) (name : string)
    (callback : option SubscriberCallback) (self : Subscriber) (w : W) : Status * Subscriber * W :=
  match callback with
  | None => (kInvalidArgument, self, w)
  | Some dispatch =>
      if sub_bound_ self then (kInvalidArgument, self, w)
      else
        let '(status, w) := ChannelRef_RegisterSubscriber (Subscriber_Dispatch dispatch) channel
          (MkChannelDescriptor name descriptor) w in
        if negb (IsOk status) then (status, MkSubscriber None (sub_bound_ self), w)
        else (kOk, MkSubscriber callback true, w)
  end.
End TypedEndpoints.
Arguments Publisher : clear implicits.
Arguments Subscriber : clear implicits.
Arguments SubscriberCallback : clear implicits.

(** ** Lemmas: the handle is the backend

    A named thread caller and a well-formed descriptor survive the C table. *)
Definition channel_descriptor_wf (d : ChannelDescriptor) : Prop :=
  channel_name d <> ""%string /\ type_name (message_type d) <> ""%string /\
  0 < max_serialized_size (message_type d) <= SIZE_MAX /\ hash_wf (schema_hash (message_type d)).

Lemma ValidBuffer_of message : ValidBuffer (buffer_of message) = true.
Proof. unfold ValidBuffer. cbn. apply orb_true_r. Qed.

Lemma bytes_of_buffer message : bytes_of (buffer_of message) = message.
Proof. unfold bytes_of. cbn. by apply take_ge. Qed.

Lemma ChannelRef_Publish_handle {W} native (self : ChannelBackend W) active d message ts caller w :
  kind (native w) = kThread -> kind caller = kThread -> executor_name caller <> ""%string ->
  channel_descriptor_wf d ->
  ChannelRef_Publish (ChannelRef_make (Some (ChannelBackend_NativeHandle native self active)))
    d message ts (Some caller) w = backend_Publish self d message ts caller w.
Proof.
  intros Hn Hk Hc (Hd & Ht & Hm & Hh).
  cbn [ChannelRef_make ChannelBackend_NativeHandle channel_complete ChannelRef_Publish fmap option_fmap option_map].
  unfold ChannelPublish. rewrite ValidBuffer_of. cbn [negb].
  rewrite ResolveCallContext_named by auto. cbn [IsOk negb].
  rewrite FromAbiChannelDescriptor_ToAbi by done. cbn [IsOk negb].
  rewrite bool_decide_eq_false_2 by done. rewrite bytes_of_buffer. cbn [andb].
  destruct (backend_Publish self d message ts caller w) as [status w']. by rewrite FromAbiStatus_ToAbi.
Qed.

Lemma ChannelRef_Register_handle {W} native (self : ChannelBackend W) active d callback w :
  channel_descriptor_wf d ->
  let channel := ChannelRef_make (Some (ChannelBackend_NativeHandle native self active)) in
  ChannelRef_RegisterPublisher channel d w = backend_RegisterPublisher self d w /\
  ChannelRef_RegisterSubscriber callback channel d w =
    backend_RegisterSubscriber self d (Some (ChannelRef_Invoke callback)) w.
Proof.
  intros (Hd & Ht & Hm & Hh).
  cbn [ChannelRef_make ChannelBackend_NativeHandle channel_complete ChannelRef_RegisterPublisher
    ChannelRef_RegisterSubscriber ChannelRef_RegisterSubscriberAbi].
  unfold ChannelRegisterPublisher, ChannelRegisterSubscriber.
  rewrite FromAbiChannelDescriptor_ToAbi by done. cbn [IsOk negb]. split.
  - destruct (backend_RegisterPublisher self d w). by rewrite FromAbiStatus_ToAbi.
  - destruct (backend_RegisterSubscriber self d _ w). by rewrite FromAbiStatus_ToAbi.
Qed.
