(* ===== verification/LocalChannel.v ===== *)
(** [LocalChannel] ([aster_runtime/local_channel.hpp]): the in-process channel
    backend.

    The table of topics is fixed once the channel is sealed; the atomics a
    publication moves (the sequence of each topic and the statistics) live in
    the state [W] the subscribers act on, so that a subscriber may publish in
    turn. Concurrent publications interleave at those atomics, which is outside
    this sequential model. *)

From S2P Require Export Channel.

Local Open Scope Z_scope.

Record LocalChannelStats := MkLocalChannelStats {
  publications : Z;
  deliveries : Z;
  delivery_failures : Z
}.
#[global] Instance eta_LocalChannelStats : Eta LocalChannelStats := fun r =>
  MkLocalChannelStats (publications r) (deliveries r) (delivery_failures r).

(** The atomics; the sequence slot of a topic is found by the topic's name. *)
Record ChannelAtomics := MkAtomics {
  topic_sequence : gmap string Z;
  channel_stats : LocalChannelStats
}.
#[global] Instance eta_ChannelAtomics : Eta ChannelAtomics := fun r =>
  MkAtomics (topic_sequence r) (channel_stats r).

Definition ChannelAtomics_init : ChannelAtomics := MkAtomics ∅ (MkLocalChannelStats 0 0 0).

(** Where a program keeps the atomics of its channel. *)
Class HasAtomics (W : Type) := {
  atomics : W -> ChannelAtomics;
  set_atomics : ChannelAtomics -> W -> W
}.

Class HasAtomicsLaws (W : Type) `{HasAtomics W} : Prop := {
  atomics_set : forall a w, atomics (set_atomics a w) = a
}.

Module LocalChannel.
Section LocalChannel.
Context {W : Type} `{!HasAtomics W}.
Variables MaxTopics MaxSubscribersPerTopic : nat.
Variable MaximumMessageSize : Z.

Record Topic := MkTopic {
  topic_descriptor : ChannelDescriptor;
  subscribers : list (aster_channel_callback_t W);
  publisher_count : Z
}.
#[global] Instance eta_Topic : Eta Topic := fun r =>
  MkTopic (topic_descriptor r) (subscribers r) (publisher_count r).

Record t := Mk {
  topics_ : list Topic;
  sealed_ : bool
}.
#[global] Instance eta_t : Eta t := fun r => Mk (topics_ r) (sealed_ r).

Definition init : t := Mk [] false.

Definition topic_name (topic : Topic) : string := channel_name (topic_descriptor topic).

Definition Find (name : string) (self : t) : option Topic := find_entry topic_name name (topics_ self).

(** The status; on success the topic exists and is the one named. *)
Definition FindOrAdd (d : ChannelDescriptor) (self : t) : Status * t :=
  if bool_decide (channel_name d = ""%string) ||
     bool_decide (type_name (message_type d) = ""%string) ||
     (max_serialized_size (message_type d) =? 0) ||
     (MaximumMessageSize <? max_serialized_size (message_type d))
  then (kInvalidArgument, self)
  else match Find (channel_name d) self with
       | Some topic =>
           (if SameType (message_type (topic_descriptor topic)) (message_type d)
            then kOk else kTypeMismatch, self)
       | None =>
           if (length (topics_ self) =? MaxTopics)%nat then (kCapacityExceeded, self)
           else (kOk, self <| topics_ := topics_ self ++ [MkTopic d [] 0] |>)
       end.

(** The assignments through the topic pointer. *)
Definition update_topic (name : string) (f : Topic -> Topic) (self : t) : t :=
  self <| topics_ := update_entry topic_name name f (topics_ self) |>.

Definition RegisterPublisher (d : ChannelDescriptor) (self : t) : Status * t :=
  if sealed_ self then (kInvalidState, self)
  else
    let '(status, self) := FindOrAdd d self in
    if negb (IsOk status) then (status, self)
    else match Find (channel_name d) self with
         | None => (kInternal, self)
         | Some topic =>
             if publisher_count topic =? UINT16_MAX then (kCapacityExceeded, self)
             else (kOk, update_topic (channel_name d)
                    (fun topic => topic <| publisher_count := u16 (publisher_count topic + 1) |>) self)
         end.

Definition RegisterSubscriber (d : ChannelDescriptor) (callback : option (aster_channel_callback_t W))
    (self : t) : Status * t :=
  if sealed_ self then (kInvalidState, self)
  else match callback with
  | None => (kInvalidArgument, self)
  | Some callback =>
      let '(status, self) := FindOrAdd d self in
      if negb (IsOk status) then (status, self)
      else match Find (channel_name d) self with
           | None => (kInternal, self)
           | Some topic =>
               if (length (subscribers topic) =? MaxSubscribersPerTopic)%nat
               then (kCapacityExceeded, self)
               else (kOk, update_topic (channel_name d)
                      (fun topic => topic <| subscribers := subscribers topic ++ [callback] |>) self)
           end
  end.

(** [NextSequence]: zero is never used; the new value is returned. *)
Definition next_sequence (current : Z) : Z :=
  if current =? UINT32_MAX then 1 else u32 (current + 1).

Definition NextSequence (name : string) (w : W) : Z * W :=
  let current := default 0 (topic_sequence (atomics w) !! name) in
  let next := next_sequence current in
  (next, set_atomics ((atomics w) <| topic_sequence := <[name := next]> (topic_sequence (atomics w)) |>) w).

(** [counter.fetch_add(1)]. *)
Definition count (proj : LocalChannelStats -> Z) `{!Setter proj} (w : W) : W :=
  set_atomics ((atomics w) <| channel_stats := bump proj (channel_stats (atomics w)) |>) w.

(** The loop over the subscribers. *)
Fixpoint Publish_loop (callbacks : list (aster_channel_callback_t W)) (message : list Z)
    (info : MessageInfo) (caller : ExecutionContext) (first_failure : Status) (w : W) : Status * W :=
  match callbacks with
  | [] => (first_failure, w)
  | callback :: callbacks =>
      let '(code, w) := callback (buffer_of message) (Some (ToAbiMessageInfo info))
        (Some (ToAbiExecutionContext caller)) w in
      let status := FromAbiStatus code in
      if IsOk status then
        Publish_loop callbacks message info caller first_failure (count deliveries w)
      else
        Publish_loop callbacks message info caller
          (if IsOk first_failure then status else first_failure) (count delivery_failures w)
  end.

Definition Publish (self : t) (d : ChannelDescriptor) (message : list Z) (source_timestamp_ns : Z)
    (caller : ExecutionContext) (w : W) : Status * W :=
  if negb (sealed_ self) then (kInvalidState, w)
  else match Find (channel_name d) self with
       | None => (kNotFound, w)
       | Some topic =>
           if negb (SameType (message_type (topic_descriptor topic)) (message_type d)) ||
              (max_serialized_size (message_type d) <? Z.of_nat (length message)) ||
              (MaximumMessageSize <? Z.of_nat (length message))
           then (kTypeMismatch, w)
           else
             let '(sequence, w) := NextSequence (channel_name d) w in
             let w := count publications w in
             Publish_loop (subscribers topic) message (MkMessageInfo sequence source_timestamp_ns)
               caller kOk w
       end.

Definition Seal (self : t) : Status * t :=
  if sealed_ self then (kInvalidState, self)
  else if existsb (fun topic => negb (length (subscribers topic) =? 0)%nat && (publisher_count topic =? 0))
            (topics_ self)
  then (kUnavailable, self)
  else (kOk, self <| sealed_ := true |>).

(** ** Specification

    The accepted registrations, in order: the channel is a function of them. *)
Inductive registration :=
  | Pub (d : ChannelDescriptor)
  | Sub (d : ChannelDescriptor) (callback : aster_channel_callback_t W).

Definition reg_descriptor (r : registration) : ChannelDescriptor :=
  match r with Pub d | Sub d _ => d end.

Definition register (r : registration) (self : t) : Status * t :=
  match r with
  | Pub d => RegisterPublisher d self
  | Sub d callback => RegisterSubscriber d (Some callback) self
  end.

(** Run registrations, keeping the accepted ones. *)
Fixpoint run (rs : list registration) (self : t) : list registration * t :=
  match rs with
  | [] => ([], self)
  | r :: rs =>
      let '(status, self) := register r self in
      let '(accepted, self) := run rs self in
      (if IsOk status then r :: accepted else accepted, self)
  end.

Definition on_topic (name : string) (r : registration) : bool :=
  bool_decide (channel_name (reg_descriptor r) = name).

Definition subscribers_of (name : string) (accepted : list registration)
    : list (aster_channel_callback_t W) :=
  omap (fun r => match r with
                 | Sub d callback => if bool_decide (channel_name d = name) then Some callback else None
                 | Pub _ => None
                 end) accepted.

Definition has_publisher (name : string) (accepted : list registration) : bool :=
  existsb (fun r => match r with Pub d => bool_decide (channel_name d = name) | Sub _ _ => false end)
    accepted.

(** ** Invariant: the table against the accepted registrations. *)
Definition topic_inv (accepted : list registration) (name : string) (topic : option Topic) : Prop :=
  match topic with
  | None => existsb (on_topic name) accepted = false
  | Some topic =>
      topic_name topic = name /\
      (forall r, r ∈ accepted -> on_topic name r = true ->
         message_type (reg_descriptor r) = message_type (topic_descriptor topic)) /\
      subscribers topic = subscribers_of name accepted /\
      0 <= publisher_count topic <= UINT16_MAX /\
      (publisher_count topic = 0 <-> has_publisher name accepted = false) /\
      existsb (on_topic name) accepted = true /\
      max_serialized_size (message_type (topic_descriptor topic)) <= MaximumMessageSize
  end.

Definition inv (accepted : list registration) (self : t) : Prop :=
  (length (topics_ self) <= MaxTopics)%nat /\
  NoDup (topic_name <$> topics_ self) /\
  forall name, topic_inv accepted name (Find name self).

(** ** Lemmas: registration *)

Lemma Find_name name topic self : Find name self = Some topic -> topic_name topic = name.
Proof. apply find_entry_key. Qed.

Lemma find_none_keys name topics :
  find_entry topic_name name topics = None -> name ∉ topic_name <$> topics.
Proof.
  intros H (topic & -> & Hin)%list_elem_of_fmap. induction topics as [|first topics IH]; [by apply not_elem_of_nil in Hin|].
  cbn in H. destruct (bool_decide_reflect (topic_name first = topic_name topic)); [done|].
  apply elem_of_cons in Hin as [->|Hin]; [done|by apply IH].
Qed.

(** What [FindOrAdd] leaves: the topic of the descriptor, found or new. *)
Lemma FindOrAdd_spec d self :
  (length (topics_ self) <= MaxTopics)%nat -> NoDup (topic_name <$> topics_ self) ->
  let '(status, self') := FindOrAdd d self in
  if IsOk status then
    (length (topics_ self') <= MaxTopics)%nat /\ NoDup (topic_name <$> topics_ self') /\
    sealed_ self' = sealed_ self /\
    max_serialized_size (message_type d) <= MaximumMessageSize /\
    (exists topic, Find (channel_name d) self' = Some topic /\
       message_type (topic_descriptor topic) = message_type d /\
       ((Find (channel_name d) self = Some topic /\ self' = self) \/
        (Find (channel_name d) self = None /\ topic = MkTopic d [] 0))) /\
    (forall name, name <> channel_name d -> Find name self' = Find name self)
  else self' = self.
Proof.
  intros Hl Hn. unfold FindOrAdd. destruct (_ || _ || _ || _)%bool eqn:Hv; [done|]. bool_hyps.
  destruct (Find (channel_name d) self) as [topic|] eqn:Hf.
  - destruct (SameType _ _) eqn:Hs; [|done]. cbn. apply SameType_spec in Hs.
    split_and!; [done|done|done|done| |done]. exists topic. split_and!; [done|done|by left].
  - destruct (Nat.eqb_spec (length (topics_ self)) MaxTopics); [done|]. cbn.
    split_and!; [rewrite length_app; cbn; lia| |done|done| |].
    + rewrite fmap_app. apply NoDup_app. split_and!; [done| |by apply NoDup_singleton].
      intros x Hx ->%list_elem_of_singleton. by apply find_none_keys in Hf.
    + exists (MkTopic d [] 0). split_and!; [|done|by right]. unfold Find in *. cbn.
      rewrite find_entry_app, Hf. cbn. by rewrite bool_decide_eq_true_2.
    + intros name Hne. unfold Find. cbn. rewrite find_entry_app. destruct (find_entry _ _ _); [done|].
      cbn. rewrite bool_decide_eq_false_2; [done|]. by apply not_eq_sym.
Qed.

Lemma Find_update name name' f self :
  (forall topic, topic_name (f topic) = topic_name topic) ->
  Find name' (update_topic name f self) =
    if bool_decide (name = name') then f <$> Find name' self else Find name' self.
Proof. intros. by apply find_update_entry. Qed.

Lemma subscribers_of_snoc name accepted r :
  subscribers_of name (accepted ++ [r]) = subscribers_of name accepted ++ subscribers_of name [r].
Proof. apply omap_app. Qed.

Lemma has_publisher_snoc name accepted r :
  has_publisher name (accepted ++ [r]) = (has_publisher name accepted || has_publisher name [r])%bool.
Proof. apply existsb_app. Qed.

Lemma existsb_false_elem {A} (p : A -> bool) l x : existsb p l = false -> x ∈ l -> p x = false.
Proof.
  intros H Hin. destruct (p x) eqn:E; [|done].
  enough (existsb p l = true) by congruence. apply existsb_exists. exists x. by split; [apply list_elem_of_In|].
Qed.

Lemma subscribers_of_none name accepted :
  existsb (on_topic name) accepted = false -> subscribers_of name accepted = [].
Proof.
  induction accepted as [|r accepted IH]; [done|]. cbn. intros H. bool_hyps. unfold subscribers_of in *. cbn.
  destruct r as [d|d callback]; cbn in *; [by apply IH|]. unfold on_topic in H. cbn in H. rewrite H. by apply IH.
Qed.

Lemma has_publisher_none name accepted :
  existsb (on_topic name) accepted = false -> has_publisher name accepted = false.
Proof.
  induction accepted as [|r accepted IH]; [done|]. cbn. intros H. bool_hyps.
  unfold has_publisher in *. cbn. rewrite (IH H0), orb_false_r. by destruct r.
Qed.

(** Facts about one more registration on its own topic or on another one. *)
Lemma topic_inv_other accepted r name topic :
  name <> channel_name (reg_descriptor r) -> topic_inv accepted name topic ->
  topic_inv (accepted ++ [r]) name topic.
Proof.
  intros Hne. assert (on_topic name r = false) as Hoff
    by (apply bool_decide_eq_false; by apply not_eq_sym).
  assert (subscribers_of name [r] = []) as Hs by (apply subscribers_of_none; cbn; by rewrite Hoff).
  assert (has_publisher name [r] = false) as Hp by (apply has_publisher_none; cbn; by rewrite Hoff).
  destruct topic as [topic|]; cbn [topic_inv]; rewrite existsb_app; cbn [existsb]; rewrite Hoff, !orb_false_r; [|done].
  rewrite subscribers_of_snoc, has_publisher_snoc, Hs, Hp, app_nil_r, orb_false_r.
  intros (Hname & Htype & Hsubs & Hc & Hpub & Hex & Hmax). split_and!; try done; try lia.
  intros r' [Hin| ->%list_elem_of_singleton]%elem_of_app Hon; [by apply Htype|congruence].
Qed.

(** The topic as it is before the registration itself. *)
Lemma topic_inv_found accepted d self topic :
  topic_inv accepted (channel_name d) (Find (channel_name d) self) ->
  message_type (topic_descriptor topic) = message_type d ->
  max_serialized_size (message_type d) <= MaximumMessageSize ->
  Find (channel_name d) self = Some topic \/
    (Find (channel_name d) self = None /\ topic = MkTopic d [] 0) ->
  topic_name topic = channel_name d /\
  (forall r, r ∈ accepted -> on_topic (channel_name d) r = true ->
     message_type (reg_descriptor r) = message_type d) /\
  subscribers topic = subscribers_of (channel_name d) accepted /\
  0 <= publisher_count topic <= UINT16_MAX /\
  (publisher_count topic = 0 <-> has_publisher (channel_name d) accepted = false).
Proof.
  intros Ht Htype Hmax [Hf|[Hf ->]]; rewrite Hf in Ht; cbn in Ht.
  - destruct Ht as (? & Hr & ? & ? & ? & _). rewrite <- Htype. done.
  - split_and!; cbn; try done.
    + intros r Hin Hon. by rewrite (existsb_false_elem _ _ r Ht Hin) in Hon.
    + by rewrite subscribers_of_none.
    + by rewrite has_publisher_none.
Qed.

(** A registration that updates the topic [FindOrAdd] left. *)
Lemma registered_inv accepted r f self self' topic :
  let d := reg_descriptor r in
  inv accepted self ->
  (length (topics_ self') <= MaxTopics)%nat -> NoDup (topic_name <$> topics_ self') ->
  max_serialized_size (message_type d) <= MaximumMessageSize ->
  Find (channel_name d) self' = Some topic -> message_type (topic_descriptor topic) = message_type d ->
  Find (channel_name d) self = Some topic \/
    (Find (channel_name d) self = None /\ topic = MkTopic d [] 0) ->
  (forall name, name <> channel_name d -> Find name self' = Find name self) ->
  (forall topic, topic_descriptor (f topic) = topic_descriptor topic) ->
  subscribers (f topic) = subscribers topic ++ subscribers_of (channel_name d) [r] ->
  0 <= publisher_count (f topic) <= UINT16_MAX ->
  (publisher_count (f topic) = 0 <->
     publisher_count topic = 0 /\ has_publisher (channel_name d) [r] = false) ->
  inv (accepted ++ [r]) (update_topic (channel_name d) f self').
Proof.
  intros d (_ & _ & Hi) Hl Hn Hmax Hfind Htype Horigin Hother Hdesc Hsubs Hc Hpub.
  assert (forall topic, topic_name (f topic) = topic_name topic) as Hname
    by (intros; unfold topic_name; by rewrite Hdesc).
  split_and!.
  - cbn. by rewrite update_entry_length.
  - cbn. by rewrite update_entry_keys.
  - intros name. rewrite Find_update by done. destruct (bool_decide_reflect (channel_name d = name)) as [<-|Hne].
    + rewrite Hfind. cbn [fmap option_fmap option_map topic_inv].
      destruct (topic_inv_found accepted d self topic (Hi _) Htype Hmax Horigin) as (Hnm & Hr & Hs & Hcount & Hp).
      assert (on_topic (channel_name d) r = true) as Hon by (by apply bool_decide_eq_true).
      rewrite Hname, Hdesc, Hsubs, Hs, subscribers_of_snoc, has_publisher_snoc, existsb_app.
      cbn [existsb]. rewrite Hon, orb_true_r. split_and!; try done; try lia.
      * intros r' [Hin| ->%list_elem_of_singleton]%elem_of_app Hr'; [by rewrite Htype, (Hr r')|done].
      * rewrite Hpub, Hp, orb_false_iff. done.
      * by rewrite Htype.
    + rewrite Hother by (by apply not_eq_sym). apply topic_inv_other; [by apply not_eq_sym|apply Hi].
Qed.

Lemma register_inv accepted r self :
  (0 < MaxSubscribersPerTopic)%nat -> inv accepted self ->
  let '(status, self') := register r self in
  sealed_ self' = sealed_ self /\
  if IsOk status then inv (accepted ++ [r]) self' else self' = self.
Proof.
  intros Hpos I. pose proof I as (Hl & Hn & Hi). destruct r as [d|d callback]; cbn [register].
  - unfold RegisterPublisher. destruct (sealed_ self) eqn:Hsealed; [done|].
    pose proof (FindOrAdd_spec d self Hl Hn) as Hf.
    destruct (FindOrAdd d self) as [status self']. destruct (IsOk status) eqn:Hst; cbn [negb]; [|by rewrite Hst, Hf].
    destruct Hf as (Hl' & Hn' & Hs' & Hmax & (topic & Hfind & Htype & Horigin) & Hother). rewrite Hfind.
    assert (Find (channel_name d) self = Some topic \/
      (Find (channel_name d) self = None /\ topic = MkTopic d [] 0)) as Horigin' by tauto.
    pose proof (topic_inv_found accepted d self topic (Hi _) Htype Hmax Horigin') as (_ & _ & _ & Hcount & _).
    destruct (Z.eqb_spec (publisher_count topic) UINT16_MAX) as [Hfull|Hnot].
    + cbn. by destruct Horigin as [[_ ->]|[_ ->]].
    + cbn [IsOk]. split; [cbn; congruence|].
      assert (u16 (publisher_count topic + 1) = publisher_count topic + 1) as Hu
        by (apply u16_small; unfold UINT16_MAX in *; lia).
      apply (registered_inv accepted (Pub d) _ self self' topic); try done; cbn.
      * by rewrite app_nil_r.
      * rewrite Hu. unfold UINT16_MAX in *. lia.
      * rewrite Hu, bool_decide_eq_true_2 by done. lia.
  - unfold RegisterSubscriber. destruct (sealed_ self) eqn:Hsealed; [done|].
    pose proof (FindOrAdd_spec d self Hl Hn) as Hf.
    destruct (FindOrAdd d self) as [status self']. destruct (IsOk status) eqn:Hst; cbn [negb]; [|by rewrite Hst, Hf].
    destruct Hf as (Hl' & Hn' & Hs' & Hmax & (topic & Hfind & Htype & Horigin) & Hother). rewrite Hfind.
    assert (Find (channel_name d) self = Some topic \/
      (Find (channel_name d) self = None /\ topic = MkTopic d [] 0)) as Horigin' by tauto.
    pose proof (topic_inv_found accepted d self topic (Hi _) Htype Hmax Horigin') as (_ & _ & _ & Hcount & _).
    destruct (Nat.eqb_spec (length (subscribers topic)) MaxSubscribersPerTopic) as [Hfull|Hnot].
    + cbn. destruct Horigin as [[_ ->]|[_ ->]]; [done|]. cbn in Hfull. lia.
    + cbn [IsOk]. split; [cbn; congruence|].
      apply (registered_inv accepted (Sub d callback) _ self self' topic); try done; cbn.
      * unfold subscribers_of. cbn. by rewrite bool_decide_eq_true_2.
      * tauto.
Qed.

Lemma run_inv rs accepted self :
  (0 < MaxSubscribersPerTopic)%nat -> inv accepted self ->
  sealed_ (run rs self).2 = sealed_ self /\ inv (accepted ++ (run rs self).1) (run rs self).2.
Proof.
  intros Hpos. revert accepted self. induction rs as [|r rs IH]; intros accepted self I; cbn [run].
  { split; [done|]. cbn. by rewrite app_nil_r. }
  pose proof (register_inv accepted r self Hpos I) as Hr.
  destruct (register r self) as [status self1]. destruct Hr as [Hs Hr]. destruct (IsOk status) eqn:Hst.
  - destruct (IH _ _ Hr) as [Hs2 I2]. destruct (run rs self1) as [later self2]. cbn in *.
    split; [congruence|]. by rewrite <- app_assoc in I2.
  - subst self1. destruct (IH _ _ I) as [Hs2 I2]. by destruct (run rs self) as [later self2].
Qed.

Lemma channel_init_inv : inv [] init.
Proof. split_and!; [cbn; lia|constructor|]. by intros name. Qed.

Lemma Seal_topics self : topics_ (Seal self).2 = topics_ self.
Proof. unfold Seal. by repeat split_if. Qed.

(** A channel seals exactly when every subscribed topic has a publisher. *)
Lemma Seal_spec accepted self :
  inv accepted self -> sealed_ self = false ->
  (Seal self).1 = kOk <->
    (forall name, subscribers_of name accepted <> [] -> has_publisher name accepted = true).
Proof.
  intros (_ & Hn & Hi) Hs. unfold Seal. rewrite Hs.
  destruct (existsb _ (topics_ self)) eqn:E.
  - split; [done|]. intros H. apply existsb_exists in E as (topic & Hin%list_elem_of_In & Ht).
    bool_hyps. specialize (Hi (topic_name topic)). unfold Find in Hi.
    assert (find_entry topic_name (topic_name topic) (topics_ self) = Some topic) as Hf.
    { clear -Hn Hin. induction (topics_ self) as [|first topics IH]; [by apply not_elem_of_nil in Hin|].
      rewrite fmap_cons in Hn. apply NoDup_cons in Hn as [Hfirst Hn]. cbn.
      apply elem_of_cons in Hin as [->|Hin]; [by rewrite bool_decide_eq_true_2|].
      rewrite bool_decide_eq_false_2; [by apply IH|]. intros Heq. apply Hfirst. rewrite Heq.
      apply list_elem_of_fmap. by exists topic. }
    rewrite Hf in Hi. destruct Hi as (_ & _ & Hsubs & _ & Hp & _).
    specialize (H (topic_name topic)). rewrite (proj1 Hp) in H by done.
    enough (false = true) by done. apply H. rewrite <- Hsubs. by intros Hnil; rewrite Hnil in *.
  - split; [|done]. intros _ name Hne. specialize (Hi name). destruct (Find name self) as [topic|] eqn:Hf.
    + destruct Hi as (_ & _ & Hsubs & _ & Hp & _). destruct (has_publisher name accepted); [done|].
      apply find_entry_elem in Hf. pose proof (existsb_false_elem _ _ _ E Hf) as Ht. cbn in Ht.
      rewrite (proj2 Hp), Hsubs in Ht by done. by destruct (subscribers_of name accepted).
    + by rewrite subscribers_of_none in Hne.
Qed.

(** The topic a sealed channel finds, in terms of the registrations. *)
Lemma Find_accepted accepted self name r :
  inv accepted self -> r ∈ accepted -> on_topic name r = true ->
  exists topic, Find name self = Some topic /\
    message_type (topic_descriptor topic) = message_type (reg_descriptor r) /\
    subscribers topic = subscribers_of name accepted /\
    max_serialized_size (message_type (reg_descriptor r)) <= MaximumMessageSize.
Proof.
  intros (_ & _ & Hi) Hin Hon. specialize (Hi name). destruct (Find name self) as [topic|].
  - destruct Hi as (_ & Htype & Hsubs & _ & _ & _ & Hmax). exists topic.
    rewrite (Htype r Hin Hon). split_and!; done.
  - by rewrite (existsb_false_elem _ _ r Hi Hin) in Hon.
Qed.

Lemma next_sequence_range current : 0 <= current <= UINT32_MAX -> 1 <= next_sequence current <= UINT32_MAX.
Proof.
  intros H. unfold next_sequence, UINT32_MAX in *. destruct (Z.eqb_spec current (2 ^ 32 - 1)); [lia|].
  rewrite u32_small by lia. lia.
Qed.

(** [Publish] on a sealed channel, by its accepted registrations. *)
Lemma Publish_accepted accepted self d message ts caller w :
  inv accepted self -> sealed_ self = true ->
  ((forall r, r ∈ accepted -> on_topic (channel_name d) r = false) ->
     Publish self d message ts caller w = (kNotFound, w)) /\
  (forall r, r ∈ accepted -> on_topic (channel_name d) r = true ->
     Publish self d message ts caller w =
       if bool_decide (message_type (reg_descriptor r) = message_type d) &&
          (Z.of_nat (length message) <=? max_serialized_size (message_type d))
       then
         let '(sequence, w) := NextSequence (channel_name d) w in
         Publish_loop (subscribers_of (channel_name d) accepted) message (MkMessageInfo sequence ts)
           caller kOk (count publications w)
       else (kTypeMismatch, w)).
Proof.
  intros I Hs. unfold Publish. rewrite Hs. cbn [negb]. split.
  - intros Hnone. destruct I as (_ & _ & Hi). specialize (Hi (channel_name d)).
    destruct (Find (channel_name d) self) as [topic|]; [|done]. exfalso.
    destruct Hi as (_ & _ & _ & _ & _ & Hex & _). apply existsb_exists in Hex as (r & Hin%list_elem_of_In & Hon).
    by rewrite Hnone in Hon.
  - intros r Hin Hon. destruct (Find_accepted accepted self _ r I Hin Hon) as (topic & -> & -> & -> & Hmax).
    destruct (bool_decide_reflect (message_type (reg_descriptor r) = message_type d)) as [Heq|Hne]; cbn [andb].
    + rewrite (proj2 (SameType_spec _ _) Heq). cbn [negb orb]. rewrite Heq in Hmax.
      destruct (Z.leb_spec (Z.of_nat (length message)) (max_serialized_size (message_type d))).
      * guard_false (max_serialized_size (message_type d) <? Z.of_nat (length message)).
        guard_false (MaximumMessageSize <? Z.of_nat (length message)). done.
      * by guard_true (max_serialized_size (message_type d) <? Z.of_nat (length message)).
    + destruct (SameType _ _) eqn:E; [by apply SameType_spec in E|done].
Qed.

(** The backend this channel is, behind its C table; registrations are over. *)
Definition backend (self : t) : ChannelBackend W :=
  MkChannelBackend (fun d w => ((RegisterPublisher d self).1, w))
    (fun d callback w => ((RegisterSubscriber d callback self).1, w)) (Publish self).

(** ** Typed delivery: what a publication means to typed subscribers. *)
Fixpoint typed_loop {Message} (callbacks : list (SubscriberCallback W Message)) (message : Message)
    (info : MessageInfo) (caller : ExecutionContext) (first_failure : Status) (w : W) : Status * W :=
  match callbacks with
  | [] => (first_failure, w)
  | callback :: callbacks =>
      let '(status, w) := callback message info caller w in
      typed_loop callbacks message info caller
        (if IsOk first_failure then status else first_failure)
        (if IsOk status then count deliveries w else count delivery_failures w)
  end.

Lemma Publish_loop_typed {Message} `{!MessageType Message} callbacks message bytes info caller first w :
  executor_name caller <> ""%string ->
  (forall out, Decode bytes out = (kOk, message)) ->
  Publish_loop ((fun callback => ChannelRef_Invoke (Subscriber_Dispatch callback)) <$> callbacks)
    bytes info caller first w = typed_loop callbacks message info caller first w.
Proof.
  intros Hc Hd. revert first w. induction callbacks as [|callback callbacks IH]; intros first w; [done|].
  cbn [fmap list_fmap Publish_loop typed_loop]. unfold ChannelRef_Invoke at 1.
  rewrite ValidateAbiExecutionContext_named, FromAbiExecutionContext_ToAbi by done.
  cbn [buffer_of bv_data bv_size IsOk negb]. rewrite bool_decide_eq_false_2 by done. cbn [andb].
  unfold Subscriber_Dispatch at 1. unfold bytes_of. cbn [buffer_of bv_data bv_size].
  rewrite take_ge, Hd by done. cbn [IsOk ToAbiMessageInfo abi_sequence abi_source_timestamp_ns].
  destruct info as [seq ts]. cbn [info_sequence info_source_timestamp_ns].
  destruct (callback message (MkMessageInfo seq ts) caller w) as [status w'].
  rewrite FromAbiStatus_ToAbi. destruct (IsOk status) eqn:E; rewrite <- IH; [|done].
  apply IsOk_spec in E as ->. by destruct first.
Qed.
End LocalChannel.
Arguments Topic : clear implicits.
Arguments t : clear implicits.
Arguments registration : clear implicits.

(** ** Properties *)


#[local] Instance witness_atomics : HasAtomics (ChannelAtomics * list (list Z)) := {|
  atomics := fst;
  set_atomics := fun a w => (a, w.2)
|}.

Definition witness_type : TypeDescriptor := MkTypeDescriptor "Imu" SchemaHash_zero 4.
Definition witness_descriptor : ChannelDescriptor := MkChannelDescriptor "imu" witness_type.
Definition witness_callback : aster_channel_callback_t (ChannelAtomics * list (list Z)) :=
  fun message _ _ w => (0, (w.1, w.2 ++ [bytes_of message])).

Definition witness_registrations : list (registration (ChannelAtomics * list (list Z))) :=
  [Pub witness_descriptor; Sub witness_descriptor witness_callback].
Definition witness_channel : t (ChannelAtomics * list (list Z)) :=
  (Seal (run 2 1 8 witness_registrations init).2).2.


(** A typed message published on a sealed channel reaches every typed
    subscriber of the topic as the same message: through encoding, the C
    function table, the channel and decoding, each subscriber's callback runs
    once, in order, on the very message, sequence number, timestamp and caller
    that were published; the first failing callback decides the status and the
    statistics count each outcome. *)
Theorem typed_channel_delivery {W Message} `{!HasAtomics W} `{!MessageType Message}
    `{!MessageTypeLaws Message} MaximumMessageSize native active accepted (self : t W) MaxTopics name
    (callbacks : list (SubscriberCallback W Message)) message encoded written ts caller w r :
  inv MaxTopics MaximumMessageSize accepted self -> sealed_ self = true ->
  r ∈ accepted -> reg_descriptor r = MkChannelDescriptor name descriptor -> name <> ""%string ->
  subscribers_of name accepted =
    (fun callback => ChannelRef_Invoke (Subscriber_Dispatch callback)) <$> callbacks ->
  Encode message (zeros (Z.to_nat (max_serialized_size descriptor))) = (kOk, encoded, written) ->
  kind (native w) = kThread -> kind caller = kThread -> executor_name caller <> ""%string ->
  let channel := ChannelRef_make
    (Some (ChannelBackend_NativeHandle native (backend MaxTopics 0 MaximumMessageSize self) active)) in
  Publisher_Publish message ts (Some caller)
      (MkPublisher channel (MkChannelDescriptor name descriptor)) w =
    let '(sequence, w) := NextSequence name w in
    typed_loop callbacks message (MkMessageInfo sequence ts) caller kOk (count publications w).
Proof.
  intros I Hs Hin Hr Hname Hsubs Henc Hnat Hthread Hcaller channel.
  destruct (descriptor_wf (Message := Message)) as (Htn & Hmax & Hhash).
  destruct (Encode_fits message _ kOk encoded written Henc) as [Hl Hw];
    [by rewrite zeros_length|done|]. rewrite zeros_length in Hl.
  unfold Publisher_Publish. rewrite Henc. cbn [IsOk negb].
  guard_false (length encoded <? written)%nat.
  cbn [pub_channel_ pub_descriptor_]. unfold channel.
  rewrite ChannelRef_Publish_handle by done. cbn [backend backend_Publish].
  destruct (Publish_accepted MaxTopics MaximumMessageSize accepted self (MkChannelDescriptor name descriptor)
    (take written encoded) ts caller w I Hs) as [_ Hpub].
  rewrite (Hpub r Hin) by (unfold on_topic; rewrite Hr; by apply bool_decide_eq_true).
  rewrite Hr. cbn [message_type channel_name]. rewrite bool_decide_eq_true_2 by done.
  assert (length (take written encoded) <= written)%nat by (rewrite length_take; lia).
  guard_true (Z.of_nat (length (take written encoded)) <=? max_serialized_size descriptor).
  cbn [andb]. destruct (NextSequence name w) as [sequence w1]. rewrite Hsubs.
  rewrite (Publish_loop_typed callbacks message); [|done|intros out; by eapply Decode_Encode].
  done.
Qed.

(** *** Witness: a one-byte message type. *)

#[local] Instance witness_message : MessageType bool := {|
  message_default := false;
  descriptor := MkTypeDescriptor "Flag" SchemaHash_zero 1;
  Encode := fun flag output =>
    match output with
    | [] => (kCapacityExceeded, output, 0%nat)
    | _ :: rest => (kOk, (if flag then 1 else 0) :: rest, 1%nat)
    end;
  Decode := fun bytes out =>
    match bytes with [b] => (kOk, negb (b =? 0)) | _ => (kProtocolError, out) end
|}.

#[local] Instance witness_message_laws : MessageTypeLaws bool.
Proof.
  split.
  - split; [done|]. split; [cbn; unfold SIZE_MAX, UINT64_MAX; lia|]. split; [done|apply zeros_bytes].
  - intros flag [|b output] st encoded written; cbn; intros [= <- <- <-] H1 H; [done|cbn; lia].
  - intros flag [|b output] encoded written out; cbn; intros [= <- <-]. by destruct flag.
Qed.

#[local] Instance witness_flags : HasAtomics (ChannelAtomics * list bool) := {|
  atomics := fst;
  set_atomics := fun a w => (a, w.2)
|}.

Definition witness_flag_callback : SubscriberCallback (ChannelAtomics * list bool) bool :=
  fun flag _ _ w => (kOk, (w.1, w.2 ++ [flag])).

Definition witness_flag_registrations : list (registration (ChannelAtomics * list bool)) :=
  [Pub (MkChannelDescriptor "flag" descriptor);
   Sub (MkChannelDescriptor "flag" descriptor)
     (ChannelRef_Invoke (Subscriber_Dispatch witness_flag_callback))].

Definition witness_flag_channel : t (ChannelAtomics * list bool) :=
  (Seal (run 1 1 8 witness_flag_registrations init).2).2.

Lemma witness_flag_inv : inv 1 8 witness_flag_registrations witness_flag_channel.
Proof.
  pose proof (run_inv 1 1 8 witness_flag_registrations [] init ltac:(lia) (channel_init_inv 1 8)) as [_ I].
  pose proof (Seal_topics (run 1 1 8 witness_flag_registrations init).2) as Ht.
  unfold inv, Find in *. unfold witness_flag_channel. by rewrite Ht.
Qed.

Lemma typed_channel_delivery_witness :
  let caller := MkExecutionContext "io" kThread 0 in
  let channel := ChannelRef_make
    (Some (ChannelBackend_NativeHandle (fun _ => caller) (backend 1 0 8 witness_flag_channel) [])) in
  (Publisher_Publish true 9 (Some caller)
    (MkPublisher channel (MkChannelDescriptor "flag" descriptor)) (ChannelAtomics_init, [])).2.2 = [true].
Proof.
  intros caller channel. unfold channel.
  rewrite (typed_channel_delivery 8 (fun _ => caller) [] witness_flag_registrations witness_flag_channel 1
    "flag" [witness_flag_callback] true [1] 1 9 caller (ChannelAtomics_init, [])
    (Pub (MkChannelDescriptor "flag" descriptor)) witness_flag_inv eq_refl ltac:(by left) eq_refl ltac:(done)
    eq_refl eq_refl eq_refl eq_refl ltac:(done)).
  vm_compute. reflexivity.
Defined.
End LocalChannel.
