(* ===== verification/Rpc.v ===== *)
(** Remote procedure calls: service descriptors, the handle of modules, typed
    clients and servers ([aster_module_cpp_interface/rpc.hpp]), the functions
    behind the handle ([core/service/rpc.cpp]) and the static router
    ([aster_runtime/rpc_router.hpp]). *)

From S2P Require Export Channel.

Local Open Scope Z_scope.

(** ** Services *)

Record ServiceDescriptor := MkServiceDescriptor {
  service_name : string;
  service_schema_hash : SchemaHash;
  request_type : TypeDescriptor;
  response_type : TypeDescriptor;
  service_instance_name : string
}.

#[export] Instance ServiceDescriptor_eq_dec : EqDecision ServiceDescriptor.
Proof. solve_decision. Defined.

Definition ServiceDescriptor_default : ServiceDescriptor :=
  MkServiceDescriptor "" SchemaHash_zero TypeDescriptor_default TypeDescriptor_default "".

Definition SameServiceIdentity (left right : ServiceDescriptor) : bool :=
  bool_decide (service_name left = service_name right) &&
  bool_decide (service_instance_name left = service_instance_name right).

Definition SameService (left right : ServiceDescriptor) : bool :=
  SameServiceIdentity left right &&
  bool_decide (service_schema_hash left = service_schema_hash right) &&
  SameType (request_type left) (request_type right) &&
  SameType (response_type left) (response_type right).

Record RpcCallInfo := MkRpcCallInfo {
  request_id : Z;
  deadline_ns : Z
}.

Definition RpcCallInfo_default : RpcCallInfo := MkRpcCallInfo 0 0.

(** ** The C interface *)

Record aster_service_descriptor_t := AbiServiceDescriptor {
  abi_service_name : aster_string_view_t;
  abi_service_schema_hash : list Z;
  abi_request_type : aster_type_descriptor_t;
  abi_response_type : aster_type_descriptor_t;
  abi_service_instance_name : aster_string_view_t
}.

Record aster_rpc_call_info_t := AbiRpcCallInfo {
  abi_request_id : Z;
  abi_deadline_ns : Z
}.

Definition ToAbiServiceDescriptor (descriptor : ServiceDescriptor) : aster_service_descriptor_t :=
  AbiServiceDescriptor (ToAbiString (service_name descriptor))
    (ToAbiSchemaHash (service_schema_hash descriptor))
    (ToAbiTypeDescriptor (request_type descriptor))
    (ToAbiTypeDescriptor (response_type descriptor))
    (ToAbiString (service_instance_name descriptor)).

(** Status and [result]. *)
Definition FromAbiServiceDescriptor (descriptor : option aster_service_descriptor_t)
    (result : ServiceDescriptor) : Status * ServiceDescriptor :=
  match descriptor with
  | None => (kInvalidArgument, result)
  | Some d =>
      if bool_decide (sv_data (abi_service_name d) = None) || (sv_size (abi_service_name d) =? 0)%nat ||
         (bool_decide (sv_data (abi_service_instance_name d) = None) &&
          negb (sv_size (abi_service_instance_name d) =? 0)%nat)
      then (kInvalidArgument, result)
      else
        let '(status, request) := FromAbiTypeDescriptor (Some (abi_request_type d)) TypeDescriptor_default in
        if negb (IsOk status) then (status, result)
        else
          let '(status, response) :=
            FromAbiTypeDescriptor (Some (abi_response_type d)) TypeDescriptor_default in
          if negb (IsOk status) then (status, result)
          else (kOk, MkServiceDescriptor (FromAbiString (abi_service_name d))
                       (FromAbiSchemaHash (abi_service_schema_hash d)) request response
                       (FromAbiString (abi_service_instance_name d)))
  end.

Definition ToAbiRpcCallInfo (info : RpcCallInfo) : aster_rpc_call_info_t :=
  AbiRpcCallInfo (request_id info) (deadline_ns info).

(** What a handler leaves behind besides its status: the caller's response
    buffer and the size stored through [response_size]. *)
Record RpcReply := MkReply {
  reply_code : Z;
  reply_response : list Z;
  reply_size : nat
}.

(** The bytes of a writable buffer; nothing behind a null pointer. *)
Definition buffer_bytes (buffer : aster_bytes_view_t) : list Z := default [] (bv_data buffer).

Section RpcInterface.
Context {W C : Type}.

(** [request], the response buffer with its capacity, the nullable
    [response_size], [info] and [caller]. *)
Definition aster_rpc_handler_t : Type :=
  aster_bytes_view_t -> aster_bytes_view_t -> option nat -> option aster_rpc_call_info_t ->
  option aster_execution_context_t -> W -> RpcReply * W.

(** The code behind a completion; [C] stands for the pair of pointers, function
    and state, that denotes it while the call is pending. *)
Definition aster_rpc_completion_t : Type :=
  Z -> aster_bytes_view_t -> option aster_rpc_call_info_t -> option aster_execution_context_t ->
  W -> W.

Record aster_rpc_base_t := AbiRpc {
  rpc_complete : bool;
  abi_register_client : option (option aster_service_descriptor_t -> W -> Z * W);
  abi_register_server :
    option (option aster_service_descriptor_t -> option aster_rpc_handler_t -> W -> Z * W);
  abi_call_async :
    option (option aster_service_descriptor_t -> aster_bytes_view_t -> Z ->
            option C -> option aster_execution_context_t -> W -> Z * W)
}.

(** ** [RpcRef] *)

Definition RpcRef : Type := option aster_rpc_base_t.

Definition RpcRef_make (backend : option aster_rpc_base_t) : RpcRef :=
  match backend with
  | Some base => if rpc_complete base then backend else None
  | None => None
  end.

Definition RpcRef_RegisterClient (rpc : RpcRef) (descriptor : ServiceDescriptor) (w : W)
    : Status * W :=
  match rpc with
  | Some (AbiRpc _ (Some register_client) _ _) =>
      let '(code, w) := register_client (Some (ToAbiServiceDescriptor descriptor)) w in
      (FromAbiStatus code, w)
  | _ => (kUnavailable, w)
  end.

Definition RpcRef_RegisterServer (rpc : RpcRef) (descriptor : ServiceDescriptor)
    (handler : option aster_rpc_handler_t) (w : W) : Status * W :=
  match rpc with
  | Some (AbiRpc _ _ (Some register_server) _) =>
      let '(code, w) := register_server (Some (ToAbiServiceDescriptor descriptor)) handler w in
      (FromAbiStatus code, w)
  | _ => (kUnavailable, w)
  end.

Definition RpcRef_CallAsync (rpc : RpcRef) (descriptor : ServiceDescriptor) (request : list Z)
    (deadline_ns : Z) (completion : option C)
    (caller : option ExecutionContext) (w : W) : Status * W :=
  match rpc with
  | Some (AbiRpc _ _ _ (Some call_async)) =>
      let '(code, w) := call_async (Some (ToAbiServiceDescriptor descriptor)) (buffer_of request)
        deadline_ns completion (ToAbiExecutionContext <$> caller) w in
      (FromAbiStatus code, w)
  | _ => (kUnavailable, w)
  end.

(** ** The abstract class [RpcBackend], a [Registry], and its table

    A backend is an object of the program; its methods act on [W]. *)
Record RpcBackend := MkRpcBackend {
  rpc_RegisterClient : ServiceDescriptor -> W -> Status * W;
  rpc_RegisterServer : ServiceDescriptor -> option aster_rpc_handler_t -> W -> Status * W;
  rpc_CallAsync : ServiceDescriptor -> list Z -> Z -> option C ->
    ExecutionContext -> W -> Status * W;
  rpc_Seal : W -> Status * W;
  rpc_sealed : W -> bool
}.

Variable NativeExecutionContext : W -> ExecutionContext.

Definition RpcRegisterClient (self : RpcBackend) (descriptor : option aster_service_descriptor_t)
    (w : W) : Z * W :=
  let '(status, native) := FromAbiServiceDescriptor descriptor ServiceDescriptor_default in
  if IsOk status then
    let '(status, w) := rpc_RegisterClient self native w in (ToAbiStatus status, w)
  else (ToAbiStatus status, w).

Definition RpcRegisterServer (self : RpcBackend) (descriptor : option aster_service_descriptor_t)
    (handler : option aster_rpc_handler_t) (w : W) : Z * W :=
  match handler with
  | None => (ASTER_STATUS_INVALID_ARGUMENT, w)
  | Some _ =>
      let '(status, native) := FromAbiServiceDescriptor descriptor ServiceDescriptor_default in
      if IsOk status then
        let '(status, w) := rpc_RegisterServer self native handler w in (ToAbiStatus status, w)
      else (ToAbiStatus status, w)
  end.

Definition RpcCallAsync (self : RpcBackend) (active : list (ExecutionScope W))
    (descriptor : option aster_service_descriptor_t) (request : aster_bytes_view_t)
    (deadline_ns : Z) (completion : option C)
    (caller : option aster_execution_context_t) (w : W) : Z * W :=
  if bool_decide (completion = None) || negb (ValidBuffer request)
  then (ASTER_STATUS_INVALID_ARGUMENT, w)
  else
    let '(context_status, resolved) :=
      ResolveCallContext NativeExecutionContext active caller unmanaged false w in
    if negb (IsOk context_status) then (ToAbiStatus context_status, w)
    else
      let '(status, native) := FromAbiServiceDescriptor descriptor ServiceDescriptor_default in
      if negb (IsOk status) then (ToAbiStatus status, w)
      else
        let '(status, w) := rpc_CallAsync self native (bytes_of request) deadline_ns completion
          resolved w in
        (ToAbiStatus status, w).

Definition RpcBackend_NativeHandle (self : RpcBackend) (active : list (ExecutionScope W))
    : aster_rpc_base_t :=
  AbiRpc true (Some (RpcRegisterClient self)) (Some (RpcRegisterServer self))
    (Some (RpcCallAsync self active)).
End RpcInterface.

Arguments aster_rpc_handler_t : clear implicits.
Arguments aster_rpc_completion_t : clear implicits.
Arguments aster_rpc_base_t : clear implicits.
Arguments RpcRef : clear implicits.
Arguments RpcBackend : clear implicits.

(** ** Objects of the program

    An object that outlives a call is a part of [W], read and written in place. *)
Record Cell (W A : Type) := MkCell { load : W -> A; store : A -> W -> W }.
Arguments MkCell {_ _}.
Arguments load {_ _}.
Arguments store {_ _}.

Class CellLaws {W A} (cell : Cell W A) : Prop := {
  load_store : forall a w, load cell (store cell a w) = a;
  store_load : forall w, store cell (load cell w) w = w;
  store_store : forall a b w, store cell a (store cell b w) = store cell a w
}.

(** ** Typed services

    [ServiceTypeSupport<Service>] is generated per method. *)
Section TypedService.
Context {W C K Request Response : Type} `{!MessageType Request} `{!MessageType Response}.

(** [ServiceTypeSupport<Service>::descriptor()]. *)
Class ServiceType := {
  method_full_name : string;
  service_hash : SchemaHash
}.

Definition service_descriptor `{ServiceType} : ServiceDescriptor :=
  MkServiceDescriptor method_full_name service_hash
    (descriptor (Message := Request)) (descriptor (Message := Response)) "".

Definition with_instance_name (instance_name : string) (d : ServiceDescriptor) : ServiceDescriptor :=
  MkServiceDescriptor (service_name d) (service_schema_hash d) (request_type d) (response_type d)
    instance_name.

(** *** [RpcCompletion] *)

(** The code behind a [Callback] and its state; [K] stands for the pair of
    pointers. *)
Definition CompletionCallback : Type :=
  Status -> Response -> RpcCallInfo -> ExecutionContext -> W -> W.

Record RpcCompletion := MkRpcCompletion {
  completion_callback_ : option K;
  completion_pending_ : bool
}.

Definition RpcCompletion_init : RpcCompletion := MkRpcCompletion None false.

Section Completion.
Variable callback_fn : K -> CompletionCallback.
Variable completion : Cell W RpcCompletion.

Definition RpcCompletion_Prepare (callback : option K) (w : W) : Status * W :=
  match callback with
  | None => (kInvalidArgument, w)
  | Some _ =>
      if completion_pending_ (load completion w) then (kInvalidState, w)
      else (kOk, store completion (MkRpcCompletion callback true) w)
  end.

Definition RpcCompletion_Cancel (w : W) : W := store completion RpcCompletion_init w.

Definition RpcCompletion_Dispatch : aster_rpc_completion_t W :=
  fun status response_data info context w =>
    let result := FromAbiStatus status in
    let '(result, response) :=
      if bool_decide (bv_data response_data = None) && negb (bv_size response_data =? 0)%nat
      then (kProtocolError, message_default)
      else if IsOk result then Decode (bytes_of response_data) message_default
      else (result, message_default) in
    let callback := completion_callback_ (load completion w) in
    let w := RpcCompletion_Cancel w in
    match callback, info, context with
    | Some callback, Some info, Some abi_context =>
        if IsOk (ValidateAbiExecutionContext context) then
          callback_fn callback result response (MkRpcCallInfo (abi_request_id info) (abi_deadline_ns info))
            (FromAbiExecutionContext abi_context) w
        else w
    | _, _, _ => w
    end.
End Completion.

(** *** [RpcClient] *)

Record RpcClient := MkRpcClient {
  client_rpc_ : RpcRef W C;
  client_descriptor_ : ServiceDescriptor
}.

Definition RpcClient_init : RpcClient := MkRpcClient None ServiceDescriptor_default.

Definition RpcClient_Bind `{ServiceType} (rpc : RpcRef W C) (instance_name : string)
    (self : RpcClient) (w : W) : Status * RpcClient * W :=
  let d := with_instance_name instance_name service_descriptor in
  let '(status, w) := RpcRef_RegisterClient rpc d w in
  (status, if IsOk status then MkRpcClient rpc d else self, w).

(** [dispatch] denotes [Completion::Dispatch] on [&completion]. *)
Definition RpcClient_CallAsync (request : Request) (deadline_ns : Z)
    (completion : Cell W RpcCompletion) (dispatch : C) (callback : option K)
    (caller : option ExecutionContext) (self : RpcClient) (w : W) : Status * W :=
  let request_bytes := zeros (Z.to_nat (max_serialized_size (descriptor (Message := Request)))) in
  let '(status, request_bytes, request_size) := Encode request request_bytes in
  if negb (IsOk status) then (status, w)
  else if (length request_bytes <? request_size)%nat then (kInternal, w)
  else
    let '(status, w) := RpcCompletion_Prepare completion callback w in
    if negb (IsOk status) then (status, w)
    else
      let '(status, w) := RpcRef_CallAsync (client_rpc_ self) (client_descriptor_ self)
        (take request_size request_bytes) deadline_ns
        (Some dispatch) caller w in
      (status, if negb (IsOk status) then RpcCompletion_Cancel completion w else w).

(** *** [RpcServer] *)

(** [Handler] with its state bound; the response is filled in by reference. *)
Definition RpcHandler : Type :=
  Request -> Response -> RpcCallInfo -> ExecutionContext -> W -> Status * Response * W.

(** [RpcServer::Dispatch] on a bound server. *)
Definition RpcServer_Dispatch (handler : RpcHandler) : aster_rpc_handler_t W :=
  fun request_data response response_size info caller w =>
    let reply code size := MkReply code (buffer_bytes response) size in
    match response_size with
    | None => (reply ASTER_STATUS_INVALID_ARGUMENT 0%nat, w)
    | Some size =>
        if (bool_decide (bv_data request_data = None) && negb (bv_size request_data =? 0)%nat) ||
           (bool_decide (bv_data response = None) && negb (bv_size response =? 0)%nat)
        then (reply ASTER_STATUS_INVALID_ARGUMENT size, w)
        else match info with
        | None => (reply ASTER_STATUS_INVALID_ARGUMENT size, w)
        | Some info =>
            let context_status := ValidateAbiExecutionContext caller in
            match caller with
            | None => (reply (ToAbiStatus context_status) size, w)
            | Some abi_caller =>
                if negb (IsOk context_status) then (reply (ToAbiStatus context_status) size, w)
                else
                  let '(status, request) := Decode (bytes_of request_data) message_default in
                  if negb (IsOk status) then (reply (ToAbiStatus status) 0%nat, w)
                  else
                    let '(status, message, w) := handler request message_default
                      (MkRpcCallInfo (abi_request_id info) (abi_deadline_ns info))
                      (FromAbiExecutionContext abi_caller) w in
                    if negb (IsOk status) then (reply (ToAbiStatus status) 0%nat, w)
                    else
                      let '(status, bytes, written) :=
                        Encode message (take (bv_size response) (buffer_bytes response)) in
                      (MkReply (ToAbiStatus status)
                         (bytes ++ drop (bv_size response) (buffer_bytes response)) written, w)
            end
        end
    end.

Record RpcServer := MkRpcServer {
  server_handler_ : option RpcHandler;
  server_bound_ : bool
}.

Definition RpcServer_init : RpcServer := MkRpcServer None false.

Definition RpcServer_Bind `{ServiceType} (rpc : RpcRef W C) (handler : option RpcHandler)
    (instance_name : string) (self : RpcServer) (w : W) : Status * RpcServer * W :=
  match handler with
  | None => (kInvalidArgument, self, w)
  | Some dispatch =>
      if server_bound_ self then (kInvalidArgument, self, w)
      else
        let '(status, w) := RpcRef_RegisterServer rpc
          (with_instance_name instance_name service_descriptor)
          (Some (RpcServer_Dispatch dispatch)) w in
        if negb (IsOk status) then (status, MkRpcServer None (server_bound_ self), w)
        else (kOk, MkRpcServer handler true, w)
  end.
End TypedService.

Arguments ServiceType : clear implicits.
Arguments RpcCompletion : clear implicits.
Arguments CompletionCallback : clear implicits.
Arguments RpcClient : clear implicits.
Arguments RpcServer : clear implicits.
Arguments RpcHandler : clear implicits.

(** ** [RpcRouter]

    Backends are objects of the program; [BackendId] stands for a pointer to
    one and [backend_at] for what it points to. *)
Definition BackendId : Type := nat.

Module RpcRouter.
Section RpcRouter.
Context {W C : Type} (backend_at : BackendId -> RpcBackend W C) (MaxRemoteClients : nat).

Record Route := MkRoute {
  route_descriptor : ServiceDescriptor;
  route_backend : BackendId
}.

Record t := Mk {
  local_ : BackendId;
  routes_ : list Route;
  sealed_ : bool
}.

Definition make (local : BackendId) : t := Mk local [] false.

Definition Valid (d : ServiceDescriptor) : bool :=
  negb (bool_decide (service_name d = ""%string)) &&
  negb (bool_decide (type_name (request_type d) = ""%string)) &&
  negb (bool_decide (type_name (response_type d) = ""%string)) &&
  negb (max_serialized_size (request_type d) =? 0) &&
  negb (max_serialized_size (response_type d) =? 0).

(** The scan for a route of the same service, shared by [AddRemoteClient] and
    [ClientBackend]. *)
Fixpoint find_route (d : ServiceDescriptor) (routes : list Route) : option Route :=
  match routes with
  | [] => None
  | route :: routes =>
      if SameServiceIdentity (route_descriptor route) d then Some route else find_route d routes
  end.

Definition AddRemoteClient (d : ServiceDescriptor) (backend : BackendId) (self : t) : Status * t :=
  if sealed_ self then (kInvalidState, self)
  else if negb (Valid d) || bool_decide (backend = local_ self) then (kInvalidArgument, self)
  else match find_route d (routes_ self) with
  | Some route =>
      (if SameService (route_descriptor route) d then kAlreadyExists else kTypeMismatch, self)
  | None =>
      if (length (routes_ self) =? MaxRemoteClients)%nat then (kCapacityExceeded, self)
      else (kOk, Mk (local_ self) (routes_ self ++ [MkRoute d backend]) (sealed_ self))
  end.

Definition ClientBackend (d : ServiceDescriptor) (self : t) : option BackendId :=
  match find_route d (routes_ self) with
  | Some route => if SameService (route_descriptor route) d then Some (route_backend route) else None
  | None => Some (local_ self)
  end.

Definition RegisterClient (d : ServiceDescriptor) (self : t) (w : W) : Status * W :=
  if sealed_ self then (kInvalidState, w)
  else match ClientBackend d self with
  | None => (kTypeMismatch, w)
  | Some backend => rpc_RegisterClient (backend_at backend) d w
  end.

Definition RegisterServer (d : ServiceDescriptor) (handler : option (aster_rpc_handler_t W))
    (self : t) (w : W) : Status * W :=
  if sealed_ self then (kInvalidState, w)
  else rpc_RegisterServer (backend_at (local_ self)) d handler w.

Definition CallAsync (d : ServiceDescriptor) (request : list Z) (deadline_ns : Z)
    (completion : option C) (caller : ExecutionContext) (self : t) (w : W)
    : Status * W :=
  if negb (sealed_ self) then (kInvalidState, w)
  else match ClientBackend d self with
  | None => (kTypeMismatch, w)
  | Some backend => rpc_CallAsync (backend_at backend) d request deadline_ns completion caller w
  end.

(** Seal the backends in order; the first failure is returned. *)
Fixpoint Seal_loop (backends : list BackendId) (w : W) : Status * W :=
  match backends with
  | [] => (kOk, w)
  | backend :: backends =>
      let '(status, w) := rpc_Seal (backend_at backend) w in
      if negb (IsOk status) then (status, w) else Seal_loop backends w
  end.

Definition Seal (self : t) (w : W) : Status * t * W :=
  if sealed_ self then (kInvalidState, self, w)
  else
    let '(status, w) := Seal_loop (local_ self :: (route_backend <$> routes_ self)) w in
    (status, if negb (IsOk status) then self else Mk (local_ self) (routes_ self) true, w).

(** *** Lemmas *)

Definition same_service_identity (left right : ServiceDescriptor) : Prop :=
  service_name left = service_name right /\
  service_instance_name left = service_instance_name right.

Lemma SameServiceIdentity_spec left right :
  SameServiceIdentity left right = true <-> same_service_identity left right.
Proof. unfold SameServiceIdentity. by rewrite andb_true_iff, !bool_decide_eq_true. Qed.

Lemma find_route_snoc d routes route :
  find_route d (routes ++ [route]) =
  match find_route d routes with
  | Some found => Some found
  | None => if SameServiceIdentity (route_descriptor route) d then Some route else None
  end.
Proof.
  induction routes as [|route' routes IH]; [done|]. cbn [app find_route].
  by destruct (SameServiceIdentity (route_descriptor route') d).
Qed.

Lemma find_route_In d routes route :
  find_route d routes = Some route -> In route routes /\ same_service_identity (route_descriptor route) d.
Proof.
  induction routes as [|route' routes IH]; [done|]. cbn [find_route].
  destruct (SameServiceIdentity (route_descriptor route') d) eqn:E.
  - intros [= ->]. split; [by left|by apply SameServiceIdentity_spec].
  - intros [? ?]%IH. split; [by right|done].
Qed.

(** The routes accepted from a list of requests, by service. *)
Inductive reachable (local : BackendId) : t -> Prop :=
| reach_make : reachable local (make local)
| reach_add d backend self :
    reachable local self -> reachable local (AddRemoteClient d backend self).2
| reach_seal self w : reachable local self -> reachable local (Seal self w).1.2.

Record wf (self : t) : Prop := {
  wf_bound : (length (routes_ self) <= MaxRemoteClients)%nat;
  wf_routes : forall i j left right,
    routes_ self !! i = Some left -> routes_ self !! j = Some right ->
    same_service_identity (route_descriptor left) (route_descriptor right) -> i = j;
  wf_remote : Forall (fun route => route_backend route <> local_ self) (routes_ self)
}.

Lemma find_route_lookup d routes i route :
  (forall i j left right, routes !! i = Some left -> routes !! j = Some right ->
    same_service_identity (route_descriptor left) (route_descriptor right) -> i = j) ->
  routes !! i = Some route -> same_service_identity (route_descriptor route) d ->
  find_route d routes = Some route.
Proof.
  revert i. induction routes as [|route' routes IH]; intros i H Hi Hd; [done|].
  cbn [find_route]. destruct (SameServiceIdentity (route_descriptor route') d) eqn:E.
  - apply SameServiceIdentity_spec in E. destruct E as [E1 E2], Hd as [D1 D2].
    assert (0%nat = i) as <- by (apply (H 0%nat i route' route); [done|done|split; congruence]).
    by injection Hi.
  - destruct i as [|i].
    + injection Hi as ->. apply SameServiceIdentity_spec in Hd. congruence.
    + apply (IH i); [|done|done]. intros i' j' l r Hl Hr Hlr.
      specialize (H (S i') (S j') l r Hl Hr Hlr). lia.
Qed.

Lemma rpc_router_reachable_wf local self : reachable local self -> wf self /\ local_ self = local.
Proof.
  induction 1 as [|d backend self _ [I Hl]|self w _ [I Hl]].
  - split; [split; cbn; [lia|done|constructor]|done].
  - unfold AddRemoteClient. destruct (sealed_ self); [done|].
    destruct (negb (Valid d) || bool_decide (backend = local_ self)) eqn:Hg; [done|].
    apply orb_false_iff in Hg as [_ Hb%bool_decide_eq_false].
    destruct (find_route d (routes_ self)) as [route|] eqn:Hf; [done|].
    destruct (Nat.eqb_spec (length (routes_ self)) MaxRemoteClients) as [|Hn]; [done|].
    split; [|done]. destruct I as [I1 I2 I3]. split; cbn.
    + rewrite length_app. cbn. lia.
    + assert (forall i left, routes_ self !! i = Some left ->
        ~ same_service_identity (route_descriptor left) d) as Hno.
      { intros i left Hi Hd. by rewrite (find_route_lookup d _ i left I2 Hi Hd) in Hf. }
      intros i j left right [Hi|[Hi Hi']]%lookup_app_Some [Hj|[Hj Hj']]%lookup_app_Some Hs;
        repeat match goal with
        | H : [_] !! _ = Some _ |- _ => apply list_lookup_singleton_Some in H as [? <-]
        end.
      * eauto.
      * by destruct (Hno i left Hi).
      * destruct (Hno j right Hj). by destruct Hs as [H1 H2].
      * lia.
    + apply Forall_app. by repeat constructor.
  - unfold Seal. destruct (sealed_ self); [done|].
    destruct (Seal_loop _ w) as [status w']. cbn. destruct (negb (IsOk status)); [done|].
    split; [|done]. by destruct I as [I1 I2 I3]; split.
Qed.
End RpcRouter.
End RpcRouter.
