(* ===== verification/LocalRpc.v ===== *)
(** [LocalRpc] ([aster_runtime/local_rpc.hpp]): calls inside a process.

    The table of services is fixed once the backend is sealed. The pending
    calls and the atomic counters live in the state [W] the handlers and
    completions act on, behind a [Cell], so that both may call again. A call is
    posted to an executor, which runs the bound [Dispatch] later; concurrent
    calls interleave at the atomics, which is outside this sequential model. *)

From S2P Require Export Rpc.

Local Open Scope Z_scope.

Record LocalRpcStats := MkLocalRpcStats {
  calls : Z;
  completed : Z;
  failures : Z;
  rejected : Z;
  schedule_failures : Z;
  timeouts : Z;
  pending_high_watermark : Z
}.
#[global] Instance eta_LocalRpcStats : Eta LocalRpcStats := fun r =>
  MkLocalRpcStats (calls r) (completed r) (failures r) (rejected r) (schedule_failures r)
    (timeouts r) (pending_high_watermark r).

Module LocalRpc.
Section LocalRpc.
Context {W C P : Type}.

(** The code behind the completions callers pass, and the work items bound to
    [Dispatch] on each pending call. *)
Variable completion_fn : C -> aster_rpc_completion_t W.
Variable dispatch : nat -> P.
Variables MaxServices MaximumRequestSize MaximumResponseSize MaxPending : nat.

(** The handler carries its state. *)
Record Service := MkService {
  service_descriptor_ : ServiceDescriptor;
  service_handler : option (aster_rpc_handler_t W);
  client_count : Z
}.
#[global] Instance eta_Service : Eta Service := fun r =>
  MkService (service_descriptor_ r) (service_handler r) (client_count r).

(** [service] is an index into [services_]; [owner] is the backend itself. *)
Record PendingCall := MkPendingCall {
  pending_service : option nat;
  pending_request : list Z;
  pending_response : list Z;
  pending_request_size : nat;
  pending_info : RpcCallInfo;
  pending_completion : option C;
  in_use : bool
}.
#[global] Instance eta_PendingCall : Eta PendingCall := fun r =>
  MkPendingCall (pending_service r) (pending_request r) (pending_response r)
    (pending_request_size r) (pending_info r) (pending_completion r) (in_use r).

Definition PendingCall_init : PendingCall :=
  MkPendingCall None (zeros MaximumRequestSize) (zeros MaximumResponseSize) 0 RpcCallInfo_default
    None false.

(** The members calls move. *)
Record RpcState := MkRpcState {
  pending_ : list PendingCall;
  pending_count_ : Z;
  next_request_id_ : Z;
  stats_ : LocalRpcStats
}.
#[global] Instance eta_RpcState : Eta RpcState := fun r =>
  MkRpcState (pending_ r) (pending_count_ r) (next_request_id_ r) (stats_ r).

Definition RpcState_init : RpcState :=
  MkRpcState (replicate MaxPending PendingCall_init) 0 0 (MkLocalRpcStats 0 0 0 0 0 0 0).

Variable state : Cell W RpcState.

(** The members fixed by sealing. *)
Record t := Mk {
  executor_ : ExecutorRef W P;
  services_ : list Service;
  sealed_ : bool
}.
#[global] Instance eta_t : Eta t := fun r => Mk (executor_ r) (services_ r) (sealed_ r).

Definition make (executor : ExecutorRef W P) : t := Mk executor [] false.

(** *** Registration *)

Fixpoint Find_from (index : nat) (services : list Service) (d : ServiceDescriptor) : option nat :=
  match services with
  | [] => None
  | service :: services =>
      if SameServiceIdentity (service_descriptor_ service) d then Some index
      else Find_from (S index) services d
  end.

Definition Find (d : ServiceDescriptor) (self : t) : option nat := Find_from 0 (services_ self) d.

(** Status, [service] and the backend. *)
Definition FindOrAdd (d : ServiceDescriptor) (self : t) : Status * option nat * t :=
  if bool_decide (service_name d = ""%string) ||
     bool_decide (type_name (request_type d) = ""%string) ||
     bool_decide (type_name (response_type d) = ""%string) ||
     (max_serialized_size (request_type d) =? 0) || (max_serialized_size (response_type d) =? 0) ||
     (Z.of_nat MaximumRequestSize <? max_serialized_size (request_type d)) ||
     (Z.of_nat MaximumResponseSize <? max_serialized_size (response_type d))
  then (kInvalidArgument, None, self)
  else match Find d self with
  | Some index =>
      match services_ self !! index with
      | Some service =>
          (if SameService (service_descriptor_ service) d then kOk else kTypeMismatch,
           Some index, self)
      | None => (kInternal, None, self)
      end
  | None =>
      if (length (services_ self) =? MaxServices)%nat then (kCapacityExceeded, None, self)
      else (kOk, Some (length (services_ self)),
            self <| services_ := services_ self ++ [MkService d None 0] |>)
  end.

(** Assignment through the service pointer. *)
Definition update_service (index : nat) (f : Service -> Service) (self : t) : t :=
  self <| services_ := alter f index (services_ self) |>.

Definition RegisterClient (d : ServiceDescriptor) (self : t) : Status * t :=
  if sealed_ self then (kInvalidState, self)
  else
    let '(status, found, self) := FindOrAdd d self in
    if negb (IsOk status) then (status, self)
    else match found ≫= fun index => (index,.) <$> services_ self !! index with
    | None => (kInternal, self)
    | Some (index, service) =>
        if client_count service =? UINT16_MAX then (kCapacityExceeded, self)
        else (kOk, update_service index
               (fun service => service <| client_count := u16 (client_count service + 1) |>) self)
    end.

Definition RegisterServer (d : ServiceDescriptor) (handler : option (aster_rpc_handler_t W))
    (self : t) : Status * t :=
  if sealed_ self then (kInvalidState, self)
  else match handler with
  | None => (kInvalidArgument, self)
  | Some _ =>
      let '(status, found, self) := FindOrAdd d self in
      if negb (IsOk status) then (status, self)
      else match found ≫= fun index => (index,.) <$> services_ self !! index with
      | None => (kInternal, self)
      | Some (index, service) =>
          match service_handler service with
          | Some _ => (kAlreadyExists, self)
          | None => (kOk, update_service index (fun service => service <| service_handler := handler |>) self)
          end
      end
  end.

Definition Seal (self : t) : Status * t :=
  if sealed_ self then (kInvalidState, self)
  else match executor_ self with
  | None => (kUnavailable, self)
  | Some _ =>
      if existsb (fun service => negb (client_count service =? 0) &&
                                 bool_decide (service_handler service = None)) (services_ self)
      then (kUnavailable, self)
      else (kOk, self <| sealed_ := true |>)
  end.

(** *** Pending calls *)

Definition modify (f : RpcState -> RpcState) (w : W) : W := store state (f (load state w)) w.

(** [counter.fetch_add(1)]. *)
Definition count (proj : LocalRpcStats -> Z) `{!Setter proj} : W -> W :=
  modify (fun s => s <| stats_ := bump proj (stats_ s) |>).

Definition Reject (status : Status) (w : W) : Status * W := (status, count rejected w).

Definition modify_slot (index : nat) (f : PendingCall -> PendingCall) : W -> W :=
  modify (fun s => s <| pending_ := alter f index (pending_ s) |>).

(** The first slot not in use. *)
Fixpoint free_slot (index : nat) (pending : list PendingCall) : option nat :=
  match pending with
  | [] => None
  | call :: pending => if in_use call then free_slot (S index) pending else Some index
  end.

Definition Reserve (w : W) : option nat * W :=
  match free_slot 0 (pending_ (load state w)) with
  | None => (None, w)
  | Some index =>
      (Some index, modify (fun s =>
         let count := u64 (pending_count_ s + 1) in
         s <| pending_ := alter (fun call => call <| in_use := true |>) index (pending_ s) |>
           <| pending_count_ := count |>
           <| stats_ := (stats_ s) <| pending_high_watermark :=
                Z.max (pending_high_watermark (stats_ s)) count |> |>) w)
  end.

Definition Release (index : nat) : W -> W :=
  modify (fun s =>
    s <| pending_ := alter (fun call =>
           call <| pending_service := None |> <| pending_request_size := 0%nat |>
                <| pending_info := RpcCallInfo_default |> <| pending_completion := None |>
                <| in_use := false |>) index (pending_ s) |>
      <| pending_count_ := u64 (pending_count_ s - 1) |>).

(** Zero is never an identifier; the new value is returned. *)
Definition next_request_id (current : Z) : Z :=
  if current =? UINT32_MAX then 1 else u32 (current + 1).

Definition NextRequestId (w : W) : Z * W :=
  let next := next_request_id (next_request_id_ (load state w)) in
  (next, modify (fun s => s <| next_request_id_ := next |>) w).

Definition slot (index : nat) (w : W) : PendingCall :=
  default PendingCall_init (pending_ (load state w) !! index).

(** [Complete]. A pending call in use has a service with a handler and a
    completion; without them the code would call through a null pointer. *)
Definition Complete_outcome (self : t) (index : nat) (context : ExecutionContext) (w : W)
    : Status * nat * W :=
  let pending := slot index w in
  if negb (deadline_ns (pending_info pending) =? 0) &&
     (deadline_ns (pending_info pending) <=? timestamp_ns context)
  then (kTimeout, 0%nat, count timeouts w)
  else match pending_service pending ≫= fun i => services_ self !! i with
  | Some (MkService d (Some handler) _) =>
      let '(reply, w) := handler
        (AbiBytes (Some (pending_request pending)) (pending_request_size pending))
        (AbiBytes (Some (pending_response pending)) MaximumResponseSize) (Some 0%nat)
        (Some (ToAbiRpcCallInfo (pending_info pending))) (Some (ToAbiExecutionContext context)) w in
      let w := modify_slot index (fun call => call <| pending_response := reply_response reply |>) w in
      let status := FromAbiStatus (reply_code reply) in
      if (MaximumResponseSize <? reply_size reply)%nat ||
         (max_serialized_size (response_type d) <? Z.of_nat (reply_size reply))
      then (kInternal, 0%nat, w)
      else if negb (IsOk status) then (status, 0%nat, w)
      else (status, reply_size reply, w)
  | _ => (kInternal, 0%nat, w)
  end.

Definition Complete (self : t) (index : nat) (context : ExecutionContext) (w : W) : W :=
  let '(status, response_size, w) := Complete_outcome self index context w in
  let w := if negb (IsOk status) then count failures w else w in
  let w := count completed w in
  let pending := slot index w in
  let response := copy_into 0 (take response_size (pending_response pending))
    (zeros MaximumResponseSize) in
  let w := Release index w in
  match pending_completion pending with
  | Some completion =>
      completion_fn completion (ToAbiStatus status) (AbiBytes (Some response) response_size)
        (Some (ToAbiRpcCallInfo (pending_info pending))) (Some (ToAbiExecutionContext context)) w
  | None => w
  end.

(** The code [dispatch] denotes. *)
Definition Dispatch (self : t) (state : nat) (context : ExecutionContext) (w : W) : W :=
  Complete self state context w.

(** The second half of [CallAsync], once a service with a handler is found:
    [i] is the service pointer. *)
Definition Submit (self : t) (i : nat) (request : list Z) (deadline_ns : Z)
    (completion : C) (caller : ExecutionContext) (w : W) : Status * W :=
  let '(reserved, w) := Reserve w in
  match reserved with
  | None => Reject kCapacityExceeded w
  | Some index =>
      let '(id, w) := NextRequestId w in
      let w := modify_slot index (fun call =>
        call <| pending_request := copy_into 0 request (pending_request call) |>
             <| pending_request_size := length request |>
             <| pending_service := Some i |> <| pending_completion := Some completion |>
             <| pending_info := MkRpcCallInfo id deadline_ns |>) w in
      let '(status, w) := ExecutorRef_TryPost (executor_ self) (Some (dispatch index)) caller w in
      if negb (IsOk status) then Reject status (count schedule_failures (Release index w))
      else (kOk, count calls w)
  end.

Definition CallAsync (self : t) (d : ServiceDescriptor) (request : list Z) (deadline_ns : Z)
    (completion : option C) (caller : ExecutionContext) (w : W)
    : Status * W :=
  if negb (sealed_ self) then Reject kInvalidState w
  else match completion with
  | None => Reject kInvalidArgument w
  | Some completion =>
      match Find d self ≫= fun i => (i,.) <$> services_ self !! i with
      | None => Reject kNotFound w
      | Some (i, service) =>
          if negb (SameService (service_descriptor_ service) d) ||
             (max_serialized_size (request_type d) <? Z.of_nat (length request))
          then Reject kTypeMismatch w
          else if negb (deadline_ns =? 0) && (deadline_ns <=? timestamp_ns caller)
          then Reject kTimeout w
          else match service_handler service with
          | None => Reject kUnavailable w
          | Some _ => Submit self i request deadline_ns completion caller w
          end
      end
  end.

(** The backend behind its C table; registrations are over. *)
Definition backend (self : t) : RpcBackend W C :=
  MkRpcBackend (fun d w => ((RegisterClient d self).1, w))
    (fun d handler w => ((RegisterServer d handler self).1, w)) (CallAsync self)
    (fun w => ((Seal self).1, w)) (fun _ => sealed_ self).

(** ** Specification

    The accepted registrations, in order: the table is a function of them. *)
Inductive registration :=
  | Client (d : ServiceDescriptor)
  | Server (d : ServiceDescriptor) (handler : aster_rpc_handler_t W).

Definition reg_descriptor (r : registration) : ServiceDescriptor :=
  match r with Client d | Server d _ => d end.

Definition register (r : registration) (self : t) : Status * t :=
  match r with
  | Client d => RegisterClient d self
  | Server d handler => RegisterServer d (Some handler) self
  end.

(** Run registrations, keeping the accepted ones. *)
Fixpoint run (rs : list registration) (self : t) : list registration * t :=
  match rs with
  | [] => ([], self)
  | r :: rs =>
      let '(status, self) := register r self in
      let '(accepted, self) := run rs self in
      (if IsOk status then r :: accepted else accepted, self)
  end.

Definition of_service (d : ServiceDescriptor) (r : registration) : bool :=
  SameServiceIdentity (reg_descriptor r) d.

(** The first server of a service. *)
Fixpoint server_of (d : ServiceDescriptor) (accepted : list registration)
    : option (aster_rpc_handler_t W) :=
  match accepted with
  | [] => None
  | Server d' handler :: accepted =>
      if SameServiceIdentity d' d then Some handler else server_of d accepted
  | Client _ :: accepted => server_of d accepted
  end.

Definition has_client (d : ServiceDescriptor) (accepted : list registration) : bool :=
  existsb (fun r => match r with Client d' => SameServiceIdentity d' d | Server _ _ => false end)
    accepted.

(** The service a descriptor denotes. *)
Definition lookup_service (d : ServiceDescriptor) (self : t) : option Service :=
  Find d self ≫= fun i => services_ self !! i.

(** ** Invariant: the table against the accepted registrations. *)
Definition service_inv (accepted : list registration) (d : ServiceDescriptor)
    (service : option Service) : Prop :=
  match service with
  | None => existsb (of_service d) accepted = false
  | Some service =>
      SameServiceIdentity (service_descriptor_ service) d = true /\
      (forall r, r ∈ accepted -> of_service d r = true ->
         reg_descriptor r = service_descriptor_ service) /\
      service_handler service = server_of d accepted /\
      0 <= client_count service <= UINT16_MAX /\
      (client_count service = 0 <-> has_client d accepted = false) /\
      existsb (of_service d) accepted = true /\
      max_serialized_size (request_type (service_descriptor_ service)) <= Z.of_nat MaximumRequestSize /\
      max_serialized_size (response_type (service_descriptor_ service)) <= Z.of_nat MaximumResponseSize
  end.

Record inv (accepted : list registration) (self : t) : Prop := {
  inv_bound : (length (services_ self) <= MaxServices)%nat;
  inv_unique : forall i j left right,
    services_ self !! i = Some left -> services_ self !! j = Some right ->
    SameServiceIdentity (service_descriptor_ left) (service_descriptor_ right) = true -> i = j;
  inv_service : forall d, service_inv accepted d (lookup_service d self)
}.

(** ** Lemmas: the table *)

#[local] Set Default Proof Using "Type".

Lemma identity_refl d : SameServiceIdentity d d = true.
Proof. unfold SameServiceIdentity. by rewrite !bool_decide_eq_true_2. Qed.

Lemma identity_sym left right : SameServiceIdentity left right = SameServiceIdentity right left.
Proof. unfold SameServiceIdentity. f_equal; apply bool_decide_ext; split; by intros ->. Qed.

Lemma identity_congr left right d :
  SameServiceIdentity left right = true -> SameServiceIdentity d left = SameServiceIdentity d right.
Proof.
  unfold SameServiceIdentity. rewrite andb_true_iff, !bool_decide_eq_true. by intros [-> ->].
Qed.

Lemma SameService_spec left right : SameService left right = true <-> left = right.
Proof.
  unfold SameService, SameServiceIdentity.
  rewrite !andb_true_iff, !bool_decide_eq_true, !SameType_spec. destruct left, right; cbn.
  split; [intros ((((-> & ->) & ->) & ->) & ->); done|intros [= -> -> -> -> ->]; done].
Qed.

Lemma Find_from_Some k services d i :
  Find_from k services d = Some i ->
  (k <= i)%nat /\ exists service, services !! (i - k)%nat = Some service /\
    SameServiceIdentity (service_descriptor_ service) d = true.
Proof.
  revert k. induction services as [|service services IH]; intros k; [done|]. cbn [Find_from].
  destruct (SameServiceIdentity (service_descriptor_ service) d) eqn:E.
  - intros [= ->]. split; [lia|]. exists service. by rewrite Nat.sub_diag.
  - intros (Hk & found & Hf & Hd)%IH. split; [lia|]. exists found.
    by replace (i - k)%nat with (S (i - S k)) by lia.
Qed.

Lemma Find_from_None k services d i service :
  Find_from k services d = None -> services !! i = Some service ->
  SameServiceIdentity (service_descriptor_ service) d = false.
Proof.
  revert k i. induction services as [|first services IH]; intros k i; [done|]. cbn [Find_from].
  destruct (SameServiceIdentity (service_descriptor_ first) d) eqn:E; [done|]. intros Hf.
  destruct i as [|i]; [by intros [= <-]|]. cbn. by apply (IH (S k)).
Qed.

Lemma Find_from_ext k services services' d d' :
  service_descriptor_ <$> services = service_descriptor_ <$> services' ->
  SameServiceIdentity d d' = true ->
  Find_from k services d = Find_from k services' d'.
Proof.
  intros Hs Hd. revert k services' Hs. induction services as [|service services IH];
    intros k [|service' services']; [done|done|done|]. cbn [fmap list_fmap Find_from].
  intros [= He Hs]. rewrite He, (identity_congr d d') by done. by rewrite (IH _ _ Hs).
Qed.

Lemma Find_from_app k services service d :
  Find_from k (services ++ [service]) d =
  match Find_from k services d with
  | Some i => Some i
  | None => if SameServiceIdentity (service_descriptor_ service) d
            then Some (k + length services)%nat else None
  end.
Proof.
  revert k. induction services as [|first services IH]; intros k; cbn [app Find_from length].
  - by rewrite Nat.add_0_r.
  - destruct (SameServiceIdentity (service_descriptor_ first) d); [done|]. rewrite IH.
    by rewrite <- Nat.add_succ_comm.
Qed.

Lemma Find_lookup d self i :
  Find d self = Some i -> exists service, services_ self !! i = Some service /\
    lookup_service d self = Some service /\ SameServiceIdentity (service_descriptor_ service) d = true.
Proof.
  intros Hf. destruct (Find_from_Some _ _ _ _ Hf) as (_ & service & Hs & Hd).
  rewrite Nat.sub_0_r in Hs. exists service. unfold lookup_service. rewrite Hf. done.
Qed.

Lemma lookup_update d i f self d' :
  Find d self = Some i -> (forall service, service_descriptor_ (f service) = service_descriptor_ service) ->
  lookup_service d' (update_service i f self) =
    if SameServiceIdentity d d' then f <$> lookup_service d' self else lookup_service d' self.
Proof.
  intros Hi Hf. unfold lookup_service, Find, update_service. cbn.
  assert (service_descriptor_ <$> alter f i (services_ self) = service_descriptor_ <$> services_ self) as Hd.
  { apply list_eq. intros j. rewrite !list_lookup_fmap. destruct (decide (i = j)) as [<-|].
    - rewrite list_lookup_alter_eq. destruct (services_ self !! i); cbn; [by rewrite Hf|done].
    - by rewrite list_lookup_alter_ne. }
  rewrite (Find_from_ext 0 _ (services_ self) d' d') by (done || apply identity_refl).
  destruct (SameServiceIdentity d d') eqn:E.
  - rewrite <- (Find_from_ext 0 (services_ self) (services_ self) d d') by done.
    unfold Find in Hi. rewrite Hi. cbn. by rewrite list_lookup_alter_eq.
  - destruct (Find_from 0 (services_ self) d') as [j|] eqn:Hj; [|done]. cbn.
    destruct (decide (i = j)) as [<-|]; [|by rewrite list_lookup_alter_ne].
    destruct (Find_lookup d self i Hi) as (s & Hs & _ & H1).
    destruct (Find_lookup d' self i Hj) as (s' & Hs' & _ & H2). simplify_eq.
    rewrite identity_sym in H1. by rewrite (identity_congr _ _ _ H2), E in H1.
Qed.

(** What [FindOrAdd] leaves: the service of the descriptor, found or new. *)
Record found_or_added (d : ServiceDescriptor) (self self' : t) (i : nat) (service : Service) : Prop := {
  fa_at : services_ self' !! i = Some service;
  fa_find : Find d self' = Some i;
  fa_descriptor : service_descriptor_ service = d;
  fa_sizes : max_serialized_size (request_type d) <= Z.of_nat MaximumRequestSize /\
    max_serialized_size (response_type d) <= Z.of_nat MaximumResponseSize;
  fa_sealed : sealed_ self' = sealed_ self;
  fa_executor : executor_ self' = executor_ self;
  fa_bound : (length (services_ self') <= MaxServices)%nat;
  fa_unique : forall i j left right,
    services_ self' !! i = Some left -> services_ self' !! j = Some right ->
    SameServiceIdentity (service_descriptor_ left) (service_descriptor_ right) = true -> i = j;
  fa_origin : (lookup_service d self = Some service /\ self' = self) \/
    (lookup_service d self = None /\ service = MkService d None 0);
  fa_other : forall d', SameServiceIdentity d d' = false ->
    lookup_service d' self' = lookup_service d' self
}.

Lemma added d self :
  (length (services_ self) < MaxServices)%nat ->
  (forall i j left right,
    services_ self !! i = Some left -> services_ self !! j = Some right ->
    SameServiceIdentity (service_descriptor_ left) (service_descriptor_ right) = true -> i = j) ->
  max_serialized_size (request_type d) <= Z.of_nat MaximumRequestSize ->
  max_serialized_size (response_type d) <= Z.of_nat MaximumResponseSize ->
  Find d self = None ->
  found_or_added d self (self <| services_ := services_ self ++ [MkService d None 0] |>)
    (length (services_ self)) (MkService d None 0).
Proof.
  intros Hl Hu Hq Hr Hf. split; cbn; try done.
  - by rewrite lookup_app_r, Nat.sub_diag by lia.
  - unfold Find in *. cbn. rewrite Find_from_app, Hf. cbn. by rewrite identity_refl.
  - rewrite length_app. cbn. lia.
  - assert (forall i left, services_ self !! i = Some left ->
      SameServiceIdentity (service_descriptor_ left) d = false) as Hno
      by (intros i left Hi; by eapply Find_from_None).
    intros i j left right [Hi|[Hi Hi']]%lookup_app_Some [Hj|[Hj Hj']]%lookup_app_Some Hs;
      repeat match goal with
      | H : [_] !! _ = Some _ |- _ => apply list_lookup_singleton_Some in H as [? <-]
      end; cbn in Hs.
    + eauto.
    + by rewrite (Hno i left Hi) in Hs.
    + rewrite identity_sym in Hs. by rewrite (Hno j right Hj) in Hs.
    + lia.
  - right. unfold lookup_service. by rewrite Hf.
  - intros d' Hd. unfold lookup_service, Find. cbn. rewrite Find_from_app.
    destruct (Find_from 0 (services_ self) d') as [i|] eqn:Hi; cbn.
    + destruct (Find_from_Some _ _ _ _ Hi) as (_ & service & Hs & _). rewrite Nat.sub_0_r in Hs.
      rewrite lookup_app_l by by eapply lookup_lt_Some. done.
    + by rewrite Hd.
Qed.

Lemma rpc_FindOrAdd_spec accepted d self :
  inv accepted self ->
  let '(status, found, self') := FindOrAdd d self in
  if IsOk status then exists i service, found = Some i /\ found_or_added d self self' i service
  else self' = self.
Proof.
  intros [Hl Hu _]. unfold FindOrAdd. destruct (_ || _ || _ || _ || _ || _ || _)%bool eqn:Hv; [done|].
  bool_hyps. destruct (Find d self) as [i|] eqn:Hf.
  - destruct (Find_lookup d self i Hf) as (service & Hs & Hl' & _). rewrite Hs.
    destruct (SameService _ d) eqn:E; cbn; [|done]. apply SameService_spec in E.
    exists i, service. split; [done|]. rewrite <- E in *. split; try done. by left.
  - destruct (Nat.eqb_spec (length (services_ self)) MaxServices); [done|]. cbn [IsOk].
    exists (length (services_ self)), (MkService d None 0). split; [done|]. apply added; try done; lia.
Qed.

Lemma server_of_snoc d accepted r :
  server_of d (accepted ++ [r]) =
  match server_of d accepted with Some handler => Some handler | None => server_of d [r] end.
Proof.
  induction accepted as [|[d'|d' handler] accepted IH]; [done|done|]. cbn.
  by destruct (SameServiceIdentity d' d).
Qed.

Lemma server_of_off d r : of_service d r = false -> server_of d [r] = None /\ has_client d [r] = false.
Proof. unfold of_service. destruct r as [d'|d' handler]; cbn; intros H; by rewrite H. Qed.

Lemma unregistered d accepted :
  existsb (of_service d) accepted = false ->
  server_of d accepted = None /\ has_client d accepted = false.
Proof.
  induction accepted as [|r accepted IH]; [done|]. cbn [existsb]. intros [Hr H]%orb_false_iff.
  destruct (IH H) as [H1 H2]. unfold of_service in Hr.
  destruct r as [d'|d' handler]; cbn in *; rewrite Hr; done.
Qed.

Lemma existsb_false_In {A} (p : A -> bool) l x : existsb p l = false -> x ∈ l -> p x = false.
Proof.
  intros H Hin. destruct (p x) eqn:E; [|done].
  enough (existsb p l = true) by congruence. apply existsb_exists. exists x.
  by split; [apply list_elem_of_In|].
Qed.

Lemma service_inv_other accepted r d service :
  of_service d r = false -> service_inv accepted d service -> service_inv (accepted ++ [r]) d service.
Proof.
  intros Hoff. destruct (server_of_off d r Hoff) as [Hs Hc].
  destruct service as [service|]; cbn [service_inv]; rewrite existsb_app; cbn [existsb];
    rewrite Hoff, !orb_false_r; [|done].
  intros (Hi & Hr & Hh & Hn & Hcl & Hex & Hsize). unfold has_client in *.
  rewrite server_of_snoc, Hs, existsb_app, Hc, orb_false_r. split_and!; try done; try lia.
  - intros r' [Hin| ->%list_elem_of_singleton]%elem_of_app Hon; [by apply Hr|congruence].
  - rewrite Hh. by destruct (server_of d accepted).
Qed.

(** The service as it is before the registration itself. *)
Lemma service_inv_found accepted d self self' i service :
  service_inv accepted d (lookup_service d self) -> found_or_added d self self' i service ->
  (forall r, r ∈ accepted -> of_service d r = true -> reg_descriptor r = d) /\
  service_handler service = server_of d accepted /\
  0 <= client_count service <= UINT16_MAX /\
  (client_count service = 0 <-> has_client d accepted = false).
Proof.
  intros Ht [_ _ Hd _ _ _ _ _ [[Hf _]|[Hf ->]] _]; rewrite Hf in Ht; cbn in Ht.
  - destruct Ht as (_ & Hr & ? & ? & ? & _). by rewrite Hd in Hr.
  - destruct (unregistered d accepted Ht) as [Hs Hc]. split_and!; cbn; try done.
    intros r Hin Hon. by rewrite (existsb_false_In _ _ r Ht Hin) in Hon.
Qed.

Lemma service_inv_ext accepted d d' service :
  SameServiceIdentity d d' = true -> service_inv accepted d service -> service_inv accepted d' service.
Proof.
  intros Hd.
  assert (forall r, of_service d' r = of_service d r) as Ho
    by (intros r; unfold of_service; symmetry; by apply identity_congr).
  assert (existsb (of_service d') accepted = existsb (of_service d) accepted) as He
    by (induction accepted as [|r accepted IH]; [done|]; cbn; by rewrite Ho, IH).
  assert (server_of d' accepted = server_of d accepted) as Hs.
  { clear -Hd. induction accepted as [|[|] accepted IH]; [done|done|]. cbn.
    by rewrite IH, (identity_congr d d' _ Hd). }
  assert (has_client d' accepted = has_client d accepted) as Hc.
  { clear -Hd. unfold has_client. induction accepted as [|[|] accepted IH]; [done| |done].
    cbn. by rewrite IH, (identity_congr d d' _ Hd). }
  destruct service as [service|]; cbn [service_inv]; rewrite He, ?Hs, ?Hc; [|done].
  intros (Hi & Hr & Hrest). rewrite <- (identity_congr d d' _ Hd). split_and!; try done; try apply Hrest.
  intros r Hin Hon. apply Hr; [done|]. by rewrite <- Ho.
Qed.

Lemma alter_descriptor f i (services : list Service) (j : nat) service :
  (forall service, service_descriptor_ (f service) = service_descriptor_ service) ->
  alter f i services !! j = Some service ->
  exists before, services !! j = Some before /\
    service_descriptor_ service = service_descriptor_ before.
Proof.
  intros Hf. destruct (decide (i = j)) as [<-|]; [|rewrite list_lookup_alter_ne by done; eauto].
  rewrite list_lookup_alter_eq. intros (before & -> & ->)%fmap_Some. eauto.
Qed.

(** A registration that updates the service [FindOrAdd] left. *)
Lemma rpc_registered_inv accepted r f self self' i service :
  let d := reg_descriptor r in
  inv accepted self -> found_or_added d self self' i service ->
  (forall service, service_descriptor_ (f service) = service_descriptor_ service) ->
  service_handler (f service) =
    match service_handler service with Some handler => Some handler | None => server_of d [r] end ->
  0 <= client_count (f service) <= UINT16_MAX ->
  (client_count (f service) = 0 <-> client_count service = 0 /\ has_client d [r] = false) ->
  inv (accepted ++ [r]) (update_service i f self').
Proof.
  intros d I F Hf Hh Hc Hz. pose proof F as [Hat Hfind Hd [Hq Hp] _ _ Hl Hu Horigin Hother]. split.
  - cbn. by rewrite length_alter.
  - cbn. intros j k left right Hj Hk Hs.
    destruct (alter_descriptor _ _ _ _ _ Hf Hj) as (left' & Hj' & Hdj).
    destruct (alter_descriptor _ _ _ _ _ Hf Hk) as (right' & Hk' & Hdk).
    rewrite Hdj, Hdk in Hs. eauto.
  - intros d'. rewrite (lookup_update d) by done. destruct (SameServiceIdentity d d') eqn:E.
    + apply (service_inv_ext _ d _ _ E).
      assert (lookup_service d' self' = Some service) as ->.
      { unfold lookup_service, Find in *. rewrite <- (Find_from_ext 0 (services_ self') (services_ self') d d' eq_refl E).
        rewrite Hfind. exact Hat. }
      destruct (service_inv_found accepted d self self' i service (inv_service _ _ I d) F)
        as (Hr & Hs & Hn & Hcl).
      assert (of_service d r = true) as Hon by exact (identity_refl d).
      cbn [fmap option_fmap option_map service_inv]. rewrite !Hf, Hd, Hh, Hs, server_of_snoc, existsb_app.
      cbn [existsb]. rewrite Hon, orb_true_r. unfold has_client in *. rewrite existsb_app, orb_false_iff.
      split_and!; [apply identity_refl| |done|lia|lia|(clear dispatch; tauto)|done|done|done].
      intros r' [Hin| ->%list_elem_of_singleton]%elem_of_app Hr'; [by apply Hr|done].
    + rewrite Hother by done. apply service_inv_other; [done|apply I].
Qed.

Lemma rpc_register_inv accepted r self :
  inv accepted self ->
  let '(status, self') := register r self in
  sealed_ self' = sealed_ self /\ executor_ self' = executor_ self /\
  if IsOk status then inv (accepted ++ [r]) self' else self' = self.
Proof.
  intros I. destruct r as [d|d handler]; cbn [register].
  - unfold RegisterClient. destruct (sealed_ self) eqn:Hsealed; [done|].
    pose proof (rpc_FindOrAdd_spec accepted d self I) as Hf.
    destruct (FindOrAdd d self) as [[status found] self'].
    destruct (IsOk status) eqn:Hst; cbn [negb]; [|by rewrite Hst, Hf].
    destruct Hf as (i & service & -> & F). cbn. rewrite (fa_at _ _ _ _ _ F). cbn.
    destruct (service_inv_found accepted d self self' i service (inv_service _ _ I d) F) as (_ & _ & Hn & _).
    destruct (Z.eqb_spec (client_count service) UINT16_MAX) as [Hfull|Hnot]; cbn [IsOk].
    + destruct (fa_origin _ _ _ _ _ F) as [[_ ->]|[_ ->]]; [done|by cbn in Hfull].
    + split_and!; [cbn; rewrite <- Hsealed; apply F|apply F|].
      assert (u16 (client_count service + 1) = client_count service + 1) as Hu
        by (apply u16_small; unfold UINT16_MAX in *; lia).
      apply (rpc_registered_inv accepted (Client d) _ self self' i service); try done; cbn.
      * by destruct (service_handler service).
      * rewrite Hu. unfold UINT16_MAX in *. lia.
      * rewrite Hu, identity_refl. cbn. lia.
  - unfold RegisterServer. destruct (sealed_ self) eqn:Hsealed; [done|].
    pose proof (rpc_FindOrAdd_spec accepted d self I) as Hf.
    destruct (FindOrAdd d self) as [[status found] self'].
    destruct (IsOk status) eqn:Hst; cbn [negb]; [|by rewrite Hst, Hf].
    destruct Hf as (i & service & -> & F). cbn. rewrite (fa_at _ _ _ _ _ F). cbn.
    destruct (service_inv_found accepted d self self' i service (inv_service _ _ I d) F) as (_ & _ & Hn & _).
    destruct (service_handler service) as [previous|] eqn:Hh; cbn [IsOk].
    + destruct (fa_origin _ _ _ _ _ F) as [[_ ->]|[_ ->]]; [done|by cbn in Hh].
    + split_and!; [cbn; rewrite <- Hsealed; apply F|apply F|].
      apply (rpc_registered_inv accepted (Server d handler) _ self self' i service); try done; cbn.
      * by rewrite Hh, identity_refl.
      * (clear dispatch; tauto).
Qed.

Lemma rpc_run_inv rs accepted self :
  inv accepted self ->
  sealed_ (run rs self).2 = sealed_ self /\ executor_ (run rs self).2 = executor_ self /\
  inv (accepted ++ (run rs self).1) (run rs self).2.
Proof.
  revert accepted self. induction rs as [|r rs IH]; intros accepted self I; cbn [run].
  { cbn. by rewrite app_nil_r. }
  pose proof (rpc_register_inv accepted r self I) as Hr.
  destruct (register r self) as [status self1]. destruct Hr as (Hs & He & Hr).
  destruct (IsOk status) eqn:Hst.
  - destruct (IH _ _ Hr) as (Hs2 & He2 & I2). destruct (run rs self1) as [later self2]. cbn in *.
    split_and!; [congruence|congruence|]. by rewrite <- app_assoc in I2.
  - subst self1. destruct (IH _ _ I) as (Hs2 & He2 & I2). by destruct (run rs self) as [later self2].
Qed.

Lemma rpc_make_inv executor : inv [] (make executor).
Proof. split; cbn; [lia|done|done]. Qed.

Lemma Seal_services self : services_ (Seal self).2 = services_ self /\ executor_ (Seal self).2 = executor_ self.
Proof. unfold Seal. destruct (sealed_ self); [done|]. destruct (executor_ self) eqn:E; [|done]. by destruct (existsb _ _). Qed.

Lemma Seal_inv accepted self : inv accepted self -> inv accepted (Seal self).2.
Proof.
  destruct (Seal_services self) as [Hs _]. intros [H1 H2 H3]. rewrite <- Hs in H1. rewrite <- Hs in H2.
  split; [done|exact H2|]. intros d. specialize (H3 d). unfold lookup_service, Find in *. by rewrite Hs.
Qed.

(** The backend seals exactly when it has an executor and every service a
    client was registered for has a server. *)
Lemma rpc_Seal_spec accepted self :
  inv accepted self -> sealed_ self = false ->
  (Seal self).1 = kOk <->
    is_Some (executor_ self) /\
    (forall d, has_client d accepted = true -> is_Some (server_of d accepted)).
Proof.
  intros I Hs. unfold Seal. rewrite Hs. destruct (executor_ self) as [executor|];
    [|split; [done|by intros [[? ?] _]]].
  destruct (existsb _ (services_ self)) eqn:E.
  - split; [done|]. intros [_ H]. exfalso.
    apply existsb_exists in E as (service & Hin%list_elem_of_In & [Hc Hh]%andb_true_iff).
    apply bool_decide_eq_true in Hh. apply negb_true_iff, Z.eqb_neq in Hc.
    apply list_elem_of_lookup in Hin as [i Hi]. set (d := service_descriptor_ service).
    assert (lookup_service d self = Some service) as Hl.
    { destruct (Find d self) as [j|] eqn:Hf.
      - destruct (Find_lookup d self j Hf) as (found & Hj & Hl & Hd). rewrite Hl. f_equal.
        rewrite <- (inv_unique _ _ I j i found service Hj Hi Hd) in Hi. congruence.
      - pose proof (Find_from_None 0 _ d i service Hf Hi) as Hno. unfold d in Hno. by rewrite identity_refl in Hno. }
    pose proof (inv_service _ _ I d) as Hv. rewrite Hl in Hv. destruct Hv as (_ & _ & Hserver & _ & Hz & _).
    destruct (H d) as [handler Hd]; [|congruence].
    destruct (has_client d accepted); [done|]. by destruct Hc; apply Hz.
  - split; [|done]. intros _. split; [done|]. intros d Hd. pose proof (inv_service _ _ I d) as Hv.
    destruct (lookup_service d self) as [service|] eqn:Hl; cbn in Hv.
    + destruct Hv as (_ & _ & Hserver & _ & Hz & _). rewrite <- Hserver.
      unfold lookup_service in Hl. apply bind_Some in Hl as (i & _ & Hi).
      apply list_elem_of_lookup_2 in Hi. pose proof (existsb_false_In _ _ _ E Hi) as Hno.
      apply andb_false_iff in Hno as [Hno|Hno].
      * apply negb_false_iff, Z.eqb_eq in Hno. apply Hz in Hno. congruence.
      * apply bool_decide_eq_false in Hno. by destruct (service_handler service).
    + by rewrite (proj2 (unregistered d accepted Hv)) in Hd.
Qed.

(** ** Admission: what [CallAsync] decides from the registrations alone. *)
Definition admission (accepted : list registration) (d : ServiceDescriptor) (size : nat)
    (deadline_ns now : Z) : Status :=
  match find (of_service d) accepted with
  | None => kNotFound
  | Some r =>
      if negb (bool_decide (reg_descriptor r = d)) ||
         (max_serialized_size (request_type d) <? Z.of_nat size)
      then kTypeMismatch
      else if negb (deadline_ns =? 0) && (deadline_ns <=? now) then kTimeout
      else match server_of d accepted with None => kUnavailable | Some _ => kOk end
  end.

Lemma find_none_existsb d accepted :
  find (of_service d) accepted = None <-> existsb (of_service d) accepted = false.
Proof.
  induction accepted as [|r accepted IH]; [done|]. cbn. by destruct (of_service d r).
Qed.

(** The service a call with a registered descriptor runs against. *)
Record serves (accepted : list registration) (self : t) (d : ServiceDescriptor) (i : nat)
    (service : Service) (handler : aster_rpc_handler_t W) : Prop := {
  serves_at : services_ self !! i = Some service;
  serves_descriptor : service_descriptor_ service = d;
  serves_handler : service_handler service = Some handler;
  serves_server : server_of d accepted = Some handler;
  serves_request : max_serialized_size (request_type d) <= Z.of_nat MaximumRequestSize;
  serves_response : max_serialized_size (response_type d) <= Z.of_nat MaximumResponseSize
}.

Lemma CallAsync_admission accepted self d request deadline_ns completion caller w :
  inv accepted self -> sealed_ self = true ->
  let status := admission accepted d (length request) deadline_ns (timestamp_ns caller) in
  if IsOk status then
    exists i service handler, serves accepted self d i service handler /\
      (length request <= MaximumRequestSize)%nat /\
      CallAsync self d request deadline_ns (Some completion) caller w =
        Submit self i request deadline_ns completion caller w
  else CallAsync self d request deadline_ns (Some completion) caller w = Reject status w.
Proof.
  intros I Hs. unfold admission, CallAsync. rewrite Hs. cbn [negb].
  pose proof (inv_service _ _ I d) as Hv. unfold lookup_service in Hv.
  destruct (Find d self) as [i|] eqn:Hf; cbn in Hv |- *.
  - destruct (Find_lookup d self i Hf) as (service & Hat & Hl & Hid). rewrite Hat in Hv |- *.
    cbn in Hv |- *. destruct Hv as (_ & Hr & Hh & _ & _ & Hex & Hq & Hp).
    destruct (find (of_service d) accepted) as [r|] eqn:Hfind;
      [|apply find_none_existsb in Hfind; congruence].
    apply find_some in Hfind as [Hin%list_elem_of_In Hon]. rewrite (Hr r Hin Hon).
    destruct (bool_decide_reflect (service_descriptor_ service = d)) as [Hd|Hd];
      [|destruct (SameService _ d) eqn:E; [by apply SameService_spec in E|done]].
    rewrite (proj2 (SameService_spec _ _) Hd). cbn [negb orb].
    destruct (max_serialized_size (request_type d) <? Z.of_nat (length request)) eqn:Hsize; [done|].
    apply Z.ltb_ge in Hsize. destruct (negb (deadline_ns =? 0) && _) eqn:Hdl; [done|].
    rewrite <- Hh. destruct (service_handler service) as [handler|] eqn:Hhd; [|done]. cbn [IsOk].
    exists i, service, handler. rewrite Hd in Hq, Hp. split_and!; [by split|lia|done].
  - by rewrite (proj2 (find_none_existsb d accepted) Hv).
Qed.

(** ** Lemmas: the state of the calls *)
Section Laws.
#[local] Unset Default Proof Using.
Context `{!CellLaws state}.

Lemma load_modify f w : load state (modify f w) = f (load state w).
Proof. apply load_store. Qed.

Lemma modify_modify f g w : modify f (modify g w) = modify (fun s => f (g s)) w.
Proof. unfold modify. by rewrite load_store, store_store. Qed.

Lemma list_alter_twice {A} (f g : A -> A) i (l : list A) :
  alter f i (alter g i l) = alter (fun x => f (g x)) i l.
Proof.
  apply list_eq. intros j. rewrite !list_lookup_alter. destruct (decide (i = j)) as [<-|]; [|done].
  rewrite decide_True by done. by destruct (l !! i).
Qed.

(** The effect of each step on the state. *)
Definition filled (i : nat) (request : list Z) (info : RpcCallInfo) (completion : C)
    (call : PendingCall) : PendingCall :=
  MkPendingCall (Some i) (copy_into 0 request (pending_request call)) (pending_response call)
    (length request) info (Some completion) true.

Definition released (call : PendingCall) : PendingCall :=
  MkPendingCall None (pending_request call) (pending_response call) 0 RpcCallInfo_default None false.

Definition submitted (index i : nat) (request : list Z) (deadline_ns : Z) (completion : C)
    (s : RpcState) : RpcState :=
  let id := next_request_id (next_request_id_ s) in
  let count := u64 (pending_count_ s + 1) in
  MkRpcState (alter (filled i request (MkRpcCallInfo id deadline_ns) completion) index (pending_ s))
    count id ((stats_ s) <| pending_high_watermark := Z.max (pending_high_watermark (stats_ s)) count |>).

Definition after_release (index : nat) (s : RpcState) : RpcState :=
  MkRpcState (alter released index (pending_ s)) (u64 (pending_count_ s - 1)) (next_request_id_ s)
    (stats_ s).

Lemma Release_modify index w : Release index w = modify (after_release index) w.
Proof. done. Qed.

(** The counters and the slot once a call is answered with [status]. *)
Definition finished (index : nat) (status : Status) (s : RpcState) : RpcState :=
  let st := if negb (IsOk status) then bump failures (stats_ s) else stats_ s in
  after_release index (s <| stats_ := bump completed st |>).

(** The response handed to the completion. *)
Definition response_view (response : list Z) (size : nat) : aster_bytes_view_t :=
  AbiBytes (Some (copy_into 0 (take size response) (zeros MaximumResponseSize))) size.

Lemma Complete_eq self index context w :
  Complete self index context w =
  let '(status, size, w) := Complete_outcome self index context w in
  let call := slot index w in
  match pending_completion call with
  | Some completion =>
      completion_fn completion (ToAbiStatus status) (response_view (pending_response call) size)
        (Some (ToAbiRpcCallInfo (pending_info call))) (Some (ToAbiExecutionContext context))
        (modify (finished index status) w)
  | None => modify (finished index status) w
  end.
Proof.
  unfold Complete. destruct (Complete_outcome self index context w) as [[status size] w'].
  unfold count. rewrite Release_modify.
  assert (forall f, slot index (modify (fun s => s <| stats_ := f (stats_ s) |>) w') = slot index w') as Hslot
    by (intros f; unfold slot; by rewrite load_modify).
  assert (forall f g, slot index (modify (fun s => s <| stats_ := f (stats_ s) |>)
    (modify (fun s => s <| stats_ := g (stats_ s) |>) w')) = slot index w') as Hslot2
    by (intros f g; unfold slot; by rewrite !load_modify).
  destruct (negb (IsOk status)) eqn:E.
  - rewrite (Hslot2 (bump completed) (bump failures)), !modify_modify.
    unfold finished, response_view. rewrite E. done.
  - rewrite (Hslot (bump completed)), !modify_modify. unfold finished, response_view. rewrite E. done.
Qed.

(** An executor that leaves the calls alone while it accepts or refuses work. *)
Class QuietExecutor (executor : ExecutorRef W P) : Prop := {
  post_quiet : forall work caller w,
    load state (ExecutorRef_TryPost executor (Some work) caller w).2 = load state w
}.

(** The point where the work is posted. *)
Definition at_post (index i : nat) (request : list Z) (deadline_ns : Z) (completion : C) : W -> W :=
  modify (submitted index i request deadline_ns completion).

Lemma Submit_eq self i request deadline_ns completion caller w :
  Submit self i request deadline_ns completion caller w =
  match free_slot 0 (pending_ (load state w)) with
  | None => Reject kCapacityExceeded w
  | Some index =>
      let '(status, w) := ExecutorRef_TryPost (executor_ self) (Some (dispatch index)) caller
        (at_post index i request deadline_ns completion w) in
      if negb (IsOk status) then Reject status (count schedule_failures (Release index w))
      else (kOk, count calls w)
  end.
Proof.
  unfold Submit, Reserve. destruct (free_slot 0 (pending_ (load state w))) as [index|]; [|done].
  unfold NextRequestId, modify_slot, at_post. rewrite !load_modify, !modify_modify.
  cbn [set_field eta_RpcState next_request_id_]. unfold modify, submitted.
  cbn [set_field eta_RpcState pending_ pending_count_ next_request_id_ stats_].
  rewrite list_alter_twice. done.
Qed.

(** ** The pending calls: how many are in use *)
Fixpoint used (pending : list PendingCall) : nat :=
  match pending with
  | [] => 0
  | call :: pending => (if in_use call then 1 else 0) + used pending
  end.

Lemma used_alter f i pending call :
  pending !! i = Some call ->
  (used (alter f i pending) + (if in_use call then 1 else 0) =
   used pending + (if in_use (f call) then 1 else 0))%nat.
Proof.
  revert i. induction pending as [|first pending IH]; intros [|i]; [done|done| |].
  - intros [= ->]. cbn. lia.
  - intros H. specialize (IH i H). cbn [alter list_alter used]. lia.
Qed.

Lemma used_bound pending : (used pending <= length pending)%nat.
Proof. induction pending as [|call pending IH]; cbn; [lia|]. destruct (in_use call); lia. Qed.

Lemma free_slot_Some k pending index :
  free_slot k pending = Some index ->
  (k <= index)%nat /\ exists call, pending !! (index - k)%nat = Some call /\ in_use call = false.
Proof.
  revert k. induction pending as [|first pending IH]; intros k; [done|]. cbn [free_slot].
  destruct (in_use first) eqn:E.
  - intros (Hk & call & Hc & Hu)%IH. split; [lia|]. exists call.
    by replace (index - k)%nat with (S (index - S k)) by lia.
  - intros [= ->]. split; [lia|]. exists first. by rewrite Nat.sub_diag.
Qed.

Lemma free_slot_None k pending : free_slot k pending = None <-> used pending = length pending.
Proof.
  revert k. induction pending as [|first pending IH]; intros k; [done|]. cbn.
  destruct (in_use first); cbn.
  - rewrite IH. lia.
  - split; [done|]. pose proof (used_bound pending). lia.
Qed.

(** What a sealed backend keeps true of its calls: every slot has its buffers;
    a slot in use has a service with a handler, a request inside the buffer and
    a completion; and the counters agree with the slots. *)
Definition call_wf (self : t) (call : PendingCall) : Prop :=
  length (pending_request call) = MaximumRequestSize /\
  length (pending_response call) = MaximumResponseSize /\
  (in_use call = true ->
     (exists i service handler, pending_service call = Some i /\ services_ self !! i = Some service /\
        service_handler service = Some handler) /\
     (pending_request_size call <= MaximumRequestSize)%nat /\
     is_Some (pending_completion call)).

(** [k] calls are between being reserved and counted, or completed and
    released. *)
Record state_wf (self : t) (k : Z) (s : RpcState) : Prop := {
  st_length : length (pending_ s) = MaxPending;
  st_calls : Forall (call_wf self) (pending_ s);
  st_count : pending_count_ s = Z.of_nat (used (pending_ s));
  st_high : pending_count_ s <= pending_high_watermark (stats_ s) <= Z.of_nat MaxPending;
  st_ids : 0 <= next_request_id_ s <= UINT32_MAX;
  st_counted : u32 (calls (stats_ s)) = calls (stats_ s);
  st_balance : u32 (calls (stats_ s) + k) = u32 (completed (stats_ s) + pending_count_ s)
}.

Lemma state_init_wf self : state_wf self 0 RpcState_init.
Proof.
  unfold RpcState_init. split; cbn; try done.
  - apply length_replicate.
  - apply Forall_replicate. unfold call_wf, PendingCall_init. cbn. by rewrite !zeros_length.
  - induction MaxPending as [|n IH]; [done|]. cbn. lia.
  - lia.
Qed.

Lemma next_request_id_range current :
  0 <= current <= UINT32_MAX -> 1 <= next_request_id current <= UINT32_MAX.
Proof.
  intros H. unfold next_request_id, UINT32_MAX in *. destruct (Z.eqb_spec current (2 ^ 32 - 1)); [lia|].
  rewrite u32_small by lia. lia.
Qed.

Lemma u32_shift a b c : u32 a = u32 b -> u32 (a + c) = u32 (b + c).
Proof. unfold u32. intros H. by rewrite (Z.add_mod a), H, <- Z.add_mod by done. Qed.

Lemma u32_u32_add a b : u32 (u32 a + b) = u32 (a + b).
Proof. unfold u32. by rewrite Z.add_mod_idemp_l. Qed.

Lemma u32_idemp a : u32 (u32 a) = u32 a.
Proof. unfold u32. by rewrite Z.mod_mod. Qed.

Lemma used_in_use pending index call :
  pending !! index = Some call -> in_use call = true -> (0 < used pending)%nat.
Proof.
  intros Hc Hu. pose proof (used_alter (fun call => call <| in_use := false |>) index pending call Hc) as H.
  rewrite Hu in H. cbn in H. lia.
Qed.

Lemma Forall_alter_slot self f index pending :
  Forall (call_wf self) pending ->
  (forall call, pending !! index = Some call -> call_wf self call -> call_wf self (f call)) ->
  Forall (call_wf self) (alter f index pending).
Proof.
  intros Hall Hf. apply Forall_alter; [done|]. intros call Hc H. by apply Hf.
Qed.

Lemma submitted_wf self index i service handler request deadline_ns completion s :
  Z.of_nat MaxPending <= UINT64_MAX ->
  state_wf self 0 s -> free_slot 0 (pending_ s) = Some index ->
  services_ self !! i = Some service -> service_handler service = Some handler ->
  (length request <= MaximumRequestSize)%nat ->
  state_wf self 1 (submitted index i request deadline_ns completion s).
Proof.
  intros Hmax [Hl Hc Hn Hh Hi Hct Hb] Hf Hs Hhd Hr.
  destruct (free_slot_Some _ _ _ Hf) as (_ & call & Hcall & Hfree). rewrite Nat.sub_0_r in Hcall.
  pose proof (used_alter (filled i request (MkRpcCallInfo (next_request_id (next_request_id_ s)) deadline_ns)
    completion) index _ _ Hcall) as Hu. rewrite Hfree in Hu. cbn in Hu.
  pose proof (used_bound (alter (filled i request (MkRpcCallInfo (next_request_id (next_request_id_ s))
    deadline_ns) completion) index (pending_ s))) as Hub. rewrite length_alter, Hl in Hub.
  assert (u64 (pending_count_ s + 1) = pending_count_ s + 1) as Hu64
    by (apply u64_small; unfold UINT64_MAX in *; lia).
  unfold submitted. split; cbn; rewrite ?Hu64.
  - by rewrite length_alter.
  - apply Forall_alter_slot; [done|]. intros call' _ (H1 & H2 & _). unfold call_wf, filled. cbn.
    rewrite copy_into_length. split_and!; [done|done|]. intros _. split_and!; [|done|done].
    by exists i, service, handler.
  - lia.
  - lia.
  - pose proof (next_request_id_range _ Hi). lia.
  - done.
  - rewrite Z.add_assoc. apply u32_shift. by rewrite Z.add_0_r in Hb.
Qed.

Lemma release_wf self k index call s :
  state_wf self k s -> pending_ s !! index = Some call -> in_use call = true ->
  Z.of_nat MaxPending <= UINT64_MAX ->
  state_wf self (k - 1) (after_release index s).
Proof.
  intros [Hl Hc Hn Hh Hi Hct Hb] Hcall Huse Hmax.
  pose proof (used_alter released index _ _ Hcall) as Hu. rewrite Huse in Hu. cbn in Hu.
  assert (u64 (pending_count_ s - 1) = pending_count_ s - 1) as Hu64
    by (apply u64_small; unfold UINT64_MAX in *; lia).
  unfold after_release. split; cbn; rewrite ?Hu64; try done; try lia.
  - by rewrite length_alter.
  - apply Forall_alter_slot; [done|]. intros call' _ (H1 & H2 & _). unfold call_wf. by cbn.
  - replace (calls (stats_ s) + (k - 1)) with (calls (stats_ s) + k + -1) by lia.
    replace (completed (stats_ s) + (pending_count_ s - 1)) with (completed (stats_ s) + pending_count_ s + -1) by lia.
    by apply u32_shift.
Qed.

(** Statistics other than [calls] and [completed] do not matter to the balance. *)
Lemma bump_wf self k s (st : LocalRpcStats) :
  state_wf self k s -> calls st = calls (stats_ s) -> completed st = completed (stats_ s) ->
  pending_high_watermark st = pending_high_watermark (stats_ s) ->
  state_wf self k (s <| stats_ := st |>).
Proof. intros [] H1 H2 H3. split; cbn; rewrite ?H1, ?H2, ?H3; done. Qed.

Lemma count_calls_wf self s :
  state_wf self 1 s -> state_wf self 0 (s <| stats_ := bump calls (stats_ s) |>).
Proof.
  intros []. split; cbn; try done; unfold incr32.
  - apply u32_idemp.
  - rewrite Z.add_0_r, u32_idemp. done.
Qed.

Lemma count_completed_wf self s :
  state_wf self 0 s -> state_wf self 1 (s <| stats_ := bump completed (stats_ s) |>).
Proof.
  intros [Hl Hc Hn Hh Hi Hct Hb]. split; cbn; try done. unfold incr32.
  rewrite u32_u32_add. rewrite Z.add_0_r in Hb.
  replace (completed (stats_ s) + 1 + pending_count_ s) with (completed (stats_ s) + pending_count_ s + 1) by lia.
  by apply u32_shift.
Qed.

Lemma response_wf self k index response s :
  state_wf self k s -> length response = MaximumResponseSize ->
  state_wf self k (s <| pending_ := alter (fun call => call <| pending_response := response |>) index (pending_ s) |>).
Proof.
  intros [Hl Hc Hn Hh Hi Hct Hb] Hr.
  assert (used (alter (fun call => call <| pending_response := response |>) index (pending_ s)) = used (pending_ s)) as Hu.
  { destruct (pending_ s !! index) as [call|] eqn:E.
    - pose proof (used_alter (fun call => call <| pending_response := response |>) index _ _ E) as H.
      change (in_use ((fun call => call <| pending_response := response |>) call)) with (in_use call) in H. lia.
    - f_equal. apply list_eq. intros j. rewrite list_lookup_alter. destruct (decide (index = j)) as [<-|]; [|done].
      by rewrite E. }
  split; cbn; try done.
  - by rewrite length_alter.
  - apply Forall_alter_slot; [done|]. intros call _ (H1 & H2 & H3). unfold call_wf. by cbn.
  - exact (eq_trans Hn (eq_sym (f_equal Z.of_nat Hu))).
Qed.

(** ** Calls keep the state well formed and other calls alone *)

(** The calls in use stay as they are, and a new one has a given completion. *)
Definition extends (completion : option C) (before after : list PendingCall) : Prop :=
  (forall index call, before !! index = Some call -> in_use call = true ->
     after !! index = Some call) /\
  (forall index call, after !! index = Some call -> in_use call = true ->
     before !! index = Some call \/ pending_completion call = completion).

Lemma extends_refl completion pending : extends completion pending pending.
Proof. split; auto. Qed.

Lemma Reject_state status w :
  load state (Reject status w).2 = (load state w) <| stats_ := bump rejected (stats_ (load state w)) |>.
Proof. unfold Reject, count. cbn [snd]. by rewrite load_modify. Qed.

Lemma Reject_wf self status w :
  state_wf self 0 (load state w) -> state_wf self 0 (load state (Reject status w).2).
Proof. rewrite Reject_state. intros H. by apply bump_wf. Qed.

Lemma Submit_wf accepted self d i service handler request deadline_ns completion caller w :
  Z.of_nat MaxPending <= UINT64_MAX -> QuietExecutor (executor_ self) ->
  serves accepted self d i service handler -> (length request <= MaximumRequestSize)%nat ->
  state_wf self 0 (load state w) ->
  let w' := (Submit self i request deadline_ns completion caller w).2 in
  state_wf self 0 (load state w') /\
  extends (Some completion) (pending_ (load state w)) (pending_ (load state w')).
Proof.
  intros Hmax HQ [Hat _ Hh _ _ _] Hr Hwf. rewrite Submit_eq.
  destruct (free_slot 0 (pending_ (load state w))) as [index|] eqn:Hf;
    [|split; [by apply Reject_wf|rewrite Reject_state; apply extends_refl]].
  pose proof (post_quiet (dispatch index) caller (at_post index i request deadline_ns completion w)) as Hq.
  destruct (ExecutorRef_TryPost _ _ _ _) as [status w1]. cbn [snd] in Hq.
  pose proof (submitted_wf self index i service handler request deadline_ns completion _ Hmax Hwf Hf Hat Hh Hr) as H1.
  unfold at_post in Hq. rewrite load_modify in Hq. rewrite <- Hq in H1.
  destruct (free_slot_Some _ _ _ Hf) as (_ & call & Hcall & Hfree). rewrite Nat.sub_0_r in Hcall.
  destruct (IsOk status); cbn [negb snd].
  - unfold count. rewrite load_modify. split; [by apply count_calls_wf|].
    cbn. rewrite Hq. cbn. split; intros j call' Hj Huse.
    + rewrite list_lookup_alter_ne; [done|congruence].
    + rewrite list_lookup_alter in Hj. destruct (decide (index = j)) as [<-|]; [|by left].
      rewrite Hcall in Hj. right. by injection Hj as <-.
  - rewrite Reject_state. unfold count. rewrite load_modify, Release_modify, load_modify. split.
    + apply bump_wf; [|done|done|done]. apply bump_wf; [|done|done|done].
      apply (release_wf self 1 index (filled i request (MkRpcCallInfo (next_request_id (next_request_id_
        (load state w))) deadline_ns) completion call)); [done| |done|done].
      rewrite Hq. cbn. by rewrite list_lookup_alter_eq, Hcall.
    + cbn. rewrite Hq. cbn. rewrite list_alter_twice. split; intros j call' Hj Huse.
      * rewrite list_lookup_alter_ne; [done|congruence].
      * rewrite list_lookup_alter in Hj. destruct (decide (index = j)) as [<-|]; [|by left].
        rewrite Hcall in Hj. by injection Hj as <-.
Qed.

Lemma CallAsync_wf accepted self d request deadline_ns completion caller w :
  Z.of_nat MaxPending <= UINT64_MAX -> QuietExecutor (executor_ self) ->
  inv accepted self -> sealed_ self = true -> state_wf self 0 (load state w) ->
  let w' := (CallAsync self d request deadline_ns completion caller w).2 in
  state_wf self 0 (load state w') /\
  extends completion (pending_ (load state w)) (pending_ (load state w')).
Proof.
  intros Hmax HQ I Hs Hwf.
  assert (forall status, state_wf self 0 (load state (Reject status w).2) /\
    extends completion (pending_ (load state w)) (pending_ (load state (Reject status w).2))) as Hrej
    by (intros status; split; [by apply Reject_wf|rewrite Reject_state; apply extends_refl]).
  destruct completion as [completion|];
    [|unfold CallAsync; rewrite Hs; cbn [negb]; apply Hrej].
  pose proof (CallAsync_admission accepted self d request deadline_ns completion caller w I Hs) as H.
  cbn zeta in H. destruct (IsOk _); [|rewrite H; apply Hrej].
  destruct H as (i & service & handler & Hserves & Hr & ->). by eapply Submit_wf.
Qed.

(** The code behind [good] completions and behind the registered handlers
    reaches the calls only through [CallAsync], and a handler leaves the
    response buffer as long as it was. *)
Section WellBehaved.
Variables (self : t) (good : C -> Prop).

Inductive calls_only (w : W) : W -> Prop :=
| co_refl : calls_only w w
| co_other w' w'' : calls_only w w' -> load state w'' = load state w' -> calls_only w w''
| co_call w' d request deadline_ns completion caller :
    calls_only w w' -> (forall c, completion = Some c -> good c) ->
    calls_only w (CallAsync self d request deadline_ns completion caller w').2.

Definition well_behaved_handler (handler : aster_rpc_handler_t W) : Prop :=
  forall request buffer capacity info context w,
    let '(reply, w') := handler request (AbiBytes (Some buffer) capacity) (Some 0%nat) (Some info)
      (Some context) w in
    length (reply_response reply) = length buffer /\ calls_only w w'.

Class WellBehaved : Prop := {
  wb_handler : forall service handler,
    service ∈ services_ self -> service_handler service = Some handler ->
    well_behaved_handler handler;
  wb_completion : forall completion, good completion ->
    forall status response info context w,
      calls_only w (completion_fn completion status response info context w)
}.

(** The histories of a sealed backend: calls with good completions, the
    executor running the work of calls in use, and anything else that leaves
    the calls alone. *)
Inductive reachable : W -> Prop :=
| reach_init w : load state w = RpcState_init -> reachable w
| reach_other w w' : reachable w -> load state w' = load state w -> reachable w'
| reach_call w d request deadline_ns completion caller :
    reachable w -> (forall c, completion = Some c -> good c) ->
    reachable (CallAsync self d request deadline_ns completion caller w).2
| reach_run w index context :
    reachable w -> in_use (slot index w) = true -> reachable (Dispatch self index context w).

Context (accepted : list registration) `{!WellBehaved} `{!QuietExecutor (executor_ self)}.
Hypothesis self_inv : inv accepted self.
Hypothesis self_sealed : sealed_ self = true.
Hypothesis pending_bound : Z.of_nat MaxPending <= UINT64_MAX.

(** A well-formed state in which the completions of the calls in use are good. *)
Definition good_state (s : RpcState) : Prop :=
  state_wf self 0 s /\
  forall index call c, pending_ s !! index = Some call -> in_use call = true ->
    pending_completion call = Some c -> good c.

Definition keeps (before after : list PendingCall) : Prop :=
  forall index call, before !! index = Some call -> in_use call = true -> after !! index = Some call.

Lemma CallAsync_good d request deadline_ns completion caller w :
  (forall c, completion = Some c -> good c) -> good_state (load state w) ->
  let w' := (CallAsync self d request deadline_ns completion caller w).2 in
  good_state (load state w') /\ keeps (pending_ (load state w)) (pending_ (load state w')).
Proof.
  intros Hc [Hwf Hg].
  destruct (CallAsync_wf accepted self d request deadline_ns completion caller w) as [H1 [H2 H3]]; try done.
  split; [|exact H2]. split; [done|]. intros index call c Hcall Huse Hcomp.
  destruct (H3 index call Hcall Huse) as [Hb|Hb]; [by eapply Hg|]. apply Hc. congruence.
Qed.

Lemma calls_only_good w w' :
  calls_only w w' -> good_state (load state w) ->
  good_state (load state w') /\ keeps (pending_ (load state w)) (pending_ (load state w')).
Proof.
  induction 1 as [|w' w'' _ IH Hload|w' d request deadline_ns completion caller _ IH Hc]; intros Hg.
  - split; [done|by intros ?].
  - rewrite Hload. by apply IH.
  - destruct (IH Hg) as [Hg' Hk]. destruct (CallAsync_good d request deadline_ns completion caller w' Hc Hg') as [H1 H2].
    split; [done|]. intros index call Hb Hu. by apply H2; [apply Hk|].
Qed.

Lemma slot_lookup index w : in_use (slot index w) = true -> pending_ (load state w) !! index = Some (slot index w).
Proof. unfold slot. by destruct (pending_ (load state w) !! index). Qed.

(** The state when the outcome of a call is known: the call is still in use. *)
Lemma Complete_outcome_good index context w :
  good_state (load state w) -> in_use (slot index w) = true ->
  let '(_, size, w') := Complete_outcome self index context w in
  good_state (load state w') /\ (size <= MaximumResponseSize)%nat /\
  exists response, pending_ (load state w') !! index =
    Some ((slot index w) <| pending_response := response |>).
Proof.
  intros Hg Huse. pose proof (slot_lookup _ _ Huse) as Hat. unfold Complete_outcome.
  destruct (negb _ && _).
  { unfold count. rewrite load_modify. split_and!; [|lia|].
    - destruct Hg as [Hwf Hg]. split; [by apply bump_wf|done].
    - exists (pending_response (slot index w)). cbn [pending_ set_field eta_RpcState]. rewrite Hat. f_equal. by destruct (slot index w). }
  pose proof (st_calls _ _ _ (proj1 Hg)) as Hall. rewrite Forall_lookup in Hall.
  destruct (Hall index _ Hat) as (Hq & Hp & Hserv). destruct (Hserv Huse) as ((i & service & handler & -> & Hs & Hh) & _ & _).
  cbn [mbind option_bind]. rewrite Hs. destruct service as [d h n]. cbn in Hh. subst h.
  pose proof (wb_handler _ handler (list_elem_of_lookup_2 _ _ _ Hs) eq_refl) as Hwb.
  specialize (Hwb (AbiBytes (Some (pending_request (slot index w))) (pending_request_size (slot index w)))
    (pending_response (slot index w)) MaximumResponseSize (ToAbiRpcCallInfo (pending_info (slot index w)))
    (ToAbiExecutionContext context) w).
  destruct (handler _ _ _ _ _ w) as [reply w1]. destruct Hwb as [Hlen Hcalls].
  destruct (calls_only_good _ _ Hcalls Hg) as [[Hwf1 Hg1] Hk].
  assert (good_state (load state (modify_slot index (fun call => call <| pending_response := reply_response reply |>) w1)) /\
    exists response, pending_ (load state (modify_slot index (fun call => call <| pending_response := reply_response reply |>) w1))
      !! index = Some ((slot index w) <| pending_response := response |>)) as [H1 H2].
  { unfold modify_slot. rewrite load_modify. split; [split|].
    - apply response_wf; [done|]. by rewrite Hlen.
    - cbn. intros j call c Hj Hu Hc. rewrite list_lookup_alter in Hj. destruct (decide (index = j)) as [<-|];
        [|by eapply Hg1]. rewrite (Hk index _ Hat Huse) in Hj. injection Hj as <-.
      apply (Hg1 index (slot index w)); [by apply Hk|done|done].
    - exists (reply_response reply). cbn. by rewrite list_lookup_alter_eq, (Hk index _ Hat Huse). }
  destruct (_ || _) eqn:E; [split_and!; [done|lia|done]|].
  destruct (IsOk _); cbn [negb]; (split_and!; [done| |done]); [|lia].
  apply orb_false_iff in E as [E%Nat.ltb_ge _]. lia.
Qed.

Lemma finished_good index status call s :
  good_state s -> pending_ s !! index = Some call -> in_use call = true ->
  good_state (finished index status s).
Proof.
  intros [Hwf Hg] Hat Huse. unfold finished. split.
  - change 0 with (1 - 1). eapply release_wf; [| |exact Huse|done]; [|exact Hat].
    destruct (negb (IsOk status)); [|by apply count_completed_wf].
    assert (state_wf self 0 (s <| stats_ := bump failures (stats_ s) |>)) as H1 by by apply bump_wf.
    exact (count_completed_wf _ _ H1).
  - cbn. intros j call' c Hj Hu. rewrite list_lookup_alter in Hj.
    destruct (decide (index = j)) as [<-|]; [|by eapply Hg]. rewrite Hat in Hj. by injection Hj as <-.
Qed.

Lemma Complete_good index context w :
  good_state (load state w) -> in_use (slot index w) = true ->
  good_state (load state (Complete self index context w)).
Proof.
  intros Hg Huse. rewrite Complete_eq.
  pose proof (Complete_outcome_good index context w Hg Huse) as Hout.
  destruct (Complete_outcome self index context w) as [[status size] w1].
  destruct Hout as (Hg1 & _ & response & Hat).
  assert (good_state (load state (modify (finished index status) w1))) as Hg2
    by (rewrite load_modify; eapply finished_good; [done|exact Hat|done]).
  unfold slot. rewrite Hat. cbn [default pending_completion set_field eta_PendingCall].
  destruct (pending_completion (slot index w)) as [c|] eqn:Hc; [|done].
  eapply calls_only_good; [|exact Hg2]. apply wb_completion.
  eapply (proj2 Hg); [by apply slot_lookup|done|done].
Qed.

Lemma rpc_reachable_good w : reachable w -> good_state (load state w).
Proof.
  induction 1 as [w ->|w w' _ IH ->|w d request deadline_ns completion caller _ IH Hc
    |w index context _ IH Huse].
  - split; [apply state_init_wf|]. intros index call c Hc Hu.
    apply lookup_replicate in Hc as [-> _]. done.
  - done.
  - by apply CallAsync_good.
  - by apply Complete_good.
Qed.
End WellBehaved.

(** ** One call, from its acceptance to its answer *)

(** What the caller is told for a reply to a call on [d]. *)
Definition reply_outcome (d : ServiceDescriptor) (reply : RpcReply) : Status * nat :=
  if (MaximumResponseSize <? reply_size reply)%nat ||
     (max_serialized_size (response_type d) <? Z.of_nat (reply_size reply))
  then (kInternal, 0%nat)
  else
    let status := FromAbiStatus (reply_code reply) in
    (status, if IsOk status then reply_size reply else 0%nat).

Lemma CallAsync_accepted accepted self d request deadline_ns completion caller w w1 :
  inv accepted self -> sealed_ self = true -> QuietExecutor (executor_ self) ->
  CallAsync self d request deadline_ns (Some completion) caller w = (kOk, w1) ->
  exists index i service handler w0' call,
    serves accepted self d i service handler /\ (length request <= MaximumRequestSize)%nat /\
    free_slot 0 (pending_ (load state w)) = Some index /\
    pending_ (load state w) !! index = Some call /\ in_use call = false /\
    ExecutorRef_TryPost (executor_ self) (Some (dispatch index)) caller
      (at_post index i request deadline_ns completion w) = (kOk, w0') /\
    w1 = count calls w0' /\
    pending_ (load state w1) !! index = Some (filled i request
      (MkRpcCallInfo (next_request_id (next_request_id_ (load state w))) deadline_ns) completion call).
Proof.
  intros I Hs HQ Hcall. pose proof (CallAsync_admission accepted self d request deadline_ns completion caller w I Hs) as H.
  cbn zeta in H. destruct (IsOk _) eqn:Hok; [|rewrite H in Hcall; injection Hcall as Hst _; by rewrite Hst in Hok].
  destruct H as (i & service & handler & Hserves & Hr & Heq). rewrite Heq, Submit_eq in Hcall.
  destruct (free_slot 0 (pending_ (load state w))) as [index|] eqn:Hf; [|done].
  destruct (free_slot_Some _ _ _ Hf) as (_ & call & Hat & Hfree). rewrite Nat.sub_0_r in Hat.
  pose proof (post_quiet (dispatch index) caller (at_post index i request deadline_ns completion w)) as Hq.
  destruct (ExecutorRef_TryPost _ _ _ _) as [status w0'] eqn:Hpost. cbn [snd] in Hq.
  destruct (IsOk status) eqn:Est; cbn [negb] in Hcall; [|injection Hcall as Hst _; by rewrite Hst in Est].
  apply IsOk_spec in Est as ->. injection Hcall as <-.
  exists index, i, service, handler, w0', call.
  split_and!; try done. unfold count. rewrite load_modify. cbn. rewrite Hq. unfold at_post.
  rewrite load_modify. cbn. by rewrite list_lookup_alter_eq, Hat.
Qed.

Lemma bytes_of_filled request buffer :
  (length request <= length buffer)%nat ->
  bytes_of (AbiBytes (Some (copy_into 0 request buffer)) (length request)) = request.
Proof. intros H. unfold bytes_of. cbn. apply take_copy_into. lia. Qed.

(** The answer to a call in use, by its service. *)
Lemma Dispatch_expired self index context w call completion :
  pending_ (load state w) !! index = Some call -> pending_completion call = Some completion ->
  deadline_ns (pending_info call) <> 0 -> deadline_ns (pending_info call) <= timestamp_ns context ->
  Dispatch self index context w =
    completion_fn completion (ToAbiStatus kTimeout) (response_view (pending_response call) 0)
      (Some (ToAbiRpcCallInfo (pending_info call))) (Some (ToAbiExecutionContext context))
      (modify (finished index kTimeout) (count timeouts w)).
Proof.
  intros Hat Hc H0 Hd. unfold Dispatch. rewrite Complete_eq. unfold Complete_outcome.
  assert (slot index w = call) as -> by (unfold slot; by rewrite Hat).
  guard_false (deadline_ns (pending_info call) =? 0).
  guard_true (deadline_ns (pending_info call) <=? timestamp_ns context). cbn [negb andb].
  assert (slot index (count timeouts w) = call) as ->.
  { unfold slot, count. rewrite load_modify. cbn. by rewrite Hat. }
  by rewrite Hc.
Qed.

Lemma Dispatch_answered self index context w w' call completion i d handler n reply :
  pending_ (load state w) !! index = Some call -> pending_completion call = Some completion ->
  pending_service call = Some i -> services_ self !! i = Some (MkService d (Some handler) n) ->
  deadline_ns (pending_info call) = 0 \/ timestamp_ns context < deadline_ns (pending_info call) ->
  handler (AbiBytes (Some (pending_request call)) (pending_request_size call))
    (AbiBytes (Some (pending_response call)) MaximumResponseSize) (Some 0%nat)
    (Some (ToAbiRpcCallInfo (pending_info call))) (Some (ToAbiExecutionContext context)) w = (reply, w') ->
  pending_ (load state w') !! index = Some call ->
  Dispatch self index context w =
    let '(status, size) := reply_outcome d reply in
    completion_fn completion (ToAbiStatus status) (response_view (reply_response reply) size)
      (Some (ToAbiRpcCallInfo (pending_info call))) (Some (ToAbiExecutionContext context))
      (modify (finished index status)
         (modify_slot index (fun call => call <| pending_response := reply_response reply |>) w')).
Proof.
  intros Hat Hc Hi Hs Hd Hh Hat'. unfold Dispatch. rewrite Complete_eq. unfold Complete_outcome.
  assert (slot index w = call) as -> by (unfold slot; by rewrite Hat).
  destruct (negb (deadline_ns (pending_info call) =? 0) && _) eqn:E; [bool_hyps; lia|].
  rewrite Hi. cbn [mbind option_bind]. rewrite Hs, Hh.
  set (w2 := modify_slot _ _ w').
  assert (slot index w2 = call <| pending_response := reply_response reply |>) as Hslot.
  { unfold slot, w2, modify_slot. rewrite load_modify. cbn. by rewrite list_lookup_alter_eq, Hat'. }
  unfold reply_outcome. destruct (_ || _); [|destruct (IsOk _); cbn [negb]]; rewrite Hslot; cbn; by rewrite Hc.
Qed.
End Laws.
End LocalRpc.
Arguments Service : clear implicits.
Arguments PendingCall : clear implicits.
Arguments RpcState : clear implicits.
Arguments t : clear implicits.
Arguments registration : clear implicits.

(** ** Properties *)

Section Properties.
Context {W C P : Type} (completion_fn : C -> aster_rpc_completion_t W) (dispatch : nat -> P).
Context (MaxServices MaximumRequestSize MaximumResponseSize MaxPending : nat).
Context (state : Cell W (RpcState C)) `{!CellLaws state}.

(** C16: a backend is a function of its accepted registrations: whatever was
    refused before, it seals exactly when it has an executor and every service
    with a client has a server; a call on the sealed backend is refused, and
    counted as rejected, with the status the registrations determine (unknown
    service, another type or too large a request, deadline passed, no server);
    an admitted call is refused only when every slot is in use or by the
    executor, with the executor's status and the slot given back, and is
    accepted otherwise. *)
Theorem rpc_call_decision executor (rs : list (registration W)) d request deadline completion caller w :
  let '(accepted, self) := run MaxServices MaximumRequestSize MaximumResponseSize rs (make executor) in
  ((Seal self).1 = kOk <->
     is_Some executor /\
     forall d, has_client d accepted = true -> is_Some (server_of d accepted)) /\
  (forall sealed, Seal self = (kOk, sealed) ->
     let status := admission accepted d (length request) deadline (timestamp_ns caller) in
     let call := CallAsync dispatch state sealed d request deadline (Some completion) caller w in
     let pending := pending_ (load state w) in
     (status <> kOk -> call = Reject state status w) /\
     (status = kOk ->
        (used pending = length pending -> call = Reject state kCapacityExceeded w) /\
        ((used pending < length pending)%nat ->
           exists index before, pending !! index = Some before /\ in_use before = false /\
             exists w0,
               let '(post, w1) := ExecutorRef_TryPost executor (Some (dispatch index)) caller w0 in
               call = if IsOk post then (kOk, count state calls w1)
                      else Reject state post (count state schedule_failures (Release state index w1))))).
Proof.
  pose proof (rpc_run_inv MaxServices MaximumRequestSize MaximumResponseSize rs [] (make executor)
    (rpc_make_inv _ _ _ executor)) as (Hs & He & I).
  destruct (run _ _ _ rs (make executor)) as [accepted self]. cbn in Hs, He, I. split.
  { rewrite <- He. by eapply rpc_Seal_spec. }
  intros sealed Hseal. pose proof (Seal_inv _ _ _ accepted self I) as I'. rewrite Hseal in I'. cbn in I'.
  pose proof (proj2 (Seal_services self)) as He'. rewrite Hseal in He'. cbn in He'.
  assert (sealed_ sealed = true) as Hs'.
  { unfold Seal in Hseal. rewrite Hs in Hseal. destruct (executor_ self); [|done].
    destruct (existsb _ _); [done|]. by injection Hseal as <-. }
  pose proof (CallAsync_admission dispatch MaxServices MaximumRequestSize MaximumResponseSize state accepted
    sealed d request deadline completion caller w I' Hs') as H. cbn zeta in H |- *. split.
  - intros Hne%IsOk_false. by rewrite Hne in H.
  - intros Hok. rewrite Hok in H. cbn [IsOk] in H. destruct H as (i & service & handler & _ & _ & ->).
    rewrite Submit_eq by done. rewrite He', He. split.
    + intros Hu%(free_slot_None 0). by rewrite Hu.
    + intros Hlt. destruct (free_slot 0 (pending_ (load state w))) as [index|] eqn:Hf;
        [|apply free_slot_None in Hf; lia].
      destruct (free_slot_Some _ _ _ Hf) as (_ & before & Hat & Hfree). rewrite Nat.sub_0_r in Hat.
      exists index, before. split_and!; [done|done|].
      exists (at_post state index i request deadline completion w).
      destruct (ExecutorRef_TryPost _ _ _ _) as [post w1]. by destruct (IsOk post).
Qed.

(** C17: every accepted call is answered once, by its own work item and with
    its own result. Acceptance binds a free slot and posts the work item of
    that slot; whatever happens elsewhere until the executor runs it, running
    it makes exactly one call of the caller's completion: after the deadline
    with [kTimeout], an empty response and no call of the handler, and
    otherwise with the handler's status and response (cut off to [kInternal]
    when the handler claims more bytes than the buffer or the type has), the
    handler having seen the exact request bytes; the completion gets the call's
    own identifier and deadline, and finds its slot already free again. *)
Theorem rpc_call_completes accepted self d request deadline completion caller w w1 :
  inv MaxServices MaximumRequestSize MaximumResponseSize accepted self -> sealed_ self = true ->
  QuietExecutor state (executor_ self) ->
  state_wf MaximumRequestSize MaximumResponseSize MaxPending self 0 (load state w) ->
  CallAsync dispatch state self d request deadline (Some completion) caller w = (kOk, w1) ->
  exists index info call handler buffer w0 w0',
    server_of d accepted = Some handler /\
    in_use (slot MaximumRequestSize MaximumResponseSize state index w) = false /\
    ExecutorRef_TryPost (executor_ self) (Some (dispatch index)) caller w0 = (kOk, w0') /\
    w1 = count state calls w0' /\
    pending_ (load state w1) !! index = Some call /\
    deadline_ns info = deadline /\ 1 <= request_id info <= UINT32_MAX /\
    length buffer = MaximumResponseSize /\
    forall w2 context, pending_ (load state w2) !! index = Some call ->
      let run := Dispatch completion_fn MaximumRequestSize MaximumResponseSize state self index context w2 in
      let answer status response size w3 :=
        in_use (slot MaximumRequestSize MaximumResponseSize state index w3) = false /\
        run = completion_fn completion (ToAbiStatus status)
                (response_view MaximumResponseSize response size)
                (Some (ToAbiRpcCallInfo info)) (Some (ToAbiExecutionContext context)) w3 in
      (deadline <> 0 -> deadline <= timestamp_ns context ->
         exists w3, answer kTimeout buffer 0%nat w3) /\
      (deadline = 0 \/ timestamp_ns context < deadline ->
         exists data, bytes_of (AbiBytes (Some data) (length request)) = request /\
           forall reply w',
             handler (AbiBytes (Some data) (length request)) (AbiBytes (Some buffer) MaximumResponseSize) (Some 0%nat)
               (Some (ToAbiRpcCallInfo info)) (Some (ToAbiExecutionContext context)) w2 = (reply, w') ->
             pending_ (load state w') !! index = Some call ->
             let '(status, size) := reply_outcome MaximumResponseSize d reply in
             exists w3, answer status (reply_response reply) size w3).
Proof.
  intros I Hs HQ Hwf Hcall.
  destruct (CallAsync_accepted dispatch MaxServices MaximumRequestSize MaximumResponseSize state accepted self d
    request deadline completion caller w w1 I Hs HQ Hcall)
    as (index & i & service & handler & w0' & call & Hserves & Hr & _ & Hat & Hfree & Hpost & Hw1 & Hfill).
  pose proof (st_calls _ _ _ _ _ _ Hwf) as Hall. rewrite Forall_lookup in Hall.
  destruct (Hall index call Hat) as (Hq & Hp & _). destruct Hserves as [Hsat Hd Hh Hserver _ _].
  destruct service as [d' h n]. cbn in Hd, Hh. subst d' h.
  set (info := MkRpcCallInfo (next_request_id (next_request_id_ (load state w))) deadline) in *.
  set (call' := filled i request info completion call) in *.
  exists index, info, call', handler, (pending_response call),
    (at_post state index i request deadline completion w), w0'.
  split_and!; try done.
  - unfold slot. by rewrite Hat.
  - pose proof (next_request_id_range _ (st_ids _ _ _ _ _ _ Hwf)). cbn. lia.
  - pose proof (next_request_id_range _ (st_ids _ _ _ _ _ _ Hwf)). cbn. lia.
  - intros w2 context Hat2. cbn zeta. split.
    + intros H0 Hdl. eexists. split;
        [|exact (Dispatch_expired completion_fn MaximumRequestSize MaximumResponseSize state self index context w2
            call' completion Hat2 eq_refl H0 Hdl)].
      unfold slot, count. rewrite !load_modify by done. cbn. by rewrite list_lookup_alter_eq, Hat2.
    + intros Hdl. exists (pending_request call').
      split; [apply bytes_of_filled; lia|]. intros reply w' Hreply Hat'.
      pose proof (Dispatch_answered completion_fn MaximumRequestSize MaximumResponseSize state self index context
        w2 w' call' completion i d handler n reply Hat2 eq_refl eq_refl Hsat Hdl Hreply Hat') as Hans.
      destruct (reply_outcome MaximumResponseSize d reply) as [status size]. eexists. split; [|exact Hans].
      unfold slot, modify_slot. rewrite !load_modify by done. cbn.
      by rewrite list_lookup_alter_eq, list_lookup_alter_eq, Hat'.
Qed.

(** C18: in every history of a sealed backend whose handlers and completions
    reach it only through [CallAsync] (so that they may call again), the books
    balance: no more than [MaxPending] calls are pending, [pending_count] is
    exactly the number of slots in use and never above the high watermark,
    accepted calls are completed or pending, identifiers are never zero after
    the first, and every slot in use has a handler to run, a request inside
    its buffer and a completion to answer to, so that no null pointer is
    called. *)
Theorem rpc_accounting accepted self good w :
  inv MaxServices MaximumRequestSize MaximumResponseSize accepted self -> sealed_ self = true ->
  QuietExecutor state (executor_ self) ->
  WellBehaved completion_fn dispatch state self good ->
  Z.of_nat MaxPending <= UINT64_MAX ->
  reachable completion_fn dispatch MaximumRequestSize MaximumResponseSize MaxPending state self good w ->
  let s := load state w in
  length (pending_ s) = MaxPending /\
  pending_count_ s = Z.of_nat (used (pending_ s)) /\
  pending_count_ s <= pending_high_watermark (stats_ s) <= Z.of_nat MaxPending /\
  calls (stats_ s) = u32 (completed (stats_ s) + pending_count_ s) /\
  0 <= next_request_id_ s <= UINT32_MAX /\
  forall call, call ∈ pending_ s -> in_use call = true ->
    (exists i service handler, pending_service call = Some i /\ services_ self !! i = Some service /\
       service_handler service = Some handler) /\
    (pending_request_size call <= MaximumRequestSize)%nat /\
    (exists completion, pending_completion call = Some completion /\ good completion).
Proof.
  intros I Hs HQ HW Hmax Hr.
  destruct (rpc_reachable_good completion_fn dispatch MaxServices MaximumRequestSize MaximumResponseSize MaxPending
    state self good accepted I Hs Hmax w Hr) as [[Hl Hc Hn Hh Hi Hct Hb] Hg].
  cbn zeta. split_and!; try done; try lia.
  - by rewrite Z.add_0_r, Hct in Hb.
  - intros call Hin Huse. rewrite Forall_forall in Hc.
    destruct (Hc call Hin) as (_ & _ & Hcall). destruct (Hcall Huse) as (H1 & H2 & [c Hcomp]).
    split_and!; [done|done|]. exists c. split; [done|].
    apply list_elem_of_lookup in Hin as [index Hin]. by eapply Hg.
Qed.
End Properties.

(** *** Witness: an echo service, an executor that queues, a log of answers. *)
Definition witness_world : Type := RpcState nat * (list nat * list (Z * list Z)).

Definition witness_cell : Cell witness_world (RpcState nat) := MkCell fst (fun s w => (s, w.2)).

#[local] Instance witness_cell_laws : CellLaws witness_cell.
Proof. split; [done|by intros [? ?]|done]. Qed.

Definition witness_executor : ExecutorRef witness_world nat :=
  Some (AbiExecutor true None
    (Some (fun work _ w => (ASTER_STATUS_OK, (w.1, (w.2.1 ++ option_list work, w.2.2))))) None).

#[local] Instance witness_quiet : QuietExecutor witness_cell witness_executor.
Proof. split. by intros work caller w. Qed.

Definition witness_completion (c : nat) : aster_rpc_completion_t witness_world :=
  fun status response _ _ w => (w.1, (w.2.1, w.2.2 ++ [(status, bytes_of response)])).

Definition witness_echo : aster_rpc_handler_t witness_world :=
  fun request response _ _ _ w =>
    (MkReply ASTER_STATUS_OK (copy_into 0 (bytes_of request) (buffer_bytes response)) (bv_size request), w).

Definition witness_service : ServiceDescriptor :=
  MkServiceDescriptor "echo" SchemaHash_zero (MkTypeDescriptor "Req" SchemaHash_zero 2)
    (MkTypeDescriptor "Resp" SchemaHash_zero 2) "".

Definition witness_registrations : list (registration witness_world) :=
  [Client witness_service; Server witness_service witness_echo].

Definition witness_accepted : list (registration witness_world) :=
  (run 1 2 2 witness_registrations (make witness_executor)).1.

Definition witness_rpc : t witness_world nat :=
  (Seal (run 1 2 2 witness_registrations (make witness_executor)).2).2.

Lemma witness_rpc_inv : inv 1 2 2 witness_accepted witness_rpc.
Proof.
  apply Seal_inv.
  exact (proj2 (proj2 (rpc_run_inv 1 2 2 witness_registrations [] _ (rpc_make_inv 1 2 2 witness_executor)))).
Qed.

Definition witness_start : witness_world := (RpcState_init 2 2 1, ([], [])).
Definition witness_caller : ExecutionContext := MkExecutionContext "io" kThread 3.

Definition witness_call : Status * witness_world :=
  CallAsync id witness_cell witness_rpc witness_service [7; 8] 9 (Some 0%nat) witness_caller witness_start.

#[local] Instance witness_behaved : WellBehaved witness_completion id witness_cell witness_rpc (fun _ => True).
Proof.
  split.
  - intros service handler Hin Hh. vm_compute in Hin. apply list_elem_of_singleton in Hin as ->.
    injection Hh as <-. intros request buffer capacity info context w. cbn. rewrite copy_into_length.
    split; [done|constructor].
  - intros completion _ status response info context w. by eapply co_other; [constructor|].
Qed.

Lemma rpc_call_decision_witness :
  (Seal (run 1 2 2 witness_registrations (make witness_executor)).2).1 = kOk /\
  (CallAsync id witness_cell witness_rpc witness_service [7; 8; 9] 9 (Some 0%nat) witness_caller witness_start).1
    = kTypeMismatch.
Proof.
  pose proof (rpc_call_decision id 1 2 2 witness_cell witness_executor witness_registrations
    witness_service [7; 8; 9] 9 0%nat witness_caller witness_start) as H.
  destruct (run _ _ _ _ _) as [accepted self] eqn:Hrun. destruct H as [Hseal Hcall].
  vm_compute in Hrun. injection Hrun as <- <-. split; [reflexivity|].
  destruct (Hcall witness_rpc eq_refl) as [Hrej _]. rewrite Hrej by (vm_compute; discriminate). reflexivity.
Defined.

Lemma rpc_call_completes_witness :
  let run := Dispatch witness_completion 2 2 witness_cell witness_rpc 0 witness_caller witness_call.2 in
  run.2.2 = [(ASTER_STATUS_OK, [7; 8])] /\
  exists info w3, run = witness_completion 0%nat ASTER_STATUS_OK (response_view 2 [7; 8] 2) (Some info)
    (Some (ToAbiExecutionContext witness_caller)) w3.
Proof.
  split; [vm_compute; reflexivity|].
  destruct (rpc_call_completes witness_completion id 1 2 2 1 witness_cell witness_accepted witness_rpc
    witness_service [7; 8] 9 0%nat witness_caller witness_start witness_call.2
    witness_rpc_inv eq_refl witness_quiet (state_init_wf 2 2 1 witness_rpc) eq_refl)
    as (index & info & call & handler & buffer & w0 & w0' & Hserver & _ & _ & _ & Hcall & _ & _ & Hbuffer & Hrun).
  assert (index = 0%nat) as -> by (apply lookup_lt_Some in Hcall; vm_compute in Hcall; lia).
  destruct (Hrun witness_call.2 witness_caller Hcall) as [_ Hans].
  destruct (Hans (or_intror eq_refl)) as (data & Hdata & Hreply).
  injection Hserver as <-.
  specialize (Hreply _ _ eq_refl Hcall). rewrite Hdata in Hreply. destruct Hreply as (w3 & _ & Hreply).
  exists (ToAbiRpcCallInfo info), w3. rewrite Hreply.
  destruct buffer as [|b0 [|b1 [|]]]; try discriminate Hbuffer. reflexivity.
Defined.

Lemma rpc_accounting_witness :
  pending_count_ (load witness_cell witness_call.2) = 1 /\
  calls (stats_ (load witness_cell witness_call.2)) =
    u32 (completed (stats_ (load witness_cell witness_call.2)) + 1).
Proof.
  destruct (rpc_accounting witness_completion id 1 2 2 1 witness_cell witness_accepted witness_rpc
    (fun _ => True) witness_call.2 witness_rpc_inv eq_refl witness_quiet witness_behaved
    ltac:(vm_compute; discriminate)
    ltac:(apply reach_call; [by apply reach_init|done])) as (_ & _ & _ & Hcalls & _).
  split; [reflexivity|exact Hcalls].
Defined.
End LocalRpc.
