(* ===== verification/TypedRpc.v ===== *)
(** Typed remote calls end to end: a typed client and a typed server
    ([rpc.hpp]) over the C function table ([core/service/rpc.cpp]), [LocalRpc]
    ([local_rpc.hpp]) and an executor, and what [RpcRouter]
    ([rpc_router.hpp]) does with a call. *)

From S2P Require Export LocalRpc.

Local Open Scope Z_scope.

(** ** The handle is the backend *)

Definition service_descriptor_wf (d : ServiceDescriptor) : Prop :=
  service_name d <> ""%string /\ hash_wf (service_schema_hash d) /\
  (type_name (request_type d) <> ""%string /\ 0 < max_serialized_size (request_type d) <= SIZE_MAX /\
   hash_wf (schema_hash (request_type d))) /\
  (type_name (response_type d) <> ""%string /\ 0 < max_serialized_size (response_type d) <= SIZE_MAX /\
   hash_wf (schema_hash (response_type d))).

Lemma FromAbiString_ToAbi s : FromAbiString (ToAbiString s) = s.
Proof. apply substring_all. Qed.

Lemma FromAbiServiceDescriptor_ToAbi d result :
  service_descriptor_wf d -> FromAbiServiceDescriptor (Some (ToAbiServiceDescriptor d)) result = (kOk, d).
Proof.
  intros (Hn%string_nonempty_length & Hh & (Hq1 & Hq2 & Hq3) & Hp1 & Hp2 & Hp3).
  unfold FromAbiServiceDescriptor, ToAbiServiceDescriptor.
  cbn [abi_service_name abi_service_schema_hash abi_request_type abi_response_type abi_service_instance_name].
  rewrite !FromAbiTypeDescriptor_ToAbi, FromAbiSchemaHash_ToAbi, !FromAbiString_ToAbi by done.
  cbn [ToAbiString sv_data sv_size]. rewrite !(bool_decide_eq_false_2 (Some _ = None)) by done.
  guard_false (String.length (service_name d) =? 0)%nat. by destruct d.
Qed.

Lemma RpcRef_CallAsync_handle {W C} native (self : RpcBackend W C) active d request deadline completion
    caller w :
  kind (native w) = kThread -> kind caller = kThread -> executor_name caller <> ""%string ->
  service_descriptor_wf d ->
  RpcRef_CallAsync (RpcRef_make (Some (RpcBackend_NativeHandle native self active)))
    d request deadline (Some completion) (Some caller) w =
  rpc_CallAsync self d request deadline (Some completion) caller w.
Proof.
  intros Hn Hk Hc Hd.
  cbn [RpcRef_make RpcBackend_NativeHandle rpc_complete RpcRef_CallAsync fmap option_fmap option_map].
  unfold RpcCallAsync. rewrite ValidBuffer_of. rewrite bool_decide_eq_false_2 by done. cbn [negb orb].
  rewrite ResolveCallContext_named by auto. cbn [IsOk negb].
  rewrite FromAbiServiceDescriptor_ToAbi by done. cbn [IsOk negb]. rewrite bytes_of_buffer.
  destruct (rpc_CallAsync self d request deadline (Some completion) caller w). by rewrite FromAbiStatus_ToAbi.
Qed.

Lemma RpcRef_Register_handle {W C} native (self : RpcBackend W C) active d handler w :
  service_descriptor_wf d ->
  let rpc := RpcRef_make (Some (RpcBackend_NativeHandle native self active)) in
  RpcRef_RegisterClient rpc d w = rpc_RegisterClient self d w /\
  RpcRef_RegisterServer rpc d (Some handler) w = rpc_RegisterServer self d (Some handler) w.
Proof.
  intros Hd. cbn [RpcRef_make RpcBackend_NativeHandle rpc_complete RpcRef_RegisterClient RpcRef_RegisterServer].
  unfold RpcRegisterClient, RpcRegisterServer. rewrite FromAbiServiceDescriptor_ToAbi by done. cbn [IsOk]. split.
  - destruct (rpc_RegisterClient self d w). by rewrite FromAbiStatus_ToAbi.
  - destruct (rpc_RegisterServer self d (Some handler) w). by rewrite FromAbiStatus_ToAbi.
Qed.

(** ** Typed dispatch *)
Section Typed.
Context {W Request Response : Type} `{!MessageType Request} `{!MessageType Response}.

(** A server runs its handler on the message the request bytes decode to, and
    encodes the handler's response into the buffer it was given. *)
Lemma RpcServer_Dispatch_spec (handler : RpcHandler W Request Response) data size buffer written info
    context request w :
  executor_name context <> ""%string ->
  (forall out, Decode (bytes_of (AbiBytes (Some data) size)) out = (kOk, request)) ->
  RpcServer_Dispatch handler (AbiBytes (Some data) size) (AbiBytes (Some buffer) (length buffer))
    (Some written) (Some (ToAbiRpcCallInfo info)) (Some (ToAbiExecutionContext context)) w =
  let '(status, response, w) := handler request message_default info context w in
  if IsOk status then
    let '(status, bytes, size) := Encode response buffer in (MkReply (ToAbiStatus status) bytes size, w)
  else (MkReply (ToAbiStatus status) buffer 0, w).
Proof.
  intros Hc Hd. unfold RpcServer_Dispatch.
  cbn [bv_data bv_size]. rewrite !(bool_decide_eq_false_2 (Some _ = None)) by done. cbn [andb orb].
  rewrite ValidateAbiExecutionContext_named, FromAbiExecutionContext_ToAbi, Hd by done. cbn [IsOk negb].
  destruct info as [id dl]. cbn [ToAbiRpcCallInfo abi_request_id abi_deadline_ns request_id deadline_ns].
  destruct (handler request message_default _ context w) as [[status response] w'].
  destruct (IsOk status); cbn [negb]; [|done]. unfold buffer_bytes. cbn [bv_data default]. unfold Datatypes.id.
  rewrite take_ge, drop_ge by done. destruct (Encode response buffer) as [[st bytes] n].
  by rewrite app_nil_r.
Qed.

Context {K : Type} (callback_fn : K -> CompletionCallback W Response) (completion : Cell W (RpcCompletion K)).

(** A completion forgets the call first and then runs the callback, on the
    decoded response if the call succeeded. *)
Lemma RpcCompletion_Dispatch_spec status data size info context callback w :
  executor_name context <> ""%string ->
  completion_callback_ (load completion w) = Some callback ->
  RpcCompletion_Dispatch callback_fn completion (ToAbiStatus status) (AbiBytes (Some data) size)
    (Some (ToAbiRpcCallInfo info)) (Some (ToAbiExecutionContext context)) w =
  let '(status, response) :=
    if IsOk status then Decode (bytes_of (AbiBytes (Some data) size)) message_default
    else (status, message_default) in
  callback_fn callback status response info context (RpcCompletion_Cancel completion w).
Proof.
  intros Hc Hcb. unfold RpcCompletion_Dispatch. rewrite FromAbiStatus_ToAbi, Hcb.
  cbn [bv_data bv_size]. rewrite (bool_decide_eq_false_2 (Some _ = None)) by done. cbn [andb].
  rewrite ValidateAbiExecutionContext_named, FromAbiExecutionContext_ToAbi by done. cbn [IsOk].
  destruct info as [id dl]. cbn [ToAbiRpcCallInfo abi_request_id abi_deadline_ns request_id deadline_ns].
  by destruct (if IsOk status then _ else _) as [st response].
Qed.
End Typed.

(** Two objects that do not overlap. *)
Class Independent {W A B} (a : Cell W A) (b : Cell W B) : Prop := {
  load_left : forall x w, load a (store b x w) = load a w;
  load_right : forall x w, load b (store a x w) = load b w
}.

(** ** Properties *)
Module TypedRpc.
Import LocalRpc.

Section TypedRpc.
Context {W C P K Request Response : Type} `{!MessageType Request} `{!MessageType Response}.
Context `{!MessageTypeLaws Request} `{!MessageTypeLaws Response} `{!ServiceType}.
Context (completion_fn : C -> aster_rpc_completion_t W) (dispatch : nat -> P).
Context (MaxServices MaximumRequestSize MaximumResponseSize MaxPending : nat).
Context (state : Cell W (RpcState C)) `{!CellLaws state}.
Context (callback_fn : K -> CompletionCallback W Response) (completion : Cell W (RpcCompletion K)).
Context `{!CellLaws completion} `{!Independent state completion} (pointer : C).
Hypothesis pointer_code : completion_fn pointer = RpcCompletion_Dispatch callback_fn completion.

Lemma load_completion_modify f w : load completion (modify state f w) = load completion w.
Proof. unfold modify. apply load_right. Qed.

Lemma load_state_cancel w : load state (RpcCompletion_Cancel completion w) = load state w.
Proof. unfold RpcCompletion_Cancel. apply load_left. Qed.

(** What a successful client call leaves behind. *)
Lemma RpcClient_CallAsync_spec native active accepted self d (request : Request) deadline callback caller w w1 :
  inv MaxServices MaximumRequestSize MaximumResponseSize accepted self -> sealed_ self = true ->
  QuietExecutor state (executor_ self) ->
  (forall work caller w, load completion (ExecutorRef_TryPost (executor_ self) (Some work) caller w).2 = load completion w) ->
  service_descriptor_wf d -> request_type d = descriptor (Message := Request) ->
  kind (native w) = kThread -> (forall w', kind (native (store completion w' w)) = kThread) ->
  kind caller = kThread -> executor_name caller <> ""%string ->
  RpcClient_CallAsync request deadline completion pointer (Some callback) (Some caller)
    (MkRpcClient (RpcRef_make (Some (RpcBackend_NativeHandle native (backend dispatch MaxServices
       MaximumRequestSize MaximumResponseSize state self) active))) d) w = (kOk, w1) ->
  exists encoded written index i service handler call info,
    Encode request (zeros (Z.to_nat (max_serialized_size (descriptor (Message := Request)))))
      = (kOk, encoded, written) /\
    (written <= length encoded)%nat /\
    serves MaximumRequestSize MaximumResponseSize accepted self d i service handler /\
    (written <= MaximumRequestSize)%nat /\ deadline_ns info = deadline /\
    pending_ (load state w) !! index = Some call /\ in_use call = false /\
    pending_ (load state w1) !! index = Some (filled i (take written encoded) info pointer call) /\
    load completion w1 = MkRpcCompletion (Some callback) true /\
    completion_pending_ (load completion w) = false.
Proof.
  intros I Hs HQ Hquiet Hd Hreq Hn Hn' Hk Hc. unfold RpcClient_CallAsync.
  set (cap := Z.to_nat _). destruct (Encode request (zeros cap)) as [[st encoded] written] eqn:Henc.
  destruct (IsOk st) eqn:Est; cbn [negb]; [|intros [= -> _]; done]. apply IsOk_spec in Est as ->.
  destruct (Encode_fits request _ kOk encoded written Henc) as [Hlen Hw]; [by rewrite zeros_length|done|].
  rewrite zeros_length in Hlen.
  destruct (length encoded <? written)%nat eqn:Hbig; [done|]. apply Nat.ltb_ge in Hbig.
  unfold RpcCompletion_Prepare. destruct (completion_pending_ (load completion w)) eqn:Hpend; [done|].
  cbn [IsOk negb client_rpc_ client_descriptor_].
  rewrite RpcRef_CallAsync_handle by done. cbn [backend rpc_CallAsync].
  set (w0 := store completion _ w).
  destruct (CallAsync _ _ _ _ _ _ _ _ w0) as [st w1'] eqn:Hcall. intros [= -> <-]. cbn [IsOk negb].
  destruct (CallAsync_accepted dispatch MaxServices MaximumRequestSize MaximumResponseSize state accepted self d
    _ _ _ _ _ _ I Hs HQ Hcall)
    as (index & i & service & handler & wp & call & Hserves & Hr & _ & Hat & Hfree & Hpost & Hw1 & Hfill).
  rewrite length_take_le in Hr by done. unfold w0 in Hat, Hfill. rewrite load_left in Hat, Hfill.
  do 8 eexists. split_and!; try exact Hserves; try exact Hfill; try done; try lia.
  pose proof (Hquiet (dispatch index) caller (at_post state index i (take written encoded) deadline pointer w0)) as Hq.
  rewrite Hpost in Hq. cbn [snd] in Hq. rewrite Hw1. unfold count. rewrite load_completion_modify, Hq.
  unfold at_post. rewrite load_completion_modify. unfold w0. apply load_store.
Qed.

(** What a typed server makes of a request that decodes: the outcome is the
    handler's status, and a successful response reads back. *)
Lemma typed_reply data size buffer info context request (handler : RpcHandler W Request Response)
    status response d w w' :
  executor_name context <> ""%string -> length buffer = MaximumResponseSize ->
  response_type d = descriptor (Message := Response) ->
  max_serialized_size (response_type d) <= Z.of_nat MaximumResponseSize ->
  (forall out, Decode (bytes_of (AbiBytes (Some data) size)) out = (kOk, request)) ->
  handler request message_default info context w = (status, response, w') ->
  (IsOk status = true -> exists bytes written, Encode response buffer = (kOk, bytes, written)) ->
  exists reply written,
    RpcServer_Dispatch handler (AbiBytes (Some data) size) (AbiBytes (Some buffer) MaximumResponseSize)
      (Some 0%nat) (Some (ToAbiRpcCallInfo info)) (Some (ToAbiExecutionContext context)) w = (reply, w') /\
    reply_outcome MaximumResponseSize d reply = (status, written) /\
    (IsOk status = true -> forall out,
       Decode (bytes_of (response_view MaximumResponseSize (reply_response reply) written)) out
         = (kOk, response)).
Proof.
  intros Hc Hbuf Hrt Hmax Hdec Hh Henc. destruct (descriptor_wf (Message := Response)) as (_ & Hm & _).
  pose proof (RpcServer_Dispatch_spec handler data size buffer 0%nat info context request w Hc Hdec) as Hspec.
  rewrite Hbuf in Hspec. rewrite Hspec, Hh. clear Hspec.
  unfold reply_outcome. rewrite Hrt. destruct (IsOk status) eqn:Est.
  - destruct (Henc eq_refl) as (bytes & written & He). rewrite He. apply IsOk_spec in Est as ->.
    rewrite Hrt in Hmax.
    destruct (Encode_fits response _ kOk bytes written He) as [Hl Hw]; [rewrite Hbuf; lia|done|].
    exists (MkReply (ToAbiStatus kOk) bytes written), written. split; [done|].
    cbn [reply_size reply_code reply_response].
    guard_false (MaximumResponseSize <? written)%nat.
    guard_false (max_serialized_size (descriptor (Message := Response)) <? Z.of_nat written). cbn [orb].
    rewrite FromAbiStatus_ToAbi. cbn [IsOk]. split; [done|]. intros _ out.
    unfold response_view, bytes_of. cbn [bv_data bv_size].
    pose proof (take_copy_into (take written bytes) (zeros MaximumResponseSize)) as Ht.
    rewrite length_take_le, zeros_length in Ht by lia. rewrite Ht by lia. by eapply Decode_Encode.
  - exists (MkReply (ToAbiStatus status) buffer 0), 0%nat. split; [done|].
    cbn [reply_size reply_code reply_response]. guard_false (MaximumResponseSize <? 0)%nat.
    guard_false (max_serialized_size (descriptor (Message := Response)) <? Z.of_nat 0). cbn [orb].
    by rewrite FromAbiStatus_ToAbi, Est.
Qed.

(** The answer on the client's side of a call that is in use. *)
Lemma typed_answer (self : t W P) index context w w' before i d (handler : RpcHandler W Request Response) n
    status response info request message callback :
  let call := filled i request info pointer before in
  pending_ (load state w) !! index = Some call ->
  services_ self !! i = Some (MkService d (Some (RpcServer_Dispatch handler)) n) ->
  response_type d = descriptor (Message := Response) ->
  max_serialized_size (response_type d) <= Z.of_nat MaximumResponseSize ->
  length (pending_response before) = MaximumResponseSize ->
  (length request <= length (pending_request before))%nat ->
  deadline_ns info = 0 \/ timestamp_ns context < deadline_ns info ->
  executor_name context <> ""%string -> (forall out, Decode request out = (kOk, message)) ->
  handler message message_default info context w = (status, response, w') ->
  pending_ (load state w') !! index = Some call ->
  completion_callback_ (load completion w') = Some callback ->
  (IsOk status = true -> exists bytes size, Encode response (pending_response before) = (kOk, bytes, size)) ->
  exists w4,
    Dispatch completion_fn MaximumRequestSize MaximumResponseSize state self index context w =
      callback_fn callback status (if IsOk status then response else message_default) info context w4 /\
    load completion w4 = RpcCompletion_init /\
    in_use (slot MaximumRequestSize MaximumResponseSize state index w4) = false.
Proof.
  intros call Hat Hs Hrt Hmax Hbuf Hreq Hdl Hc Hdec Hh Hat' Hcb Henc.
  destruct (typed_reply (pending_request call) (length request) (pending_response call) info context message
    handler status response d w w') as (reply & size & Hreply & Hout & Hresp); try done.
  { intros out. unfold call. cbn [pending_request filled]. rewrite bytes_of_filled by done. apply Hdec. }
  pose proof (Dispatch_answered completion_fn MaximumRequestSize MaximumResponseSize state self index context w w'
    call pointer i d _ n reply Hat eq_refl eq_refl Hs Hdl Hreply Hat') as Hans.
  rewrite Hout in Hans. rewrite Hans, pointer_code. clear Hans. unfold response_view.
  rewrite (RpcCompletion_Dispatch_spec callback_fn completion status _ _ _ context callback);
    [|done|by unfold modify_slot; rewrite !load_completion_modify].
  eexists. split; [|split].
  - destruct (IsOk status) eqn:Est; [|reflexivity].
    apply IsOk_spec in Est as ->. specialize (Hresp eq_refl message_default). unfold response_view in Hresp.
    rewrite Hresp. reflexivity.
  - unfold RpcCompletion_Cancel. apply load_store.
  - unfold slot. rewrite load_state_cancel. unfold modify_slot. rewrite !load_modify by done. cbn.
    by rewrite list_lookup_alter_eq, list_lookup_alter_eq, Hat'.
Qed.

(** C19: a typed call is a function call at a distance. Once a client's call is
    accepted, its completion object is busy and refuses a second call; when the
    executor runs the posted work, in any later state that has left that slot
    and that completion object alone and before the deadline, the server's
    handler runs on the very message the client passed, with the call's
    identifier and deadline, and the client's callback runs exactly once, with
    the handler's status and, if the handler succeeded, its very response: all
    this through both codecs, the C function table and the pending-call
    buffers. By then the completion object and the slot are free again. *)
Theorem typed_call_roundtrip native active accepted (self : t W P) d
    (handler : RpcHandler W Request Response) (request : Request) deadline callback caller w w1 :
  inv MaxServices MaximumRequestSize MaximumResponseSize accepted self -> sealed_ self = true ->
  QuietExecutor state (executor_ self) ->
  (forall work caller w,
     load completion (ExecutorRef_TryPost (executor_ self) (Some work) caller w).2 = load completion w) ->
  state_wf MaximumRequestSize MaximumResponseSize MaxPending self 0 (load state w) ->
  service_descriptor_wf d -> request_type d = descriptor (Message := Request) ->
  response_type d = descriptor (Message := Response) ->
  server_of d accepted = Some (RpcServer_Dispatch handler) ->
  kind (native w) = kThread -> (forall c, kind (native (store completion c w)) = kThread) ->
  kind caller = kThread -> executor_name caller <> ""%string ->
  RpcClient_CallAsync request deadline completion pointer (Some callback) (Some caller)
    (MkRpcClient (RpcRef_make (Some (RpcBackend_NativeHandle native (backend dispatch MaxServices
       MaximumRequestSize MaximumResponseSize state self) active))) d) w = (kOk, w1) ->
  completion_pending_ (load completion w) = false /\
  (forall other, RpcCompletion_Prepare completion (Some other) w1 = (kInvalidState, w1)) /\
  exists index info buffer,
    deadline_ns info = deadline /\ length buffer = MaximumResponseSize /\
    forall w2 context status response w3,
      pending_ (load state w2) !! index = pending_ (load state w1) !! index ->
      deadline = 0 \/ timestamp_ns context < deadline -> executor_name context <> ""%string ->
      handler request message_default info context w2 = (status, response, w3) ->
      pending_ (load state w3) !! index = pending_ (load state w1) !! index ->
      load completion w3 = load completion w1 ->
      (IsOk status = true -> exists bytes size, Encode response buffer = (kOk, bytes, size)) ->
      exists w4,
        Dispatch completion_fn MaximumRequestSize MaximumResponseSize state self index context w2 =
          callback_fn callback status (if IsOk status then response else message_default) info context w4 /\
        load completion w4 = RpcCompletion_init /\
        in_use (slot MaximumRequestSize MaximumResponseSize state index w4) = false.
Proof.
  intros I Hs HQ Hquiet Hwf Hd Hreq Hresp Hserver Hn Hn' Hk Hc Hcall.
  destruct (RpcClient_CallAsync_spec native active accepted self d request deadline callback caller w w1
    I Hs HQ Hquiet Hd Hreq Hn Hn' Hk Hc Hcall)
    as (encoded & written & index & i & service & h & call & info & Henc & Hw & Hserves & Hr & Hdl & Hat & Hfree
        & Hat1 & Hcomp & Hpend).
  split_and!; [done| |].
  { intros other. unfold RpcCompletion_Prepare. by rewrite Hcomp. }
  pose proof (st_calls _ _ _ _ _ _ Hwf) as Hall. rewrite Forall_lookup in Hall.
  destruct (Hall index call Hat) as (Hq & Hp & _).
  destruct Hserves as [Hsat Hsd Hh Hserver' _ Hmax]. destruct service as [d' h' n]. cbn in Hsd, Hh. subst d' h'.
  rewrite Hserver in Hserver'. injection Hserver' as <-.
  exists index, info, (pending_response call). split_and!; [done|done|].
  intros w2 context status response w3 Hat2 Hdl2 Hctx Hrun Hat3 Hcomp3 Hencr.
  rewrite Hat1 in Hat2, Hat3.
  eapply typed_answer; try done.
  - rewrite length_take_le by done. lia.
  - by rewrite Hdl.
  - intros out. by eapply Decode_Encode.
  - by rewrite Hcomp3, Hcomp.
Qed.
End TypedRpc.

(** *** Witness: a service that negates a flag. *)
#[local] Instance witness_flag : MessageType bool := {|
  message_default := false;
  descriptor := MkTypeDescriptor "Flag" SchemaHash_zero 1;
  Encode := fun flag output =>
    match output with
    | [] => (kCapacityExceeded, output, 0%nat)
    | _ :: rest => (kOk, (if flag then 1 else 0) :: rest, 1%nat)
    end;
  Decode := fun bytes out =>
    match bytes with [b] => (kOk, negb (b =? 0)) | _ => (kProtocolError, out) end
|}.

#[local] Instance witness_flag_laws : MessageTypeLaws bool.
Proof.
  split.
  - split; [done|]. split; [cbn; unfold SIZE_MAX, UINT64_MAX; lia|]. split; [done|apply zeros_bytes].
  - intros flag [|b output] st encoded written; cbn; intros [= <- <- <-] H1 H; [done|cbn; lia].
  - intros flag [|b output] encoded written out; cbn; intros [= <- <-]. by destruct flag.
Qed.

#[local] Instance witness_negate : ServiceType := {|
  method_full_name := "Flags.Negate";
  service_hash := SchemaHash_zero
|}.

Definition witness_flags : Type := RpcState unit * (RpcCompletion unit * list (Status * bool)).

Definition witness_calls : Cell witness_flags (RpcState unit) := MkCell fst (fun s w => (s, w.2)).
Definition witness_object : Cell witness_flags (RpcCompletion unit) :=
  MkCell (fun w => w.2.1) (fun c w => (w.1, (c, w.2.2))).

#[local] Instance witness_calls_laws : CellLaws witness_calls.
Proof. split; [done|by intros [? ?]|done]. Qed.
#[local] Instance witness_object_laws : CellLaws witness_object.
Proof. split; [done|by intros [? [? ?]]|done]. Qed.
#[local] Instance witness_independent : Independent witness_calls witness_object.
Proof. by split. Qed.

Definition witness_callback (k : unit) : CompletionCallback witness_flags bool :=
  fun status response _ _ w => (w.1, (w.2.1, w.2.2 ++ [(status, response)])).

Definition witness_code (c : unit) : aster_rpc_completion_t witness_flags :=
  RpcCompletion_Dispatch witness_callback witness_object.

Definition witness_handler : RpcHandler witness_flags bool bool :=
  fun request _ _ _ w => (kOk, negb request, w).

(** The executor takes the work item and leaves the rest alone. *)
Definition witness_executor : ExecutorRef witness_flags nat :=
  Some (AbiExecutor true None (Some (fun _ _ w => (ASTER_STATUS_OK, w))) None).

#[local] Instance witness_quiet_executor : QuietExecutor witness_calls witness_executor.
Proof. by split. Qed.

Definition witness_descriptor : ServiceDescriptor :=
  with_instance_name "left" (service_descriptor (Request := bool) (Response := bool)).

Definition witness_registrations : list (registration witness_flags) :=
  [Client witness_descriptor; Server witness_descriptor (RpcServer_Dispatch witness_handler)].

Definition witness_accepted : list (registration witness_flags) :=
  (run 1 1 1 witness_registrations (make witness_executor)).1.

Definition witness_rpc : t witness_flags nat :=
  (Seal (run 1 1 1 witness_registrations (make witness_executor)).2).2.

Lemma witness_typed_inv : inv 1 1 1 witness_accepted witness_rpc.
Proof.
  apply Seal_inv.
  exact (proj2 (proj2 (rpc_run_inv 1 1 1 witness_registrations [] _ (rpc_make_inv 1 1 1 witness_executor)))).
Qed.

Lemma witness_descriptor_wf : service_descriptor_wf witness_descriptor.
Proof.
  assert (hash_wf SchemaHash_zero) by (split; [done|apply zeros_bytes]).
  unfold service_descriptor_wf. split_and!; try done.
Qed.

Definition witness_start : witness_flags := (RpcState_init 1 1 1, (RpcCompletion_init, [])).
Definition witness_caller : ExecutionContext := MkExecutionContext "io" kThread 3.

Definition witness_client : RpcClient witness_flags unit :=
  MkRpcClient (RpcRef_make (Some (RpcBackend_NativeHandle (fun _ => witness_caller)
    (backend id 1 1 1 witness_calls witness_rpc) []))) witness_descriptor.

Definition witness_called : Status * witness_flags :=
  RpcClient_CallAsync true 9 witness_object tt (Some tt) (Some witness_caller) witness_client witness_start.

Lemma typed_call_roundtrip_witness :
  (Dispatch witness_code 1 1 witness_calls witness_rpc 0 witness_caller witness_called.2).2.2 = [(kOk, false)] /\
  RpcCompletion_Prepare witness_object (Some tt) witness_called.2 = (kInvalidState, witness_called.2) /\
  exists index info w4,
    Dispatch witness_code 1 1 witness_calls witness_rpc index witness_caller witness_called.2 =
      witness_callback tt kOk false info witness_caller w4.
Proof.
  split; [vm_compute; reflexivity|].
  destruct (typed_call_roundtrip (Request := bool) (Response := bool) witness_code id 1 1 1 1 witness_calls
    witness_callback witness_object tt eq_refl (fun _ => witness_caller) [] witness_accepted witness_rpc
    witness_descriptor witness_handler true 9 tt witness_caller witness_start witness_called.2
    witness_typed_inv eq_refl witness_quiet_executor (fun _ _ _ => eq_refl) (state_init_wf 1 1 1 witness_rpc)
    witness_descriptor_wf eq_refl eq_refl eq_refl eq_refl (fun _ => eq_refl) eq_refl ltac:(done) eq_refl)
    as (_ & Hbusy & index & info & buffer & _ & Hbuffer & Hrun).
  split; [apply Hbusy|]. exists index, info.
  destruct (Hrun witness_called.2 witness_caller kOk false witness_called.2) as (w4 & Hw4 & _);
    try reflexivity; [by right|done| |by exists w4].
  intros _. destruct buffer as [|b buffer]; [done|]. by exists (0 :: buffer), 1%nat.
Defined.
End TypedRpc.

(** ** The router *)

(** A router built by [AddRemoteClient] sends every call of a service to
    exactly one backend: to the remote backend it was added with if the
    descriptors agree in every field, to none with [kTypeMismatch] if only the
    names agree, and to the local backend if no remote service has that name;
    registrations of clients go the same way before sealing, and neither is
    possible in the other phase. *)
Theorem rpc_routing {W C} (backend_at : BackendId -> RpcBackend W C) MaxRemoteClients local self d request
    deadline completion caller w :
  RpcRouter.reachable backend_at MaxRemoteClients local self ->
  let call := RpcRouter.CallAsync backend_at d request deadline completion caller self w in
  let register := RpcRouter.RegisterClient backend_at d self w in
  let through backend :=
    call = (if RpcRouter.sealed_ self
            then rpc_CallAsync (backend_at backend) d request deadline completion caller w
            else (kInvalidState, w)) /\
    register = (if RpcRouter.sealed_ self then (kInvalidState, w)
                else rpc_RegisterClient (backend_at backend) d w) in
  (forall route, In route (RpcRouter.routes_ self) ->
     RpcRouter.same_service_identity (RpcRouter.route_descriptor route) d ->
     RpcRouter.route_backend route <> local /\
     if SameService (RpcRouter.route_descriptor route) d then through (RpcRouter.route_backend route)
     else call = (if RpcRouter.sealed_ self then kTypeMismatch else kInvalidState, w) /\
          register = (if RpcRouter.sealed_ self then kInvalidState else kTypeMismatch, w)) /\
  ((forall route, In route (RpcRouter.routes_ self) ->
      ~ RpcRouter.same_service_identity (RpcRouter.route_descriptor route) d) -> through local).
Proof.
  intros [[Hb Hu Hr] Hl]%RpcRouter.rpc_router_reachable_wf. cbn zeta.
  unfold RpcRouter.CallAsync, RpcRouter.RegisterClient, RpcRouter.ClientBackend. split.
  - intros route Hin Hid. split.
    { rewrite <- Hl. rewrite Forall_forall in Hr. apply Hr. by apply list_elem_of_In. }
    apply list_elem_of_In, list_elem_of_lookup in Hin as [i Hi].
    rewrite (RpcRouter.find_route_lookup d _ i route Hu Hi Hid).
    by destruct (SameService _ d), (RpcRouter.sealed_ self).
  - intros Hno. destruct (RpcRouter.find_route d (RpcRouter.routes_ self)) as [route|] eqn:Hf.
    + apply RpcRouter.find_route_In in Hf as [Hin Hid]. by destruct (Hno route).
    + rewrite Hl. by destruct (RpcRouter.sealed_ self).
Qed.

Definition witness_backend (backend : BackendId) : RpcBackend (list BackendId) unit :=
  MkRpcBackend (fun _ w => (kOk, w ++ [backend])) (fun _ _ w => (kOk, w ++ [backend]))
    (fun _ _ _ _ _ w => (kOk, w ++ [backend])) (fun w => (kOk, w)) (fun _ => false).

Definition witness_router : RpcRouter.t :=
  (RpcRouter.AddRemoteClient 1 TypedRpc.witness_descriptor 7%nat (RpcRouter.make 0%nat)).2.

Lemma rpc_routing_witness :
  RpcRouter.RegisterClient witness_backend TypedRpc.witness_descriptor witness_router [] = (kOk, [7%nat]) /\
  RpcRouter.RegisterClient witness_backend ServiceDescriptor_default witness_router [] = (kOk, [0%nat]).
Proof.
  assert (RpcRouter.reachable witness_backend 1 0%nat witness_router) as Hr
    by (apply RpcRouter.reach_add, RpcRouter.reach_make).
  split.
  - destruct (rpc_routing witness_backend 1 0%nat witness_router TypedRpc.witness_descriptor [] 0 None
      TypedRpc.witness_caller [] Hr) as [H _].
    destruct (H (RpcRouter.MkRoute TypedRpc.witness_descriptor 7%nat)) as [_ [_ Hreg]];
      [by left|by split|exact Hreg].
  - destruct (rpc_routing witness_backend 1 0%nat witness_router ServiceDescriptor_default [] 0 None
      TypedRpc.witness_caller [] Hr) as [_ H].
    destruct H as [_ Hreg]; [|exact Hreg]. intros route [<-|[]] [H _]. discriminate H.
Defined.
