(* ===== verification/Services.v ===== *)
(** The remaining services of a module: configurator, parameters, hardware,
    logger and allocator. Handles of modules ([configurator/configurator.hpp],
    [parameter/parameter.hpp], [hardware/hardware_manager.hpp],
    [logger/logger.hpp], [allocator/allocator.hpp]), the abstract classes of the
    runtime ([aster_runtime/core/]) and the functions between them
    ([core/service/]). *)

From S2P Require Export Configuration Rpc.

Local Open Scope Z_scope.

(** [detail::ValidView]. *)
Definition ValidView (value : aster_string_view_t) : bool :=
  bool_decide (is_Some (sv_data value)) && negb (sv_size value =? 0)%nat.

Section Services.
Context {W : Type}.

Variable NativeExecutionContext : W -> ExecutionContext.

(** ** Configurator

    A getter takes the key and what the caller's output holds, and gives the
    status and what the output holds afterwards. *)
Record aster_configurator_base_t := AbiConfigurator {
  configurator_complete : bool;
  abi_configurator_get : option (aster_string_view_t -> ValueView -> W -> Z * ValueView)
}.

Definition ConfiguratorRef : Type := option aster_configurator_base_t.

Definition ConfiguratorRef_make (value : option aster_configurator_base_t) : ConfiguratorRef :=
  match value with
  | Some base => if configurator_complete base then value else None
  | None => None
  end.

Definition ConfiguratorRef_Get (self : ConfiguratorRef) (key : string) (output : ValueView) (w : W)
    : Status * ValueView :=
  match self with
  | Some (AbiConfigurator _ (Some get)) =>
      let '(code, value) := get (ToAbiString key) VNull w in
      let status := FromAbiStatus code in
      if negb (IsOk status) then (status, output)
      else if negb (IsOk (Validate value)) then (Validate value, output)
      else (kOk, value)
  | _ => (kUnavailable, output)
  end.

(** [Get<T>], given [ValueView::Get<T>]. *)
Definition ConfiguratorRef_Get_as {T} (read : ValueView -> T -> Status * T) (self : ConfiguratorRef)
    (key : string) (output : T) (w : W) : Status * T :=
  let '(status, value) := ConfiguratorRef_Get self key VNull w in
  if IsOk status then read value output else (status, output).

Record Configurator := MkConfigurator {
  configurator_Get : string -> ValueView -> W -> Status * ValueView
}.

Definition Configurator_GetNative (self : Configurator) (key : aster_string_view_t)
    (output : ValueView) (w : W) : Z * ValueView :=
  if negb (ValidView key) then (ASTER_STATUS_INVALID_ARGUMENT, output)
  else
    let '(status, value) := configurator_Get self (FromAbiString key) VNull w in
    if negb (IsOk status) then (ToAbiStatus status, VNull)
    else if negb (IsOk (Validate value)) then (ToAbiStatus (Validate value), VNull)
    else (ASTER_STATUS_OK, value).

Definition Configurator_NativeHandle (self : Configurator) : aster_configurator_base_t :=
  AbiConfigurator true (Some (Configurator_GetNative self)).

(** ** Parameters

    [storage] is the caller's buffer: a nullable pointer and a capacity going in,
    its bytes coming out. *)
Record aster_parameter_base_t := AbiParameter {
  parameter_complete : bool;
  abi_parameter_get :
    option (aster_string_view_t -> ValueView -> aster_bytes_view_t -> W -> Z * ValueView * list Z);
  abi_parameter_set :
    option (aster_string_view_t -> option ValueView -> option aster_execution_context_t -> W -> Z * W)
}.

Definition ParameterRef : Type := option aster_parameter_base_t.

Definition ParameterRef_make (value : option aster_parameter_base_t) : ParameterRef :=
  match value with
  | Some base => if parameter_complete base then value else None
  | None => None
  end.

Definition ParameterRef_Get (self : ParameterRef) (name : string) (output : ValueView)
    (storage : list Z) (w : W) : Status * ValueView * list Z :=
  match self with
  | Some (AbiParameter _ (Some get) _) =>
      let '(code, value, storage) := get (ToAbiString name) VNull (buffer_of storage) w in
      let status := FromAbiStatus code in
      if negb (IsOk status) then (status, output, storage)
      else if negb (IsOk (Validate value)) then (Validate value, output, storage)
      else (kOk, value, storage)
  | _ => (kUnavailable, output, storage)
  end.

Definition ParameterRef_Get_as {T} (read : ValueView -> T -> Status * T) (self : ParameterRef)
    (name : string) (output : T) (storage : list Z) (w : W) : Status * T * list Z :=
  let '(status, value, storage) := ParameterRef_Get self name VNull storage w in
  if IsOk status then let '(status, output) := read value output in (status, output, storage)
  else (status, output, storage).

Definition ParameterRef_Set (self : ParameterRef) (name : string) (value : ValueView)
    (caller : option ExecutionContext) (w : W) : Status * W :=
  match self with
  | Some (AbiParameter _ _ (Some set)) =>
      let '(code, w) := set (ToAbiString name) (Some value) (ToAbiExecutionContext <$> caller) w in
      (FromAbiStatus code, w)
  | _ => (kUnavailable, w)
  end.

Record ParameterStore := MkParameterStore {
  parameter_Get : string -> ValueView -> list Z -> W -> Status * ValueView * list Z;
  parameter_Set : string -> ValueView -> ExecutionContext -> W -> Status * W
}.

Definition ParameterStore_GetNative (self : ParameterStore) (name : aster_string_view_t)
    (output : ValueView) (storage : aster_bytes_view_t) (w : W) : Z * ValueView * list Z :=
  let bytes := default [] (bv_data storage) in
  if negb (ValidView name) || negb (ValidBuffer storage)
  then (ASTER_STATUS_INVALID_ARGUMENT, output, bytes)
  else
    let '(status, value, bytes) := parameter_Get self (FromAbiString name) VNull bytes w in
    if negb (IsOk status) then (ToAbiStatus status, VNull, bytes)
    else if negb (IsOk (Validate value)) then (ToAbiStatus (Validate value), VNull, bytes)
    else (ASTER_STATUS_OK, value, bytes).

Definition ParameterStore_SetNative (self : ParameterStore) (active : list (ExecutionScope W))
    (name : aster_string_view_t) (value : option ValueView)
    (caller : option aster_execution_context_t) (w : W) : Z * W :=
  match value with
  | None => (ASTER_STATUS_INVALID_ARGUMENT, w)
  | Some input =>
      if negb (ValidView name) then (ASTER_STATUS_INVALID_ARGUMENT, w)
      else
        let '(valid, resolved) :=
          ResolveCallContext NativeExecutionContext active caller unmanaged false w in
        if negb (IsOk valid) then (ToAbiStatus valid, w)
        else if negb (IsOk (Validate input)) then (ToAbiStatus (Validate input), w)
        else
          let '(status, w) := parameter_Set self (FromAbiString name) input resolved w in
          (ToAbiStatus status, w)
  end.

Definition ParameterStore_NativeHandle (self : ParameterStore) (active : list (ExecutionScope W))
    : aster_parameter_base_t :=
  AbiParameter true (Some (ParameterStore_GetNative self)) (Some (ParameterStore_SetNative self active)).

(** ** Hardware

    [D] is what device pointers point to. *)
Context {D : Type}.

Record aster_hardware_manager_base_t := AbiHardware {
  hardware_complete : bool;
  abi_resolve : option (aster_string_view_t -> aster_string_view_t -> option D -> W -> Z * option D)
}.

Definition HardwareManagerRef : Type := option aster_hardware_manager_base_t.

Definition HardwareManagerRef_make (value : option aster_hardware_manager_base_t) : HardwareManagerRef :=
  match value with
  | Some base => if hardware_complete base then value else None
  | None => None
  end.

Definition HardwareManagerRef_Resolve (self : HardwareManagerRef) (name type : string) (w : W)
    : Status * option D :=
  match self with
  | Some (AbiHardware _ (Some resolve)) =>
      let '(code, device) := resolve (ToAbiString name) (ToAbiString type) None w in
      (FromAbiStatus code, device)
  | _ => (kUnavailable, None)
  end.

(** [Resolve<Device>] with [Device::TypeName()]. *)
Definition HardwareManagerRef_Resolve_as (TypeName : string) (self : HardwareManagerRef) (name : string)
    (w : W) : Status * option D :=
  let '(status, resolved) := HardwareManagerRef_Resolve self name TypeName w in
  (status, if IsOk status then resolved else None).

Record HardwareManager := MkHardwareManager {
  hardware_Resolve : string -> string -> option D -> W -> Status * option D
}.

Definition HardwareResolve (self : HardwareManager) (name type : aster_string_view_t)
    (device : option D) (w : W) : Z * option D :=
  if negb (ValidView name) || negb (ValidView type) then (ASTER_STATUS_INVALID_ARGUMENT, device)
  else
    let '(status, device) := hardware_Resolve self (FromAbiString name) (FromAbiString type) None w in
    (ToAbiStatus status, device).

Definition HardwareManager_NativeHandle (self : HardwareManager) : aster_hardware_manager_base_t :=
  AbiHardware true (Some (HardwareResolve self)).

(** ** Logger *)

Record aster_logger_base_t := AbiLogger {
  logger_complete : bool;
  abi_write : option (Z -> aster_string_view_t -> option aster_execution_context_t -> W -> Z * W)
}.

Definition LoggerRef : Type := option aster_logger_base_t.

Definition LoggerRef_make (value : option aster_logger_base_t) : LoggerRef :=
  match value with
  | Some base => if logger_complete base then value else None
  | None => None
  end.

(** [LogLevel] is its value, [kTrace] = 0 to [kCritical] = 5. *)
Definition ASTER_LOG_LEVEL_CRITICAL : Z := 5.

Definition LoggerRef_Write (self : LoggerRef) (level : Z) (message : string)
    (caller : option ExecutionContext) (w : W) : Status * W :=
  match self with
  | Some (AbiLogger _ (Some write)) =>
      let '(code, w) := write level (ToAbiString message) (ToAbiExecutionContext <$> caller) w in
      (FromAbiStatus code, w)
  | _ => (kUnavailable, w)
  end.

Record Logger := MkLogger {
  logger_Write : Z -> string -> ExecutionContext -> W -> Status * W
}.

Definition LoggerWrite (self : Logger) (active : list (ExecutionScope W)) (level : Z)
    (message : aster_string_view_t) (caller : option aster_execution_context_t) (w : W) : Z * W :=
  if negb (ValidView message) || (ASTER_LOG_LEVEL_CRITICAL <? level)
  then (ASTER_STATUS_INVALID_ARGUMENT, w)
  else
    let '(context_status, resolved) :=
      ResolveCallContext NativeExecutionContext active caller unmanaged false w in
    if negb (IsOk context_status) then (ToAbiStatus context_status, w)
    else
      let '(status, w) := logger_Write self level (FromAbiString message) resolved w in
      (ToAbiStatus status, w).

Definition Logger_NativeHandle (self : Logger) (active : list (ExecutionScope W)) : aster_logger_base_t :=
  AbiLogger true (Some (LoggerWrite self active)).

(** ** Allocator

    [M] stands for non-null memory pointers; sizes are [std::size_t]. *)
Context {M : Type}.

Record aster_allocator_base_t := AbiAllocator {
  allocator_complete : bool;
  abi_allocate : option (Z -> Z -> option M -> W -> Z * option M * W);
  abi_deallocate : option (option M -> Z -> Z -> W -> Z * W)
}.

Definition AllocatorRef : Type := option aster_allocator_base_t.

Definition AllocatorRef_make (value : option aster_allocator_base_t) : AllocatorRef :=
  match value with
  | Some base => if allocator_complete base then value else None
  | None => None
  end.

Definition AllocatorRef_Allocate (self : AllocatorRef) (size alignment : Z) (w : W) : option M * W :=
  match self with
  | Some (AbiAllocator _ (Some allocate) _) =>
      let '(code, memory, w) := allocate size alignment None w in
      (if code =? ASTER_STATUS_OK then memory else None, w)
  | _ => (None, w)
  end.

Definition AllocatorRef_Deallocate (self : AllocatorRef) (memory : option M) (size alignment : Z)
    (w : W) : W :=
  match self with
  | Some (AbiAllocator _ _ (Some deallocate)) => (deallocate memory size alignment w).2
  | _ => w
  end.

Record Allocator := MkAllocator {
  allocator_Allocate : Z -> Z -> W -> option M * W;
  allocator_Deallocate : M -> Z -> Z -> W -> W
}.

(** [size == 0 || alignment == 0 || (alignment & (alignment - 1U)) != 0]. *)
Definition bad_layout (size alignment : Z) : bool :=
  (size =? 0) || (alignment =? 0) || negb (Z.land alignment (alignment - 1) =? 0).

Definition AllocatorAllocate (self : Allocator) (size alignment : Z) (memory : option M) (w : W)
    : Z * option M * W :=
  if bad_layout size alignment then (ASTER_STATUS_INVALID_ARGUMENT, memory, w)
  else
    let '(memory, w) := allocator_Allocate self size alignment w in
    (match memory with None => ASTER_STATUS_CAPACITY_EXCEEDED | Some _ => ASTER_STATUS_OK end, memory, w).

Definition AllocatorDeallocate (self : Allocator) (memory : option M) (size alignment : Z) (w : W)
    : Z * W :=
  match memory with
  | None => (ASTER_STATUS_INVALID_ARGUMENT, w)
  | Some memory =>
      if bad_layout size alignment then (ASTER_STATUS_INVALID_ARGUMENT, w)
      else (ASTER_STATUS_OK, allocator_Deallocate self memory size alignment w)
  end.

Definition Allocator_NativeHandle (self : Allocator) : aster_allocator_base_t :=
  AbiAllocator true (Some (AllocatorAllocate self)) (Some (AllocatorDeallocate self)).
End Services.
#[global] Arguments ValidView : simpl never.
Arguments aster_configurator_base_t : clear implicits.
Arguments ConfiguratorRef : clear implicits.
Arguments Configurator : clear implicits.
Arguments aster_parameter_base_t : clear implicits.
Arguments ParameterRef : clear implicits.
Arguments ParameterStore : clear implicits.
Arguments aster_hardware_manager_base_t : clear implicits.
Arguments HardwareManagerRef : clear implicits.
Arguments HardwareManager : clear implicits.
Arguments aster_logger_base_t : clear implicits.
Arguments LoggerRef : clear implicits.
Arguments Logger : clear implicits.
Arguments aster_allocator_base_t : clear implicits.
Arguments AllocatorRef : clear implicits.
Arguments Allocator : clear implicits.

(** ** Lemmas *)

Lemma ValidView_named key : key <> ""%string -> ValidView (ToAbiString key) = true.
Proof. destruct key as [|c key]; [done|]. intros _. done. Qed.

Lemma ValidView_empty : ValidView (ToAbiString "") = false.
Proof. done. Qed.

(** Going through a handle is calling the service, which only ever gives out
    valid values; an empty name never reaches it. *)
Lemma ConfiguratorRef_handle {W} (self : Configurator W) key output w :
  ConfiguratorRef_Get (ConfiguratorRef_make (Some (Configurator_NativeHandle self))) key output w =
    if bool_decide (key = ""%string) then (kInvalidArgument, output)
    else
      let '(status, value) := configurator_Get self key VNull w in
      if negb (IsOk status) then (status, output)
      else if negb (IsOk (Validate value)) then (Validate value, output) else (kOk, value).
Proof.
  case_bool_decide as Hk; [by subst|]. cbn. unfold Configurator_GetNative.
  rewrite ValidView_named by done. cbn [negb]. rewrite FromAbiString_ToAbiString.
  destruct (configurator_Get self key VNull w) as [status value].
  destruct (IsOk status) eqn:Hs; cbn [negb].
  - destruct (IsOk (Validate value)) eqn:Hv; cbn [negb]; [by rewrite Hv|].
    by rewrite FromAbiStatus_ToAbi, Hv.
  - by rewrite FromAbiStatus_ToAbi, Hs.
Qed.

Lemma ParameterRef_Get_handle {W} native (self : ParameterStore W) active name output storage w :
  ParameterRef_Get (ParameterRef_make (Some (ParameterStore_NativeHandle native self active)))
      name output storage w =
    if bool_decide (name = ""%string) then (kInvalidArgument, output, storage)
    else
      let '(status, value, storage) := parameter_Get self name VNull storage w in
      if negb (IsOk status) then (status, output, storage)
      else if negb (IsOk (Validate value)) then (Validate value, output, storage)
      else (kOk, value, storage).
Proof.
  case_bool_decide as Hk; [by subst|]. cbn. unfold ParameterStore_GetNative.
  rewrite ValidView_named, ValidBuffer_of by done. cbn [negb orb default buffer_of bv_data].
  rewrite FromAbiString_ToAbiString. change (id storage) with storage.
  destruct (parameter_Get self name VNull storage w) as [[status value] storage'].
  destruct (IsOk status) eqn:Hs; cbn [negb].
  - destruct (IsOk (Validate value)) eqn:Hv; cbn [negb]; [by rewrite Hv|].
    by rewrite FromAbiStatus_ToAbi, Hv.
  - by rewrite FromAbiStatus_ToAbi, Hs.
Qed.

Lemma ParameterRef_Set_handle {W} native (self : ParameterStore W) active name value caller w :
  kind (native w) = kThread -> name <> ""%string -> executor_name caller <> ""%string ->
  kind caller = kThread ->
  ParameterRef_Set (ParameterRef_make (Some (ParameterStore_NativeHandle native self active)))
      name value (Some caller) w =
    if negb (IsOk (Validate value)) then (Validate value, w)
    else parameter_Set self name value caller w.
Proof.
  intros Hn Hk He Hc. cbn -[FromAbiString ToAbiString ToAbiExecutionContext]. rewrite ValidView_named by done. cbn [negb].
  rewrite ResolveCallContext_named by auto. cbn [IsOk negb].
  destruct (IsOk (Validate value)) eqn:Hv; cbn [negb]; [|by rewrite FromAbiStatus_ToAbi].
  rewrite FromAbiString_ToAbiString. destruct (parameter_Set self name value caller w).
  by rewrite FromAbiStatus_ToAbi.
Qed.

Lemma HardwareManagerRef_handle {W D} (self : HardwareManager W D) name type w :
  HardwareManagerRef_Resolve (HardwareManagerRef_make (Some (HardwareManager_NativeHandle self))) name type w =
    if bool_decide (name = ""%string) || bool_decide (type = ""%string) then (kInvalidArgument, None)
    else hardware_Resolve self name type None w.
Proof.
  case_bool_decide as Hk; [by subst|]. cbn [orb]. cbn. unfold HardwareResolve.
  rewrite ValidView_named by done. cbn [negb orb].
  case_bool_decide as Ht; [by subst|]. rewrite ValidView_named by done. cbn [negb].
  rewrite !FromAbiString_ToAbiString. destruct (hardware_Resolve self name type None w).
  by rewrite FromAbiStatus_ToAbi.
Qed.

Lemma LoggerRef_handle {W} native (self : Logger W) active level message caller w :
  kind (native w) = kThread -> executor_name caller <> ""%string -> kind caller = kThread ->
  LoggerRef_Write (LoggerRef_make (Some (Logger_NativeHandle native self active))) level message
      (Some caller) w =
    if bool_decide (message = ""%string) || (ASTER_LOG_LEVEL_CRITICAL <? level)
    then (kInvalidArgument, w) else logger_Write self level message caller w.
Proof.
  intros Hn He Hc. case_bool_decide as Hm; [by subst|]. cbn -[FromAbiString ToAbiString ToAbiExecutionContext]. unfold LoggerWrite.
  rewrite ValidView_named by done. cbn [negb orb]. split_if; [done|].
  rewrite ResolveCallContext_named by auto. cbn [IsOk negb]. rewrite FromAbiString_ToAbiString.
  destruct (logger_Write self level message caller w). by rewrite FromAbiStatus_ToAbi.
Qed.

(** The layouts an allocator accepts are the C++ ones: a nonzero size and an
    alignment that is a power of two. *)
Lemma land_pred_pow2 a : 0 < a -> Z.land a (a - 1) = 0 <-> a = 2 ^ Z.log2 a.
Proof.
  intros Ha. pose proof (Z.log2_spec a Ha) as [Hlo Hhi]. rewrite Z.pow_succ_r in Hhi by apply Z.log2_nonneg.
  split.
  - intros Hz. destruct (decide (a = 2 ^ Z.log2 a)) as [|Hne]; [done|]. exfalso.
    assert (Hl : Z.log2 (a - 1) = Z.log2 a) by (apply Z.log2_unique; rewrite ?Z.pow_succ_r by apply Z.log2_nonneg; pose proof (Z.log2_nonneg a); lia).
    assert (Hb : Z.testbit (Z.land a (a - 1)) (Z.log2 a) = true).
    { rewrite Z.land_spec, Z.bit_log2 by lia. rewrite <- Hl. apply Z.bit_log2.
      destruct (decide (a = 1)) as [->|]; [by cbn in Hne|lia]. }
    by rewrite Hz, Z.testbit_0_l in Hb.
  - intros Hp. rewrite Hp. rewrite Z.sub_1_r, <- Z.ones_equiv, Z.land_ones by apply Z.log2_nonneg.
    apply Z.mod_same. lia.
Qed.

Lemma bad_layout_spec size alignment :
  0 <= size -> 0 <= alignment ->
  bad_layout size alignment = false <-> 0 < size /\ exists n, 0 <= n /\ alignment = 2 ^ n.
Proof.
  intros Hs Ha. unfold bad_layout. rewrite !orb_false_iff, negb_false_iff, !Z.eqb_neq, Z.eqb_eq. split.
  - intros [[Hs0 Ha0] Hl]. split; [lia|]. exists (Z.log2 alignment). split; [apply Z.log2_nonneg|].
    apply land_pred_pow2; [lia|done].
  - intros (? & n & Hn & ->). assert (0 < 2 ^ n) by (apply Z.pow_pos_nonneg; lia). split_and!; [lia..|].
    apply land_pred_pow2; [lia|]. by rewrite Z.log2_pow2.
Qed.

(** An allocation through the handle reaches the allocator only with such a
    layout, and is null otherwise. *)
Lemma AllocatorRef_handle {W M} (self : Allocator W M) size alignment memory w :
  let ref := AllocatorRef_make (Some (Allocator_NativeHandle self)) in
  AllocatorRef_Allocate ref size alignment w =
    (if bad_layout size alignment then (None, w) else allocator_Allocate self size alignment w) /\
  AllocatorRef_Deallocate ref (Some memory) size alignment w =
    (if bad_layout size alignment then w else allocator_Deallocate self memory size alignment w) /\
  AllocatorRef_Deallocate ref None size alignment w = w.
Proof.
  cbn. unfold AllocatorAllocate. destruct (bad_layout size alignment); [done|].
  by destruct (allocator_Allocate self size alignment w) as [[m|] w'].
Qed.

(** ** The static parameter store as the service of a core

    [cell] is where the store lives in the program's state. *)
Section StaticService.
Context {W : Type} (native : W -> ExecutionContext) (cell : Cell W StaticParameterStore.t)
  `{!CellLaws cell} (active : list (ExecutionScope W)).

Definition static_parameters : ParameterStore W := {|
  parameter_Get name output storage w :=
    let '(status, storage, value) := StaticParameterStore.Get name storage output (load cell w) in
    (status, value, storage);
  parameter_Set name value caller w :=
    let '(status, self) := StaticParameterStore.Set_ name value caller (load cell w) in
    (status, store cell self w)
|}.

(** What a module sets through its table it reads back through its table. *)
Lemma parameter_set_get MaxEntries MaxValueSize name value caller output storage w :
  let ref := ParameterRef_make (Some (ParameterStore_NativeHandle native static_parameters active)) in
  StaticParameterStore.wf MaxEntries MaxValueSize (load cell w) ->
  kind (native w) = kThread -> kind caller = kThread ->
  name <> ""%string -> executor_name caller <> ""%string ->
  (MaxValueSize <= length storage)%nat ->
  let '(status, w') := ParameterRef_Set ref name value (Some caller) w in
  StaticParameterStore.wf MaxEntries MaxValueSize (load cell w') /\
  (status = kOk ->
   let '(status', result, storage') := ParameterRef_Get ref name output storage w' in
   status' = kOk /\ denote result = denote value /\ value_kind result = value_kind value).
Proof.
  intros ref Hwf Hn Hc Hk He Hlen. unfold ref. rewrite ParameterRef_Set_handle by done.
  split_if; [split; [done|intros Hv; by rewrite Hv in E]|]. cbn [parameter_Set static_parameters].
  pose proof (StaticParameterStore.Set_spec MaxEntries MaxValueSize name value caller _ Hwf) as H.
  destruct (StaticParameterStore.Set_ _ _ _ _) as [status self']. destruct H as (Hst & Hse & Hwf' & Hcont).
  rewrite load_store. split; [done|]. intros ->. cbn [IsOk] in Hcont. change (IsOk kOk) with true in Hcont.
  rewrite ParameterRef_Get_handle, bool_decide_eq_false_2 by done. cbn [parameter_Get static_parameters].
  rewrite load_store. unfold StaticParameterStore.Get.
  assert (StaticParameterStore.sealed_ self' = true) as ->.
  { rewrite Hse. unfold StaticParameterStore.set_status in Hst. by destruct (StaticParameterStore.sealed_ _). }
  cbn [negb].
  pose proof (StaticParameterStore.store_contents_lookup name self') as Hl. rewrite Hcont, lookup_insert_eq in Hl.
  destruct (StaticParameterStore.Find name self') as [entry|] eqn:Hf; [|done].
  cbn in Hl. injection Hl as Hkind _ Hden.
  destruct (StaticParameterStore.Find_wf _ _ _ _ _ Hwf' Hf) as (Hd & Hsz & _).
  pose proof (CopyTo_spec (StaticParameterStore.e_value entry) storage VNull) as Hcp.
  destruct (CopyTo _ _ _) as [[status storage'] result]. destruct Hcp as [_ Hcp].
  destruct (denote (StaticParameterStore.e_value entry)) as [m|] eqn:Hm; [|by destruct Hd].
  replace (length storage <? copy_size _)%nat with false in Hcp by (symmetry; apply Nat.ltb_ge; lia).
  destruct Hcp as (-> & Hr & Hrk). change (IsOk kOk) with true. cbn [negb].
  assert (Validate result = kOk) as -> by (apply denote_ok; by rewrite Hr).
  split_and!; [done|by rewrite Hr, Hden|by rewrite Hrk, Hkind].
Qed.
End StaticService.
