(* ===== verification/Core.v ===== *)
(** The table of services a module is given: [CoreRef]
    ([aster_module_cpp_interface/core_ref.hpp]), the C table behind it
    ([aster_module_c_interface/core_base.h]) and the runtime's [CoreAdapter] and
    [CoreRefOverlay] ([aster_runtime/core_adapter.hpp], [core/core_adapter.cpp]). *)

From S2P Require Export Services Channel.

Local Open Scope Z_scope.

Definition ASTER_ABI_VERSION : Z := 2.

Section Core.
(** The program's state, and what executor work items, pending completions,
    devices and memory pointers point to. *)
Context {W P C D M : Type}.

(** [core_complete] is [struct_size >= sizeof(aster_core_base_t)]. An accessor is
    a nullable function that returns a nullable pointer to a table. *)
Record aster_core_base_t := AbiCore {
  core_abi_version : Z;
  core_complete : bool;
  abi_configurator : option (W -> option (aster_configurator_base_t W));
  abi_logger : option (W -> option (aster_logger_base_t W));
  abi_executor : option (W -> option (aster_executor_base_t W P));
  abi_channel : option (W -> option (aster_channel_base_t W));
  abi_rpc : option (W -> option (aster_rpc_base_t W C));
  abi_parameter : option (W -> option (aster_parameter_base_t W));
  abi_clock : option (W -> option (aster_clock_base_t W));
  abi_allocator : option (W -> option (aster_allocator_base_t W M));
  abi_hardware : option (W -> option (aster_hardware_manager_base_t W D));
  abi_instance_name : option (W -> aster_string_view_t)
}.

(** ** [CoreRef] *)

Definition CoreRef : Type := option aster_core_base_t.

Definition CoreRef_Valid (self : CoreRef) : bool :=
  match self with
  | None => false
  | Some core => (core_abi_version core =? ASTER_ABI_VERSION) && core_complete core
  end.

(** What every accessor does with its own field: the table it finds, if the
    core is valid, has the accessor and the table is complete. *)
Definition CoreRef_access {T} (field : aster_core_base_t -> option (W -> option T))
    (complete : T -> bool) (self : CoreRef) (w : W) : option T :=
  match self with
  | None => None
  | Some core =>
      if negb (CoreRef_Valid self) then None
      else
        match field core with
        | None => None
        | Some accessor =>
            match accessor w with
            | None => None
            | Some value => if complete value then Some value else None
            end
        end
  end.

Definition CoreRef_instance_name (self : CoreRef) (w : W) : string :=
  match self with
  | None => ""%string
  | Some core =>
      if negb (CoreRef_Valid self) then ""%string
      else match abi_instance_name core with
           | None => ""%string
           | Some instance_name => FromAbiString (instance_name w)
           end
  end.

Definition CoreRef_configurator (self : CoreRef) (w : W) : ConfiguratorRef W :=
  ConfiguratorRef_make (CoreRef_access abi_configurator configurator_complete self w).
Definition CoreRef_logger (self : CoreRef) (w : W) : LoggerRef W :=
  LoggerRef_make (CoreRef_access abi_logger logger_complete self w).
Definition CoreRef_executor (self : CoreRef) (w : W) : ExecutorRef W P :=
  ExecutorRef_make (CoreRef_access abi_executor executor_complete self w).
Definition CoreRef_channel (self : CoreRef) (w : W) : ChannelRef W :=
  ChannelRef_make (CoreRef_access abi_channel channel_complete self w).
Definition CoreRef_rpc (self : CoreRef) (w : W) : RpcRef W C :=
  RpcRef_make (CoreRef_access abi_rpc rpc_complete self w).
Definition CoreRef_parameter (self : CoreRef) (w : W) : ParameterRef W :=
  ParameterRef_make (CoreRef_access abi_parameter parameter_complete self w).
Definition CoreRef_clock (self : CoreRef) (w : W) : ClockRef W :=
  ClockRef_make (CoreRef_access abi_clock clock_complete self w).
Definition CoreRef_allocator (self : CoreRef) (w : W) : AllocatorRef W M :=
  AllocatorRef_make (CoreRef_access abi_allocator allocator_complete self w).
Definition CoreRef_hardware (self : CoreRef) (w : W) : HardwareManagerRef W D :=
  HardwareManagerRef_make (CoreRef_access abi_hardware hardware_complete self w).

(** ** [CoreAdapter]: the table made of the runtime's own handles *)

Record CoreHandles := MkCoreHandles {
  h_configurator : ConfiguratorRef W;
  h_logger : LoggerRef W;
  h_executor : ExecutorRef W P;
  h_channel : ChannelRef W;
  h_rpc : RpcRef W C;
  h_parameter : ParameterRef W;
  h_clock : ClockRef W;
  h_allocator : AllocatorRef W M;
  h_hardware : HardwareManagerRef W D;
  h_instance_name : string
}.

(** [handle ? handle.NativeHandle() : nullptr]: a handle is its own pointer. *)
Definition CoreAdapter_Get {T} (handle : CoreHandles -> option T) (self : CoreHandles) (w : W) : option T :=
  handle self.

Definition CoreAdapter_GetInstanceName (self : CoreHandles) (w : W) : aster_string_view_t :=
  ToAbiString (h_instance_name self).

Definition CoreAdapter_NativeHandle (handles : CoreHandles) : aster_core_base_t := {|
  core_abi_version := ASTER_ABI_VERSION;
  core_complete := true;
  abi_configurator := Some (CoreAdapter_Get h_configurator handles);
  abi_logger := Some (CoreAdapter_Get h_logger handles);
  abi_executor := Some (CoreAdapter_Get h_executor handles);
  abi_channel := Some (CoreAdapter_Get h_channel handles);
  abi_rpc := Some (CoreAdapter_Get h_rpc handles);
  abi_parameter := Some (CoreAdapter_Get h_parameter handles);
  abi_clock := Some (CoreAdapter_Get h_clock handles);
  abi_allocator := Some (CoreAdapter_Get h_allocator handles);
  abi_hardware := Some (CoreAdapter_Get h_hardware handles);
  abi_instance_name := Some (CoreAdapter_GetInstanceName handles)
|}.

Definition CoreAdapter_ref (handles : CoreHandles) : CoreRef := Some (CoreAdapter_NativeHandle handles).

(** ** [CoreRefOverlay]: one instance's configurator and name over a node's core *)

Record CoreRefOverlay := MkCoreRefOverlay {
  fallback_ : CoreRef;
  configurator_ : Configurator W;
  instance_name_ : string
}.

Definition CoreRefOverlay_make (fallback : CoreRef) (configurator : Configurator W) (instance_name : string)
    (w : W) : CoreRefOverlay :=
  MkCoreRefOverlay fallback configurator
    (if bool_decide (instance_name = ""%string) then CoreRef_instance_name fallback w else instance_name).

(** What every accessor but the configurator's does: call the fallback's. *)
Definition CoreRefOverlay_Get {T} (field : aster_core_base_t -> option (W -> option T))
    (self : CoreRefOverlay) (w : W) : option T :=
  match fallback_ self with
  | None => None
  | Some core => match field core with None => None | Some accessor => accessor w end
  end.

Definition CoreRefOverlay_GetConfigurator (self : CoreRefOverlay) (w : W)
    : option (aster_configurator_base_t W) :=
  Some (Configurator_NativeHandle (configurator_ self)).

Definition CoreRefOverlay_GetInstanceName (self : CoreRefOverlay) (w : W) : aster_string_view_t :=
  ToAbiString (instance_name_ self).

Definition CoreRefOverlay_ref (self : CoreRefOverlay) : CoreRef := Some {|
  core_abi_version := ASTER_ABI_VERSION;
  core_complete := true;
  abi_configurator := Some (CoreRefOverlay_GetConfigurator self);
  abi_logger := Some (CoreRefOverlay_Get abi_logger self);
  abi_executor := Some (CoreRefOverlay_Get abi_executor self);
  abi_channel := Some (CoreRefOverlay_Get abi_channel self);
  abi_rpc := Some (CoreRefOverlay_Get abi_rpc self);
  abi_parameter := Some (CoreRefOverlay_Get abi_parameter self);
  abi_clock := Some (CoreRefOverlay_Get abi_clock self);
  abi_allocator := Some (CoreRefOverlay_Get abi_allocator self);
  abi_hardware := Some (CoreRefOverlay_Get abi_hardware self);
  abi_instance_name := Some (CoreRefOverlay_GetInstanceName self)
|}.

(** ** Lemmas *)

(** The services of two cores, the configurator and the name apart. *)
Definition same_services (left right : CoreRef) (w : W) : Prop :=
  CoreRef_logger left w = CoreRef_logger right w /\
  CoreRef_executor left w = CoreRef_executor right w /\
  CoreRef_channel left w = CoreRef_channel right w /\
  CoreRef_rpc left w = CoreRef_rpc right w /\
  CoreRef_parameter left w = CoreRef_parameter right w /\
  CoreRef_clock left w = CoreRef_clock right w /\
  CoreRef_allocator left w = CoreRef_allocator right w /\
  CoreRef_hardware left w = CoreRef_hardware right w.

Lemma access_complete {T} field (complete : T -> bool) self w :
  match CoreRef_access field complete self w with
  | Some value => complete value = true
  | None => True
  end.
Proof.
  unfold CoreRef_access. destruct self as [core|]; [|done]. split_if; [done|].
  destruct (field core) as [accessor|]; [|done]. destruct (accessor w); [|done]. by split_if.
Qed.

(** A handle that went through its constructor keeps only complete tables. *)
Lemma CoreAdapter_access {T} field handle (complete : T -> bool) (handles : CoreHandles) w :
  field (CoreAdapter_NativeHandle handles) = Some (CoreAdapter_Get handle handles) ->
  CoreRef_access field complete (CoreAdapter_ref handles) w =
    match handle handles with Some value => if complete value then Some value else None | None => None end.
Proof. intros H. unfold CoreRef_access, CoreAdapter_ref. cbn -[CoreAdapter_NativeHandle]. by rewrite H. Qed.

(** A core made of handles gives each of them back. *)
Lemma CoreAdapter_handles (handles : CoreHandles) w :
  let core := CoreAdapter_ref handles in
  CoreRef_configurator core w = ConfiguratorRef_make (h_configurator handles) /\
  CoreRef_logger core w = LoggerRef_make (h_logger handles) /\
  CoreRef_executor core w = ExecutorRef_make (h_executor handles) /\
  CoreRef_channel core w = ChannelRef_make (h_channel handles) /\
  CoreRef_rpc core w = RpcRef_make (h_rpc handles) /\
  CoreRef_parameter core w = ParameterRef_make (h_parameter handles) /\
  CoreRef_clock core w = ClockRef_make (h_clock handles) /\
  CoreRef_allocator core w = AllocatorRef_make (h_allocator handles) /\
  CoreRef_hardware core w = HardwareManagerRef_make (h_hardware handles) /\
  CoreRef_instance_name core w = h_instance_name handles.
Proof.
  cbn zeta. split_and!; [..|apply FromAbiString_ToAbiString];
    match goal with |- ?f _ _ = _ => unfold f end; (erewrite CoreAdapter_access; [|reflexivity]);
    match goal with |- context [match ?h with _ => _ end] => destruct h as [value|]; [|done] end;
    match goal with |- context [if ?c then _ else _] => destruct c eqn:E end; cbn; by rewrite ?E.
Qed.

Lemma CoreRefOverlay_access {T} field (complete : T -> bool) core configurator instance_name w :
  let overlay := CoreRefOverlay_make (Some core) configurator instance_name w in
  CoreRef_Valid (Some core) = true ->
  (forall c, CoreRefOverlay_ref overlay = Some c -> field c = Some (CoreRefOverlay_Get field overlay)) ->
  CoreRef_access field complete (CoreRefOverlay_ref overlay) w = CoreRef_access field complete (Some core) w.
Proof.
  cbn zeta. intros Hv Hf. unfold CoreRef_access at 2. rewrite Hv. cbn [negb].
  unfold CoreRef_access. cbn -[CoreRefOverlay_make CoreRefOverlay_Get].
  destruct (CoreRefOverlay_ref _) as [c|] eqn:Hc in Hf; [|done]. specialize (Hf c eq_refl).
  injection Hc as <-. rewrite Hf. unfold CoreRefOverlay_Get. cbn [CoreRefOverlay_make fallback_].
  by destruct (field core).
Qed.

(** Over a valid core, an overlay changes the configurator and the name only. *)
Lemma overlay_delegates fallback configurator instance_name w :
  let overlay := CoreRefOverlay_ref (CoreRefOverlay_make fallback configurator instance_name w) in
  CoreRef_Valid fallback = true ->
  same_services overlay fallback w /\
  CoreRef_configurator overlay w = Some (Configurator_NativeHandle configurator) /\
  CoreRef_instance_name overlay w =
    (if bool_decide (instance_name = ""%string) then CoreRef_instance_name fallback w else instance_name).
Proof.
  cbn zeta. intros Hv. destruct fallback as [core|]; [|done].
  assert (forall T field (complete : T -> bool),
    (forall c, CoreRefOverlay_ref (CoreRefOverlay_make (Some core) configurator instance_name w) = Some c ->
       field c = Some (CoreRefOverlay_Get field (CoreRefOverlay_make (Some core) configurator instance_name w))) ->
    CoreRef_access field complete (CoreRefOverlay_ref (CoreRefOverlay_make (Some core) configurator instance_name w)) w =
    CoreRef_access field complete (Some core) w) as Ha
    by (intros; by apply CoreRefOverlay_access).
  split; [|split; [done|apply FromAbiString_ToAbiString]].
  unfold same_services, CoreRef_logger, CoreRef_executor, CoreRef_channel, CoreRef_rpc, CoreRef_parameter,
    CoreRef_clock, CoreRef_allocator, CoreRef_hardware.
  split_and!; rewrite Ha; try done; by intros c [=<-].
Qed.

(** An overlay does not look at the version or the size of the core under it: a
    service [CoreRef] refuses to read is read through the overlay. *)
Lemma overlay_unchecked core accessor clock configurator instance_name w :
  CoreRef_Valid (Some core) = false ->
  abi_clock core = Some accessor -> accessor w = Some clock -> clock_complete clock = true ->
  CoreRef_clock (Some core) w = None /\
  CoreRef_clock (CoreRefOverlay_ref (CoreRefOverlay_make (Some core) configurator instance_name w)) w =
    Some clock.
Proof.
  intros Hv Ha Hc Hk. unfold CoreRef_clock, CoreRef_access. rewrite Hv. split; [done|].
  cbn -[CoreRefOverlay_make CoreRefOverlay_Get]. unfold CoreRefOverlay_Get.
  cbn [CoreRefOverlay_make fallback_]. rewrite Ha, Hc, Hk. cbn. by rewrite Hk.
Qed.
End Core.

Arguments aster_core_base_t : clear implicits.
Arguments CoreRef : clear implicits.
Arguments CoreHandles : clear implicits.
Arguments CoreRefOverlay : clear implicits.
