(* ===== verification/Lifecycle.v ===== *)
(** Modules and their life cycle: the module table and its C++ facade
    ([aster_module_c_interface/module_base.h],
    [aster_module_cpp_interface/module.hpp]) and the [Runtime] that initializes,
    starts and shuts modules down ([aster_runtime/runtime.hpp],
    [core/runtime.cpp]). *)

From S2P Require Export Core.

Local Open Scope Z_scope.

Record SemanticVersion := MkSemanticVersion {
  version_major : Z;
  version_minor : Z;
  version_patch : Z
}.

Record ModuleInfo := MkModuleInfo {
  module_name : string;
  module_type : string;
  module_package : string;
  module_version : SemanticVersion
}.

(** [ModuleInfo{}]. *)
Definition no_info : ModuleInfo := MkModuleInfo "" "" "" (MkSemanticVersion 0 0 0).

Record aster_module_info_t := AbiModuleInfo {
  abi_module_name : aster_string_view_t;
  abi_module_type : aster_string_view_t;
  abi_module_package : aster_string_view_t;
  abi_module_version : SemanticVersion
}.

Definition LIFECYCLE_EXECUTOR : string := "lifecycle".

Section Module_.
Context {W P C D M : Type}.

(** A core as modules hold it. The tables resolve their callers with the calling
    thread's scope chain, so a core is a function of that chain. *)
Definition ScopedCore : Type := list (ExecutionScope W) -> CoreRef W P C D M.

(** ** The C table of a module

    [module_complete] is [struct_size >= sizeof(aster_module_base_t)],
    [module_impl] says that [impl] is not null. The functions of a module run
    under the scope chain of their caller. *)
Record aster_module_base_t := AbiModule {
  module_abi_version : Z;
  module_complete : bool;
  module_impl : bool;
  abi_info : option (W -> aster_module_info_t);
  abi_initialize : option (list (ExecutionScope W) -> ScopedCore -> W -> Z * W);
  abi_start : option (list (ExecutionScope W) -> W -> Z * W);
  abi_shutdown : option (list (ExecutionScope W) -> W -> W)
}.

(** ** [ModuleBase]: the class a module implements *)

(** How a virtual function that may throw ends. *)
Inductive Outcome :=
  | Returned (status : Status)
  | ThrewBadAlloc
  | ThrewOther.

Record ModuleBase := MkModuleBase {
  base_Info : W -> ModuleInfo;
  base_Initialize : list (ExecutionScope W) -> ScopedCore -> W -> Outcome * W;
  base_Start : list (ExecutionScope W) -> W -> Outcome * W;
  base_Shutdown : list (ExecutionScope W) -> W -> W
}.

(** The handlers around the virtual calls. *)
Definition outcome_code (outcome : Outcome) : Z :=
  match outcome with
  | Returned status => ToAbiStatus status
  | ThrewBadAlloc => ASTER_STATUS_CAPACITY_EXCEEDED
  | ThrewOther => ASTER_STATUS_INTERNAL
  end.

Definition NativeInfo (self : ModuleBase) (w : W) : aster_module_info_t :=
  let info := base_Info self w in
  AbiModuleInfo (ToAbiString (module_name info)) (ToAbiString (module_type info))
    (ToAbiString (module_package info)) (module_version info).

Definition NativeInitialize (self : ModuleBase) (active : list (ExecutionScope W)) (core : ScopedCore)
    (w : W) : Z * W :=
  let '(outcome, w) := base_Initialize self active core w in (outcome_code outcome, w).

Definition NativeStart (self : ModuleBase) (active : list (ExecutionScope W)) (w : W) : Z * W :=
  let '(outcome, w) := base_Start self active w in (outcome_code outcome, w).

Definition NativeShutdown (self : ModuleBase) (active : list (ExecutionScope W)) (w : W) : W :=
  base_Shutdown self active w.

Definition MakeNativeHandle (self : ModuleBase) : aster_module_base_t := {|
  module_abi_version := ASTER_ABI_VERSION;
  module_complete := true;
  module_impl := true;
  abi_info := Some (NativeInfo self);
  abi_initialize := Some (NativeInitialize self);
  abi_start := Some (NativeStart self);
  abi_shutdown := Some (NativeShutdown self)
|}.

(** ** [ModuleRef] *)

Definition ModuleRef : Type := option aster_module_base_t.

Definition ValidateStructure (self : ModuleRef) : Status :=
  match self with
  | None => kInvalidArgument
  | Some m =>
      if negb (module_abi_version m =? ASTER_ABI_VERSION) || negb (module_complete m)
      then kVersionMismatch
      else if negb (module_impl m) || bool_decide (abi_info m = None)
              || bool_decide (abi_initialize m = None) || bool_decide (abi_start m = None)
              || bool_decide (abi_shutdown m = None)
      then kInvalidArgument
      else kOk
  end.

Definition null_or_empty (view : aster_string_view_t) : bool :=
  bool_decide (sv_data view = None) || (sv_size view =? 0)%nat.

Definition ModuleRef_Validate (self : ModuleRef) (w : W) : Status :=
  let status := ValidateStructure self in
  if negb (IsOk status) then status
  else match mbind abi_info self with
       | None => kInvalidArgument
       | Some info =>
           let info := info w in
           if null_or_empty (abi_module_name info) || null_or_empty (abi_module_type info)
              || null_or_empty (abi_module_package info)
           then kInvalidArgument else kOk
       end.

Definition ModuleRef_Info (self : ModuleRef) (w : W) : ModuleInfo :=
  if negb (IsOk (ValidateStructure self)) then no_info
  else match mbind abi_info self with
       | None => no_info
       | Some info =>
           let info := info w in
           MkModuleInfo (FromAbiString (abi_module_name info)) (FromAbiString (abi_module_type info))
             (FromAbiString (abi_module_package info)) (abi_module_version info)
       end.

Definition ModuleRef_Initialize (self : ModuleRef) (active : list (ExecutionScope W)) (core : ScopedCore)
    (w : W) : Status * W :=
  let status := ValidateStructure self in
  match mbind abi_initialize self with
  | Some initialize =>
      if IsOk status then let '(code, w) := initialize active core w in (FromAbiStatus code, w)
      else (status, w)
  | None => (status, w)
  end.

Definition ModuleRef_Start (self : ModuleRef) (active : list (ExecutionScope W)) (w : W) : Status * W :=
  let status := ValidateStructure self in
  match mbind abi_start self with
  | Some start =>
      if IsOk status then let '(code, w) := start active w in (FromAbiStatus code, w) else (status, w)
  | None => (status, w)
  end.

Definition ModuleRef_Shutdown (self : ModuleRef) (active : list (ExecutionScope W)) (w : W) : W :=
  match mbind abi_shutdown self with
  | Some shutdown => if IsOk (ValidateStructure self) then shutdown active w else w
  | None => w
  end.

Record ModuleSlot := MkModuleSlot {
  slot_module : ModuleRef;
  slot_core : ScopedCore;
  slot_instance_name : string
}.

(** [slot.instance_name.empty() ? info.name : slot.instance_name]. *)
Definition instance_name_of (slot : ModuleSlot) (w : W) : string :=
  if bool_decide (slot_instance_name slot = ""%string)
  then module_name (ModuleRef_Info (slot_module slot) w) else slot_instance_name slot.

(** [ExecutionScope scope("lifecycle", slot.core.clock().NativeHandle())]. *)
Definition lifecycle_scope (slot : ModuleSlot) (active : list (ExecutionScope W)) (w : W)
    : list (ExecutionScope W) :=
  ExecutionScope_enter (MkScope LIFECYCLE_EXECUTOR (CoreRef_clock (slot_core slot active) w)) active.
End Module_.
Arguments ScopedCore : clear implicits.
Arguments aster_module_base_t : clear implicits.
Arguments ModuleBase : clear implicits.
Arguments ModuleRef : clear implicits.
Arguments ModuleSlot : clear implicits.

(** What the runtime sees of a C++ module: its answers, and an error status in
    place of an exception. *)
Definition outcome_status (outcome : Outcome) : Status :=
  match outcome with
  | Returned status => status
  | ThrewBadAlloc => kCapacityExceeded
  | ThrewOther => kInternal
  end.

Lemma outcome_code_status outcome : FromAbiStatus (outcome_code outcome) = outcome_status outcome.
Proof. destruct outcome; [apply FromAbiStatus_ToAbi|done..]. Qed.

Lemma null_or_empty_ToAbi s : null_or_empty (ToAbiString s) = bool_decide (s = ""%string).
Proof. by destruct s. Qed.

Lemma ModuleRef_of_base {W P C D M} (self : ModuleBase W P C D M) active core w :
  let ref := Some (MakeNativeHandle self) in
  ModuleRef_Info ref w = base_Info self w /\
  (ModuleRef_Validate ref w = kOk <->
     module_name (base_Info self w) <> ""%string /\ module_type (base_Info self w) <> ""%string /\
     module_package (base_Info self w) <> ""%string) /\
  ModuleRef_Initialize ref active core w =
    (let '(outcome, w) := base_Initialize self active core w in (outcome_status outcome, w)) /\
  ModuleRef_Start ref active w =
    (let '(outcome, w) := base_Start self active w in (outcome_status outcome, w)) /\
  ModuleRef_Shutdown ref active w = base_Shutdown self active w.
Proof.
  cbn zeta. split_and!.
  - unfold ModuleRef_Info. cbn -[FromAbiString ToAbiString]. rewrite !FromAbiString_ToAbiString.
    by destruct (base_Info self w).
  - unfold ModuleRef_Validate. cbn -[null_or_empty ToAbiString]. rewrite !null_or_empty_ToAbi.
    repeat case_bool_decide; cbn; naive_solver.
  - unfold ModuleRef_Initialize. cbn. unfold NativeInitialize.
    destruct (base_Initialize self active core w). by rewrite outcome_code_status.
  - unfold ModuleRef_Start. cbn. unfold NativeStart.
    destruct (base_Start self active w). by rewrite outcome_code_status.
  - done.
Qed.

(** ** [Runtime] *)

Module Runtime.

Inductive RuntimeState :=
  | kConstructed
  | kInitializing
  | kInitialized
  | kStarting
  | kRunning
  | kShuttingDown
  | kStopped
  | kFailed.

#[global] Instance RuntimeState_eq_dec : EqDecision RuntimeState.
Proof. solve_decision. Defined.

Inductive LifecycleSubject := kModule | kRegistry.
Inductive LifecycleOperation := kValidation | kInitialize | kSeal | kStart.

Record RuntimeFailure := MkFailure {
  subject : LifecycleSubject;
  operation : LifecycleOperation;
  index : nat;
  name : string;
  failure_status : Status
}.

Section Runtime.
Context {W P C D M : Type}.

(** [R] is the identity of registries; the virtual functions of each act on the
    program's state. *)
Context {R : Type} `{EqDecision R}.
Variable registry_Seal : R -> W -> Status * W.
Variable registry_sealed : R -> W -> bool.

(** [modules_], [registries_] (nullable pointers) and [hooks_] do not change
    after construction; [hooks_] is [before_modules_shutdown(state)]. *)
Record config := MkConfig {
  modules_ : list (ModuleSlot W P C D M);
  registries_ : list (option R);
  hooks_ : option (list (ExecutionScope W) -> W -> W)
}.

Record t := Mk {
  initialized_module_count_ : nat;
  state_ : RuntimeState;
  failure_ : option RuntimeFailure
}.
#[global] Instance eta_t : Eta t := fun r =>
  Mk (initialized_module_count_ r) (state_ r) (failure_ r).

Definition init : t := Mk 0 kConstructed None.

Variable cfg : config.

(** The scope chain of the thread that calls the runtime. *)
Variable active : list (ExecutionScope W).

Definition RecordFailure (failure : RuntimeFailure) (self : t) : t :=
  self <| failure_ := Some failure |>.

(** The first loop of [Validate]: the failure it records, if any. *)
Fixpoint validate_modules (index : nat) (previous slots : list (ModuleSlot W P C D M)) (w : W)
    : option RuntimeFailure :=
  match slots with
  | [] => None
  | slot :: slots =>
      let module_status := ModuleRef_Validate (slot_module slot) w in
      if negb (IsOk module_status) then Some (MkFailure kModule kValidation index "" module_status)
      else if existsb (fun p => bool_decide (instance_name_of p w = instance_name_of slot w)) previous
      then Some (MkFailure kModule kValidation index (instance_name_of slot w) kAlreadyExists)
      else validate_modules (S index) (previous ++ [slot]) slots w
  end.

(** The second loop. *)
Fixpoint validate_registries (index : nat) (previous slots : list (option R)) (w : W)
    : option RuntimeFailure :=
  match slots with
  | [] => None
  | slot :: slots =>
      if match slot with None => true | Some registry => registry_sealed registry w end
      then Some (MkFailure kRegistry kValidation index "" kInvalidArgument)
      else if existsb (fun p => bool_decide (p = slot)) previous
      then Some (MkFailure kRegistry kValidation index "" kAlreadyExists)
      else validate_registries (S index) (previous ++ [slot]) slots w
  end.

Definition Validate (self : t) (w : W) : Status * t :=
  match validate_modules 0 [] (modules_ cfg) w with
  | Some failure => (failure_status failure, RecordFailure failure self)
  | None =>
      match validate_registries 0 [] (registries_ cfg) w with
      | Some failure => (failure_status failure, RecordFailure failure self)
      | None => (kOk, self)
      end
  end.

(** The loop of [ShutdownInitializedModules]; the count stays within
    [modules_]. *)
Fixpoint shutdown_modules (count : nat) (w : W) : W :=
  match count with
  | 0%nat => w
  | S count =>
      let w :=
        match modules_ cfg !! count with
        | Some slot => ModuleRef_Shutdown (slot_module slot) (lifecycle_scope slot active w) w
        | None => w
        end in
      shutdown_modules count w
  end.

Definition ShutdownInitializedModules (self : t) (w : W) : t * W :=
  let w :=
    match hooks_ cfg with
    | Some before_modules_shutdown =>
        if (initialized_module_count_ self =? 0)%nat then w else before_modules_shutdown active w
    | None => w
    end in
  (self <| initialized_module_count_ := 0%nat |>, shutdown_modules (initialized_module_count_ self) w).

(** What every failing phase does: record, shut down, [kFailed]. *)
Definition fail (failure : RuntimeFailure) (self : t) (w : W) : Status * t * W :=
  let '(self, w) := ShutdownInitializedModules (RecordFailure failure self) w in
  (failure_status failure, self <| state_ := kFailed |>, w).

(** The three loops; [None] when the loop ran to its end. [Validate] has left no
    null registry to seal. *)
Fixpoint initialize_modules (index : nat) (slots : list (ModuleSlot W P C D M)) (self : t) (w : W)
    : option RuntimeFailure * t * W :=
  match slots with
  | [] => (None, self, w)
  | slot :: slots =>
      let instance_name := instance_name_of slot w in
      let self := self <| initialized_module_count_ := S index |> in
      let '(status, w) :=
        ModuleRef_Initialize (slot_module slot) (lifecycle_scope slot active w) (slot_core slot) w in
      if negb (IsOk status)
      then (Some (MkFailure kModule kInitialize index instance_name status), self, w)
      else initialize_modules (S index) slots self w
  end.

Fixpoint seal_registries (index : nat) (slots : list (option R)) (w : W) : option RuntimeFailure * W :=
  match slots with
  | Some registry :: slots =>
      let '(status, w) := registry_Seal registry w in
      if negb (IsOk status) then (Some (MkFailure kRegistry kSeal index "" status), w)
      else seal_registries (S index) slots w
  | _ => (None, w)
  end.

Fixpoint start_modules (index : nat) (slots : list (ModuleSlot W P C D M)) (w : W)
    : option RuntimeFailure * W :=
  match slots with
  | [] => (None, w)
  | slot :: slots =>
      let instance_name := instance_name_of slot w in
      let '(status, w) := ModuleRef_Start (slot_module slot) (lifecycle_scope slot active w) w in
      if negb (IsOk status)
      then (Some (MkFailure kModule kStart index instance_name status), w)
      else start_modules (S index) slots w
  end.

Definition Initialize (self : t) (w : W) : Status * t * W :=
  if negb (bool_decide (state_ self = kConstructed)) then (kInvalidState, self, w)
  else
    let '(validation, self) := Validate self w in
    if negb (IsOk validation) then (validation, self <| state_ := kFailed |>, w)
    else
      let self := self <| state_ := kInitializing |> in
      let '(failure, self, w) := initialize_modules 0 (modules_ cfg) self w in
      match failure with
      | Some failure => fail failure self w
      | None =>
          let '(failure, w) := seal_registries 0 (registries_ cfg) w in
          match failure with
          | Some failure => fail failure self w
          | None => (kOk, self <| state_ := kInitialized |>, w)
          end
      end.

Definition Start (self : t) (w : W) : Status * t * W :=
  if negb (bool_decide (state_ self = kInitialized)) then (kInvalidState, self, w)
  else
    let self := self <| state_ := kStarting |> in
    let '(failure, w) := start_modules 0 (modules_ cfg) w in
    match failure with
    | Some failure => fail failure self w
    | None => (kOk, self <| state_ := kRunning |>, w)
    end.

Definition Shutdown (self : t) (w : W) : t * W :=
  if bool_decide (state_ self = kStopped) || bool_decide (state_ self = kFailed) then (self, w)
  else if bool_decide (state_ self = kConstructed) then (self <| state_ := kStopped |>, w)
  else
    let '(self, w) := ShutdownInitializedModules (self <| state_ := kShuttingDown |>) w in
    (self <| state_ := kStopped |>, w).

(** The calls an owner makes, in any order. *)
Inductive call := CInitialize | CStart | CShutdown.

Definition perform (c : call) (self : t) (w : W) : t * W :=
  match c with
  | CInitialize => let '(_, self, w) := Initialize self w in (self, w)
  | CStart => let '(_, self, w) := Start self w in (self, w)
  | CShutdown => Shutdown self w
  end.

Fixpoint run (calls : list call) (self : t) (w : W) : t * W :=
  match calls with
  | [] => (self, w)
  | c :: calls => let '(self, w) := perform c self w in run calls self w
  end.

(** ** Validation *)

Lemma existsb_In {A B} `{EqDecision B} (f : A -> B) b l :
  existsb (fun a => bool_decide (f a = b)) l = true <-> b ∈ f <$> l.
Proof.
  rewrite existsb_exists, list_elem_of_fmap. split.
  - intros (a & Hin & Ha). apply bool_decide_eq_true in Ha. exists a. split; [done|by apply list_elem_of_In].
  - intros (a & Ha & Hin). exists a. split; [by apply list_elem_of_In|by apply bool_decide_eq_true].
Qed.

Definition modules_ok (slots : list (ModuleSlot W P C D M)) (w : W) : Prop :=
  Forall (fun slot => ModuleRef_Validate (slot_module slot) w = kOk) slots.

Definition registry_ok (w : W) (slot : option R) : Prop :=
  exists registry, slot = Some registry /\ registry_sealed registry w = false.

Lemma validate_modules_spec i previous slots w :
  NoDup ((fun slot => instance_name_of slot w) <$> previous) ->
  match validate_modules i previous slots w with
  | None => modules_ok slots w /\ NoDup ((fun slot => instance_name_of slot w) <$> previous ++ slots)
  | Some f =>
      failure_status f <> kOk /\ subject f = kModule /\ operation f = kValidation /\
      (i <= index f < i + length slots)%nat /\
      ~ (modules_ok slots w /\ NoDup ((fun slot => instance_name_of slot w) <$> previous ++ slots))
  end.
Proof.
  revert i previous. induction slots as [|slot slots IH]; intros i previous Hnd; cbn [validate_modules].
  - rewrite app_nil_r. split; [constructor|done].
  - destruct (IsOk _) eqn:Hok; cbn [negb].
    + apply IsOk_spec in Hok. destruct (existsb _ previous) eqn:Hdup.
      * split_and!; try done; [cbn; lia..|]. intros [_ Hd].
        apply (existsb_In (fun slot => instance_name_of slot w)) in Hdup.
        rewrite fmap_app in Hd. apply NoDup_app in Hd as (_ & Hd & _).
        apply (Hd _ Hdup). cbn. by left.
      * specialize (IH (S i) (previous ++ [slot])). rewrite <- app_assoc in IH. cbn [app] in IH.
        assert (NoDup ((fun slot => instance_name_of slot w) <$> previous ++ [slot])) as Hnd'.
        { rewrite fmap_app. apply NoDup_app. split_and!; [done| |apply NoDup_singleton].
          intros x Hx Hs. apply list_elem_of_singleton in Hs. subst x.
          apply (existsb_In (fun slot => instance_name_of slot w)) in Hx. congruence. }
        specialize (IH Hnd'). destruct (validate_modules _ _ _ _) as [f|].
        -- destruct IH as (? & ? & ? & ? & Hn). split_and!; try done; [cbn; lia..|].
           intros [Hm Hd]. apply Hn. split; [by apply Forall_cons in Hm as [_ ?]|done].
        -- destruct IH as [Hm Hd]. split; [by constructor|done].
    + apply IsOk_false in Hok. split_and!; try done; [cbn; lia..|].
      intros [Hm _]. apply Forall_cons in Hm as [? _]. done.
Qed.

Lemma validate_registries_spec i previous slots w :
  NoDup previous ->
  match validate_registries i previous slots w with
  | None => Forall (registry_ok w) slots /\ NoDup (previous ++ slots)
  | Some f =>
      failure_status f <> kOk /\ subject f = kRegistry /\ operation f = kValidation /\
      (i <= index f < i + length slots)%nat /\
      ~ (Forall (registry_ok w) slots /\ NoDup (previous ++ slots))
  end.
Proof.
  revert i previous. induction slots as [|slot slots IH]; intros i previous Hnd; cbn [validate_registries].
  - rewrite app_nil_r. split; [constructor|done].
  - destruct slot as [r|].
    2: { split_and!; try done; [cbn; lia..|]. intros [Hf _]. apply Forall_cons in Hf as [(? & ? & _) _]. done. }
    destruct (registry_sealed r w) eqn:Hs.
    { split_and!; try done; [cbn; lia..|]. intros [Hf _]. apply Forall_cons in Hf as [(? & [= <-] & ?) _]. congruence. }
    destruct (existsb _ previous) eqn:Hdup.
    + split_and!; try done; [cbn; lia..|]. intros [_ Hd]. apply (existsb_In id) in Hdup.
      rewrite list_fmap_id in Hdup. apply NoDup_app in Hd as (_ & Hd & _). apply (Hd _ Hdup). by left.
    + specialize (IH (S i) (previous ++ [Some r])). rewrite <- app_assoc in IH. cbn [app] in IH.
      assert (NoDup (previous ++ [Some r])) as Hnd'.
      { apply NoDup_app. split_and!; [done| |apply NoDup_singleton].
        intros x Hx Hs'. apply list_elem_of_singleton in Hs'. subst x.
        rewrite <- (list_fmap_id previous) in Hx. apply (existsb_In id) in Hx. cbn in Hx. unfold id in Hx. congruence. }
      specialize (IH Hnd'). destruct (validate_registries _ _ _ _) as [f|].
      * destruct IH as (? & ? & ? & ? & Hn). split_and!; try done; [cbn; lia..|].
        intros [Hm Hd]. apply Hn. split; [by apply Forall_cons in Hm as [_ ?]|done].
      * destruct IH as [Hm Hd]. split; [constructor; [by exists r|done]|done].
Qed.

(** What [Validate] accepts. *)
Definition valid (w : W) : Prop :=
  modules_ok (modules_ cfg) w /\ NoDup ((fun slot => instance_name_of slot w) <$> modules_ cfg) /\
  Forall (registry_ok w) (registries_ cfg) /\ NoDup (registries_ cfg).

Lemma Validate_spec self w :
  let '(status, self') := Validate self w in
  (status = kOk <-> valid w) /\
  if IsOk status then self' = self
  else exists f, self' = RecordFailure f self /\ failure_status f = status /\ operation f = kValidation /\
         (index f < match subject f with kModule => length (modules_ cfg) | kRegistry => length (registries_ cfg) end)%nat.
Proof.
  unfold Validate, valid.
  pose proof (validate_modules_spec 0 [] (modules_ cfg) w (NoDup_nil_2)) as Hm. cbn [app] in Hm.
  destruct (validate_modules _ _ _ _) as [f|].
  - destruct Hm as (Hne & Hs & Hop & Hi & Hn). rewrite (proj2 (IsOk_false _) Hne).
    split; [split; [done|tauto]|]. exists f. rewrite Hs. split_and!; [done..|lia].
  - pose proof (validate_registries_spec 0 [] (registries_ cfg) w (NoDup_nil_2)) as Hr. cbn [app] in Hr.
    destruct (validate_registries _ _ _ _) as [f|]; [|split; [tauto|done]].
    destruct Hr as (Hne & Hs & Hop & Hi & Hn). rewrite (proj2 (IsOk_false _) Hne).
    split; [split; [done|tauto]|]. exists f. rewrite Hs. split_and!; [done..|lia].
Qed.

(** ** The calls a runtime makes, as modules, registries and hook observe them

    Every function that is called leaves its mark at the end of a log, which is
    otherwise not written. *)
Inductive event :=
  | EInitialize (module : nat)
  | ESeal (registry : R)
  | EStart (module : nat)
  | EHook
  | EShutdown (module : nat).

Section Trace.
Context (log : Cell W (list event)).

Definition marks (e : event) (w w' : W) : Prop := load log w' = load log w ++ [e].

Record Instrumented : Prop := {
  initialize_marks i slot : modules_ cfg !! i = Some slot -> ValidateStructure (slot_module slot) = kOk ->
    forall scopes core w, marks (EInitialize i) w (ModuleRef_Initialize (slot_module slot) scopes core w).2;
  start_marks i slot : modules_ cfg !! i = Some slot -> ValidateStructure (slot_module slot) = kOk ->
    forall scopes w, marks (EStart i) w (ModuleRef_Start (slot_module slot) scopes w).2;
  shutdown_marks i slot : modules_ cfg !! i = Some slot -> ValidateStructure (slot_module slot) = kOk ->
    forall scopes w, marks (EShutdown i) w (ModuleRef_Shutdown (slot_module slot) scopes w);
  seal_marks registry : forall w, marks (ESeal registry) w (registry_Seal registry w).2;
  hook_marks hook : hooks_ cfg = Some hook -> forall scopes w, marks EHook w (hook scopes w)
}.

(** ** Specification: the log by state

    [n] modules and the registries [rs]; the phases run in order and stop at the
    first failure, and what was begun is closed: the hook, then every module whose
    initialization was begun, last first. *)
Definition registries : list R := omap id (registries_ cfg).
Definition inits (k : nat) : list event := EInitialize <$> seq 0 k.
Definition seals (k : nat) : list event := ESeal <$> take k registries.
Definition starts (k : nat) : list event := EStart <$> seq 0 k.
Definition closing (k : nat) : list event :=
  (if bool_decide (hooks_ cfg = None) || (k =? 0)%nat then [] else [EHook]) ++ (EShutdown <$> reverse (seq 0 k)).

Let n := length (modules_ cfg).
Let m := length registries.

Inductive trace : t -> list event -> Prop :=
  | trace_constructed : trace (Mk 0 kConstructed None) []
  | trace_stopped_unused : trace (Mk 0 kStopped None) []
  | trace_rejected f : operation f = kValidation -> trace (Mk 0 kFailed (Some f)) []
  | trace_initialize_failed f :
      operation f = kInitialize -> (index f < n)%nat ->
      trace (Mk 0 kFailed (Some f)) (inits (S (index f)) ++ closing (S (index f)))
  | trace_seal_failed f :
      operation f = kSeal -> (index f < m)%nat ->
      trace (Mk 0 kFailed (Some f)) (inits n ++ seals (S (index f)) ++ closing n)
  | trace_initialized : trace (Mk n kInitialized None) (inits n ++ seals m)
  | trace_start_failed f :
      operation f = kStart -> (index f < n)%nat ->
      trace (Mk 0 kFailed (Some f)) (inits n ++ seals m ++ starts (S (index f)) ++ closing n)
  | trace_running : trace (Mk n kRunning None) (inits n ++ seals m ++ starts n)
  | trace_stopped_initialized : trace (Mk 0 kStopped None) (inits n ++ seals m ++ closing n)
  | trace_stopped_running : trace (Mk 0 kStopped None) (inits n ++ seals m ++ starts n ++ closing n).

Hypothesis instrumented : Instrumented.

(** The loops. *)
Definition structures_ok (slots : list (ModuleSlot W P C D M)) : Prop :=
  Forall (fun slot => ValidateStructure (slot_module slot) = kOk) slots.

Lemma modules_ok_structures slots w : modules_ok slots w -> structures_ok slots.
Proof.
  intros H. eapply Forall_impl; [exact H|]. intros slot. unfold ModuleRef_Validate.
  destruct (IsOk (ValidateStructure _)) eqn:Hs; cbn [negb]; [by apply IsOk_spec in Hs|done].
Qed.

Lemma lookup_suffix {A} i (l : list A) a rest :
  drop i l = a :: rest -> l !! i = Some a /\ drop (S i) l = rest /\ (i + length (a :: rest) = length l)%nat.
Proof.
  intros H. assert (i < length l)%nat as Hi.
  { destruct (decide (i < length l)%nat); [done|]. rewrite drop_ge in H by lia. done. }
  rewrite <- (Nat.add_0_r i) at 1. rewrite <- lookup_drop, H. split_and!; [done| |].
  - rewrite <- Nat.add_1_r, <- drop_drop, H. done.
  - apply (f_equal length) in H. rewrite length_drop in H. cbn in *. lia.
Qed.

Lemma initialize_modules_log i slots self w :
  drop i (modules_ cfg) = slots -> (i <= n)%nat -> structures_ok slots ->
  initialized_module_count_ self = i -> load log w = inits i ->
  let '(failure, self', w') := initialize_modules i slots self w in
  state_ self' = state_ self /\ failure_ self' = failure_ self /\
  match failure with
  | None => initialized_module_count_ self' = n /\ load log w' = inits n
  | Some f =>
      operation f = kInitialize /\ (index f < n)%nat /\ failure_status f <> kOk /\
      initialized_module_count_ self' = S (index f) /\ load log w' = inits (S (index f))
  end.
Proof using instrumented.
  revert i self w. induction slots as [|slot slots IH]; intros i self w Hd Hi Hs Hc Hl; cbn [initialize_modules].
  - apply (f_equal length) in Hd. rewrite length_drop in Hd. cbn in Hd.
    assert (i = n) as -> by (unfold n in *; lia). done.
  - apply lookup_suffix in Hd as (Hslot & Hd & Hlen). cbn in Hlen. apply Forall_cons in Hs as [Hok Hs].
    pose proof (initialize_marks instrumented i slot Hslot Hok (lifecycle_scope slot active w) (slot_core slot) w) as Hm.
    destruct (ModuleRef_Initialize _ _ _ _) as [status w1]. unfold marks in Hm. cbn in Hm.
    assert (load log w1 = inits (S i)) as Hl1.
    { rewrite Hm, Hl. unfold inits. by rewrite seq_S, fmap_app. }
    destruct (IsOk status) eqn:Hst; cbn [negb].
    + specialize (IH (S i) (self <| initialized_module_count_ := S i |>) w1 Hd). unfold n in *.
      apply IH; [lia|done|done|done].
    + apply IsOk_false in Hst. cbn. split_and!; try done. unfold n. lia.
Qed.

Lemma omap_id_drop {A} i (l : list (option A)) :
  Forall is_Some l -> omap id (drop i l) = drop i (omap id l).
Proof.
  intros H. revert i. induction H as [|x l [a ->] H IH]; intros [|i]; cbn; try done.
Qed.

Lemma omap_id_length {A} (l : list (option A)) : Forall is_Some l -> length (omap id l) = length l.
Proof. induction 1 as [|x l [a ->] H IH]; cbn; [done|by f_equal]. Qed.

Lemma seal_registries_log i slots w prefix :
  drop i (registries_ cfg) = slots -> (i <= length (registries_ cfg))%nat ->
  Forall is_Some (registries_ cfg) -> load log w = prefix ++ seals i ->
  let '(failure, w') := seal_registries i slots w in
  match failure with
  | None => load log w' = prefix ++ seals m
  | Some f => operation f = kSeal /\ (index f < m)%nat /\ failure_status f <> kOk /\
              load log w' = prefix ++ seals (S (index f))
  end.
Proof using instrumented.
  intros Hd Hi Hall Hl. revert i w Hd Hi Hl. induction slots as [|slot slots IH]; intros i w Hd Hi Hl; cbn [seal_registries].
  - apply (f_equal length) in Hd. rewrite length_drop in Hd. cbn in Hd.
    assert (i = m) as -> by (unfold m, registries; rewrite omap_id_length by done; lia). done.
  - assert (Hin : drop i (registries_ cfg) = slot :: slots) by done.
    apply lookup_suffix in Hd as (Hslot & Hd & Hlen). cbn in Hlen.
    destruct slot as [r|].
    2: { rewrite Forall_lookup in Hall. destruct (Hall _ _ Hslot). done. }
    assert (registries !! i = Some r) as Hr.
    { unfold registries. rewrite <- (Nat.add_0_r i) at 1. rewrite <- lookup_drop, <- omap_id_drop, Hin by done. done. }
    pose proof (seal_marks instrumented r w) as Hm. destruct (registry_Seal r w) as [status w1].
    unfold marks in Hm. cbn in Hm.
    assert (load log w1 = prefix ++ seals (S i)) as Hl1.
    { rewrite Hm, Hl. unfold seals. by rewrite (take_S_r _ _ r), fmap_app, app_assoc. }
    destruct (IsOk status) eqn:Hst; cbn [negb].
    + apply IH; [done|lia|done].
    + apply IsOk_false in Hst. cbn. split_and!; try done.
      unfold m, registries. rewrite omap_id_length by done. lia.
Qed.

Lemma start_modules_log i slots w prefix :
  drop i (modules_ cfg) = slots -> (i <= n)%nat -> structures_ok slots -> load log w = prefix ++ starts i ->
  let '(failure, w') := start_modules i slots w in
  match failure with
  | None => load log w' = prefix ++ starts n
  | Some f => operation f = kStart /\ (index f < n)%nat /\ failure_status f <> kOk /\
              load log w' = prefix ++ starts (S (index f))
  end.
Proof using instrumented.
  revert i w. induction slots as [|slot slots IH]; intros i w Hd Hi Hs Hl; cbn [start_modules].
  - apply (f_equal length) in Hd. rewrite length_drop in Hd. cbn in Hd.
    assert (i = n) as -> by (unfold n in *; lia). done.
  - apply lookup_suffix in Hd as (Hslot & Hd & Hlen). cbn in Hlen. apply Forall_cons in Hs as [Hok Hs].
    pose proof (start_marks instrumented i slot Hslot Hok (lifecycle_scope slot active w) w) as Hm.
    destruct (ModuleRef_Start _ _ _) as [status w1]. unfold marks in Hm. cbn in Hm.
    assert (load log w1 = prefix ++ starts (S i)) as Hl1.
    { rewrite Hm, Hl. unfold starts. by rewrite seq_S, fmap_app, app_assoc. }
    destruct (IsOk status) eqn:Hst; cbn [negb].
    + apply IH; [done|unfold n; lia|done|done].
    + apply IsOk_false in Hst. cbn. split_and!; try done. unfold n. lia.
Qed.

Lemma shutdown_modules_log count w :
  (count <= n)%nat -> structures_ok (modules_ cfg) ->
  load log (shutdown_modules count w) = load log w ++ (EShutdown <$> reverse (seq 0 count)).
Proof using instrumented.
  intros Hn Hs. revert w. induction count as [|count IH]; intros w; cbn [shutdown_modules].
  - cbn. by rewrite app_nil_r.
  - destruct (lookup_lt_is_Some_2 (modules_ cfg) count) as [slot Hslot]; [unfold n in Hn; lia|].
    rewrite Hslot, IH by lia.
    assert (ValidateStructure (slot_module slot) = kOk) as Hok.
    { unfold structures_ok in Hs. rewrite Forall_lookup in Hs. by eapply Hs. }
    rewrite (shutdown_marks instrumented _ _ Hslot Hok).
    rewrite seq_S, reverse_app, fmap_app, <- app_assoc. done.
Qed.

Lemma ShutdownInitializedModules_log self w :
  (initialized_module_count_ self <= n)%nat -> structures_ok (modules_ cfg) ->
  let '(self', w') := ShutdownInitializedModules self w in
  self' = self <| initialized_module_count_ := 0%nat |> /\
  load log w' = load log w ++ closing (initialized_module_count_ self).
Proof using instrumented.
  intros Hn Hs. unfold ShutdownInitializedModules. split; [done|].
  rewrite shutdown_modules_log by done. unfold closing. rewrite app_assoc. f_equal.
  destruct (hooks_ cfg) as [hook|] eqn:Hh; cbn [bool_decide]; [|by rewrite app_nil_r].
  rewrite bool_decide_eq_false_2 by done. cbn [orb]. split_if; [by rewrite app_nil_r|].
  apply (hook_marks instrumented hook Hh).
Qed.

Lemma fail_log f self w :
  (initialized_module_count_ self <= n)%nat -> structures_ok (modules_ cfg) ->
  let '(status, self', w') := fail f self w in
  status = failure_status f /\ self' = Mk 0 kFailed (Some f) /\
  load log w' = load log w ++ closing (initialized_module_count_ self).
Proof using instrumented.
  intros Hn Hs. unfold fail.
  pose proof (ShutdownInitializedModules_log (RecordFailure f self) w Hn Hs) as H.
  destruct (ShutdownInitializedModules _ _) as [self' w']. destruct H as [-> H]. done.
Qed.

(** The trace, and the modules found well formed for as long as they are used. *)
Definition inv (self : t) (w : W) : Prop :=
  trace self (load log w) /\
  (state_ self = kInitialized \/ state_ self = kRunning -> structures_ok (modules_ cfg)).

Lemma Initialize_inv self w : inv self w -> let '(_, self', w') := Initialize self w in inv self' w'.
Proof using instrumented.
  intros [Ht Hs]. unfold Initialize. case_bool_decide as Hstate; cbn [negb]; [|by split].
  assert (self = init /\ load log w = []) as [-> Hl] by (by inversion Ht; subst).
  pose proof (Validate_spec init w) as Hv. destruct (Validate init w) as [status self'].
  destruct Hv as [Hv Hself]. destruct (IsOk status) eqn:Hok; cbn [negb].
  2: { destruct Hself as (f & -> & _ & Hop & _). split; [|by intros []].
       rewrite Hl. by apply trace_rejected. }
  subst self'. apply IsOk_spec in Hok. apply Hv in Hok as (Hm & _ & Hr & _).
  pose proof (modules_ok_structures _ _ Hm) as Hstr.
  pose proof (initialize_modules_log 0 (modules_ cfg) (init <| state_ := kInitializing |>) w eq_refl
    ltac:(lia) Hstr eq_refl Hl) as Hi.
  destruct (initialize_modules _ _ _ _) as [[[f|] self1] w1]; destruct Hi as (_ & Hf1 & Hi).
  - destruct Hi as (Hop & Hix & Hne & Hc & Hl1).
    pose proof (fail_log f self1 w1 ltac:(rewrite Hc; lia) Hstr) as H.
    destruct (fail f self1 w1) as [[status2 self2] w2]. destruct H as (_ & -> & Hl2).
    split; [|by intros []]. rewrite Hl2, Hl1, Hc. by apply trace_initialize_failed.
  - destruct Hi as [Hc Hl1].
    pose proof (seal_registries_log 0 (registries_ cfg) w1 (inits n) eq_refl ltac:(lia)) as Hseal.
    destruct (seal_registries _ _ _) as [[f|] w2].
    + destruct Hseal as (Hop & Hix & Hne & Hl2);
        [by apply (Forall_impl _ _ _ Hr); intros ? (? & -> & _)|by rewrite Hl1, app_nil_r|].
      pose proof (fail_log f self1 w2 ltac:(rewrite Hc; lia) Hstr) as H.
      destruct (fail f self1 w2) as [[status2 self2] w3]. destruct H as (_ & -> & Hl3).
      split; [|by intros []]. rewrite Hl3, Hl2, Hc, <- app_assoc. by apply trace_seal_failed.
    + split; [|done]. rewrite Hseal;
        [|by apply (Forall_impl _ _ _ Hr); intros ? (? & -> & _)|by rewrite Hl1, app_nil_r].
      destruct self1 as [c s f]. cbn in Hc, Hf1 |- *. subst c f. apply trace_initialized.
Qed.

Lemma runtime_Start_inv self w : inv self w -> let '(_, self', w') := Start self w in inv self' w'.
Proof using instrumented.
  intros [Ht Hs]. unfold Start. case_bool_decide as Hstate; cbn [negb]; [|by split].
  assert (self = Mk n kInitialized None /\ load log w = inits n ++ seals m) as [-> Hl]
    by (by inversion Ht; subst).
  specialize (Hs (or_introl Hstate)).
  pose proof (start_modules_log 0 (modules_ cfg) w (inits n ++ seals m) eq_refl ltac:(lia) Hs
    ltac:(by rewrite Hl, app_nil_r)) as H.
  destruct (start_modules _ _ _) as [[f|] w1].
  - destruct H as (Hop & Hix & _ & Hl1).
    set (self1 := (Mk n kInitialized None) <| state_ := kStarting |>).
    pose proof (fail_log f self1 w1 (le_n n) Hs) as H. destruct (fail f self1 w1) as [[status self'] w2]. destruct H as (_ & -> & Hl2).
    split; [|by intros []]. rewrite Hl2, Hl1, <- !app_assoc. by apply trace_start_failed.
  - split; [|done]. rewrite H, <- app_assoc. apply trace_running.
Qed.

Lemma Shutdown_inv self w : inv self w -> let '(self', w') := Shutdown self w in inv self' w'.
Proof using instrumented.
  intros [Ht Hs]. unfold Shutdown.
  case_bool_decide as H1; [by split|]. case_bool_decide as H2; [by split|]. cbn [orb].
  case_bool_decide as H3.
  { split; [|by intros []]. inversion Ht; subst; try done. apply trace_stopped_unused. }
  assert (initialized_module_count_ self = n /\ structures_ok (modules_ cfg)) as [Hc Hstr]
    by (inversion Ht; subst; try done; split; try done; apply Hs; auto).
  set (self1 := self <| state_ := kShuttingDown |>).
  assert (initialized_module_count_ self1 = n) as Hc1 by exact Hc.
  pose proof (ShutdownInitializedModules_log self1 w (Nat.eq_le_incl _ _ Hc1) Hstr) as H.
  destruct (ShutdownInitializedModules self1 w) as [self' w']. destruct H as [-> Hl].
  split; [|by intros []]. rewrite Hl, Hc1.
  inversion Ht; subst; try done; cbn; rewrite <- !app_assoc;
    [apply trace_stopped_initialized|apply trace_stopped_running].
Qed.

Lemma runtime_run_inv calls self w : inv self w -> let '(self', w') := run calls self w in inv self' w'.
Proof using instrumented.
  revert self w. induction calls as [|c calls IH]; intros self w H; cbn [run]; [done|].
  assert (let '(self', w') := perform c self w in inv self' w') as Hp.
  { destruct c; cbn [perform].
    - pose proof (Initialize_inv self w H). by destruct (Initialize self w) as [[? ?] ?].
    - pose proof (runtime_Start_inv self w H). by destruct (Start self w) as [[? ?] ?].
    - by apply Shutdown_inv. }
  destruct (perform c self w) as [self' w']. by apply IH.
Qed.

(** ** Readings of the log *)

Definition begun (e : event) : option nat := match e with EInitialize i => Some i | _ => None end.
Definition ended (e : event) : option nat := match e with EShutdown i => Some i | _ => None end.
Definition terminal (s : RuntimeState) : bool :=
  match s with kStopped | kFailed => true | _ => false end.

Lemma omap_fmap_some {A B E} (f : A -> E) (g : E -> option B) (h : A -> B) (l : list A) :
  (forall a, g (f a) = Some (h a)) -> omap g (f <$> l) = h <$> l.
Proof. intros H. induction l as [|a l IH]; [done|]. cbn. rewrite H. cbn. f_equal. exact IH. Qed.

Lemma omap_fmap_none {A B E} (f : A -> E) (g : E -> option B) (l : list A) :
  (forall a, g (f a) = None) -> omap g (f <$> l) = [].
Proof. intros H. induction l as [|a l IH]; [done|]. cbn. by rewrite H. Qed.

Lemma begun_phases k :
  omap begun (inits k) = seq 0 k /\ omap begun (seals k) = [] /\ omap begun (starts k) = [] /\
  omap begun (closing k) = [].
Proof.
  unfold inits, seals, starts, closing.
  rewrite (omap_fmap_some EInitialize begun id), list_fmap_id, omap_app, !omap_fmap_none by done.
  by split_if.
Qed.

Lemma ended_phases k :
  omap ended (inits k) = [] /\ omap ended (seals k) = [] /\ omap ended (starts k) = [] /\
  omap ended (closing k) = reverse (seq 0 k).
Proof.
  unfold inits, seals, starts, closing.
  rewrite omap_app, (omap_fmap_some EShutdown ended id), list_fmap_id, !omap_fmap_none by done.
  by split_if.
Qed.

(** What was begun is ended once, in reverse order, when the runtime is done. *)
Lemma trace_readings self l :
  trace self l -> omap ended l = if terminal (state_ self) then reverse (omap begun l) else [].
Proof.
  pose proof (fun k => proj1 (begun_phases k)) as B1.
  pose proof (fun k => proj1 (proj2 (begun_phases k))) as B2.
  pose proof (fun k => proj1 (proj2 (proj2 (begun_phases k)))) as B3.
  pose proof (fun k => proj2 (proj2 (proj2 (begun_phases k)))) as B4.
  pose proof (fun k => proj1 (ended_phases k)) as E1.
  pose proof (fun k => proj1 (proj2 (ended_phases k))) as E2.
  pose proof (fun k => proj1 (proj2 (proj2 (ended_phases k)))) as E3.
  pose proof (fun k => proj2 (proj2 (proj2 (ended_phases k)))) as E4.
  destruct 1; cbn [state_ terminal]; try done; rewrite !omap_app, ?B1, ?B2, ?B3, ?B4, ?E1, ?E2, ?E3, ?E4;
    rewrite ?app_nil_r; done.
Qed.
End Trace.

(** ** What a failure record says *)

(** The record names the call that failed and the status it gave. *)
Definition reported (f : RuntimeFailure) : Prop :=
  failure_status f <> kOk /\
  match operation f with
  | kValidation => True
  | kInitialize =>
      subject f = kModule /\
      exists slot w1 w2, modules_ cfg !! index f = Some slot /\ name f = instance_name_of slot w1 /\
        ModuleRef_Initialize (slot_module slot) (lifecycle_scope slot active w1) (slot_core slot) w1 =
          (failure_status f, w2)
  | kSeal =>
      subject f = kRegistry /\
      exists registry w1 w2, registries_ cfg !! index f = Some (Some registry) /\
        registry_Seal registry w1 = (failure_status f, w2)
  | kStart =>
      subject f = kModule /\
      exists slot w1 w2, modules_ cfg !! index f = Some slot /\ name f = instance_name_of slot w1 /\
        ModuleRef_Start (slot_module slot) (lifecycle_scope slot active w1) w1 = (failure_status f, w2)
  end.

Lemma initialize_modules_reported i slots self w :
  drop i (modules_ cfg) = slots ->
  let '(failure, self', _) := initialize_modules i slots self w in
  failure_ self' = failure_ self /\
  match failure with Some f => operation f = kInitialize /\ reported f | None => True end.
Proof.
  revert i self w. induction slots as [|slot slots IH]; intros i self w Hd; cbn [initialize_modules]; [done|].
  apply lookup_suffix in Hd as (Hslot & Hd & _).
  destruct (ModuleRef_Initialize _ _ _ _) as [status w1] eqn:Hi. destruct (IsOk status) eqn:Hst; cbn [negb].
  - exact (IH (S i) _ w1 Hd).
  - apply IsOk_false in Hst. unfold reported. cbn. split_and!; try done. by exists slot, w, w1.
Qed.

Lemma seal_registries_reported i slots w :
  drop i (registries_ cfg) = slots ->
  match (seal_registries i slots w).1 with Some f => operation f = kSeal /\ reported f | None => True end.
Proof.
  revert i w. induction slots as [|slot slots IH]; intros i w Hd; cbn [seal_registries]; [done|].
  apply lookup_suffix in Hd as (Hslot & Hd & _). destruct slot as [r|]; [|done].
  destruct (registry_Seal r w) as [status w1] eqn:Hi. destruct (IsOk status) eqn:Hst; cbn [negb].
  - by apply IH.
  - apply IsOk_false in Hst. unfold reported. cbn. split_and!; try done. by exists r, w, w1.
Qed.

Lemma start_modules_reported i slots w :
  drop i (modules_ cfg) = slots ->
  match (start_modules i slots w).1 with Some f => operation f = kStart /\ reported f | None => True end.
Proof.
  revert i w. induction slots as [|slot slots IH]; intros i w Hd; cbn [start_modules]; [done|].
  apply lookup_suffix in Hd as (Hslot & Hd & _).
  destruct (ModuleRef_Start _ _ _) as [status w1] eqn:Hi. destruct (IsOk status) eqn:Hst; cbn [negb].
  - by apply IH.
  - apply IsOk_false in Hst. unfold reported. cbn. split_and!; try done. by exists slot, w, w1.
Qed.

Lemma fail_outcome f self w :
  exists w', fail f self w = (failure_status f, Mk 0 kFailed (Some f), w').
Proof. by eexists. Qed.
End Runtime.
End Runtime.

(** ** Properties *)

(** A failure is reported as it happened: [Initialize] only runs on a
    freshly constructed runtime and [Start] on an initialized one, anything else
    is [kInvalidState] and changes nothing; modules are only touched if all of
    them are well formed and differently named and all registries present, open
    and distinct, which is exactly when validation passes; success leaves no
    failure record, and any failure leaves the runtime in [kFailed] with a record
    whose status is the one returned and which names the very module or registry
    that gave it. *)
Theorem lifecycle_outcome {W P C D M R} `{EqDecision R} (seal : R -> W -> Status * W) (sealed : R -> W -> bool)
    (cfg : @Runtime.config W P C D M R) active self w :
  (let '(status, self', w') := Runtime.Initialize seal sealed cfg active self w in
   (Runtime.state_ self <> Runtime.kConstructed -> (status, self', w') = (kInvalidState, self, w)) /\
   (Runtime.state_ self = Runtime.kConstructed -> status = kOk ->
      Runtime.valid sealed cfg w /\ Runtime.state_ self' = Runtime.kInitialized /\
      Runtime.failure_ self' = Runtime.failure_ self) /\
   (Runtime.state_ self = Runtime.kConstructed -> status <> kOk ->
      Runtime.state_ self' = Runtime.kFailed /\
      exists f, Runtime.failure_ self' = Some f /\ Runtime.failure_status f = status /\
        Runtime.reported seal cfg active f /\ Runtime.operation f <> Runtime.kStart /\
        (Runtime.operation f = Runtime.kValidation <-> ~ Runtime.valid sealed cfg w) /\
        (Runtime.operation f = Runtime.kValidation -> w' = w))) /\
  (let '(status, self', w') := Runtime.Start cfg active self w in
   (Runtime.state_ self <> Runtime.kInitialized -> (status, self', w') = (kInvalidState, self, w)) /\
   (Runtime.state_ self = Runtime.kInitialized -> status = kOk ->
      Runtime.state_ self' = Runtime.kRunning /\ Runtime.failure_ self' = Runtime.failure_ self) /\
   (Runtime.state_ self = Runtime.kInitialized -> status <> kOk ->
      Runtime.state_ self' = Runtime.kFailed /\
      exists f, Runtime.failure_ self' = Some f /\ Runtime.failure_status f = status /\
        Runtime.reported seal cfg active f /\ Runtime.operation f = Runtime.kStart)).
Proof.
  split.
  - unfold Runtime.Initialize. case_bool_decide as Hs; cbn [negb]; [|done].
    pose proof (Runtime.Validate_spec sealed cfg self w) as Hv.
    destruct (Runtime.Validate _ _ _ _) as [status self1]. destruct Hv as [Hv Hself].
    destruct (IsOk status) eqn:Hok; cbn [negb].
    2: { apply IsOk_false in Hok. destruct Hself as (f & -> & Hst & Hop & _). split_and!; [done..|].
         intros _ _. split; [done|]. exists f. assert (~ Runtime.valid sealed cfg w) as Hn by (intros H; by apply Hok, Hv).
         unfold Runtime.reported. rewrite Hop. by split_and!; try congruence. }
    subst self1. apply IsOk_spec in Hok. pose proof (proj1 Hv Hok) as Hvalid.
    pose proof (Runtime.initialize_modules_reported seal cfg active 0 (Runtime.modules_ cfg)
      (self <| Runtime.state_ := Runtime.kInitializing |>) w eq_refl) as Hi.
    destruct (Runtime.initialize_modules _ _ _ _ _) as [[[f|] self1] w1]; destruct Hi as [Hf1 Hi].
    { destruct (Runtime.fail_outcome cfg active f self1 w1) as [w2 ->]. destruct Hi as [Hop Hrep].
      split_and!; [done|by intros _ ?; destruct Hrep|]. intros _ _. split; [done|]. exists f. rewrite Hop. naive_solver. }
    pose proof (Runtime.seal_registries_reported seal cfg active 0 (Runtime.registries_ cfg) w1 eq_refl) as Hr.
    destruct (Runtime.seal_registries _ _ _ _) as [[f|] w2]; cbn [fst] in Hr; [|done].
    destruct (Runtime.fail_outcome cfg active f self1 w2) as [w3 ->]. destruct Hr as [Hop Hrep].
    split_and!; [done|by intros _ ?; destruct Hrep|]. intros _ _. split; [done|]. exists f. rewrite Hop. naive_solver.
  - unfold Runtime.Start. case_bool_decide as Hs; cbn [negb]; [|done].
    pose proof (Runtime.start_modules_reported seal cfg active 0 (Runtime.modules_ cfg) w eq_refl) as Hi.
    destruct (Runtime.start_modules _ _ _ _) as [[f|] w1]; cbn [fst] in Hi; [|done].
    destruct (Runtime.fail_outcome cfg active f (self <| Runtime.state_ := Runtime.kStarting |>) w1) as [w2 ->].
    destruct Hi as [Hop Hrep]. split_and!; [done|by intros _ ?; destruct Hrep|]. intros _ _. by split; [|exists f].
Qed.

(** C20: whatever the owner calls, in whatever order, modules, registries and hook
    are called in the one order the life cycle allows: all modules are
    initialized in order, then all registries sealed, then all modules started;
    the first failure stops the phase; a module whose initialization was begun,
    the failing one included, is shut down exactly once, after the hook and in
    reverse order, when the runtime fails or is shut down, and never before.
    Every shutdown request ends the life cycle, and an ended one is silent and
    final. *)
Theorem lifecycle_trace {W P C D M R} `{EqDecision R} (seal : R -> W -> Status * W) (sealed : R -> W -> bool)
    (cfg : @Runtime.config W P C D M R) active (log : Cell W (list Runtime.event)) calls w :
  Runtime.Instrumented seal cfg log -> load log w = [] ->
  let '(self', w') := Runtime.run seal sealed cfg active calls Runtime.init w in
  Runtime.trace cfg self' (load log w') /\
  omap Runtime.ended (load log w') =
    (if Runtime.terminal (Runtime.state_ self') then reverse (omap Runtime.begun (load log w')) else []) /\
  Runtime.terminal (Runtime.state_ (Runtime.Shutdown cfg active self' w').1) = true /\
  (Runtime.terminal (Runtime.state_ self') = true ->
     forall c, Runtime.perform seal sealed cfg active c self' w' = (self', w')).
Proof.
  intros Hi Hl.
  pose proof (Runtime.runtime_run_inv seal sealed cfg active log Hi calls Runtime.init w) as H.
  destruct (Runtime.run _ _ _ _ _ _ _) as [self' w']. destruct H as [Ht _].
  { split; [rewrite Hl; apply Runtime.trace_constructed|by intros []]. }
  split_and!; [done|by apply (Runtime.trace_readings cfg)| |].
  - unfold Runtime.Shutdown, Runtime.ShutdownInitializedModules. destruct (Runtime.state_ self') eqn:Hs;
      repeat (case_bool_decide; [try done|]); cbn; by rewrite ?Hs.
  - intros Hterm c. destruct c; cbn [Runtime.perform]; unfold Runtime.Initialize, Runtime.Start, Runtime.Shutdown;
      destruct (Runtime.state_ self'); by repeat (case_bool_decide; try done).
Qed.

(** Two modules, the second of which fails to start, a registry and a hook. *)
Definition witness_log : Cell (list (@Runtime.event nat)) (list (@Runtime.event nat)) :=
  MkCell id (fun log _ => log).

Definition witness_module (i : nat) (name : string) (start : Z)
    : aster_module_base_t (list (@Runtime.event nat)) unit unit unit unit := {|
  module_abi_version := ASTER_ABI_VERSION;
  module_complete := true;
  module_impl := true;
  abi_info := Some (fun _ => AbiModuleInfo (ToAbiString name) (ToAbiString "type") (ToAbiString "package")
                               (MkSemanticVersion 1 0 0));
  abi_initialize := Some (fun _ _ w => (0, w ++ [Runtime.EInitialize i]));
  abi_start := Some (fun _ w => (start, w ++ [Runtime.EStart i]));
  abi_shutdown := Some (fun _ w => w ++ [Runtime.EShutdown i])
|}.

Definition witness_slot (i : nat) (name : string) (start : Z) :=
  MkModuleSlot (Some (witness_module i name start)) (fun _ => None) "".

Definition witness_seal (registry : nat) (w : list (@Runtime.event nat)) : Status * list (@Runtime.event nat) :=
  (kOk, w ++ [Runtime.ESeal registry]).

Definition witness_sealed (registry : nat) (w : list (@Runtime.event nat)) : bool :=
  existsb (fun e => match e with Runtime.ESeal r => (r =? registry)%nat | _ => false end) w.

Definition witness_config : @Runtime.config (list (@Runtime.event nat)) unit unit unit unit nat :=
  Runtime.MkConfig [witness_slot 0 "driver" 0; witness_slot 1 "control" (status_value kTimeout)] [Some 7%nat]
    (Some (fun _ w => w ++ [Runtime.EHook])).

Lemma witness_instrumented : Runtime.Instrumented witness_seal witness_config witness_log.
Proof.
  split; try done.
  1-3: intros [|[|i]] slot; [intros [= <-]|intros [= <-]|done]; done.
  intros hook [= <-]. done.
Qed.

Definition witness_calls : list Runtime.call := [Runtime.CInitialize; Runtime.CStart; Runtime.CShutdown].

Definition witness_run := Runtime.run witness_seal witness_sealed witness_config [] witness_calls Runtime.init [].

Example witness_run_log :
  load witness_log witness_run.2 =
    [Runtime.EInitialize 0; Runtime.EInitialize 1; Runtime.ESeal 7%nat; Runtime.EStart 0; Runtime.EStart 1;
     Runtime.EHook; Runtime.EShutdown 1; Runtime.EShutdown 0].
Proof. vm_compute. reflexivity. Qed.

Lemma lifecycle_trace_witness : Runtime.trace witness_config witness_run.1 (load witness_log witness_run.2).
Proof.
  pose proof (lifecycle_trace witness_seal witness_sealed witness_config [] witness_log witness_calls []
    witness_instrumented eq_refl) as H.
  fold witness_run in H. destruct witness_run as [self w]. exact (proj1 H).
Defined.
