(* ===== verification/CanChannelBridge.v ===== *)
(** Channels over CAN: the best-effort bridge
    ([aster_runtime/transport/can/channel_bridge.hpp]) and the reliable bridge
    ([reliable_channel_bridge.hpp]). An egress subscribes to a channel and writes
    its messages as frames; an ingress reassembles frames and publishes the
    messages. A message travels with the low sixteen bits of the millisecond in
    which it was made; the receiver restores the rest from its own clock. *)

From S2P Require Export FastPath ReliablePath ControlPlane Channel Rpc.

Local Open Scope Z_scope.

(** ** Timestamps

    Both egresses write, and both ingresses read, two bytes in front of the
    message; the two copies of [ExpandTimestamp] are the same code. *)
Definition kNanosecondsPerMillisecond : Z := 1000000.
Definition kWrap : Z := 65536.
Definition kHalfWrap : Z := 32768.

Definition source_tick (source_time_ns : Z) : Z :=
  u16 (Z.land (source_time_ns / kNanosecondsPerMillisecond) 0xffff).

Definition stamped (source_time_ns : Z) (message payload : list Z) : list Z :=
  let tick := source_tick source_time_ns in
  copy_into 2 message (<[1%nat := Z.shiftr tick 8]> (<[0%nat := Z.land tick 0xff]> payload)).

Definition read_tick (payload : list Z) : Z :=
  u16 (Z.lor (byte_at payload 0) (Z.shiftl (byte_at payload 1) 8)).

Definition ExpandTimestamp (source_tick_ms receive_network_time_ns : Z) : Z :=
  let receive_ms := receive_network_time_ns / kNanosecondsPerMillisecond in
  let base := Z.land receive_ms (UINT64_MAX - (kWrap - 1)) in
  let candidate := Z.lor base source_tick_ms in
  let candidate :=
    if u64 (candidate + kHalfWrap) <? receive_ms then u64 (candidate + kWrap)
    else if (u64 (receive_ms + kHalfWrap) <? candidate) && (kWrap <=? candidate)
    then candidate - kWrap
    else candidate in
  u64 (candidate * kNanosecondsPerMillisecond).

(** [has_last_send_ && source >= last && source - last < minimum_period_ns_]. *)
Definition rate_limits (has_last_send : bool) (last_send_time_ns minimum_period_ns source_time_ns : Z)
    : bool :=
  has_last_send && (last_send_time_ns <=? source_time_ns) &&
  (source_time_ns - last_send_time_ns <? minimum_period_ns).

(** ** [FastChannelEgress] *)

Module FastChannelEgress.

Record ChannelEgressStats := MkStats {
  messages : Z;
  frames : Z;
  rate_limited : Z;
  send_failures : Z
}.
#[global] Instance eta_stats : Eta ChannelEgressStats := fun r =>
  MkStats (messages r) (frames r) (rate_limited r) (send_failures r).

Record t := Mk {
  last_send_time_ns_ : Z;
  descriptor_ : ChannelDescriptor;
  payload_ : list Z;
  frames_ : list CanFrame;
  sequence_ : Z;
  has_last_send_ : bool;
  bound_ : bool;
  stats_ : ChannelEgressStats
}.
#[global] Instance eta_t : Eta t := fun r =>
  Mk (last_send_time_ns_ r) (descriptor_ r) (payload_ r) (frames_ r) (sequence_ r) (has_last_send_ r)
    (bound_ r) (stats_ r).

Section Egress.
Context {W : Type}.
Variable MaximumMessageSize : nat.

(** The constructor's arguments, which do not change afterwards. *)
Variables (route_id_ : Z) (priority_ : CanPriority) (writer_ : CanFrameWriter W) (time_ : CanTimeConverter W)
  (minimum_period_ns_ : Z).

Definition kMaximumPayloadSize : nat := (MaximumMessageSize + 2)%nat.
Definition kMaximumFrames : nat :=
  if (kMaximumPayloadSize <=? 7)%nat then 1%nat else ((kMaximumPayloadSize + 5) / 6)%nat.

Definition init : t :=
  Mk 0 ChannelDescriptor_default (zeros kMaximumPayloadSize) (replicate kMaximumFrames CanFrame_default) 0
    false false (MkStats 0 0 0 0).

(** The loop that writes the encoded frames. *)
Fixpoint send_frames (wire : list CanFrame) (caller : ExecutionContext) (self : t) (w : W)
    : Status * t * W :=
  match wire with
  | [] => (kOk, self, w)
  | frame :: wire =>
      let '(status, _, w) := CanFrameWriter_Send writer_ frame caller w in
      if negb (IsOk status) then (status, self <| stats_ := bump send_failures (stats_ self) |>, w)
      else send_frames wire caller (self <| stats_ := bump frames (stats_ self) |>) w
  end.

Definition Send (message : list Z) (info : MessageInfo) (caller : ExecutionContext) (self : t) (w : W)
    : Status * t * W :=
  if (max_serialized_size (message_type (descriptor_ self)) <? Z.of_nat (length message)) ||
     (MaximumMessageSize <? length message)%nat
  then (kCapacityExceeded, self, w)
  else
    let source_time_ns := CanTimeConverter_ToNetworkTime time_ w (info_source_timestamp_ns info) in
    if rate_limits (has_last_send_ self) (last_send_time_ns_ self) minimum_period_ns_ source_time_ns
    then (kOk, self <| stats_ := bump rate_limited (stats_ self) |>, w)
    else
      let self := self <| payload_ := stamped source_time_ns message (payload_ self) |> in
      let '(status, wire, frame_count) :=
        FastCodec.Encode route_id_ priority_ (sequence_ self) (take (length message + 2) (payload_ self))
          (frames_ self) in
      let self := self <| frames_ := wire |> in
      if negb (IsOk status) then (status, self, w)
      else
        let '(status, self, w) := send_frames (take frame_count (frames_ self)) caller self w in
        if negb (IsOk status) then (status, self, w)
        else
          let self := self <| sequence_ := u8 (Z.land (sequence_ self + 1) 0x3f) |>
                           <| last_send_time_ns_ := source_time_ns |> <| has_last_send_ := true |> in
          (kOk, self <| stats_ := bump messages (stats_ self) |>, w).

(** The subscription's callback: [Send] on the egress at [this]. *)
Definition Forward (this : Cell W t) : RawChannelCallback W := fun message info caller w =>
  let '(status, self, w) := Send message info caller (load this w) w in
  (status, store this self w).

Definition Bind (this : Cell W t) (channel : ChannelRef W) (descriptor : ChannelDescriptor) (w : W)
    : Status * W :=
  let self := load this w in
  if bound_ self || (max_serialized_size (message_type descriptor) =? 0) ||
     (Z.of_nat MaximumMessageSize <? max_serialized_size (message_type descriptor))
  then (if bound_ self then kInvalidState else kInvalidArgument, w)
  else
    let '(status, w) := ChannelRef_RegisterSubscriber (Forward this) channel descriptor w in
    if IsOk status
    then (status, store this ((load this w) <| descriptor_ := descriptor |> <| bound_ := true |>) w)
    else (status, w).
End Egress.
End FastChannelEgress.

(** ** [FastChannelIngress] *)

Module FastChannelIngress.

Record ChannelIngressStats := MkStats {
  messages : Z;
  stale_messages : Z;
  decode_failures : Z;
  publish_failures : Z
}.
#[global] Instance eta_stats : Eta ChannelIngressStats := fun r =>
  MkStats (messages r) (stale_messages r) (decode_failures r) (publish_failures r).

Section Ingress.
Context {W : Type}.
Variables (MaximumMessageSize : nat) (route_id_ : Z).

Record t := Mk {
  channel_ : ChannelRef W;
  descriptor_ : ChannelDescriptor;
  reassembler_ : FastReassembler.t;
  freshness_ : FreshnessGuard.t;
  bound_ : bool;
  stats_ : ChannelIngressStats
}.
#[global] Instance eta_t : Eta t := fun r =>
  Mk (channel_ r) (descriptor_ r) (reassembler_ r) (freshness_ r) (bound_ r) (stats_ r).

Definition kMaximumPayloadSize : nat := (MaximumMessageSize + 2)%nat.

Definition init (freshness : FreshnessConfig) : t :=
  Mk None ChannelDescriptor_default (FastReassembler.init kMaximumPayloadSize)
    (FreshnessGuard.init freshness) false (MkStats 0 0 0 0).

Definition Bind (channel : ChannelRef W) (descriptor : ChannelDescriptor) (self : t) (w : W)
    : Status * t * W :=
  if bound_ self || (max_serialized_size (message_type descriptor) =? 0) ||
     (Z.of_nat MaximumMessageSize <? max_serialized_size (message_type descriptor))
  then (if bound_ self then kInvalidState else kInvalidArgument, self, w)
  else
    let '(status, w) := ChannelRef_RegisterPublisher channel descriptor w in
    if IsOk status
    then (status, self <| channel_ := channel |> <| descriptor_ := descriptor |> <| bound_ := true |>, w)
    else (status, self, w).

(** [Accept] from the point where the reassembler returned a message. *)
Definition Accept_message (reassembled : ReassembledMessage) (receive_network_time_ns : Z)
    (caller : ExecutionContext) (self : t) (w : W) : Status * t * W :=
  let payload := msg_payload reassembled in
  if (length payload <? 2)%nat ||
     (max_serialized_size (message_type (descriptor_ self)) <? Z.of_nat (length payload - 2))
  then (kTypeMismatch, self <| stats_ := bump decode_failures (stats_ self) |>, w)
  else
    let source_timestamp_ns := ExpandTimestamp (read_tick payload) receive_network_time_ns in
    let '(freshness, guard) := FreshnessGuard.Observe (msg_sequence reassembled) source_timestamp_ns
      receive_network_time_ns (freshness_ self) in
    let self := self <| freshness_ := guard |> in
    if negb (bool_decide (freshness = kFresh))
    then (kTimeout, self <| stats_ := bump stale_messages (stats_ self) |>, w)
    else
      let '(publish_status, w) := ChannelRef_Publish (channel_ self) (descriptor_ self) (drop 2 payload)
        source_timestamp_ns (Some caller) w in
      if negb (IsOk publish_status)
      then (publish_status, self <| stats_ := bump publish_failures (stats_ self) |>, w)
      else (kOk, self <| stats_ := bump messages (stats_ self) |>, w).

Definition Accept (frame : CanFrame) (receive_network_time_ns : Z) (caller : ExecutionContext)
    (self : t) (w : W) : Status * t * W :=
  if negb (bound_ self) then (kInvalidState, self, w)
  else
    match CanArbitrationId_Decode (arbitration_id frame) with
    | None => (kInvalidArgument, self, w)
    | Some id =>
        if negb (id_route id =? route_id_) then (kUnavailable, self, w)
        else
          let '(status, reassembled, reassembler) :=
            FastReassembler.Accept kMaximumPayloadSize frame (reassembler_ self) in
          let self := self <| reassembler_ := reassembler |> in
          if negb (IsOk status) then (status, self, w)
          else Accept_message reassembled receive_network_time_ns caller self w
    end.

Definition ResetPeer (self : t) : t :=
  self <| reassembler_ := FastReassembler.ResetHistory (reassembler_ self) |>
       <| freshness_ := FreshnessGuard.Reset (freshness_ self) |>.

(** Frames with the times they arrive at. *)
Fixpoint Accept_all (arrivals : list (CanFrame * Z)) (caller : ExecutionContext) (self : t) (w : W)
    : list Status * t * W :=
  match arrivals with
  | [] => ([], self, w)
  | (frame, time) :: arrivals =>
      let '(status, self, w) := Accept frame time caller self w in
      let '(statuses, self, w) := Accept_all arrivals caller self w in
      (status :: statuses, self, w)
  end.
End Ingress.
Arguments t : clear implicits.
End FastChannelIngress.

(** ** Lemmas: timestamps *)

Lemma land_high_mask r : 0 <= r < 2 ^ 64 -> Z.land r (UINT64_MAX - (kWrap - 1)) = r / 65536 * 65536.
Proof.
  intros Hr. change (UINT64_MAX - (kWrap - 1)) with (Z.shiftl (Z.ones 48) 16).
  apply Z.bits_inj'. intros k Hk.
  change 65536 with (2 ^ 16). rewrite Z.land_spec, <- Z.shiftr_div_pow2, <- Z.shiftl_mul_pow2 by lia.
  rewrite !Z.shiftl_spec by lia. destruct (decide (k < 16)) as [Hlt|Hge].
  - rewrite !(Z.testbit_neg_r _ (k - 16)) by lia. apply andb_false_r.
  - rewrite Z.shiftr_spec by lia. replace (k - 16 + 16) with k by lia.
    destruct (decide (k < 64)) as [H64|H64].
    + rewrite Z.ones_spec_low by lia. apply andb_true_r.
    + assert (Z.log2 r < k).
      { destruct (decide (r = 0)) as [->|]; [cbn; lia|].
        apply Z.lt_le_trans with 64; [apply Z.log2_lt_pow2; lia|lia]. }
      by rewrite (Z.bits_above_log2 r) by lia.
Qed.

(** The receiver recovers the millisecond of the source, if the two clocks are
    less than half a wrap, thirty-two seconds, apart. *)
Lemma ExpandTimestamp_recovers source receive :
  0 <= source < 2 ^ 64 -> 0 <= receive < 2 ^ 64 ->
  Z.abs (receive / kNanosecondsPerMillisecond - source / kNanosecondsPerMillisecond) < kHalfWrap ->
  ExpandTimestamp (source_tick source) receive =
    source / kNanosecondsPerMillisecond * kNanosecondsPerMillisecond.
Proof.
  unfold kNanosecondsPerMillisecond, kHalfWrap. intros Hs Hr Hd. unfold ExpandTimestamp, source_tick.
  unfold kNanosecondsPerMillisecond, kHalfWrap. cbn zeta.
  assert (0 <= source / 1000000 < 2 ^ 45) as Hsm by (split; [apply Z.div_pos; lia|apply Z.div_lt_upper_bound; lia]).
  assert (0 <= receive / 1000000 < 2 ^ 45) as Hrm by (split; [apply Z.div_pos; lia|apply Z.div_lt_upper_bound; lia]).
  assert (0 <= source / 1000000 * 1000000 < 2 ^ 64) as Hres.
  { pose proof (Z.mul_div_le source 1000000). lia. }
  set (s := source / 1000000) in *. set (r := receive / 1000000) in *. clearbody s r.
  rewrite land_high_mask by lia. unfold kWrap. change (Z.land s 65535) with (Z.land s (Z.ones 16)).
  rewrite Z.land_ones, u16_small by (try apply Z.mod_pos_bound; lia).
  assert (Z.lor (r / 65536 * 65536) (s mod 2 ^ 16) = r / 65536 * 65536 + s mod 65536) as ->.
  { pose proof (lor_shiftl_add (s mod 65536) (r / 65536) 16) as H.
    rewrite Z.shiftl_mul_pow2 in H by lia. change (2 ^ 16) with 65536 in *.
    rewrite Z.lor_comm, H; [lia|lia|by apply Z.mod_pos_bound|apply Z.div_pos; lia]. }
  assert (r = 65536 * (r / 65536) + r mod 65536 /\ 0 <= r mod 65536 < 65536) as [Er Hrb]
    by (split; [apply Z.div_mod; lia|apply Z.mod_pos_bound; lia]).
  assert (s = 65536 * (s / 65536) + s mod 65536 /\ 0 <= s mod 65536 < 65536) as [Es Hsb]
    by (split; [apply Z.div_mod; lia|apply Z.mod_pos_bound; lia]).
  set (rq := r / 65536) in *. set (rm := r mod 65536) in *. set (sq := s / 65536) in *. set (sm := s mod 65536) in *.
  clearbody rq rm sq sm. rewrite !(u64_small (_ + 32768)) by lia.
  destruct (Z.ltb_spec (rq * 65536 + sm + 32768) r) as [H1|H1].
  - assert (sq = rq + 1) by lia. replace (rq * 65536 + sm + 65536) with s by lia.
    rewrite (u64_small s) by lia. by apply u64_small.
  - destruct (Z.ltb_spec (r + 32768) (rq * 65536 + sm)); destruct (Z.leb_spec 65536 (rq * 65536 + sm)); cbn [andb].
    + rewrite u64_small by lia. lia.
    + exfalso. lia.
    + assert (sq = rq) by lia. rewrite u64_small by lia. lia.
    + assert (sq = rq) by lia. rewrite u64_small by lia. lia.
Qed.

(** ** Lemmas: the stamped payload *)

Lemma source_tick_range source : 0 <= source_tick source < 65536.
Proof. apply u16_range. Qed.

Lemma stamped_take source message payload :
  (length message + 2 <= length payload)%nat ->
  take (length message + 2) (stamped source message payload) =
    Z.land (source_tick source) 0xff :: Z.shiftr (source_tick source) 8 :: message.
Proof.
  intros H. unfold stamped.
  destruct payload as [|a [|b payload]]; cbn in H; [lia..|]. cbn [insert list_insert].
  apply list_eq. intros j. rewrite lookup_take. case_decide as Hj.
  - rewrite lookup_copy_into by (cbn; lia). destruct j as [|[|j]]; [done..|].
    rewrite decide_True by lia. cbn. by rewrite Nat.sub_0_r.
  - symmetry. apply lookup_ge_None. cbn. lia.
Qed.

Lemma read_tick_stamped source message :
  read_tick (Z.land (source_tick source) 0xff :: Z.shiftr (source_tick source) 8 :: message) = source_tick source.
Proof.
  pose proof (source_tick_range source). set (t := source_tick source) in *. clearbody t.
  unfold read_tick. cbn [byte_at]. rewrite land_ff, Z.shiftr_div_pow2 by lia.
  assert (0 <= t / 2 ^ 8) by (apply Z.div_pos; lia).
  change (u16 (Z.lor (t mod 256) (Z.shiftl (t / 256) 8)) = t).
  rewrite (lor_shiftl_add (t mod 256) (t / 256) 8); [|lia|apply Z.mod_pos_bound; lia|done].
  rewrite u16_small; pose proof (Z.div_mod t 256); lia.
Qed.

Lemma tick_bytes source :
  is_byte (Z.land (source_tick source) 0xff) /\ is_byte (Z.shiftr (source_tick source) 8).
Proof.
  pose proof (source_tick_range source). rewrite land_ff, Z.shiftr_div_pow2 by lia. unfold is_byte.
  split; [apply Z.mod_pos_bound; lia|]. split; [apply Z.div_pos; lia|apply Z.div_lt_upper_bound; lia].
Qed.

(** ** Lemmas: the fast bridge *)

Definition plain (frame : CanFrame) : Prop := write_completion frame = None /\ write_token frame = 0.

Lemma Send_plain frame caller log :
  plain frame ->
  CanFrameWriter_Send (Some ReliableSender.record_frame) frame caller log = (kOk, None, log ++ [frame]).
Proof.
  intros [Hc Ht]. unfold CanFrameWriter_Send, CanFrame_CompleteWrite, ReliableSender.record_frame. rewrite Hc.
  destruct frame as [arb sz bytes completion token]. cbn in *. by subst.
Qed.

Lemma send_frames_record wire caller self log :
  Forall plain wire ->
  exists s, FastChannelEgress.send_frames (Some ReliableSender.record_frame) wire caller self log =
    (kOk, self <| FastChannelEgress.stats_ := s |>, log ++ wire).
Proof.
  intros H. revert self log. induction H as [|frame wire Hf H IH]; intros self log; cbn [FastChannelEgress.send_frames].
  - rewrite app_nil_r. exists (FastChannelEgress.stats_ self). by destruct self.
  - rewrite Send_plain by done. cbn [IsOk negb].
    destruct (IH (self <| FastChannelEgress.stats_ := bump FastChannelEgress.frames (FastChannelEgress.stats_ self) |>)
      (log ++ [frame])) as [s Hs].
    exists s. rewrite Hs. by rewrite <- app_assoc.
Qed.

Lemma egress_frames_fit MaximumMessageSize n :
  (1 <= n <= FastChannelEgress.kMaximumPayloadSize MaximumMessageSize)%nat ->
  ((if n <=? 7 then 1 else fragment_count_of n) <= FastChannelEgress.kMaximumFrames MaximumMessageSize)%nat.
Proof.
  intros Hn. unfold FastChannelEgress.kMaximumFrames, fragment_count_of.
  destruct (Nat.leb_spec n 7); destruct (Nat.leb_spec (FastChannelEgress.kMaximumPayloadSize MaximumMessageSize) 7).
  - lia.
  - apply Nat.div_le_lower_bound; lia.
  - lia.
  - apply Nat.Div0.div_le_mono. lia.
Qed.

Section IngressLemmas.
Context {W : Type} (MaximumMessageSize : nat) (route : Z) (caller : ExecutionContext).

Lemma FastIngress_Accept_routed frame time (self : FastChannelIngress.t W) w :
  FastChannelIngress.bound_ self = true -> routed route frame ->
  FastChannelIngress.Accept MaximumMessageSize route frame time caller self w =
    let '(status, message, r) :=
      FastReassembler.Accept (FastChannelIngress.kMaximumPayloadSize MaximumMessageSize) frame
        (FastChannelIngress.reassembler_ self) in
    let self := self <| FastChannelIngress.reassembler_ := r |> in
    if negb (IsOk status) then (status, self, w)
    else FastChannelIngress.Accept_message message time caller self w.
Proof.
  intros Hb [p Hr]. unfold FastChannelIngress.Accept. rewrite Hb, Hr. cbn [negb id_route].
  by rewrite Z.eqb_refl.
Qed.

(** The ingress follows its reassembler while that returns nothing. *)
Lemma FastIngress_absorbs frames times (self : FastChannelIngress.t W) w outcomes r :
  FastChannelIngress.bound_ self = true -> Forall (routed route) frames -> length times = length frames ->
  FastReassembler.Accept_all (FastChannelIngress.kMaximumPayloadSize MaximumMessageSize) frames
    (FastChannelIngress.reassembler_ self) = (outcomes, r) ->
  Forall (fun o => fst o <> kOk) outcomes ->
  FastChannelIngress.Accept_all MaximumMessageSize route (zip frames times) caller self w =
    (fst <$> outcomes, self <| FastChannelIngress.reassembler_ := r |>, w).
Proof.
  intros Hb Hr. revert times self outcomes Hb. induction Hr as [|frame frames Hf Hr IH];
    intros [|time times] self outcomes Hb Hlen HA Ho; try done; cbn in HA.
  - injection HA as <- <-. by destruct self.
  - destruct (FastReassembler.Accept _ _ _) as [[status message] r1] eqn:H1.
    destruct (FastReassembler.Accept_all _ _ _) as [outcomes1 r2] eqn:H2. injection HA as <- <-.
    apply Forall_cons in Ho as [Hst Ho]. apply IsOk_false in Hst.
    cbn [zip zip_with FastChannelIngress.Accept_all]. rewrite FastIngress_Accept_routed, H1 by done.
    cbn [fst] in Hst. rewrite Hst. cbn [negb].
    rewrite (IH times _ outcomes1); [by destruct self|by destruct self|by injection Hlen|by destruct self|done].
Qed.

Lemma FastIngress_Accept_all_app xs ys (self : FastChannelIngress.t W) w :
  FastChannelIngress.Accept_all MaximumMessageSize route (xs ++ ys) caller self w =
    let '(s1, self, w) := FastChannelIngress.Accept_all MaximumMessageSize route xs caller self w in
    let '(s2, self, w) := FastChannelIngress.Accept_all MaximumMessageSize route ys caller self w in
    (s1 ++ s2, self, w).
Proof.
  revert self w. induction xs as [|[frame time] xs IH]; intros self w; cbn [app FastChannelIngress.Accept_all].
  - by destruct (FastChannelIngress.Accept_all _ _ ys _ _ _) as [[? ?] ?].
  - destruct (FastChannelIngress.Accept _ _ _ _ _ _ _) as [[? self1] w1]. rewrite IH.
    destruct (FastChannelIngress.Accept_all _ _ xs _ _ _) as [[? ?] ?].
    by destruct (FastChannelIngress.Accept_all _ _ ys _ _ _) as [[? ?] ?].
Qed.

(** A stamped message, published or found stale. *)
Lemma FastIngress_message sequence source message receive (self : FastChannelIngress.t W) w :
  0 <= source < 2 ^ 64 -> 0 <= receive < 2 ^ 64 ->
  Z.abs (receive / kNanosecondsPerMillisecond - source / kNanosecondsPerMillisecond) < kHalfWrap ->
  Z.of_nat (length message) <= max_serialized_size (message_type (FastChannelIngress.descriptor_ self)) ->
  let sent := source / kNanosecondsPerMillisecond * kNanosecondsPerMillisecond in
  let '(status, self', w') :=
    FastChannelIngress.Accept_message (MkReassembledMessage route sequence
      (Z.land (source_tick source) 0xff :: Z.shiftr (source_tick source) 8 :: message)) receive caller self w in
  (status, w') =
    if bool_decide ((FreshnessGuard.Observe sequence sent receive (FastChannelIngress.freshness_ self)).1 = kFresh)
    then ChannelRef_Publish (FastChannelIngress.channel_ self) (FastChannelIngress.descriptor_ self) message sent
           (Some caller) w
    else (kTimeout, w).
Proof.
  intros Hs Hr Hd Hm. cbn zeta. unfold FastChannelIngress.Accept_message. cbn [msg_payload msg_sequence].
  rewrite read_tick_stamped, ExpandTimestamp_recovers by done.
  cbn [length drop]. rewrite Nat.sub_succ, Nat.sub_succ, Nat.sub_0_r.
  guard_false (max_serialized_size (message_type (FastChannelIngress.descriptor_ self)) <? Z.of_nat (length message)).
  change (S (S (length message)) <? 2)%nat with false. cbn [orb].
  destruct (FreshnessGuard.Observe _ _ _ _) as [state guard]. cbn [fst].
  case_bool_decide; cbn [negb]; [|done]. cbn [FastChannelIngress.channel_ FastChannelIngress.descriptor_ set_field].
  destruct (ChannelRef_Publish _ _ _ _ _ _) as [status w'].
  destruct (IsOk status) eqn:Hok; cbn [negb]; [apply IsOk_spec in Hok; by subst|done].
Qed.
(** A run that completes the message at its last frame. *)
Lemma FastIngress_delivers frames last times receive source sequence message (self : FastChannelIngress.t W) w r :
  let K := FastChannelIngress.kMaximumPayloadSize MaximumMessageSize in
  let sent := source / kNanosecondsPerMillisecond * kNanosecondsPerMillisecond in
  FastChannelIngress.bound_ self = true -> Forall (routed route) frames -> routed route last -> length times = length frames ->
  0 <= source < 2 ^ 64 -> 0 <= receive < 2 ^ 64 ->
  Z.abs (receive / kNanosecondsPerMillisecond - source / kNanosecondsPerMillisecond) < kHalfWrap ->
  Z.of_nat (length message) <= max_serialized_size (message_type (FastChannelIngress.descriptor_ self)) ->
  FastReassembler.Accept_all K (frames ++ [last]) (FastChannelIngress.reassembler_ self) =
    (replicate (length frames) (kUnavailable, ReassembledMessage_default) ++
       [(kOk, MkReassembledMessage route sequence
          (Z.land (source_tick source) 0xff :: Z.shiftr (source_tick source) 8 :: message))], r) ->
  let '(statuses, _, w') :=
    FastChannelIngress.Accept_all MaximumMessageSize route (zip frames times ++ [(last, receive)]) caller self w in
  let '(final, published) :=
    if bool_decide ((FreshnessGuard.Observe sequence sent receive (FastChannelIngress.freshness_ self)).1 = kFresh)
    then ChannelRef_Publish (FastChannelIngress.channel_ self) (FastChannelIngress.descriptor_ self) message sent
           (Some caller) w
    else (kTimeout, w) in
  statuses = replicate (length frames) kUnavailable ++ [final] /\ w' = published.
Proof.
  cbn zeta. intros Hb Hframes Hlast Hlen Hsource Hrec Hclose Hcap HA.
  rewrite FastReassembler.fast_Accept_all_snoc in HA.
  destruct (FastReassembler.Accept_all _ frames _) as [outcomes r1] eqn:H1.
  destruct (FastReassembler.Accept _ last r1) as [[st m] r2] eqn:H2.
  injection HA as HA _. apply app_inj_2 in HA as [-> HA]; [|done]. injection HA as -> ->.
  rewrite FastIngress_Accept_all_app, (FastIngress_absorbs frames times self w _ _ Hb Hframes Hlen H1)
    by (by apply Forall_replicate).
  cbn [FastChannelIngress.Accept_all]. rewrite FastIngress_Accept_routed by done.
  cbn [FastChannelIngress.reassembler_ set_field]. rewrite H2. cbn [IsOk negb].
  match goal with |- context [FastChannelIngress.Accept_message _ _ _ ?s _] =>
    pose proof (FastIngress_message sequence source message receive s w Hsource Hrec Hclose Hcap) as Hm end.
  cbn zeta in Hm. destruct (FastChannelIngress.Accept_message _ _ _ _ _) as [[status self'] w'].
  cbn [FastChannelIngress.channel_ FastChannelIngress.descriptor_ FastChannelIngress.freshness_ set_field] in Hm.
  rewrite <- Hm. by rewrite fmap_replicate.
Qed.
End IngressLemmas.

(** An egress that is not limited writes the frames of the stamped message. *)
Lemma FastEgress_sends MaximumMessageSize route p time period message info caller e log frames :
  let source := CanTimeConverter_ToNetworkTime time log (info_source_timestamp_ns info) in
  Z.of_nat (length message) <= max_serialized_size (message_type (FastChannelEgress.descriptor_ e)) ->
  (length message <= MaximumMessageSize)%nat ->
  length (FastChannelEgress.payload_ e) = FastChannelEgress.kMaximumPayloadSize MaximumMessageSize ->
  rate_limits (FastChannelEgress.has_last_send_ e) (FastChannelEgress.last_send_time_ns_ e) period source = false ->
  FastCodec.Encode route p (FastChannelEgress.sequence_ e)
    (Z.land (source_tick source) 0xff :: Z.shiftr (source_tick source) 8 :: message) (FastChannelEgress.frames_ e) =
    (kOk, frames ++ drop (length frames) (FastChannelEgress.frames_ e), length frames) ->
  Forall plain frames ->
  exists e',
    FastChannelEgress.Send MaximumMessageSize route p (Some ReliableSender.record_frame) time period message
      info caller e log = (kOk, e', log ++ frames) /\
    FastChannelEgress.sequence_ e' = (FastChannelEgress.sequence_ e + 1) mod 64.
Proof.
  cbn zeta. intros Hcap Hlen Hpl Hrate HE Hplain. unfold FastChannelEgress.Send.
  unfold FastChannelEgress.kMaximumPayloadSize in Hpl.
  guard_false (max_serialized_size (message_type (FastChannelEgress.descriptor_ e)) <? Z.of_nat (length message)).
  guard_false (MaximumMessageSize <? length message)%nat. cbn [orb]. rewrite Hrate.
  cbn [FastChannelEgress.payload_ FastChannelEgress.frames_ FastChannelEgress.sequence_ set_field].
  rewrite stamped_take, HE by lia. cbn [IsOk negb].
  cbn [FastChannelEgress.payload_ FastChannelEgress.frames_ FastChannelEgress.sequence_ set_field].
  rewrite take_app_length.
  match goal with |- context [FastChannelEgress.send_frames _ _ _ ?s _] =>
    destruct (send_frames_record frames caller s log Hplain) as [stats ->] end. cbn [IsOk negb].
  eexists. split; [reflexivity|]. cbn. rewrite land_3f. apply u8_small.
  pose proof (Z.mod_pos_bound (FastChannelEgress.sequence_ e + 1) 64). lia.
Qed.

(** ** Properties *)

(** A message published on one side of a fast CAN bridge is published on the
    other: the egress encodes it in one go and steps its sequence number, and an
    ingress for the route that is between messages, given the frames in any order,
    publishes exactly the bytes sent, once, with the millisecond of the source
    clock restored from its own, as long as the clocks are within thirty-two
    seconds and the freshness guard finds the sample fresh; a stale sample is
    dropped with [kTimeout] and nothing is published. *)
Theorem fast_channel_delivery MaximumMessageSize route p time period message info caller e log :
  let source := CanTimeConverter_ToNetworkTime time log (info_source_timestamp_ns info) in
  let sent := source / kNanosecondsPerMillisecond * kNanosecondsPerMillisecond in
  1 <= route <= kMaximumRouteId -> (MaximumMessageSize <= 94)%nat -> 0 <= source < 2 ^ 64 ->
  Forall is_byte message -> (length message <= MaximumMessageSize)%nat ->
  Z.of_nat (length message) <= max_serialized_size (message_type (FastChannelEgress.descriptor_ e)) ->
  0 <= FastChannelEgress.sequence_ e <= 0x3f ->
  length (FastChannelEgress.payload_ e) = FastChannelEgress.kMaximumPayloadSize MaximumMessageSize ->
  length (FastChannelEgress.frames_ e) = FastChannelEgress.kMaximumFrames MaximumMessageSize ->
  rate_limits (FastChannelEgress.has_last_send_ e) (FastChannelEgress.last_send_time_ns_ e) period source = false ->
  exists frames e',
    FastChannelEgress.Send MaximumMessageSize route p (Some ReliableSender.record_frame) time period message
      info caller e log = (kOk, e', log ++ frames) /\
    FastChannelEgress.sequence_ e' = (FastChannelEgress.sequence_ e + 1) mod 64 /\
    forall (W : Type) (i : FastChannelIngress.t W) order last times receive caller' w,
      let n := length frames in let wire j := nth j frames CanFrame_default in
      FastChannelIngress.bound_ i = true ->
      Z.of_nat (length message) <= max_serialized_size (message_type (FastChannelIngress.descriptor_ i)) ->
      FastReassembler.wf (FastChannelIngress.kMaximumPayloadSize MaximumMessageSize)
        (FastChannelIngress.reassembler_ i) ->
      FastReassembler.active_ (FastChannelIngress.reassembler_ i) = false ->
      FastReassembler.fresh_after_last (FastChannelIngress.reassembler_ i) route (FastChannelEgress.sequence_ e) ->
      Forall (fun j => (j < n)%nat) order -> (last < n)%nat -> last ∉ order ->
      (forall j, (j < n)%nat -> j = last \/ j ∈ order) -> length times = length order ->
      0 <= receive < 2 ^ 64 ->
      Z.abs (receive / kNanosecondsPerMillisecond - source / kNanosecondsPerMillisecond) < kHalfWrap ->
      let '(statuses, _, w') :=
        FastChannelIngress.Accept_all MaximumMessageSize route
          (zip (wire <$> order) times ++ [(wire last, receive)]) caller' i w in
      let '(final, published) :=
        if bool_decide ((FreshnessGuard.Observe (FastChannelEgress.sequence_ e) sent receive
                           (FastChannelIngress.freshness_ i)).1 = kFresh)
        then ChannelRef_Publish (FastChannelIngress.channel_ i) (FastChannelIngress.descriptor_ i) message sent
               (Some caller') w
        else (kTimeout, w) in
      statuses = replicate (length order) kUnavailable ++ [final] /\ w' = published.
Proof.
  intros source sent Hroute Hmax Hsource Hbytes Hlen Hcap Hseq Hpl Hfl Hrate.
  set (K := FastChannelEgress.kMaximumPayloadSize MaximumMessageSize) in *.
  assert (K = (MaximumMessageSize + 2)%nat) as HK by done.
  set (payload := Z.land (source_tick source) 0xff :: Z.shiftr (source_tick source) 8 :: message).
  assert (length payload = (length message + 2)%nat) as Hplen by (cbn; lia).
  assert (Forall is_byte payload) as Hpb 
    by (destruct (tick_bytes source); apply Forall_cons; split; [done|]; by apply Forall_cons).
  assert (forall r, FastReassembler.wf K r -> FastReassembler.active_ r = false ->
    FastReassembler.fresh_after_last r route (FastChannelEgress.sequence_ e) -> _) as Hdeliver
    by (intros r H1 H2 H3; refine (fast_delivery K p route (FastChannelEgress.sequence_ e) payload
          (FastChannelEgress.frames_ e) r H1 H2 H3 Hroute Hseq Hpb _ _ _);
        [lia|lia|rewrite Hfl; apply egress_frames_fit; fold K; lia]).
  destruct (Hdeliver (FastReassembler.init K)) as (frames & HE & _ & Hframes & _);
    [apply FastReassembler.fast_wf_init|done|done|]. cbn zeta in HE.
  assert (forall j, (j < length frames)%nat -> routed route (nth j frames CanFrame_default)) as Hrouted.
  { intros j Hj. rewrite nth_lookup. destruct (lookup_lt_is_Some_2 frames j Hj) as [f Hf]. rewrite Hf.
    rewrite Forall_lookup in Hframes. destruct (Hframes _ _ Hf) as (Harb & _).
    exists p. apply (Encode_Decode p); [lia|done]. }
  destruct (FastEgress_sends MaximumMessageSize route p time period message info caller e log frames)
    as (e' & HS & Hs'); [done..|by apply (Forall_impl _ _ _ Hframes); intros f (_ & ? & ?)|].
  exists frames, e'. split; [done|]. split; [done|].
  intros W i order last times receive caller' w. cbn zeta.
  intros Hb Hcapi Hwf Hact Hfresh Hall Hlast Hnot Hcover Hlt Hrec Hclose.
  destruct (Hdeliver _ Hwf Hact Hfresh) as (frames' & HE' & _ & _ & HD). cbn zeta in HE', HD.
  assert (frames' = frames) as ->.
  { rewrite HE in HE'. injection HE' as Happ Hn. by apply app_inj_1 in Happ as [-> _]. }
  destruct (HD order last Hall Hlast Hnot Hcover) as [r' HA]. rewrite fmap_app in HA.
  rewrite <- (length_fmap (fun j => nth j frames CanFrame_default) order) in HA |- *.
  apply (FastIngress_delivers MaximumMessageSize route caller' _ _ times receive source
    (FastChannelEgress.sequence_ e) message i w r'); try done; [|by apply Hrouted|by rewrite length_fmap].
  apply Forall_fmap. apply (Forall_impl _ _ _ Hall). intros j Hj. by apply Hrouted.
Qed.

Definition sample_descriptor : ChannelDescriptor :=
  MkChannelDescriptor "imu" (MkTypeDescriptor "Imu" (schema_hash (message_type ChannelDescriptor_default)) 16).
Definition sample_egress : FastChannelEgress.t :=
  (FastChannelEgress.init 16) <| FastChannelEgress.descriptor_ := sample_descriptor |>.
Definition sample_message : list Z := [1; 2; 3; 4; 5; 6; 7; 8].

Lemma fast_channel_delivery_witness :
  exists frames e',
    FastChannelEgress.Send 16 8 kState (Some ReliableSender.record_frame) None 0 sample_message
      (MkMessageInfo 0 5000000) sample_context sample_egress [] = (kOk, e', [] ++ frames) /\
    FastChannelEgress.sequence_ e' = (0 + 1) mod 64.
Proof.
  destruct (fast_channel_delivery 16 8 kState None 0 sample_message (MkMessageInfo 0 5000000) sample_context
    sample_egress []) as (frames & e' & HS & Hq & _).
  - by vm_compute.
  - lia.
  - by vm_compute.
  - repeat constructor; lia.
  - cbn. lia.
  - by vm_compute.
  - by vm_compute.
  - reflexivity.
  - reflexivity.
  - reflexivity.
  - exists frames, e'. split; [exact HS|exact Hq].
Defined.
