(* ===== verification/ReliableChannelBridge.v ===== *)
(** Channels over CAN, reliably
    ([aster_runtime/transport/can/reliable_channel_bridge.hpp]): the egress sends
    one message at a time and keeps it until it is acknowledged, the ingress
    acknowledges what it completes and publishes each message once. *)

From S2P Require Export CanChannelBridge.

Local Open Scope Z_scope.

(** ** [ReliableChannelEgress] *)

Module ReliableChannelEgress.

Record ReliableChannelEgressStats := MkStats {
  messages : Z;
  frames : Z;
  acknowledgements : Z;
  retries : Z;
  timeouts : Z;
  rate_limited : Z;
  send_failures : Z
}.
#[global] Instance eta_stats : Eta ReliableChannelEgressStats := fun r =>
  MkStats (messages r) (frames r) (acknowledgements r) (retries r) (timeouts r) (rate_limited r)
    (send_failures r).

Record t := Mk {
  last_send_time_ns_ : Z;
  sequence_ : Z;
  descriptor_ : ChannelDescriptor;
  payload_ : list Z;
  sender_ : ReliableSender.t;
  has_last_send_ : bool;
  bound_ : bool;
  stats_ : ReliableChannelEgressStats
}.
#[global] Instance eta_t : Eta t := fun r =>
  Mk (last_send_time_ns_ r) (sequence_ r) (descriptor_ r) (payload_ r) (sender_ r) (has_last_send_ r)
    (bound_ r) (stats_ r).

Section Egress.
Context {W : Type}.
Variable MaximumMessageSize : nat.

(** The constructor's arguments, which do not change afterwards. *)
Variables (route_id_ : Z) (priority_ : CanPriority) (writer_ : CanFrameWriter W) (time_ : CanTimeConverter W)
  (minimum_period_ns_ retry_timeout_ns_ maximum_retries_ : Z).

Definition kMaximumPayloadSize : nat := (MaximumMessageSize + 2)%nat.

Definition init : t :=
  Mk 0 0 ChannelDescriptor_default (zeros kMaximumPayloadSize) (ReliableSender.init kMaximumPayloadSize)
    false false (MkStats 0 0 0 0 0 0 0).

Definition Pump (caller : ExecutionContext) (self : t) (w : W) : Status * t * W :=
  let '(status, stats, sender, w) :=
    ReliableSender.Pump writer_ caller (fun stats => bump frames stats) (fun stats => bump send_failures stats)
      (stats_ self) (sender_ self) w in
  (status, self <| stats_ := stats |> <| sender_ := sender |>, w).

Definition AcceptAcknowledgement (frame : CanFrame) (self : t) : Status * t :=
  let before := ReliableSender.acknowledgements (ReliableSender.stats_ (sender_ self)) in
  let '(status, sender) := ReliableSender.HandleAck frame (sender_ self) in
  let self := self <| sender_ := sender |> in
  (status,
   if negb (ReliableSender.acknowledgements (ReliableSender.stats_ sender) =? before)
   then self <| stats_ := bump acknowledgements (stats_ self) |> else self).

(** The branch [Poll] takes by the sender's state. *)
Definition Poll_sender (now_ns : Z) (caller : ExecutionContext) (self : t) (w : W) : Status * t * W :=
  if state_is (ReliableSender.state_ (sender_ self)) kSending then Pump caller self w
  else if state_is (ReliableSender.state_ (sender_ self)) kWaitingForAck then
    let '(status, sender) := ReliableSender.Poll now_ns (sender_ self) in
    let self := self <| sender_ := sender |> in
    if IsOk status then Pump caller self w
    else if bool_decide (status = kTimeout)
    then (status, self <| stats_ := bump timeouts (stats_ self) |>, w)
    else (status, self, w)
  else (kUnavailable, self, w).

Definition Poll (now_ns : Z) (caller : ExecutionContext) (self : t) (w : W) : Status * t * W :=
  let before := ReliableSender.retries (ReliableSender.stats_ (sender_ self)) in
  let '(status, self, w) := Poll_sender now_ns caller self w in
  let after := ReliableSender.retries (ReliableSender.stats_ (sender_ self)) in
  (status,
   self <| stats_ := (stats_ self) <| retries := u32 (retries (stats_ self) + u32 (after - before)) |> |>, w).

Definition ResetPeer (self : t) : t := self <| sender_ := ReliableSender.init kMaximumPayloadSize |>.

Definition Send (message : list Z) (info : MessageInfo) (caller : ExecutionContext) (self : t) (w : W)
    : Status * t * W :=
  if (max_serialized_size (message_type (descriptor_ self)) <? Z.of_nat (length message)) ||
     (MaximumMessageSize <? length message)%nat
  then (kCapacityExceeded, self, w)
  else if ReliableSender.busy (sender_ self) then (kCapacityExceeded, self, w)
  else
    let source_time_ns := CanTimeConverter_ToNetworkTime time_ w (info_source_timestamp_ns info) in
    if rate_limits (has_last_send_ self) (last_send_time_ns_ self) minimum_period_ns_ source_time_ns
    then (kOk, self <| stats_ := bump rate_limited (stats_ self) |>, w)
    else
      let self := self <| payload_ := stamped source_time_ns message (payload_ self) |> in
      let '(status, sender) :=
        ReliableSender.Begin kMaximumPayloadSize route_id_ priority_ (sequence_ self)
          (take (length message + 2) (payload_ self)) source_time_ns retry_timeout_ns_ maximum_retries_
          (sender_ self) in
      let self := self <| sender_ := sender |> in
      if negb (IsOk status) then (status, self, w)
      else
        let self := self <| sequence_ := u8 (Z.land (sequence_ self + 1) 0x0f) |>
                         <| last_send_time_ns_ := source_time_ns |> <| has_last_send_ := true |> in
        Pump caller (self <| stats_ := bump messages (stats_ self) |>) w.

Definition Forward (this : Cell W t) : RawChannelCallback W := fun message info caller w =>
  let '(status, self, w) := Send message info caller (load this w) w in
  (status, store this self w).

Definition Bind (this : Cell W t) (channel : ChannelRef W) (descriptor : ChannelDescriptor) (w : W)
    : Status * W :=
  let self := load this w in
  if bound_ self || (max_serialized_size (message_type descriptor) =? 0) ||
     (Z.of_nat MaximumMessageSize <? max_serialized_size (message_type descriptor)) ||
     (retry_timeout_ns_ =? 0)
  then (if bound_ self then kInvalidState else kInvalidArgument, w)
  else
    let '(status, w) := ChannelRef_RegisterSubscriber (Forward this) channel descriptor w in
    if IsOk status
    then (status, store this ((load this w) <| descriptor_ := descriptor |> <| bound_ := true |>) w)
    else (status, w).
End Egress.
End ReliableChannelEgress.

(** ** [ReliableChannelIngress] *)

Module ReliableChannelIngress.

Record ReliableChannelIngressStats := MkStats {
  messages : Z;
  acknowledgements : Z;
  stale_messages : Z;
  decode_failures : Z;
  publish_failures : Z;
  send_failures : Z;
  reassembly_timeouts : Z
}.
#[global] Instance eta_stats : Eta ReliableChannelIngressStats := fun r =>
  MkStats (messages r) (acknowledgements r) (stale_messages r) (decode_failures r) (publish_failures r)
    (send_failures r) (reassembly_timeouts r).

Section Ingress.
Context {W : Type}.
Variables (MaximumMessageSize : nat) (route_id_ : Z) (writer_ : CanFrameWriter W).

Record t := Mk {
  freshness_ : FreshnessGuard.t;
  receiver_ : ReliableReceiver.t;
  channel_ : ChannelRef W;
  descriptor_ : ChannelDescriptor;
  bound_ : bool;
  stats_ : ReliableChannelIngressStats
}.
#[global] Instance eta_t : Eta t := fun r =>
  Mk (freshness_ r) (receiver_ r) (channel_ r) (descriptor_ r) (bound_ r) (stats_ r).

Definition kMaximumPayloadSize : nat := (MaximumMessageSize + 2)%nat.

Definition init (freshness : FreshnessConfig) (reassembly_timeout_ns : Z) : t :=
  Mk (FreshnessGuard.init freshness) (ReliableReceiver.init kMaximumPayloadSize reassembly_timeout_ns) None
    ChannelDescriptor_default false (MkStats 0 0 0 0 0 0 0).

Definition Bind (channel : ChannelRef W) (descriptor : ChannelDescriptor) (self : t) (w : W)
    : Status * t * W :=
  if bound_ self || (max_serialized_size (message_type descriptor) =? 0) ||
     (Z.of_nat MaximumMessageSize <? max_serialized_size (message_type descriptor))
  then (if bound_ self then kInvalidState else kInvalidArgument, self, w)
  else
    let '(status, w) := ChannelRef_RegisterPublisher channel descriptor w in
    if IsOk status
    then (status, self <| channel_ := channel |> <| descriptor_ := descriptor |> <| bound_ := true |>, w)
    else (status, self, w).

(** Write the acknowledgement and count it; a refused write is the result. *)
Definition acknowledge (acknowledgement : CanFrame) (caller : ExecutionContext) (self : t) (w : W)
    : Status * t * W :=
  if CanProtocol.size acknowledgement =? 0 then (kOk, self, w)
  else
    let '(ack_status, _, w) := CanFrameWriter_Send writer_ acknowledgement caller w in
    if negb (IsOk ack_status)
    then (ack_status, self <| stats_ := bump send_failures (stats_ self) |>, w)
    else (kOk, self <| stats_ := bump acknowledgements (stats_ self) |>, w).

(** [Accept] from the point where the receiver completed a message. *)
Definition Accept_message (message : ReassembledMessage) (acknowledgement : CanFrame)
    (receive_network_time_ns : Z) (caller : ExecutionContext) (self : t) (w : W) : Status * t * W :=
  let payload := msg_payload message in
  if (length payload <? 2)%nat ||
     (max_serialized_size (message_type (descriptor_ self)) <? Z.of_nat (length payload - 2))
  then (kTypeMismatch, self <| stats_ := bump decode_failures (stats_ self) |>, w)
  else
    let source_timestamp_ns := ExpandTimestamp (read_tick payload) receive_network_time_ns in
    let '(freshness, guard) := FreshnessGuard.Observe (msg_sequence message) source_timestamp_ns
      receive_network_time_ns (freshness_ self) in
    let self := self <| freshness_ := guard |> in
    if negb (bool_decide (freshness = kFresh)) then
      let self := self <| stats_ := bump stale_messages (stats_ self) |> in
      if negb (CanProtocol.size acknowledgement =? 0) then
        let '(_, _, w) := CanFrameWriter_Send writer_ acknowledgement caller w in (kTimeout, self, w)
      else (kTimeout, self, w)
    else
      let '(publish_status, w) := ChannelRef_Publish (channel_ self) (descriptor_ self) (drop 2 payload)
        source_timestamp_ns (Some caller) w in
      let self := if negb (IsOk publish_status)
        then self <| stats_ := bump publish_failures (stats_ self) |> else self in
      let '(ack_status, self, w) := acknowledge acknowledgement caller self w in
      if negb (IsOk ack_status) then (ack_status, self, w)
      else if negb (IsOk publish_status) then (publish_status, self, w)
      else (kOk, self <| stats_ := bump messages (stats_ self) |>, w).

Definition Accept (frame : CanFrame) (receive_network_time_ns : Z) (caller : ExecutionContext)
    (self : t) (w : W) : Status * t * W :=
  if negb (bound_ self) then (kInvalidState, self, w)
  else
    let header := byte_at (data frame) 0 in
    match CanArbitrationId_Decode (arbitration_id frame) with
    | None => (kInvalidArgument, self, w)
    | Some id =>
        if negb (id_route id =? route_id_) || (CanProtocol.size frame =? 0) ||
           negb (bool_decide (GetFrameKind header = kReliable)) ||
           negb (bool_decide (GetReliableSubtype header = kData))
        then (kInvalidArgument, self, w)
        else
          let '(receive_status, message, acknowledgement, receiver) :=
            ReliableReceiver.Accept_timed kMaximumPayloadSize frame receive_network_time_ns (receiver_ self) in
          let self := self <| receiver_ := receiver |> in
          if negb (IsOk receive_status) then
            let '(ack_status, self, w) := acknowledge acknowledgement caller self w in
            if negb (IsOk ack_status) then (ack_status, self, w) else (receive_status, self, w)
          else Accept_message message acknowledgement receive_network_time_ns caller self w
    end.

Definition Poll (now_ns : Z) (self : t) : Status * t :=
  let '(status, receiver) := ReliableReceiver.Poll now_ns (receiver_ self) in
  let self := self <| receiver_ := receiver |> in
  let self := if bool_decide (status = kTimeout)
    then self <| stats_ := bump reassembly_timeouts (stats_ self) |> else self in
  let '(_, guard) := FreshnessGuard.Poll now_ns (freshness_ self) in
  (status, self <| freshness_ := guard |>).

Definition ResetPeer (self : t) : t :=
  self <| receiver_ := ReliableReceiver.ResetPeerHistory (receiver_ self) |>
       <| freshness_ := FreshnessGuard.Reset (freshness_ self) |>.

(** Frames with the times they arrive at. *)
Fixpoint Accept_all (arrivals : list (Z * CanFrame)) (caller : ExecutionContext) (self : t) (w : W)
    : list Status * t * W :=
  match arrivals with
  | [] => ([], self, w)
  | (time, frame) :: arrivals =>
      let '(status, self, w) := Accept frame time caller self w in
      let '(statuses, self, w) := Accept_all arrivals caller self w in
      (status :: statuses, self, w)
  end.
End Ingress.
Arguments t : clear implicits.
End ReliableChannelIngress.

(** ** Lemmas: the egress *)

Lemma source_payload source message :
  let payload := Z.land (source_tick source) 0xff :: Z.shiftr (source_tick source) 8 :: message in
  length payload = (length message + 2)%nat.
Proof. cbn. lia. Qed.

(** An idle egress that is not limited writes the frames of the stamped message,
    and its acknowledgement completes it. *)
Lemma ReliableEgress_sends MaximumMessageSize route p time period retry maximum message info caller e log :
  let source := CanTimeConverter_ToNetworkTime time log (info_source_timestamp_ns info) in
  let payload := Z.land (source_tick source) 0xff :: Z.shiftr (source_tick source) 8 :: message in
  let sequence := ReliableChannelEgress.sequence_ e in
  let K := ReliableChannelEgress.kMaximumPayloadSize MaximumMessageSize in
  1 <= route <= kMaximumRouteId -> (MaximumMessageSize <= 94)%nat -> retry <> 0 -> 0 <= maximum < 256 ->
  Z.of_nat (length message) <= max_serialized_size (message_type (ReliableChannelEgress.descriptor_ e)) ->
  (length message <= MaximumMessageSize)%nat -> 0 <= sequence <= 0x0f ->
  length (ReliableChannelEgress.payload_ e) = K ->
  ReliableSender.wf K (ReliableChannelEgress.sender_ e) ->
  ReliableSender.busy (ReliableChannelEgress.sender_ e) = false ->
  rate_limits (ReliableChannelEgress.has_last_send_ e) (ReliableChannelEgress.last_send_time_ns_ e) period source
    = false ->
  exists arb wire e',
    CanArbitrationId_Encode p route = (kOk, arb) /\
    ReliableChannelEgress.Send MaximumMessageSize route p (Some ReliableSender.record_frame) time period retry
      maximum message info caller e log = (kOk, e', log ++ wire) /\
    ReliableChannelEgress.sequence_ e' = (sequence + 1) mod 16 /\
    ReliableSender.state_ (ReliableChannelEgress.sender_ e') = kWaitingForAck /\
    length wire = fragment_count_of (length payload) /\ (fragment_count_of (length payload) <= 16)%nat /\
    (forall i, (i < length wire)%nat ->
       ReliableReceiver.carries arb sequence payload i (nth i wire CanFrame_default)) /\
    (let '(status, e'') := ReliableChannelEgress.AcceptAcknowledgement (ReliableReceiver.ack_frame arb sequence) e' in
     status = kOk /\ ReliableSender.state_ (ReliableChannelEgress.sender_ e'') = kComplete).
Proof.
  cbn zeta. intros Hroute Hmax Hretry Hmaxr Hcap Hlen Hseq Hpl Hwf Hidle Hrate.
  unfold ReliableChannelEgress.Send, ReliableChannelEgress.kMaximumPayloadSize in *.
  guard_false (max_serialized_size (message_type (ReliableChannelEgress.descriptor_ e)) <? Z.of_nat (length message)).
  guard_false (MaximumMessageSize <? length message)%nat. cbn [orb]. rewrite Hidle, Hrate.
  cbn [ReliableChannelEgress.payload_ ReliableChannelEgress.sequence_ ReliableChannelEgress.sender_ set_field].
  rewrite stamped_take by lia.
  set (source := CanTimeConverter_ToNetworkTime _ _ _).
  pose proof (source_payload source message) as Hpay. cbn zeta in Hpay.
  set (payload := Z.land (source_tick source) 0xff :: Z.shiftr (source_tick source) 8 :: message) in *.
  pose proof (Begin_accepts (MaximumMessageSize + 2) p route (ReliableChannelEgress.sequence_ e) payload source retry
    maximum (ReliableChannelEgress.sender_ e) Hroute ltac:(lia) Hretry Hidle ltac:(lia) ltac:(lia)) as Hok.
  destruct (ReliableSender.Begin _ _ _ _ _ _ _ _ _) as [status s1] eqn:HB. cbn [fst] in Hok. subst status.
  cbn [IsOk negb]. unfold ReliableChannelEgress.Pump.
  cbn [ReliableChannelEgress.stats_ ReliableChannelEgress.sender_ set_field].
  match goal with |- context [ReliableSender.Pump _ _ ?f ?g ?st _ _] =>
    destruct (begun_goes_out (MaximumMessageSize + 2) caller f g st log p route
      (ReliableChannelEgress.sequence_ e) payload source retry maximum _ s1 Hwf ltac:(lia) ltac:(lia) Hmaxr HB)
      as (arb & st' & s2 & wire & Harb & -> & Hn & Hf & Hwf2 & Hh & Hst & Hq & Hl & H16) end.
  exists arb, wire. eexists. split; [done|]. split; [reflexivity|]. cbn.
  split; [rewrite land_0f; apply u8_small; pose proof (Z.mod_pos_bound (ReliableChannelEgress.sequence_ e + 1) 16); lia|].
  split_and!; try done.
  pose proof (HandleAck_completes p route arb (ReliableChannelEgress.sequence_ e) payload s2 ltac:(lia) Harb
    ltac:(lia) Hh Hst) as Hack. cbn zeta in Hack.
  unfold ReliableChannelEgress.AcceptAcknowledgement. cbn [ReliableChannelEgress.sender_ set_field].
  destruct (ReliableSender.HandleAck _ s2) as [status s3]. cbn [fst snd] in Hack.
  destruct Hack as [-> Hs3]. split; [done|]. by split_if.
Qed.

(** ** Lemmas: the ingress *)

Section IngressLemmas.
Context {W : Type} (MaximumMessageSize : nat) (route : Z) (writer : CanFrameWriter W) (caller : ExecutionContext).

Let K : nat := ReliableChannelIngress.kMaximumPayloadSize MaximumMessageSize.

Lemma RelIngress_Accept frame time (self : ReliableChannelIngress.t W) w :
  ReliableChannelIngress.bound_ self = true -> reliable_data route frame ->
  ReliableChannelIngress.Accept MaximumMessageSize route writer frame time caller self w =
    let '(status, message, ack, r) :=
      ReliableReceiver.Accept_timed K frame time (ReliableChannelIngress.receiver_ self) in
    let self := self <| ReliableChannelIngress.receiver_ := r |> in
    if negb (IsOk status) then
      let '(ack_status, self, w) := ReliableChannelIngress.acknowledge writer ack caller self w in
      if negb (IsOk ack_status) then (ack_status, self, w) else (status, self, w)
    else ReliableChannelIngress.Accept_message writer message ack time caller self w.
Proof.
  intros Hb ((p & Hr) & Hs & Hk & Hsub). unfold ReliableChannelIngress.Accept. rewrite Hb, Hr, Hk, Hsub.
  cbn [negb id_route]. rewrite Z.eqb_refl, (proj2 (Z.eqb_neq _ _) Hs), !bool_decide_true by done. done.
Qed.

(** The ingress follows its receiver while that returns nothing. *)
Lemma RelIngress_absorbs arrivals (self : ReliableChannelIngress.t W) w r :
  ReliableChannelIngress.bound_ self = true -> Forall (fun arrival => reliable_data route arrival.2) arrivals ->
  ReliableReceiver.Accept_all K true arrivals (ReliableChannelIngress.receiver_ self) =
    (replicate (length arrivals) (ReliableReceiver.nothing kUnavailable), r) ->
  ReliableChannelIngress.Accept_all MaximumMessageSize route writer arrivals caller self w =
    (replicate (length arrivals) kUnavailable, self <| ReliableChannelIngress.receiver_ := r |>, w).
Proof.
  intros Hb Hd. revert self Hb. induction Hd as [|[time frame] arrivals Hf Hd IH]; intros self Hb HA;
    cbn [ReliableReceiver.Accept_all length replicate ReliableChannelIngress.Accept_all] in *.
  - injection HA as <-. by destruct self.
  - unfold ReliableReceiver.accept_at in HA.
    rewrite RelIngress_Accept by done.
    destruct (ReliableReceiver.Accept_timed K frame time _) as [[[status message] ack] r1] eqn:H1.
    destruct (ReliableReceiver.Accept_all K true arrivals r1) as [outcomes r2] eqn:H2.
    injection HA as -> -> -> -> ->. cbn [IsOk negb ReliableChannelIngress.acknowledge CanProtocol.size CanFrame_default].
    change (ReliableChannelIngress.acknowledge writer CanFrame_default caller ?s w) with (kOk, s, w).
    cbn [IsOk negb]. rewrite IH; [by destruct self|by destruct self|by destruct self].
Qed.

Lemma RelIngress_Accept_all_app xs ys (self : ReliableChannelIngress.t W) w :
  ReliableChannelIngress.Accept_all MaximumMessageSize route writer (xs ++ ys) caller self w =
    let '(s1, self, w) := ReliableChannelIngress.Accept_all MaximumMessageSize route writer xs caller self w in
    let '(s2, self, w) := ReliableChannelIngress.Accept_all MaximumMessageSize route writer ys caller self w in
    (s1 ++ s2, self, w).
Proof.
  revert self w. induction xs as [|[time frame] xs IH]; intros self w; cbn [app ReliableChannelIngress.Accept_all].
  - by destruct (ReliableChannelIngress.Accept_all _ _ _ ys _ _ _) as [[? ?] ?].
  - destruct (ReliableChannelIngress.Accept _ _ _ _ _ _ _ _) as [[? self1] w1]. rewrite IH.
    destruct (ReliableChannelIngress.Accept_all _ _ _ xs _ _ _) as [[? ?] ?].
    by destruct (ReliableChannelIngress.Accept_all _ _ _ ys _ _ _) as [[? ?] ?].
Qed.

(** What the ingress does with a completed, stamped message: publish, then
    acknowledge whatever the publication said; a stale one is acknowledged only. *)
Definition settle (message : list Z) (sequence sent receive : Z) (ack : CanFrame)
    (self : ReliableChannelIngress.t W) (w : W) : Status * W :=
  if bool_decide ((FreshnessGuard.Observe sequence sent receive (ReliableChannelIngress.freshness_ self)).1 = kFresh)
  then
    let '(published, w) := ChannelRef_Publish (ReliableChannelIngress.channel_ self)
      (ReliableChannelIngress.descriptor_ self) message sent (Some caller) w in
    let '(ack_status, _, w) := CanFrameWriter_Send writer ack caller w in
    (if IsOk ack_status then published else ack_status, w)
  else
    let '(_, _, w) := CanFrameWriter_Send writer ack caller w in (kTimeout, w).

Lemma RelIngress_message arb sequence source message receive (self : ReliableChannelIngress.t W) w :
  0 <= source < 2 ^ 64 -> 0 <= receive < 2 ^ 64 ->
  Z.abs (receive / kNanosecondsPerMillisecond - source / kNanosecondsPerMillisecond) < kHalfWrap ->
  Z.of_nat (length message) <= max_serialized_size (message_type (ReliableChannelIngress.descriptor_ self)) ->
  let sent := source / kNanosecondsPerMillisecond * kNanosecondsPerMillisecond in
  let ack := ReliableReceiver.ack_frame arb sequence in
  let '(status, self', w') :=
    ReliableChannelIngress.Accept_message writer (MkReassembledMessage route sequence
      (Z.land (source_tick source) 0xff :: Z.shiftr (source_tick source) 8 :: message)) ack receive caller self w in
  (status, w') = settle message sequence sent receive ack self w /\
  ReliableChannelIngress.receiver_ self' = ReliableChannelIngress.receiver_ self /\
  ReliableChannelIngress.bound_ self' = ReliableChannelIngress.bound_ self.
Proof.
  intros Hs Hr Hd Hm. cbn zeta. unfold ReliableChannelIngress.Accept_message, settle. cbn [msg_payload msg_sequence].
  rewrite read_tick_stamped, ExpandTimestamp_recovers by done.
  cbn [length drop]. rewrite Nat.sub_succ, Nat.sub_succ, Nat.sub_0_r.
  guard_false (max_serialized_size (message_type (ReliableChannelIngress.descriptor_ self)) <? Z.of_nat (length message)).
  change (S (S (length message)) <? 2)%nat with false. cbn [orb].
  destruct (FreshnessGuard.Observe _ _ _ _) as [state guard]. cbn [fst].
  change (CanProtocol.size (ReliableReceiver.ack_frame arb sequence) =? 0) with false.
  case_bool_decide; cbn [negb].
  - cbn [ReliableChannelIngress.channel_ ReliableChannelIngress.descriptor_ set_field].
    destruct (ChannelRef_Publish _ _ _ _ _ _) as [status w1]. unfold ReliableChannelIngress.acknowledge.
    change (CanProtocol.size (ReliableReceiver.ack_frame arb sequence) =? 0) with false.
    destruct (CanFrameWriter_Send writer _ caller w1) as [[ack_status call] w2].
    destruct (IsOk ack_status) eqn:Hack; cbn [IsOk negb]; [|rewrite Hack; cbn; by destruct (IsOk status)].
    destruct (IsOk status) eqn:Hst; cbn [IsOk negb]; [|done]. apply IsOk_spec in Hst. by subst.
  - by destruct (CanFrameWriter_Send writer _ caller w) as [[ack_status call] w2].
Qed.

(** A run of the receiver that ends in a first delivery, or in a repeated one. *)
Lemma RelIngress_run last receive arrivals (self : ReliableChannelIngress.t W) w status message ack r :
  ReliableChannelIngress.bound_ self = true -> Forall (fun arrival => reliable_data route arrival.2) arrivals ->
  reliable_data route last ->
  ReliableReceiver.Accept_all K true (arrivals ++ [(receive, last)]) (ReliableChannelIngress.receiver_ self) =
    (replicate (length arrivals) (ReliableReceiver.nothing kUnavailable) ++ [(status, message, ack)], r) ->
  let self1 := self <| ReliableChannelIngress.receiver_ := r |> in
  let '(statuses, self', w') :=
    ReliableChannelIngress.Accept_all MaximumMessageSize route writer (arrivals ++ [(receive, last)]) caller self w in
  let '(final, self2, w2) :=
    if negb (IsOk status) then
      let '(ack_status, self, w) := ReliableChannelIngress.acknowledge writer ack caller self1 w in
      if negb (IsOk ack_status) then (ack_status, self, w) else (status, self, w)
    else ReliableChannelIngress.Accept_message writer message ack receive caller self1 w in
  statuses = replicate (length arrivals) kUnavailable ++ [final] /\ self' = self2 /\ w' = w2.
Proof.
  cbn zeta. intros Hb Hd Hlast HA. rewrite ReliableReceiver.receiver_Accept_all_snoc in HA.
  destruct (ReliableReceiver.Accept_all K true arrivals _) as [outcomes r1] eqn:H1.
  unfold ReliableReceiver.accept_at in HA.
  destruct (ReliableReceiver.Accept_timed K last receive r1) as [res r2] eqn:H2.
  injection HA as HA ->. apply app_inj_2 in HA as [-> HA]; [|done]. injection HA as ->.
  rewrite RelIngress_Accept_all_app, (RelIngress_absorbs arrivals self w r1 Hb Hd H1).
  cbn [ReliableChannelIngress.Accept_all]. rewrite RelIngress_Accept by done.
  cbn [ReliableChannelIngress.receiver_ set_field]. rewrite H2.
  change ((self <| ReliableChannelIngress.receiver_ := r1 |>) <| ReliableChannelIngress.receiver_ := r |>)
    with (self <| ReliableChannelIngress.receiver_ := r |>).
  destruct (if negb (IsOk status) then _ else _) as [[final self'] w']. done.
Qed.
End IngressLemmas.

(** All fragments arrive, in any order and with any repetitions, the last missing
    one at [receive]; the receiver's clock does not run backwards and no deadline
    passes in between. *)
Definition on_schedule (n : nat) (order : list nat) (last : nat) (early : list Z) (receive : Z)
    (r : ReliableReceiver.t) : Prop :=
  Forall (fun i => (i < n)%nat) order /\ (last < n)%nat /\ last ∉ order /\
  (forall j, (j < n)%nat -> j = last \/ j ∈ order) /\ length early = length order /\
  ReliableReceiver.on_time true (early ++ [receive]) r /\
  (ReliableReceiver.reassembly_timeout_ns_ r <> 0 ->
     Forall (fun t => t < SaturatingAdd (hd 0 (early ++ [receive])) (ReliableReceiver.reassembly_timeout_ns_ r))
       (tl (early ++ [receive]))).

Definition arrivals_of (wire : nat -> CanFrame) (order : list nat) (last : nat) (early : list Z) (receive : Z)
    : list (Z * CanFrame) := zip early (wire <$> order) ++ [(receive, wire last)].

Lemma arrives_snoc wire order last early receive :
  length early = length order ->
  ReliableReceiver.arrives wire (early ++ [receive]) (order ++ [last]) = arrivals_of wire order last early receive.
Proof.
  intros H. unfold ReliableReceiver.arrives, arrivals_of. rewrite fmap_app, zip_with_app by by rewrite length_fmap.
  done.
Qed.

Lemma length_early (wire : nat -> CanFrame) (order : list nat) (early : list Z) :
  length early = length order -> length (zip early (wire <$> order)) = length order.
Proof. intros H. rewrite length_zip_with, length_fmap. lia. Qed.

Section Delivery.
Context {W : Type} (MaximumMessageSize : nat) (route : Z) (writer : CanFrameWriter W) (caller : ExecutionContext).
Context (p : CanPriority) (arb sequence : Z) (message : list Z) (source : Z) (wire : nat -> CanFrame).

Let K : nat := ReliableChannelIngress.kMaximumPayloadSize MaximumMessageSize.
Let payload : list Z := Z.land (source_tick source) 0xff :: Z.shiftr (source_tick source) 8 :: message.
Let n : nat := fragment_count_of (length payload).
Let sent : Z := source / kNanosecondsPerMillisecond * kNanosecondsPerMillisecond.
Let ack : CanFrame := ReliableReceiver.ack_frame arb sequence.

Context (Hroute : 0 <= route) (Harb : CanArbitrationId_Encode p route = (kOk, arb)).
Context (Hseq : 0 <= sequence <= 0x0f) (Hlen : (length message <= MaximumMessageSize)%nat) (H16 : (n <= 16)%nat).
Context (Hwire : forall i, (i < n)%nat -> ReliableReceiver.carries arb sequence payload i (wire i)).

Lemma wire_reliable i : (i < n)%nat -> reliable_data route (wire i).
Proof using Hroute Harb Hseq H16 Hwire.
  intros Hi. apply (carries_reliable_data p route arb sequence payload i); [done..|cbn; clear; lia|done|done|by apply Hwire].
Qed.

Lemma early_reliable order early :
  Forall (fun i => (i < n)%nat) order ->
  Forall (fun arrival : Z * CanFrame => reliable_data route arrival.2) (zip early (wire <$> order)).
Proof using Hroute Harb Hseq H16 Hwire.
  intros H. revert early. induction H as [|i order Hi H IH]; intros [|t early]; cbn; try constructor.
  - by apply wire_reliable.
  - apply IH.
Qed.

(** One scheduled round through the receiver. *)
Lemma receiver_round order last early receive r :
  ReliableReceiver.wf K r -> ReliableReceiver.active_ r = false -> ReliableReceiver.admissible r arb sequence ->
  on_schedule n order last early receive r ->
  exists r', ReliableReceiver.Accept_all K true (arrivals_of wire order last early receive) r =
      (replicate (length (zip early (wire <$> order))) (ReliableReceiver.nothing kUnavailable) ++
         [ReliableReceiver.final_result route arb sequence payload r], r') /\
    ReliableReceiver.wf K r' /\ ReliableReceiver.active_ r' = false /\
    ReliableReceiver.repeated arb sequence r' = true.
Proof using Hroute Harb Hseq Hlen H16 Hwire.
  intros Hwf Hact Hadm (H1 & H2 & H3 & H4 & H5 & H6 & H7).
  rewrite length_early, <- arrives_snoc by done.
  apply (ReliableReceiver.receiver_Accept_all_delivers K p route arb sequence payload); try done.
  - cbn. lia.
  - unfold K, ReliableChannelIngress.kMaximumPayloadSize. cbn. lia.
  - rewrite !length_app, H5. cbn. lia.
Qed.
(** The first round publishes and acknowledges. *)
Lemma ingress_first (i : ReliableChannelIngress.t W) order last early receive w :
  ReliableChannelIngress.bound_ i = true ->
  Z.of_nat (length message) <= max_serialized_size (message_type (ReliableChannelIngress.descriptor_ i)) ->
  ReliableReceiver.wf K (ReliableChannelIngress.receiver_ i) ->
  ReliableReceiver.active_ (ReliableChannelIngress.receiver_ i) = false ->
  ReliableReceiver.admissible (ReliableChannelIngress.receiver_ i) arb sequence ->
  ReliableReceiver.repeated arb sequence (ReliableChannelIngress.receiver_ i) = false ->
  on_schedule n order last early receive (ReliableChannelIngress.receiver_ i) ->
  0 <= source < 2 ^ 64 -> 0 <= receive < 2 ^ 64 ->
  Z.abs (receive / kNanosecondsPerMillisecond - source / kNanosecondsPerMillisecond) < kHalfWrap ->
  let '(statuses, i', w') :=
    ReliableChannelIngress.Accept_all MaximumMessageSize route writer
      (arrivals_of wire order last early receive) caller i w in
  let '(final, settled) := settle writer caller message sequence sent receive ack i w in
  statuses = replicate (length order) kUnavailable ++ [final] /\ w' = settled /\
  ReliableChannelIngress.bound_ i' = true /\ ReliableReceiver.wf K (ReliableChannelIngress.receiver_ i') /\
  ReliableReceiver.active_ (ReliableChannelIngress.receiver_ i') = false /\
  ReliableReceiver.repeated arb sequence (ReliableChannelIngress.receiver_ i') = true.
Proof using Hroute Harb Hseq Hlen H16 Hwire.
  intros Hb Hcap Hwf Hact Hadm Hrep Hplan Hsource Hrec Hclose.
  destruct (receiver_round order last early receive _ Hwf Hact Hadm Hplan) as (r1 & HA & Hwf1 & Hact1 & Hrep1).
  unfold ReliableReceiver.final_result in HA. rewrite Hrep in HA.
  pose proof Hplan as (Ho & Hl & _ & _ & Hearly & _).
  pose proof (RelIngress_run MaximumMessageSize route writer caller (wire last) receive
    (zip early (wire <$> order)) i w _ _ _ r1 Hb (early_reliable order early Ho) (wire_reliable last Hl) HA) as Hrun.
  cbn zeta in Hrun. unfold arrivals_of. cbn [IsOk negb] in Hrun.
  destruct (ReliableChannelIngress.Accept_all _ _ _ _ _ i w) as [[statuses i'] w'].
  match type of Hrun with context [ReliableChannelIngress.Accept_message _ _ _ _ _ ?s _] => set (i1 := s) in * end.
  pose proof (RelIngress_message route writer caller arb sequence source message receive i1 w Hsource Hrec Hclose Hcap)
    as Hm. cbn zeta in Hm. fold payload sent in Hm.
  destruct (ReliableChannelIngress.Accept_message _ _ _ _ _ i1 w) as [[final i2] w1].
  destruct Hrun as (-> & -> & ->). destruct Hm as (Hm & Hr2 & Hb2).
  change (settle writer caller message sequence sent receive (ReliableReceiver.ack_frame arb sequence) i1 w)
    with (settle writer caller message sequence sent receive ack i w) in Hm.
  rewrite <- Hm, length_early, Hr2, Hb2 by done. unfold i1. by split_and!.
Qed.

(** A later round acknowledges only. *)
Lemma ingress_again (i : ReliableChannelIngress.t W) order last early receive w :
  ReliableChannelIngress.bound_ i = true -> ReliableReceiver.wf K (ReliableChannelIngress.receiver_ i) ->
  ReliableReceiver.active_ (ReliableChannelIngress.receiver_ i) = false ->
  ReliableReceiver.repeated arb sequence (ReliableChannelIngress.receiver_ i) = true ->
  on_schedule n order last early receive (ReliableChannelIngress.receiver_ i) ->
  let '(statuses, _, w') :=
    ReliableChannelIngress.Accept_all MaximumMessageSize route writer
      (arrivals_of wire order last early receive) caller i w in
  let '(ack_status, _, acknowledged) := CanFrameWriter_Send writer ack caller w in
  statuses = replicate (length order) kUnavailable ++ [if IsOk ack_status then kUnavailable else ack_status] /\
  w' = acknowledged.
Proof using Hroute Harb Hseq Hlen H16 Hwire.
  intros Hb Hwf Hact Hrep Hplan.
  assert (ReliableReceiver.admissible (ReliableChannelIngress.receiver_ i) arb sequence) as Hadm.
  { intros _ _. unfold ReliableReceiver.repeated in Hrep. apply andb_true_iff in Hrep as [_ Hrep%Z.eqb_eq].
    rewrite ReliableReceiver.SequenceDistance_mod, Hrep, Z.sub_diag. by vm_compute. }
  destruct (receiver_round order last early receive _ Hwf Hact Hadm Hplan) as (r1 & HA & _).
  unfold ReliableReceiver.final_result in HA. rewrite Hrep in HA.
  pose proof Hplan as (Ho & Hl & _ & _ & Hearly & _).
  pose proof (RelIngress_run MaximumMessageSize route writer caller (wire last) receive
    (zip early (wire <$> order)) i w _ _ _ r1 Hb (early_reliable order early Ho) (wire_reliable last Hl) HA) as Hrun.
  cbn zeta in Hrun. unfold arrivals_of. cbn [IsOk negb] in Hrun. unfold ReliableChannelIngress.acknowledge in Hrun.
  change (CanProtocol.size (ReliableReceiver.ack_frame arb sequence) =? 0) with false in Hrun.
  change (ReliableReceiver.ack_frame arb sequence) with ack in Hrun.
  destruct (ReliableChannelIngress.Accept_all _ _ _ _ _ i w) as [[statuses i'] w'].
  destruct (CanFrameWriter_Send writer ack caller w) as [[ack_status call] w4].
  rewrite length_early in Hrun by done.
  destruct (IsOk ack_status) eqn:Hok; cbn [IsOk negb] in Hrun; [|rewrite Hok in Hrun; cbn [negb] in Hrun];
    destruct Hrun as (-> & _ & ->); done.
Qed.
End Delivery.

(** ** Properties *)

(** C21: a message published on one side of a reliable CAN bridge is published
    exactly once on the other. The idle egress writes it as frames and waits; an
    ingress that has them all, in any order, publishes the bytes sent with the
    source's millisecond, and then acknowledges, even when the publication
    failed or the sample was stale. The acknowledgement completes the egress. If it
    is lost and the frames come again, the ingress acknowledges again and publishes
    nothing. *)
Theorem reliable_channel_delivery MaximumMessageSize route p time period retry maximum message info caller e log :
  let source := CanTimeConverter_ToNetworkTime time log (info_source_timestamp_ns info) in
  let sent := source / kNanosecondsPerMillisecond * kNanosecondsPerMillisecond in
  let sequence := ReliableChannelEgress.sequence_ e in
  let K := ReliableChannelEgress.kMaximumPayloadSize MaximumMessageSize in
  1 <= route <= kMaximumRouteId -> (MaximumMessageSize <= 94)%nat -> retry <> 0 -> 0 <= maximum < 256 ->
  0 <= source < 2 ^ 64 ->
  Z.of_nat (length message) <= max_serialized_size (message_type (ReliableChannelEgress.descriptor_ e)) ->
  (length message <= MaximumMessageSize)%nat -> 0 <= sequence <= 0x0f ->
  length (ReliableChannelEgress.payload_ e) = K ->
  ReliableSender.wf K (ReliableChannelEgress.sender_ e) ->
  ReliableSender.busy (ReliableChannelEgress.sender_ e) = false ->
  rate_limits (ReliableChannelEgress.has_last_send_ e) (ReliableChannelEgress.last_send_time_ns_ e) period source
    = false ->
  exists arb frames e',
    ReliableChannelEgress.Send MaximumMessageSize route p (Some ReliableSender.record_frame) time period retry
      maximum message info caller e log = (kOk, e', log ++ frames) /\
    ReliableChannelEgress.sequence_ e' = (sequence + 1) mod 16 /\
    ReliableSender.state_ (ReliableChannelEgress.sender_ e') = kWaitingForAck /\
    let ack := ReliableReceiver.ack_frame arb sequence in
    (let '(status, e'') := ReliableChannelEgress.AcceptAcknowledgement ack e' in
     status = kOk /\ ReliableSender.state_ (ReliableChannelEgress.sender_ e'') = kComplete) /\
    let n := length frames in let wire j := nth j frames CanFrame_default in
    forall (W : Type) (writer : CanFrameWriter W) (i : ReliableChannelIngress.t W) order last early receive caller' w,
      ReliableChannelIngress.bound_ i = true ->
      Z.of_nat (length message) <= max_serialized_size (message_type (ReliableChannelIngress.descriptor_ i)) ->
      ReliableReceiver.wf K (ReliableChannelIngress.receiver_ i) ->
      ReliableReceiver.active_ (ReliableChannelIngress.receiver_ i) = false ->
      ReliableReceiver.admissible (ReliableChannelIngress.receiver_ i) arb sequence ->
      ReliableReceiver.repeated arb sequence (ReliableChannelIngress.receiver_ i) = false ->
      on_schedule n order last early receive (ReliableChannelIngress.receiver_ i) ->
      0 <= receive < 2 ^ 64 ->
      Z.abs (receive / kNanosecondsPerMillisecond - source / kNanosecondsPerMillisecond) < kHalfWrap ->
      let '(statuses, i', w') :=
        ReliableChannelIngress.Accept_all MaximumMessageSize route writer
          (arrivals_of wire order last early receive) caller' i w in
      let '(final, settled) := settle writer caller' message sequence sent receive ack i w in
      statuses = replicate (length order) kUnavailable ++ [final] /\ w' = settled /\
      forall order' last' early' receive' w2,
        on_schedule n order' last' early' receive' (ReliableChannelIngress.receiver_ i') ->
        let '(statuses', _, w2') :=
          ReliableChannelIngress.Accept_all MaximumMessageSize route writer
            (arrivals_of wire order' last' early' receive') caller' i' w2 in
        let '(ack_status, _, acknowledged) := CanFrameWriter_Send writer ack caller' w2 in
        statuses' = replicate (length order') kUnavailable ++ [if IsOk ack_status then kUnavailable else ack_status] /\
        w2' = acknowledged.
Proof.
  intros source sent sequence K Hroute Hmax Hretry Hmaxr Hsource Hcap Hlen Hseq Hpl Hwf Hidle Hrate.
  destruct (ReliableEgress_sends MaximumMessageSize route p time period retry maximum message info caller e log
    Hroute Hmax Hretry Hmaxr Hcap Hlen Hseq Hpl Hwf Hidle Hrate)
    as (arb & frames & e' & Harb & HS & Hs' & Hst & Hn & H16 & Hf & Hack).
  fold source in Hn, H16, Hf. fold sequence in Hf, Hack, Hs'.
  exists arb, frames, e'. do 3 (split; [done|]). cbn zeta. split; [exact Hack|].
  intros W writer i order last early receive caller' w Hb Hcapi Hwfi Hact Hadm Hrep Hplan Hrec Hclose.
  rewrite Hn in *. set (wire := fun j => nth j frames CanFrame_default).
  pose proof (ingress_first MaximumMessageSize route writer caller' p arb sequence message source wire
    ltac:(lia) Harb Hseq Hlen H16 Hf i order last early receive w Hb Hcapi Hwfi Hact Hadm Hrep Hplan Hsource Hrec Hclose)
    as Hfirst.
  destruct (ReliableChannelIngress.Accept_all _ _ _ _ _ i w) as [[statuses i'] w'].
  destruct (settle _ _ _ _ _ _ _ _ _) as [final settled].
  destruct Hfirst as (-> & -> & Hb1 & Hwf1 & Hact1 & Hrep1). split; [done|]. split; [done|].
  intros order' last' early' receive' w2 Hplan'.
  exact (ingress_again MaximumMessageSize route writer caller' p arb sequence message source wire
    ltac:(lia) Harb Hseq Hlen H16 Hf i' order' last' early' receive' w2 Hb1 Hwf1 Hact1 Hrep1 Hplan').
Qed.

Definition sample_reliable_egress : ReliableChannelEgress.t :=
  (ReliableChannelEgress.init 16) <| ReliableChannelEgress.descriptor_ := sample_descriptor |>.

Lemma reliable_channel_delivery_witness :
  exists frames e',
    ReliableChannelEgress.Send 16 8 CanProtocol.kControl (Some ReliableSender.record_frame) None 0 5000000 2 sample_message
      (MkMessageInfo 0 5000000) sample_context sample_reliable_egress [] = (kOk, e', [] ++ frames) /\
    ReliableChannelEgress.sequence_ e' = (0 + 1) mod 16.
Proof.
  destruct (reliable_channel_delivery 16 8 CanProtocol.kControl None 0 5000000 2 sample_message (MkMessageInfo 0 5000000)
    sample_context sample_reliable_egress []) as (arb & frames & e' & HS & Hq & _).
  - by vm_compute.
  - lia.
  - discriminate.
  - lia.
  - by vm_compute.
  - by vm_compute.
  - cbn. lia.
  - by vm_compute.
  - reflexivity.
  - apply ReliableSender.sender_wf_init.
  - reflexivity.
  - reflexivity.
  - exists frames, e'. split; [exact HS|exact Hq].
Defined.
