(* ===== verification/CanRpcBridge.v ===== *)
(** RPC over CAN ([aster_runtime/transport/can/rpc_bridge.hpp]): a client that
    carries one call at a time to a server on the peer over the reliable path,
    and a server that hands the requests it receives to its node's RPC service
    and carries the answers back.

    The client and the server are objects of the program, because the callbacks
    they run may call them again; an object is written back before a callback
    runs. The device behind a writer does not call back during the call. *)

From S2P Require Export ReliablePath Rpc.

Local Open Scope Z_scope.

(** ** [rpc_detail] *)

Module rpc_detail.

Definition WriteU32 (value : Z) : list Z := write_le 4 value.
Definition ReadU32 (input : list Z) : Z := read_le input.
Definition WriteU64 (value : Z) : list Z := write_le 8 value.
Definition ReadU64 (input : list Z) : Z := read_le input.

(** Whether the status has a code, and the code. *)
Definition EncodeStatus (status : Status) : bool * Z :=
  match status with
  | kOk => (true, 0)
  | kInvalidArgument => (true, 1)
  | kInvalidState => (true, 2)
  | kCapacityExceeded => (true, 3)
  | kUnavailable => (true, 4)
  | kTimeout => (true, 5)
  | kCancelled => (true, 6)
  | kTypeMismatch => (true, 7)
  | kNotFound => (true, 8)
  | kAlreadyExists => (true, 9)
  | kVersionMismatch => (true, 10)
  | kProtocolError => (true, 12)
  | kInternal => (true, 11)
  end.

Definition DecodeStatus (encoded : Z) : bool * Status :=
  match encoded with
  | 0 => (true, kOk)
  | 1 => (true, kInvalidArgument)
  | 2 => (true, kInvalidState)
  | 3 => (true, kCapacityExceeded)
  | 4 => (true, kUnavailable)
  | 5 => (true, kTimeout)
  | 6 => (true, kCancelled)
  | 7 => (true, kTypeMismatch)
  | 8 => (true, kNotFound)
  | 9 => (true, kAlreadyExists)
  | 10 => (true, kVersionMismatch)
  | 11 => (true, kInternal)
  | 12 => (true, kProtocolError)
  | _ => (false, kInternal)
  end.

Definition IsForRoute (frame : CanFrame) (route_id : Z) : bool :=
  match CanArbitrationId_Decode (arbitration_id frame) with
  | Some decoded => id_route decoded =? route_id
  | None => false
  end.

Definition SenderBusy (state : ReliableSenderState) : bool :=
  state_is state kSending || state_is state kWaitingForAck.
End rpc_detail.

(** The two classes' common constants; the descriptor is generated code. *)
Definition kRequestHeaderSize : nat := 12.
Definition kResponseHeaderSize : nat := 5.

Section Sizes.
Variable Descriptor : ServiceDescriptor.

Definition kRequestSize : nat := Z.to_nat (max_serialized_size (request_type Descriptor)).
Definition kResponseSize : nat := Z.to_nat (max_serialized_size (response_type Descriptor)).
Definition kRequestPayloadSize : nat := (kRequestHeaderSize + kRequestSize)%nat.
Definition kResponsePayloadSize : nat := (kResponseHeaderSize + kResponseSize)%nat.

(** The [static_assert]s of both classes. *)
Definition sizes_ok : Prop := (kRequestPayloadSize <= 96)%nat /\ (kResponsePayloadSize <= 96)%nat.
End Sizes.

#[global] Arguments kRequestPayloadSize : simpl never.
#[global] Arguments kResponsePayloadSize : simpl never.

(** The guard at the head of both [Accept]s. *)
Definition not_reliable_for (route_id : Z) (frame : CanFrame) : bool :=
  (CanProtocol.size frame =? 0) || negb (rpc_detail.IsForRoute frame route_id) ||
  negb (bool_decide (GetFrameKind (byte_at (data frame) 0) = kReliable)).

(** ** [CanRpcClient] *)

Module CanRpcClient.

Record RpcClientTransportStats := MkStats {
  accepted : Z;
  completed : Z;
  rejected : Z;
  timeouts : Z;
  decode_failures : Z;
  send_failures : Z
}.
#[global] Instance eta_stats : Eta RpcClientTransportStats := fun r =>
  MkStats (accepted r) (completed r) (rejected r) (timeouts r) (decode_failures r) (send_failures r).

Section Client.
Context {W C : Type}.

(** The code behind completions, [C] being function and state pointer. *)
Variable completion_fn : C -> aster_rpc_completion_t W.
Variable Descriptor : ServiceDescriptor.

(** The constructor's arguments, which do not change afterwards. *)
Variables (route_id_ : Z) (priority_ : CanPriority) (writer_ : CanFrameWriter W) (clock_ : CanClockReader W)
  (retry_timeout_ns_ maximum_retries_ : Z).

Record t := Mk {
  sequence_ : Z;
  next_sequence_ : Z;
  next_request_id_ : Z;
  request_payload_ : list Z;
  request_sender_ : ReliableSender.t;
  response_receiver_ : ReliableReceiver.t;
  completion_ : option C;
  call_info_ : RpcCallInfo;
  stats_ : RpcClientTransportStats;
  registered_ : bool;
  pending_ : bool;
  sealed_ : bool
}.
#[global] Instance eta_t : Eta t := fun r =>
  Mk (sequence_ r) (next_sequence_ r) (next_request_id_ r) (request_payload_ r) (request_sender_ r)
    (response_receiver_ r) (completion_ r) (call_info_ r) (stats_ r) (registered_ r) (pending_ r) (sealed_ r).

Let requests : nat := kRequestPayloadSize Descriptor.
Let responses : nat := kResponsePayloadSize Descriptor.

Definition init : t :=
  Mk 0 0 0 (zeros requests) (ReliableSender.init requests) (ReliableReceiver.init responses 0) None
    RpcCallInfo_default (MkStats 0 0 0 0 0 0) false false false.

Definition Reject (status : Status) (self : t) : Status * t :=
  (status, self <| stats_ := bump rejected (stats_ self) |>).

Definition RegisterClient (d : ServiceDescriptor) (self : t) : Status * t :=
  if sealed_ self then (kInvalidState, self)
  else if negb (SameService d Descriptor) then (kTypeMismatch, self)
  else (kOk, self <| registered_ := true |>).

Definition RegisterServer (d : ServiceDescriptor) (handler : option (aster_rpc_handler_t W)) (self : t)
    : Status * t := (kInvalidState, self).

Definition Seal (self : t) : Status * t :=
  if sealed_ self then (kInvalidState, self)
  else if negb (registered_ self) || bool_decide (writer_ = None) || bool_decide (clock_ = None) ||
          (retry_timeout_ns_ =? 0)
  then (kUnavailable, self)
  else (kOk, self <| sealed_ := true |>).

Definition ClearPending (self : t) : t := self <| completion_ := None |> <| pending_ := false |>.

Definition PumpRequest (caller : ExecutionContext) (self : t) (w : W) : Status * t * W :=
  let '(status, stats, sender, w) :=
    ReliableSender.Pump writer_ caller (fun stats => stats) (fun stats => bump send_failures stats)
      (stats_ self) (request_sender_ self) w in
  (status, self <| stats_ := stats |> <| request_sender_ := sender |>, w).

(** [++next_request_id_], twice when it wraps to zero. *)
Definition advance_request_id (current : Z) : Z :=
  let next := u32 (current + 1) in if next =? 0 then u32 (next + 1) else next.

(** The request with its header, over what the buffer held before. *)
Definition request_of (request_id deadline_ns : Z) (request payload : list Z) : list Z :=
  copy_into kRequestHeaderSize request
    (copy_into 4 (rpc_detail.WriteU64 deadline_ns) (copy_into 0 (rpc_detail.WriteU32 request_id) payload)).

(** The call is written down. *)
Definition submitted (request : list Z) (deadline_ns : Z) (completion : C) (self : t) : t :=
  let self := self <| next_request_id_ := advance_request_id (next_request_id_ self) |> in
  let self := self
    <| request_payload_ := request_of (next_request_id_ self) deadline_ns request (request_payload_ self) |> in
  let self := self <| sequence_ := next_sequence_ self |> in
  let self := self <| next_sequence_ := u8 (Z.land (next_sequence_ self + 1) 0x0f) |> in
  self <| completion_ := Some completion |> <| call_info_ := MkRpcCallInfo (next_request_id_ self) deadline_ns |>
    <| pending_ := true |>.

(** [CallAsync] from the point where the call is admitted. *)
Definition Submit (request : list Z) (deadline_ns now_ns : Z) (completion : C) (caller : ExecutionContext)
    (self : t) (w : W) : Status * t * W :=
  let self := submitted request deadline_ns completion self in
  let '(begin_status, sender) :=
    ReliableSender.Begin requests route_id_ priority_ (sequence_ self)
      (take (kRequestHeaderSize + length request) (request_payload_ self)) now_ns retry_timeout_ns_
      maximum_retries_ (request_sender_ self) in
  let self := self <| request_sender_ := sender |> in
  if negb (IsOk begin_status) then
    let '(status, self) := Reject begin_status (ClearPending self) in (status, self, w)
  else
    let '(send_status, self, w) := PumpRequest caller self w in
    if negb (IsOk send_status) then
      let self := ClearPending self <| request_sender_ := ReliableSender.init requests |> in
      (send_status, self <| stats_ := bump send_failures (stats_ self) |>, w)
    else (kOk, self <| stats_ := bump accepted (stats_ self) |>, w).

Definition CallAsync (d : ServiceDescriptor) (request : list Z) (deadline_ns : Z) (completion : option C)
    (caller : ExecutionContext) (self : t) (w : W) : Status * t * W :=
  let reject status self := let '(status, self) := Reject status self in (status, self, w) in
  if negb (sealed_ self) then reject kInvalidState self
  else if negb (SameService d Descriptor) || (kRequestSize Descriptor <? length request)%nat
  then reject kTypeMismatch self
  else
    match completion, clock_ with
    | Some completion, Some _ =>
        let '(clock_status, now_ns) := CanClockReader_NowNs clock_ w in
        if negb (IsOk clock_status) then reject clock_status self
        else if negb (deadline_ns =? 0) && (deadline_ns <=? now_ns)
        then reject kTimeout (self <| stats_ := bump timeouts (stats_ self) |>)
        else if pending_ self || rpc_detail.SenderBusy (ReliableSender.state_ (request_sender_ self))
        then reject kCapacityExceeded self
        else Submit request deadline_ns now_ns completion caller self w
    | _, _ => reject kInvalidArgument self
    end.

(** *** Methods that may complete the call *)

Variable this : Cell W t.

(** The completion's call; a pending call has one. *)
Definition finish (completion : option C) (status : Z) (response : aster_bytes_view_t) (info : RpcCallInfo)
    (caller : ExecutionContext) (w : W) : W :=
  match completion with
  | Some completion =>
      completion_fn completion status response (Some (ToAbiRpcCallInfo info)) (Some (ToAbiExecutionContext caller)) w
  | None => w
  end.

(** The pending call is taken out, the object written back, the completion called. *)
Definition complete_with (status : Z) (response : aster_bytes_view_t) (caller : ExecutionContext) (self : t) (w : W)
    : W :=
  let cleared := ClearPending self in
  finish (completion_ self) status response (call_info_ self) caller
    (store this (cleared <| stats_ := bump completed (stats_ cleared) |>) w).

Definition FinishTimeout (caller : ExecutionContext) (self : t) (w : W) : W :=
  let self := self <| request_sender_ := ReliableSender.init requests |> in
  complete_with ASTER_STATUS_TIMEOUT (AbiBytes None 0) caller (self <| stats_ := bump timeouts (stats_ self) |>) w.

(** [Accept] from the point where the receiver completed a message. *)
Definition Accept_response (message : ReassembledMessage) (caller : ExecutionContext) (self : t) (w : W)
    : Status * W :=
  let payload := msg_payload message in
  let fail status :=
    (status, store this (self <| stats_ := bump decode_failures (stats_ self) |>) w) in
  if negb (pending_ self) then (kUnavailable, store this self w)
  else if negb (msg_sequence message =? sequence_ self) || (length payload <? kResponseHeaderSize)%nat ||
          negb (rpc_detail.ReadU32 (subspan 1 4 payload) =? request_id (call_info_ self))
  then fail kTypeMismatch
  else
    let '(decoded, response_status) := rpc_detail.DecodeStatus (byte_at payload 0) in
    if negb decoded ||
       (IsOk response_status && (kResponseSize Descriptor <? length payload - kResponseHeaderSize)%nat) ||
       (negb (IsOk response_status) && negb (length payload =? kResponseHeaderSize)%nat)
    then fail kInvalidArgument
    else
      (kOk, complete_with (ToAbiStatus response_status) (buffer_of (drop kResponseHeaderSize payload)) caller self w).

Definition Accept (frame : CanFrame) (caller : ExecutionContext) (w : W) : Status * W :=
  let self := load this w in
  if negb (sealed_ self) then (kInvalidState, w)
  else if not_reliable_for route_id_ frame then (kInvalidArgument, w)
  else if bool_decide (GetReliableSubtype (byte_at (data frame) 0) = kAck) then
    let '(status, sender) := ReliableSender.HandleAck frame (request_sender_ self) in
    (status, store this (self <| request_sender_ := sender |>) w)
  else
    let '(receive_status, message, acknowledgement, receiver) :=
      ReliableReceiver.Accept responses frame (response_receiver_ self) in
    let self := self <| response_receiver_ := receiver |> in
    let '(ack_status, w) :=
      if CanProtocol.size acknowledgement =? 0 then (kOk, w)
      else let '(status, _, w) := CanFrameWriter_Send writer_ acknowledgement caller w in (status, w) in
    if negb (IsOk ack_status)
    then (ack_status, store this (self <| stats_ := bump send_failures (stats_ self) |>) w)
    else if negb (IsOk receive_status) then (receive_status, store this self w)
    else Accept_response message caller self w.

Definition Poll (now_ns : Z) (caller : ExecutionContext) (w : W) : Status * W :=
  let self := load this w in
  if negb (sealed_ self) then (kInvalidState, w)
  else if negb (pending_ self) then (kUnavailable, w)
  else if negb (deadline_ns (call_info_ self) =? 0) && (deadline_ns (call_info_ self) <=? now_ns)
  then (kTimeout, FinishTimeout caller self w)
  else
    let '(poll_status, sender) := ReliableSender.Poll now_ns (request_sender_ self) in
    let self := self <| request_sender_ := sender |> in
    if IsOk poll_status then
      let '(status, self, w) := PumpRequest caller self w in (status, store this self w)
    else if bool_decide (poll_status = kTimeout) then (poll_status, FinishTimeout caller self w)
    else (poll_status, store this self w).

Definition ResetPeer (caller : ExecutionContext) (w : W) : W :=
  let self := load this w in
  let self := self <| request_sender_ := ReliableSender.init requests |>
    <| response_receiver_ := ReliableReceiver.ResetPeerHistory (response_receiver_ self) |> in
  if negb (pending_ self) then store this self w
  else complete_with ASTER_STATUS_UNAVAILABLE (AbiBytes None 0) caller self w.

(** The virtual functions of [RpcBackend] on the object. *)
Definition in_place {A} (f : t -> A * t) (w : W) : A * W :=
  let '(a, self) := f (load this w) in (a, store this self w).

Definition backend : RpcBackend W C :=
  MkRpcBackend (fun d => in_place (RegisterClient d)) (fun d handler => in_place (RegisterServer d handler))
    (fun d request deadline completion caller w =>
       let '(status, self, w) := CallAsync d request deadline completion caller (load this w) w in
       (status, store this self w))
    (in_place Seal) (fun w => sealed_ (load this w)).
End Client.
Arguments t : clear implicits.
End CanRpcClient.

(** ** [CanRpcServer] *)

Module CanRpcServer.

Record RpcServerTransportStats := MkStats {
  requests : Z;
  responses : Z;
  rejected : Z;
  timeouts : Z;
  decode_failures : Z;
  send_failures : Z
}.
#[global] Instance eta_stats : Eta RpcServerTransportStats := fun r =>
  MkStats (requests r) (responses r) (rejected r) (timeouts r) (decode_failures r) (send_failures r).

(** [R] is a pointer to the table behind an [RpcRef]. *)
Record t (R : Type) := Mk {
  rpc_ : option R;
  active_sequence_ : Z;
  active_request_id_ : Z;
  response_payload_ : list Z;
  request_receiver_ : ReliableReceiver.t;
  response_sender_ : ReliableSender.t;
  stats_ : RpcServerTransportStats;
  active_ : bool;
  bound_ : bool;
  drop_active_response_ : bool
}.
Arguments Mk {R}.
Arguments rpc_ {R}.
Arguments active_sequence_ {R}.
Arguments active_request_id_ {R}.
Arguments response_payload_ {R}.
Arguments request_receiver_ {R}.
Arguments response_sender_ {R}.
Arguments stats_ {R}.
Arguments active_ {R}.
Arguments bound_ {R}.
Arguments drop_active_response_ {R}.
#[global] Instance eta_t R : Eta (t R) := fun r =>
  Mk (rpc_ r) (active_sequence_ r) (active_request_id_ r) (response_payload_ r) (request_receiver_ r)
    (response_sender_ r) (stats_ r) (active_ r) (bound_ r) (drop_active_response_ r).

Section Server.
Context {W C R : Type}.

(** What the pointers denote. *)
Variable rpc_at : R -> RpcRef W C.
Variable Descriptor : ServiceDescriptor.

(** The constructor's arguments, which do not change afterwards. *)
Variables (route_id_ : Z) (priority_ : CanPriority) (writer_ : CanFrameWriter W) (clock_ : CanClockReader W)
  (retry_timeout_ns_ maximum_retries_ : Z).

(** The object and the pointer to [Complete] on it. *)
Variables (this : Cell W (t R)) (complete : C).

Definition init : t R :=
  Mk None 0 0 (zeros (kResponsePayloadSize Descriptor)) (ReliableReceiver.init (kRequestPayloadSize Descriptor) 0)
    (ReliableSender.init (kResponsePayloadSize Descriptor)) (MkStats 0 0 0 0 0 0) false false false.

(** The [RpcRef] member; default-constructed, it is empty. *)
Definition rpc_of (self : t R) : RpcRef W C := match rpc_ self with Some rpc => rpc_at rpc | None => None end.

Definition Bind (rpc : R) (w : W) : Status * W :=
  if bound_ (load this w) then (kInvalidState, w)
  else
    let '(status, w) := RpcRef_RegisterClient (rpc_at rpc) Descriptor w in
    (status,
     if IsOk status then store this ((load this w) <| rpc_ := Some rpc |> <| bound_ := true |>) w else w).

Definition PumpResponse (caller : ExecutionContext) (self : t R) (w : W) : Status * t R * W :=
  let '(status, stats, sender, w) :=
    ReliableSender.Pump writer_ caller (fun stats => stats) (fun stats => bump send_failures stats)
      (stats_ self) (response_sender_ self) w in
  (status, self <| stats_ := stats |> <| response_sender_ := sender |>, w).

(** The response with its header, over what the buffer held before. *)
Definition response_of (code request_id : Z) (response payload : list Z) : list Z :=
  copy_into kResponseHeaderSize response
    (copy_into 1 (rpc_detail.WriteU32 request_id) (<[0%nat := code]> payload)).

Definition SendResponse (status : Status) (response : list Z) (caller : ExecutionContext) (self : t R) (w : W)
    : Status * t R * W :=
  if (kResponseSize Descriptor <? length response)%nat || (negb (IsOk status) && negb (length response =? 0)%nat)
  then (kInvalidArgument, self, w)
  else
    let '(known, code) := rpc_detail.EncodeStatus status in
    if negb known then (kInvalidArgument, self <| response_payload_ := <[0%nat := code]> (response_payload_ self) |>, w)
    else
      let self := self
        <| response_payload_ := response_of code (active_request_id_ self) response (response_payload_ self) |> in
      let '(clock_status, now_ns) := CanClockReader_NowNs clock_ w in
      if negb (IsOk clock_status) then (clock_status, self, w)
      else
        let '(begin_status, sender) :=
          ReliableSender.Begin (kResponsePayloadSize Descriptor) route_id_ priority_ (active_sequence_ self)
            (take (kResponseHeaderSize + length response) (response_payload_ self)) now_ns retry_timeout_ns_
            maximum_retries_ (response_sender_ self) in
        let self := self <| response_sender_ := sender |> in
        if negb (IsOk begin_status) then (begin_status, self, w)
        else
          let '(send_status, self, w) := PumpResponse caller self w in
          (send_status, if IsOk send_status then self <| stats_ := bump responses (stats_ self) |> else self, w).

(** A method's last call, on the object. *)
Definition respond (status : Status) (caller : ExecutionContext) (self : t R) (w : W) : Status * W :=
  let '(status, self, w) := SendResponse status [] caller self w in (status, store this self w).

(** [Accept] from the point where the request is decoded. [message.payload] is a
    view into the receiver's buffer. *)
Definition Accept_request (request : list Z) (deadline_ns receive_time_ns : Z) (caller : ExecutionContext)
    (self : t R) (w : W) : Status * W :=
  if negb (deadline_ns =? 0) && (deadline_ns <=? receive_time_ns) then
    let self := self <| active_ := false |> in
    respond kTimeout caller (self <| stats_ := bump timeouts (stats_ self) |>) w
  else
    let '(status, w) :=
      RpcRef_CallAsync (rpc_of self) Descriptor request deadline_ns (Some complete) (Some caller) (store this self w) in
    let self := load this w in
    if negb (IsOk status) then
      let self := self <| active_ := false |> in
      respond status caller (self <| stats_ := bump rejected (stats_ self) |>) w
    else (kOk, store this (self <| stats_ := bump requests (stats_ self) |>) w).

(** [Accept] from the point where the receiver completed a message. *)
Definition Accept_message (message : ReassembledMessage) (receive_time_ns : Z) (caller : ExecutionContext)
    (self : t R) (w : W) : Status * W :=
  let payload := msg_payload message in
  if active_ self || rpc_detail.SenderBusy (ReliableSender.state_ (response_sender_ self))
  then (kCapacityExceeded, store this (self <| stats_ := bump rejected (stats_ self) |>) w)
  else if (length payload <? kRequestHeaderSize)%nat ||
          (kRequestSize Descriptor <? length payload - kRequestHeaderSize)%nat
  then (kTypeMismatch, store this (self <| stats_ := bump decode_failures (stats_ self) |>) w)
  else
    let self := self <| active_request_id_ := rpc_detail.ReadU32 (take 4 payload) |> in
    let deadline_ns := rpc_detail.ReadU64 (subspan 4 8 payload) in
    if active_request_id_ self =? 0
    then (kInvalidArgument, store this (self <| stats_ := bump decode_failures (stats_ self) |>) w)
    else
      Accept_request (drop kRequestHeaderSize payload) deadline_ns receive_time_ns caller
        (self <| active_sequence_ := msg_sequence message |> <| active_ := true |>) w.

Definition Accept (frame : CanFrame) (receive_time_ns : Z) (caller : ExecutionContext) (w : W) : Status * W :=
  let self := load this w in
  if negb (bound_ self) then (kInvalidState, w)
  else if not_reliable_for route_id_ frame then (kInvalidArgument, w)
  else if bool_decide (GetReliableSubtype (byte_at (data frame) 0) = kAck) then
    let '(status, sender) := ReliableSender.HandleAck frame (response_sender_ self) in
    (status, store this (self <| response_sender_ := sender |>) w)
  else
    let '(receive_status, message, acknowledgement, receiver) :=
      ReliableReceiver.Accept (kRequestPayloadSize Descriptor) frame (request_receiver_ self) in
    let self := self <| request_receiver_ := receiver |> in
    let '(ack_status, w) :=
      if CanProtocol.size acknowledgement =? 0 then (kOk, w)
      else let '(status, _, w) := CanFrameWriter_Send writer_ acknowledgement caller w in (status, w) in
    if negb (IsOk ack_status)
    then (ack_status, store this (self <| stats_ := bump send_failures (stats_ self) |>) w)
    else if negb (IsOk receive_status) then (receive_status, store this self w)
    else Accept_message message receive_time_ns caller self w.

Definition Poll (now_ns : Z) (caller : ExecutionContext) (w : W) : Status * W :=
  let self := load this w in
  let '(status, sender) := ReliableSender.Poll now_ns (response_sender_ self) in
  let self := self <| response_sender_ := sender |> in
  if IsOk status then
    let '(status, self, w) := PumpResponse caller self w in (status, store this self w)
  else (status, store this self w).

Definition ResetPeer (w : W) : W :=
  let self := load this w in
  store this (self <| request_receiver_ := ReliableReceiver.ResetPeerHistory (request_receiver_ self) |>
    <| response_sender_ := ReliableSender.init (kResponsePayloadSize Descriptor) |>
    <| drop_active_response_ := active_ self |>) w.

(** The completion of the calls the server makes: what [complete] denotes. *)
Definition Complete : aster_rpc_completion_t W := fun status response _ context w =>
  match context with
  | None => w
  | Some context =>
      if bool_decide (bv_data response = None) && negb (bv_size response =? 0)%nat then w
      else
        let self := (load this w) <| active_ := false |> in
        if drop_active_response_ self then store this (self <| drop_active_response_ := false |>) w
        else
          let '(sent, self, w) :=
            SendResponse (FromAbiStatus status) (bytes_of response) (FromAbiExecutionContext context) self w in
          store this (if IsOk sent then self else self <| stats_ := bump send_failures (stats_ self) |>) w
  end.
End Server.
End CanRpcServer.

(** ** Lemmas: the codecs *)

(** Every status has a code of its own, and no other byte is one. *)
Lemma rpc_status_roundtrip :
  (forall s, let '(known, code) := rpc_detail.EncodeStatus s in
     known = true /\ is_byte code /\ rpc_detail.DecodeStatus code = (true, s)) /\
  (forall code s, rpc_detail.DecodeStatus code = (true, s) -> rpc_detail.EncodeStatus s = (true, code)).
Proof.
  split; [intros []; cbn; unfold is_byte; (split_and!; (done || lia))|].
  intros code s. unfold rpc_detail.DecodeStatus.
  destruct code as [|code|code]; [by intros [= <-]| |done].
  do 4 (destruct code as [code|code|]; try discriminate; try (by intros [= <-])).
Qed.

(** ** Lemmas: the client *)

Module CanRpcClientFacts.
Import CanRpcClient.
Section Facts.
Context {W C : Type}.
Variable completion_fn : C -> aster_rpc_completion_t W.
Variable Descriptor : ServiceDescriptor.
Variables (route_id_ : Z) (priority_ : CanPriority) (writer_ : CanFrameWriter W) (clock_ : CanClockReader W)
  (retry_timeout_ns_ maximum_retries_ : Z).
Context (Hroute : 0 <= route_id_) (Hretries : 0 <= maximum_retries_ < 256).

(** A call is pending exactly while there is a completion to call, and the
    accepted calls are the completed ones and the pending one, as far as 32-bit
    counters tell. *)
Record inv (self : t C) : Prop := {
  inv_completion : pending_ self = true <-> is_Some (completion_ self);
  inv_count : u32 (accepted (stats_ self)) =
    u32 (completed (stats_ self) + (if pending_ self then 1 else 0));
  inv_sender : ReliableSender.wf (kRequestPayloadSize Descriptor) (request_sender_ self);
  inv_receiver : ReliableReceiver.wf (kResponsePayloadSize Descriptor) (response_receiver_ self);
  inv_payload : length (request_payload_ self) = kRequestPayloadSize Descriptor;
  inv_sequences : 0 <= next_sequence_ self <= 0x0f /\ 0 <= sequence_ self <= 0x0f;
  inv_request_id : 0 <= next_request_id_ self <= UINT32_MAX
}.

(** Two states with the same call. *)
Definition same_call (self self' : t C) : Prop :=
  pending_ self' = pending_ self /\ completion_ self' = completion_ self /\ call_info_ self' = call_info_ self.

(** The counters that make up [inv_count]. *)
Definition same_counts (stats stats' : RpcClientTransportStats) : Prop :=
  accepted stats' = accepted stats /\ completed stats' = completed stats.

Lemma inv_init : inv (init Descriptor).
Proof using Type.
  split; cbn; try done; try lia; [apply ReliableSender.sender_wf_init|
    apply ReliableReceiver.receiver_wf_init|apply zeros_length].
Qed.

(** What most updates keep. *)
Lemma inv_update (self self' : t C) :
  inv self -> same_call self self' -> same_counts (stats_ self) (stats_ self') ->
  ReliableSender.wf (kRequestPayloadSize Descriptor) (request_sender_ self') ->
  ReliableReceiver.wf (kResponsePayloadSize Descriptor) (response_receiver_ self') ->
  request_payload_ self' = request_payload_ self -> next_sequence_ self' = next_sequence_ self ->
  sequence_ self' = sequence_ self -> next_request_id_ self' = next_request_id_ self -> inv self'.
Proof using Type.
  intros [H1 H2 H3 H4 H5 H6 H7] (E1 & E2 & E3) (E4 & E5) Hs Hr E6 E7 E8 E9.
  split; [by rewrite E1, E2|by rewrite E1, E4, E5|done|done|by rewrite E6|by rewrite E7, E8|by rewrite E9].
Qed.

Lemma inv_stats (self : t C) stats :
  inv self -> same_counts (stats_ self) stats -> inv (self <| stats_ := stats |>).
Proof using Type. intros H ?. apply (inv_update self); try apply H; done. Qed.

Lemma inv_request_sender (self : t C) sender :
  inv self -> ReliableSender.wf (kRequestPayloadSize Descriptor) sender -> inv (self <| request_sender_ := sender |>).
Proof using Type. intros H ?. apply (inv_update self); try apply H; done. Qed.

Lemma inv_response_receiver (self : t C) receiver :
  inv self -> ReliableReceiver.wf (kResponsePayloadSize Descriptor) receiver ->
  inv (self <| response_receiver_ := receiver |>).
Proof using Type. intros H ?. apply (inv_update self); try apply H; done. Qed.

(** Taking the call out, completed or withdrawn before it counted. *)
Lemma inv_completed (self : t C) :
  inv self -> pending_ self = true ->
  inv (ClearPending self <| stats_ := bump completed (stats_ (ClearPending self)) |>).
Proof using Type.
  intros [H1 H2 H3 H4 H5 H6 H7] Hp. split; cbn; try done. rewrite Hp in H2.
  rewrite H2, Z.add_0_r. unfold incr32, u32. by rewrite Z.mod_mod.
Qed.

Lemma PumpRequest_spec caller (self : t C) w :
  ReliableSender.wf (kRequestPayloadSize Descriptor) (request_sender_ self) ->
  let '(_, self', w') := PumpRequest writer_ caller self w in
  ReliableSender.writes writer_ caller w w' /\
  exists stats sender, self' = self <| stats_ := stats |> <| request_sender_ := sender |> /\
    same_counts (stats_ self) stats /\ ReliableSender.wf (kRequestPayloadSize Descriptor) sender.
Proof using Type.
  intros Hwf. unfold PumpRequest, ReliableSender.Pump.
  set (on_failed := fun stats : RpcClientTransportStats => bump send_failures stats).
  pose proof (ReliableSender.Pump_loop_effects writer_ caller (fun stats => stats) on_failed
    (same_counts (stats_ self)) (ReliableSender.pump_fuel (request_sender_ self)) (stats_ self)
    (request_sender_ self) w) as He.
  pose proof (ReliableSender.Pump_loop_spec _ writer_ caller (fun stats => stats) on_failed
    (ReliableSender.pump_fuel (request_sender_ self)) (stats_ self) (request_sender_ self) w Hwf
    ltac:(unfold ReliableSender.pump_fuel; lia)) as Hs.
  destruct (ReliableSender.Pump_loop _ _ _ _ _ _ _ _) as [[[status stats] sender] w'].
  destruct Hs as (Hwf' & _). destruct He as [Hc Hw]; [done..|]. split; [done|]. by exists stats, sender.
Qed.

Lemma advance_request_id_range current :
  0 <= current <= UINT32_MAX -> 1 <= advance_request_id current <= UINT32_MAX.
Proof using Type.
  intros H. unfold advance_request_id, u32, UINT32_MAX in *. split_if; bool_hyps.
  - by rewrite E.
  - pose proof (Z.mod_pos_bound (current + 1) (2 ^ 32)). lia.
Qed.

Lemma submitted_eq request deadline completion (self : t C) :
  submitted request deadline completion self =
    let id := advance_request_id (next_request_id_ self) in
    Mk (next_sequence_ self) (u8 (Z.land (next_sequence_ self + 1) 0x0f)) id
      (request_of id deadline request (request_payload_ self)) (request_sender_ self) (response_receiver_ self)
      (Some completion) (MkRpcCallInfo id deadline) (stats_ self) (registered_ self) true (sealed_ self).
Proof using Type. by destruct self. Qed.

Lemma withdrawn_inv request deadline completion (self : t C) stats sender :
  inv self -> pending_ self = false -> same_counts (stats_ self) stats ->
  ReliableSender.wf (kRequestPayloadSize Descriptor) sender ->
  let self' := ClearPending (submitted request deadline completion self) in
  inv (self' <| stats_ := stats |> <| request_sender_ := sender |>).
Proof using Type.
  intros [H1 H2 H3 H4 H5 H6 H7] Hp [E1 E2] Hs. cbn zeta. rewrite submitted_eq. split; cbn; try done.
  - by rewrite E1, E2, H2, Hp.
  - unfold request_of. by rewrite !copy_into_length.
  - rewrite land_0f, u8_small by (pose proof (Z.mod_pos_bound (next_sequence_ self + 1) 16); lia).
    pose proof (Z.mod_pos_bound (next_sequence_ self + 1) 16). lia.
  - pose proof (advance_request_id_range _ H7). lia.
Qed.

Lemma accepted_inv request deadline completion (self : t C) stats sender :
  inv self -> pending_ self = false -> same_counts (stats_ self) stats ->
  ReliableSender.wf (kRequestPayloadSize Descriptor) sender ->
  let self' := submitted request deadline completion self in
  inv (self' <| stats_ := bump accepted stats |> <| request_sender_ := sender |>).
Proof using Type.
  intros Hi Hp [E1 E2] Hs. destruct (withdrawn_inv request deadline completion self stats sender Hi Hp (conj E1 E2) Hs)
    as [_ H2 _ H4 H5 H6 H7]. cbn zeta in *. rewrite submitted_eq in *. cbn in *. split; cbn; try done.
  rewrite Z.add_0_r in H2. unfold incr32, u32 in *. rewrite Z.mod_mod, Z.add_mod, H2, <- Z.add_mod by done. done.
Qed.

Lemma Submit_spec request deadline now completion caller (self : t C) w :
  inv self -> pending_ self = false ->
  let '(status, self', w') :=
    Submit Descriptor route_id_ priority_ writer_ retry_timeout_ns_ maximum_retries_ request deadline now completion
      caller self w in
  ReliableSender.writes writer_ caller w w' /\ inv self' /\
  (status = kOk -> pending_ self' = true /\ completion_ self' = Some completion /\
     call_info_ self' = MkRpcCallInfo (advance_request_id (next_request_id_ self)) deadline) /\
  (status <> kOk -> pending_ self' = false).
Proof using Hroute Hretries.
  intros Hi Hp. unfold Submit.
  pose proof (withdrawn_inv request deadline completion self) as Hwithdrawn.
  pose proof (accepted_inv request deadline completion self) as Haccepted.
  rewrite submitted_eq in *. cbn zeta in *. set (self1 := Mk _ _ _ _ _ _ _ _ _ _ _ _) in *.
  match goal with |- context [ReliableSender.Begin ?K _ _ _ ?pl _ _ _ ?s] => set (payload := pl) end.
  pose proof (ReliableSender.wf_Begin (kRequestPayloadSize Descriptor) route_id_ priority_ (sequence_ self1)
    payload now retry_timeout_ns_ maximum_retries_ (request_sender_ self) Hroute
    ltac:(apply Hi) Hretries (inv_sender _ Hi)) as Hwf.
  change (request_sender_ self1) with (request_sender_ self).
  destruct (ReliableSender.Begin _ _ _ _ _ _ _ _ _) as [begin_status sender]. cbn [snd] in Hwf.
  split_if.
  - split_and!; [done| |by intros ->|done]. cbn [Reject].
    apply (Hwithdrawn _ sender); done.
  - pose proof (PumpRequest_spec caller (self1 <| request_sender_ := sender |>) w Hwf)
      as HP.
    destruct (PumpRequest _ _ _ _) as [[send_status self'] w'].
    destruct HP as (Hw & stats & sender' & -> & Hc & Hwf'). split_if.
    + split_and!; [done| |by intros ->|done].
      pose (failed := bump send_failures stats).
      exact (Hwithdrawn failed (ReliableSender.init (kRequestPayloadSize Descriptor)) Hi Hp Hc (ReliableSender.sender_wf_init _)).
    + split_and!; [done| |done|done].
      apply (Haccepted stats sender'); done.
Qed.
Lemma Reject_spec status (self : t C) :
  inv self -> inv (Reject status self).2 /\ same_call self (Reject status self).2.
Proof using Type. intros Hi. split; [by apply inv_stats|done]. Qed.

Lemma CallAsync_spec d request deadline completion caller (self : t C) w :
  inv self ->
  let '(status, self', w') :=
    CallAsync Descriptor route_id_ priority_ writer_ clock_ retry_timeout_ns_ maximum_retries_ d request deadline
      completion caller self w in
  ReliableSender.writes writer_ caller w w' /\ inv self' /\
  (status = kOk -> pending_ self = false /\ pending_ self' = true /\ completion_ self' = completion /\
     call_info_ self' = MkRpcCallInfo (advance_request_id (next_request_id_ self)) deadline) /\
  (status <> kOk -> if pending_ self then same_call self self' else pending_ self' = false).
Proof using Hroute Hretries.
  intros Hi. unfold CallAsync.
  assert (forall status (self1 : t C), inv self1 -> same_call self self1 -> status <> kOk ->
    let '(status', self', w') := let '(status, self') := Reject status self1 in (status, self', w) in
    ReliableSender.writes writer_ caller w w' /\ inv self' /\
    (status' = kOk -> pending_ self = false /\ pending_ self' = true /\ completion_ self' = completion /\
       call_info_ self' = MkRpcCallInfo (advance_request_id (next_request_id_ self)) deadline) /\
    (status' <> kOk -> if pending_ self then same_call self self' else pending_ self' = false)) as Hrej.
  { intros status self1 Hi1 (E1 & E2 & E3) Hst. destruct (Reject_spec status self1 Hi1) as [Hi2 (E4 & E5 & E6)].
    cbn [Reject fst snd] in *. split_and!; [done|done|done|]. intros _. destruct (pending_ self) eqn:Hp; [|congruence].
    split_and!; congruence. }
  split_if; [by apply Hrej|]. split_if; [by apply Hrej|].
  destruct completion as [completion|]; [|by apply Hrej]. destruct clock_ as [clock|] eqn:Hclock; [|by apply Hrej].
  destruct (CanClockReader_NowNs _ w) as [clock_status now]. split_if; [apply Hrej; [done..|by intros ->]|].
  split_if; [apply Hrej; [by apply inv_stats|done..]|].
  split_if; [by apply Hrej|]. bool_hyps.
  match goal with H : pending_ self = false |- _ => rename H into Hp end.
  pose proof (Submit_spec request deadline now completion caller self w Hi Hp) as HS.
  destruct (Submit _ _ _ _ _ _ _ _ _ _ _ _ _) as [[status self'] w']. rewrite Hp.
  destruct HS as (Hw & Hi' & Hok & Hbad). split_and!; try done. intros H. by destruct (Hok H) as (? & ? & ?).
Qed.

(** *** One call of a method that may complete *)
Variable this : Cell W (t C).
Context `{!CellLaws this}.

(** What such a method does to the object: it leaves the call as it is, or it
    completes it, with the object free before the callback runs. *)
Definition settles (caller : ExecutionContext) (w w' : W) : Prop :=
  let self := load this w in
  exists self' w1, ReliableSender.writes writer_ caller w w1 /\ inv self' /\
    ((same_call self self' /\ w' = store this self' w1) \/
     exists completion status response,
       completion_ self = Some completion /\ pending_ self' = false /\ completion_ self' = None /\
       w' = completion_fn completion status response (Some (ToAbiRpcCallInfo (call_info_ self)))
              (Some (ToAbiExecutionContext caller)) (store this self' w1)).

Lemma settles_store caller w (self' : t C) w1 :
  ReliableSender.writes writer_ caller w w1 -> inv self' -> same_call (load this w) self' ->
  settles caller w (store this self' w1).
Proof using Type. intros ? ? ?. exists self', w1. split_and!; [done..|by left]. Qed.

Lemma settles_none caller w : inv (load this w) -> settles caller w w.
Proof using CellLaws0.
  intros Hi. rewrite <- (store_load (cell := this) w) at 2. by apply settles_store.
Qed.

Lemma complete_with_settles status response caller (self : t C) w w1 :
  ReliableSender.writes writer_ caller w w1 -> inv self -> same_call (load this w) self ->
  pending_ self = true ->
  settles caller w (complete_with completion_fn this status response caller self w1) /\
  exists completion, completion_ self = Some completion /\
    complete_with completion_fn this status response caller self w1 =
      completion_fn completion status response (Some (ToAbiRpcCallInfo (call_info_ self)))
        (Some (ToAbiExecutionContext caller))
        (store this (ClearPending self <| stats_ := bump completed (stats_ (ClearPending self)) |>) w1).
Proof using Type.
  intros Hw Hi (E1 & E2 & E3) Hp. pose proof (inv_completed self Hi Hp) as Hi'.
  destruct (proj1 (inv_completion _ Hi) Hp) as [completion Hc]. unfold complete_with, finish. rewrite Hc.
  split; [|by exists completion].
  eexists _, w1. split; [exact Hw|]. split; [exact Hi'|]. right. exists completion, status, response.
  split_and!; [by rewrite <- E2|done|done|by rewrite E3].
Qed.

Lemma FinishTimeout_settles caller (self : t C) w :
  inv self -> same_call (load this w) self -> pending_ self = true ->
  settles caller w (FinishTimeout completion_fn Descriptor this caller self w) /\
  exists completion self', completion_ self = Some completion /\ pending_ self' = false /\
    request_sender_ self' = ReliableSender.init (kRequestPayloadSize Descriptor) /\ sealed_ self' = sealed_ self /\
    FinishTimeout completion_fn Descriptor this caller self w =
      completion_fn completion ASTER_STATUS_TIMEOUT (AbiBytes None 0) (Some (ToAbiRpcCallInfo (call_info_ self)))
        (Some (ToAbiExecutionContext caller)) (store this self' w).
Proof using Type.
  intros Hi Hc Hp. unfold FinishTimeout.
  match goal with |- context [complete_with _ _ _ _ _ ?s w] => set (self1 := s) end.
  assert (inv self1) as Hi1.
  { unfold self1. apply inv_stats; [|done]. apply inv_request_sender; [done|apply ReliableSender.sender_wf_init]. }
  destruct (complete_with_settles ASTER_STATUS_TIMEOUT (AbiBytes None 0) caller self1 w w) as [Hs (completion & Hk & He)];
    try done.
  split; [exact Hs|]. eexists completion, _. split; [exact Hk|]. split; [|split; [|split; [|exact He]]]; done.
Qed.

Lemma Accept_response_settles message caller (self : t C) w w1 :
  ReliableSender.writes writer_ caller w w1 -> inv self -> same_call (load this w) self ->
  settles caller w (Accept_response completion_fn Descriptor this message caller self w1).2.
Proof using Type.
  intros Hw Hi Hc. unfold Accept_response. split_if.
  { by apply settles_store. }
  pose (failed := self <| stats_ := bump decode_failures (stats_ self) |>).
  assert (settles caller w (store this failed w1)) as Hfail.
  { apply settles_store; [done|by apply inv_stats|done]. }
  split_if; [done|]. destruct (rpc_detail.DecodeStatus _) as [decoded status]. split_if; [done|]. cbn [snd].
  apply complete_with_settles; [done..|by bool_hyps].
Qed.

Lemma Accept_settles frame caller w :
  inv (load this w) ->
  settles caller w (Accept completion_fn Descriptor route_id_ writer_ this frame caller w).2.
Proof using CellLaws0 Hroute Hretries.
  intros Hi. unfold Accept. split_if; [by apply settles_none|]. split_if; [by apply settles_none|]. split_if.
  { pose proof (ReliableSender.wf_HandleAck _ frame _ (inv_sender _ Hi)) as Hwf.
    destruct (ReliableSender.HandleAck _ _) as [status sender]. cbn [snd] in *.
    apply settles_store; [done|by apply inv_request_sender|done]. }
  pose proof (ReliableReceiver.AcceptImpl_spec _ frame 0 false _ (inv_receiver _ Hi)) as Hr.
  unfold ReliableReceiver.Accept.
  destruct (ReliableReceiver.AcceptImpl _ _ _ _ _) as [[[status message] ack] receiver]. destruct Hr as (Hwf & _).
  pose proof (inv_response_receiver _ receiver Hi Hwf) as Hi1.
  match goal with |- context [if CanProtocol.size ack =? 0 then ?a else ?b] =>
    assert (exists ack_status w1, (if CanProtocol.size ack =? 0 then a else b) = (ack_status, w1) /\
      ReliableSender.writes writer_ caller w w1) as (ack_status & w1 & -> & Hw) end.
  { split_if; [by eexists _, _|]. pose proof (ReliableSender.writes_one writer_ caller ack w) as Hw.
    destruct (CanFrameWriter_Send _ _ _ _) as [[? ?] w1]. by eexists _, _. }
  split_if; [|split_if].
  - apply settles_store; [done|by apply inv_stats|done].
  - by apply settles_store.
  - by apply Accept_response_settles.
Qed.

Lemma Poll_settles now caller w :
  inv (load this w) ->
  settles caller w (Poll completion_fn Descriptor writer_ this now caller w).2.
Proof using CellLaws0 Hroute Hretries.
  intros Hi. unfold Poll. split_if; [by apply settles_none|]. split_if; [by apply settles_none|]. bool_hyps.
  split_if; [by apply FinishTimeout_settles|].
  pose proof (ReliableSender.wf_Poll _ now _ (inv_sender _ Hi)) as Hwf.
  destruct (ReliableSender.Poll _ _) as [status sender]. cbn [snd] in Hwf.
  pose proof (inv_request_sender _ sender Hi Hwf) as Hi1.
  split_if; [|split_if].
  - pose proof (PumpRequest_spec caller ((load this w) <| request_sender_ := sender |>) w Hwf) as HP.
    destruct (PumpRequest _ _ _ _) as [[st self'] w']. destruct HP as (Hw & stats & sender' & -> & Hc & Hwf').
    cbn [snd]. apply settles_store; [done| |done].
    apply inv_request_sender; [|done]. by apply inv_stats.
  - by apply FinishTimeout_settles.
  - by apply settles_store.
Qed.

Lemma ResetPeer_settles caller w :
  inv (load this w) ->
  settles caller w (ResetPeer completion_fn Descriptor this caller w).
Proof using Type.
  intros Hi. unfold ResetPeer.
  match goal with |- context [store this ?s w] => set (self1 := s) end.
  assert (inv self1) as Hi1.
  { unfold self1. apply inv_response_receiver.
    - apply inv_request_sender; [done|apply ReliableSender.sender_wf_init].
    - unfold ReliableReceiver.ResetPeerHistory.
      destruct (ReliableReceiver.receiver_wf_Reset _ _ (inv_receiver _ Hi)) as [Hb Hl Hs _ _].
      split; cbn in *; try done; lia. }
  split_if; [by apply settles_store|]. bool_hyps. by apply complete_with_settles.
Qed.
End Facts.
End CanRpcClientFacts.

(** A descriptor is compatible with itself. *)
Lemma SameService_refl d : SameService d d = true.
Proof.
  unfold SameService, SameServiceIdentity, SameType. rewrite !bool_decide_true by done.
  by rewrite ?Z.eqb_refl.
Qed.

(** ** Properties *)


(** A client whose completions add what they are told to a list. *)
Definition sample_service : ServiceDescriptor :=
  MkServiceDescriptor "Reset" SchemaHash_zero (MkTypeDescriptor "Request" SchemaHash_zero 4)
    (MkTypeDescriptor "Response" SchemaHash_zero 4) "".

Record sample_world : Type := MkWorld {
  world_client : CanRpcClient.t unit;
  world_answers : list (Z * list Z);
  world_frames : list CanFrame
}.
#[global] Instance eta_sample_world : Eta sample_world := fun r =>
  MkWorld (world_client r) (world_answers r) (world_frames r).

Definition sample_client : Cell sample_world (CanRpcClient.t unit) :=
  MkCell world_client (fun client w => w <| world_client := client |>).
#[global] Instance sample_client_laws : CellLaws sample_client.
Proof. by split; [|intros []|]. Qed.

Definition sample_emit (frame : CanFrame) (w : sample_world) : sample_world :=
  w <| world_frames := world_frames w ++ [frame] |>.
Definition sample_completion (_ : unit) : aster_rpc_completion_t sample_world := fun status response _ _ w =>
  w <| world_answers := world_answers w ++ [(status, bytes_of response)] |>.
Definition sample_rpc_clock : CanClockReader sample_world := Some (fun _ => (kOk, 100)).
Definition sample_start : sample_world :=
  MkWorld ((CanRpcClient.init sample_service) <| CanRpcClient.sealed_ := true |>) [] [].

(** The call at time 100 with the deadline 150. *)
Definition sample_called : Status * sample_world :=
  let '(status, client, w) :=
    CanRpcClient.CallAsync sample_service 20 kCritical (Some (ReliableSender.emitting sample_emit)) sample_rpc_clock
      50 2 sample_service [7; 8] 150 (Some tt) sample_context (world_client sample_start) sample_start in
  (status, store sample_client client w).

Example sample_call_frames : sample_called.1 = kOk /\ length (world_frames sample_called.2) = 3%nat.
Proof. vm_compute. done. Qed.



(** The frames in which a server answers the sample call, and the client after
    them: its request was never acknowledged. *)
Definition sample_server : Cell (CanRpcServer.t unit * list CanFrame) (CanRpcServer.t unit) :=
  MkCell fst (fun server w => (server, w.2)).
Definition sample_serving : CanRpcServer.t unit * list CanFrame :=
  ((CanRpcServer.init sample_service) <| CanRpcServer.active_request_id_ := 1 |> <| CanRpcServer.active_ := true |>, []).
Definition sample_server_emit (frame : CanFrame) (w : CanRpcServer.t unit * list CanFrame)
    : CanRpcServer.t unit * list CanFrame := (w.1, w.2 ++ [frame]).
Definition sample_server_clock : CanClockReader (CanRpcServer.t unit * list CanFrame) := Some (fun _ => (kOk, 120)).
Definition sample_response_frames : list CanFrame :=
  (CanRpcServer.Complete sample_service 20 kCritical (Some (ReliableSender.emitting sample_server_emit))
     sample_server_clock 50 2 sample_server (ToAbiStatus kOk) (buffer_of [9]) None
     (Some (ToAbiExecutionContext sample_context)) sample_serving).2.
Definition sample_answered : sample_world :=
  foldl (fun w frame =>
    (CanRpcClient.Accept sample_completion sample_service 20 (Some (ReliableSender.emitting sample_emit)) sample_client
       frame sample_context w).2) sample_called.2 sample_response_frames.

Example sample_answer : world_answers sample_answered = [(ToAbiStatus kOk, [9])].
Proof. vm_compute. done. Qed.

#[global] Instance sample_server_laws : CellLaws sample_server.
Proof. by split; [|intros []|]. Qed.

