(* ===== verification/CanRpcPath.v ===== *)
(** RPC over CAN end to end: the request that [CanRpcClient] writes as frames
    becomes one call of the peer's RPC service, and the response that
    [CanRpcServer] writes becomes one call of the client's completion. *)

From S2P Require Export CanRpcBridge.

Local Open Scope Z_scope.

(** ** The device

    A device accepts every frame; what it does with one does not touch the
    object whose frames it carries. *)
Class Device {W A : Type} (this : Cell W A) (emit : CanFrame -> W -> W) : Prop := {
  load_emit : forall frame w, load this (emit frame w) = load this w;
  store_emit : forall frame a w, store this a (emit frame w) = emit frame (store this a w)
}.

Notation emits emit := (Some (ReliableSender.emitting emit)).

Lemma store_emitted {W A} (this : Cell W A) emit `{!Device this emit} frames a w :
  store this a (ReliableSender.emitted emit frames w) = ReliableSender.emitted emit frames (store this a w).
Proof.
  unfold ReliableSender.emitted. revert w. induction frames as [|frame frames IH]; intros w; cbn; [done|].
  by rewrite IH, store_emit.
Qed.

(** An acknowledgement goes out as it is. *)
Lemma Send_ack {W} (emit : CanFrame -> W -> W) arb sequence caller w :
  CanFrameWriter_Send (emits emit) (ReliableReceiver.ack_frame arb sequence) caller w =
    (kOk, None, emit (ReliableReceiver.ack_frame arb sequence) w).
Proof. done. Qed.

(** ** Frames handed one by one to an object

    [accept] is the object's method with its receiver in [get] and [put]; while
    the receiver returns nothing the object only moves its receiver. *)
Fixpoint deliver {W} (accept : Z -> CanFrame -> W -> Status * W) (arrivals : list (Z * CanFrame)) (w : W)
    : list Status * W :=
  match arrivals with
  | [] => ([], w)
  | (time, frame) :: arrivals =>
      let '(status, w) := accept time frame w in
      let '(statuses, w) := deliver accept arrivals w in (status :: statuses, w)
  end.

Section Deliver.
Context {W : Type} (K : nat) (route : Z) (accept : Z -> CanFrame -> W -> Status * W).
Context (good : W -> Prop) (get : W -> ReliableReceiver.t) (put : ReliableReceiver.t -> W -> W).
Context (good_put : forall r w, good w -> good (put r w)).
Context (get_put : forall r w, get (put r w) = r).
Context (put_put : forall r r' w, put r (put r' w) = put r w).
Context (put_get : forall w, put (get w) w = w).
Context (absorbs : forall time frame w r, good w -> reliable_data route frame ->
  ReliableReceiver.Accept K frame (get w) = (ReliableReceiver.nothing kUnavailable, r) ->
  accept time frame w = (kUnavailable, put r w)).

Lemma deliver_absorbs arrivals w r :
  good w -> Forall (fun arrival => reliable_data route arrival.2) arrivals ->
  ReliableReceiver.Accept_all K false arrivals (get w) =
    (replicate (length arrivals) (ReliableReceiver.nothing kUnavailable), r) ->
  deliver accept arrivals w = (replicate (length arrivals) kUnavailable, put r w).
Proof using All.
  intros Hg Hd. revert w Hg. induction Hd as [|[time frame] arrivals Hf Hd IH]; intros w Hg HA.
  - cbn in *. injection HA as <-. by rewrite put_get.
  - cbn [ReliableReceiver.Accept_all length replicate deliver] in *. unfold ReliableReceiver.accept_at in HA.
    destruct (ReliableReceiver.Accept K frame (get w)) as [res r1] eqn:H1.
    destruct (ReliableReceiver.Accept_all K false arrivals r1) as [results r2] eqn:H2.
    injection HA as -> -> ->. rewrite (absorbs time frame w r1) by done.
    rewrite (IH (put r1 w)); [by rewrite put_put|by apply good_put|by rewrite get_put].
Qed.

Lemma deliver_app xs ys w :
  deliver accept (xs ++ ys) w =
    let '(s1, w) := deliver accept xs w in let '(s2, w) := deliver accept ys w in (s1 ++ s2, w).
Proof using Type.
  revert w. induction xs as [|[time frame] xs IH]; intros w; cbn [app deliver].
  - by destruct (deliver accept ys w).
  - destruct (accept time frame w) as [status w1]. rewrite IH.
    destruct (deliver accept xs w1) as [s1 w2]. by destruct (deliver accept ys w2).
Qed.

(** A run whose last frame completes a message. *)
Lemma deliver_completes arrivals time last w res r :
  good w -> Forall (fun arrival => reliable_data route arrival.2) arrivals ->
  ReliableReceiver.Accept_all K false (arrivals ++ [(time, last)]) (get w) =
    (replicate (length arrivals) (ReliableReceiver.nothing kUnavailable) ++ [res], r) ->
  exists r1, ReliableReceiver.Accept K last r1 = (res, r) /\
    deliver accept (arrivals ++ [(time, last)]) w =
      let '(status, w') := accept time last (put r1 w) in
      (replicate (length arrivals) kUnavailable ++ [status], w').
Proof using All.
  intros Hg Hd HA. rewrite ReliableReceiver.receiver_Accept_all_snoc in HA.
  destruct (ReliableReceiver.Accept_all K false arrivals (get w)) as [results r1] eqn:H1.
  unfold ReliableReceiver.accept_at in HA. destruct (ReliableReceiver.Accept K last r1) as [res' r'] eqn:H2.
  injection HA as HA <-. apply app_inj_2 in HA as [-> HA]; [|done]. injection HA as ->.
  exists r1. split; [done|]. rewrite deliver_app, (deliver_absorbs arrivals w r1) by done. cbn [deliver].
  by destruct (accept time last (put r1 w)).
Qed.
End Deliver.

(** ** One message, all of whose fragments arrive *)
Definition covers (n : nat) (order : list nat) (last : nat) (times : list Z) : Prop :=
  Forall (fun i => (i < n)%nat) order /\ (last < n)%nat /\ last ∉ order /\
  (forall j, (j < n)%nat -> j = last \/ j ∈ order) /\ length times = length order.

Definition arrivals_in (wire : nat -> CanFrame) (order : list nat) (last : nat) (times : list Z) (time : Z)
    : list (Z * CanFrame) := zip times (wire <$> order) ++ [(time, wire last)].

(** A receiver between messages that would take this one. *)
Definition ready (K : nat) (arb sequence : Z) (r : ReliableReceiver.t) : Prop :=
  ReliableReceiver.wf K r /\ ReliableReceiver.active_ r = false /\ ReliableReceiver.admissible r arb sequence.

Lemma repeated_ready K arb sequence r :
  ReliableReceiver.wf K r -> ReliableReceiver.active_ r = false -> ReliableReceiver.repeated arb sequence r = true ->
  ready K arb sequence r.
Proof.
  intros Hwf Hact Hrep. split_and!; [done|done|]. intros _ _. unfold ReliableReceiver.repeated in Hrep. bool_hyps.
  rewrite ReliableReceiver.SequenceDistance_mod. replace (sequence - _) with 0 by lia. by vm_compute.
Qed.

(** The frames of one message on the bus. *)
Definition carried (p : CanPriority) (route arb sequence : Z) (payload : list Z) (frames : list CanFrame) : Prop :=
  CanArbitrationId_Encode p route = (kOk, arb) /\ 0 <= sequence <= 0x0f /\ (0 < length payload)%nat /\
  length frames = fragment_count_of (length payload) /\ (length frames <= 16)%nat /\
  forall i, (i < length frames)%nat ->
    ReliableReceiver.carries arb sequence payload i (nth i frames CanFrame_default).

Section Message.
Context (K : nat) (p : CanPriority) (route arb sequence : Z) (payload : list Z) (frames : list CanFrame).
Context (Hroute : 0 <= route) (Hcarried : carried p route arb sequence payload frames).

Let wire : nat -> CanFrame := fun i => nth i frames CanFrame_default.

Lemma carried_reliable i : (i < length frames)%nat -> reliable_data route (wire i).
Proof using Hroute Hcarried.
  destruct Hcarried as (Harb & Hseq & Hpos & Hn & H16 & Hf). intros Hi. rewrite Hn in *.
  apply (carries_reliable_data p route arb sequence payload i); try done. by apply Hf.
Qed.

Lemma arrivals_reliable order times :
  Forall (fun i => (i < length frames)%nat) order ->
  Forall (fun arrival : Z * CanFrame => reliable_data route arrival.2) (zip times (wire <$> order)).
Proof using Hroute Hcarried.
  intros H. revert times. induction H as [|i order Hi H IH]; intros [|t times]; cbn; constructor.
  - by apply carried_reliable.
  - apply IH.
Qed.

(** The receiver returns it at the frame that completes it. *)
Lemma message_arrives order last times time r :
  (length payload <= K)%nat -> ready K arb sequence r -> covers (length frames) order last times ->
  exists r', ReliableReceiver.Accept_all K false (arrivals_in wire order last times time) r =
      (replicate (length (zip times (wire <$> order))) (ReliableReceiver.nothing kUnavailable) ++
         [ReliableReceiver.final_result route arb sequence payload r], r') /\
    ReliableReceiver.wf K r' /\ ReliableReceiver.active_ r' = false /\
    ReliableReceiver.repeated arb sequence r' = true.
Proof using Hroute Hcarried.
  intros HK (Hwf & Hact & Hadm) (H1 & H2 & H3 & H4 & H5).
  destruct Hcarried as (Harb & Hseq & Hpos & Hn & H16 & Hf). rewrite Hn in *.
  rewrite length_zip_with, length_fmap, H5, Nat.min_id.
  assert (arrivals_in wire order last times time =
    ReliableReceiver.arrives wire (times ++ [time]) (order ++ [last])) as ->.
  { unfold ReliableReceiver.arrives, arrivals_in. rewrite fmap_app, zip_with_app by by rewrite length_fmap. done. }
  apply (ReliableReceiver.receiver_Accept_all_delivers K p route arb sequence payload); try done.
  rewrite length_app, H5. cbn. lia.
Qed.
End Message.

(** The run as the object sees it. *)
Lemma deliver_message {W} K p route arb sequence payload frames (accept : Z -> CanFrame -> W -> Status * W)
    (good : W -> Prop) get put order last times time w :
  (forall r w, good w -> good (put r w)) -> (forall r w, get (put r w) = r) ->
  (forall r r' w, put r (put r' w) = put r w) -> (forall w, put (get w) w = w) ->
  (forall time frame w r, good w -> reliable_data route frame ->
     ReliableReceiver.Accept K frame (get w) = (ReliableReceiver.nothing kUnavailable, r) ->
     accept time frame w = (kUnavailable, put r w)) ->
  0 <= route -> carried p route arb sequence payload frames -> (length payload <= K)%nat -> good w ->
  ready K arb sequence (get w) -> covers (length frames) order last times ->
  let wire i := nth i frames CanFrame_default in
  exists r1 r', ReliableReceiver.Accept K (wire last) r1 =
      (ReliableReceiver.final_result route arb sequence payload (get w), r') /\
    reliable_data route (wire last) /\
    ReliableReceiver.wf K r' /\ ReliableReceiver.active_ r' = false /\
    ReliableReceiver.repeated arb sequence r' = true /\
    deliver accept (arrivals_in wire order last times time) w =
      let '(status, w') := accept time (wire last) (put r1 w) in
      (replicate (length order) kUnavailable ++ [status], w').
Proof.
  intros H1 H2 H3 H4 Habs Hroute Hc HK Hg Hr Hcov wire. pose proof Hcov as (Ho & Hl & _ & _ & Ht).
  destruct (message_arrives K p route arb sequence payload frames Hroute Hc order last times time _ HK Hr Hcov)
    as (r' & HA & Hwf & Hact & Hrep).
  destruct (deliver_completes K route accept good get put H1 H2 H3 H4 Habs _ time (wire last) w _ r' Hg
    (arrivals_reliable p route arb sequence payload frames Hroute Hc order times Ho) HA) as (r1 & HA1 & HD).
  exists r1, r'. split; [done|]. split; [by apply (carried_reliable p route arb sequence payload)|].
  split_and!; [done|done|done|]. unfold arrivals_in. fold wire in HD.
  change (fun i => nth i frames CanFrame_default) with wire in HD. rewrite HD.
  rewrite length_zip_with, length_fmap, Ht, Nat.min_id. done.
Qed.

(** A data frame of the route passes the heads of both [Accept]s. *)
Lemma reliable_data_head route frame :
  reliable_data route frame ->
  not_reliable_for route frame = false /\
  bool_decide (GetReliableSubtype (byte_at (data frame) 0) = kAck) = false.
Proof.
  intros ((p & Hr) & Hs & Hk & Hsub). unfold not_reliable_for, rpc_detail.IsForRoute.
  rewrite Hr, Hk, Hsub. cbn [id_route]. rewrite (proj2 (Z.eqb_neq _ _) Hs), Z.eqb_refl, !bool_decide_true by done.
  done.
Qed.

(** ** The request *)

Definition request_bytes (id deadline : Z) (request : list Z) : list Z :=
  rpc_detail.WriteU32 id ++ rpc_detail.WriteU64 deadline ++ request.

Lemma request_bytes_length id deadline request :
  length (request_bytes id deadline request) = (kRequestHeaderSize + length request)%nat.
Proof.
  unfold request_bytes, rpc_detail.WriteU32, rpc_detail.WriteU64. rewrite !length_app, !write_le_length. done.
Qed.

Lemma take_request_of id deadline request payload :
  (kRequestHeaderSize + length request <= length payload)%nat ->
  take (kRequestHeaderSize + length request) (CanRpcClient.request_of id deadline request payload) =
    request_bytes id deadline request.
Proof.
  intros H. rewrite <- (request_bytes_length id deadline). unfold CanRpcClient.request_of, request_bytes.
  unfold kRequestHeaderSize, rpc_detail.WriteU32, rpc_detail.WriteU64 in *.
  pose proof (write_le_length 4 id). pose proof (write_le_length 8 deadline).
  change (copy_into 0 (write_le 4 id) payload) with (copy_into 0 (write_le 4 id) ([] ++ payload)).
  rewrite (copy_into_next 0), (copy_into_next 4), (copy_into_next 12); rewrite ?length_app, ?length_drop; try done; try lia.
  cbn [app]. rewrite <- (app_assoc (write_le 4 id) (write_le 8 deadline) request). apply take_app_length'. by rewrite !length_app.
Qed.

Lemma request_fields id deadline request :
  let payload := request_bytes id deadline request in
  rpc_detail.ReadU32 (take 4 payload) = u32 id /\ rpc_detail.ReadU64 (subspan 4 8 payload) = u64 deadline /\
  drop kRequestHeaderSize payload = request.
Proof.
  unfold request_bytes, rpc_detail.ReadU32, rpc_detail.ReadU64, rpc_detail.WriteU32, rpc_detail.WriteU64. cbn zeta.
  pose proof (write_le_length 4 id). pose proof (write_le_length 8 deadline).
  rewrite (take_app_length' _ _ 4), (subspan_middle (write_le 4 id) _ _ 4 8), !read_write_le by done.
  split; [done|]. split; [done|]. rewrite app_assoc. apply drop_app_length'. by rewrite length_app, H, H0.
Qed.

(** An admitted call goes out as the frames of its request. *)
Section Request.
Context {W C : Type} (emit : CanFrame -> W -> W).
Variables (Descriptor : ServiceDescriptor) (route : Z) (priority : CanPriority) (read : W -> Status * Z)
  (retry retries : Z).
Context (Hroute : 1 <= route <= kMaximumRouteId) (Hretry : retry <> 0) (Hretries : 0 <= retries < 256).
Context (Hsizes : sizes_ok Descriptor).

Lemma CallAsync_sends request deadline k now caller (self : CanRpcClient.t C) w :
  CanRpcClientFacts.inv Descriptor self -> CanRpcClient.sealed_ self = true -> CanRpcClient.pending_ self = false ->
  ReliableSender.busy (CanRpcClient.request_sender_ self) = false ->
  (length request <= kRequestSize Descriptor)%nat -> read w = (kOk, now) -> deadline = 0 \/ now < deadline ->
  let id := CanRpcClient.advance_request_id (CanRpcClient.next_request_id_ self) in
  let sequence := CanRpcClient.next_sequence_ self in
  exists arb frames self',
    CanRpcClient.CallAsync Descriptor route priority (emits emit) (Some read) retry retries Descriptor request
      deadline (Some k) caller self w = (kOk, self', ReliableSender.emitted emit frames w) /\
    carried priority route arb sequence (request_bytes id deadline request) frames /\
    CanRpcClient.pending_ self' = true /\ CanRpcClient.completion_ self' = Some k /\
    CanRpcClient.call_info_ self' = MkRpcCallInfo id deadline /\ CanRpcClient.sequence_ self' = sequence /\
    CanRpcClient.response_receiver_ self' = CanRpcClient.response_receiver_ self /\
    CanRpcClient.sealed_ self' = true /\
    (let '(status, sender) := ReliableSender.HandleAck (ReliableReceiver.ack_frame arb sequence)
       (CanRpcClient.request_sender_ self') in status = kOk /\ ReliableSender.state_ sender = kComplete).
Proof using Hroute Hretry Hretries Hsizes.
  intros Hi Hs Hp Hb Hlen Hread Hd id sequence. unfold CanRpcClient.CallAsync.
  rewrite Hs, SameService_refl. guard_false (kRequestSize Descriptor <? length request)%nat.
  cbn [negb orb CanClockReader_NowNs]. rewrite Hread. cbn [IsOk negb].
  assert ((negb (deadline =? 0) && (deadline <=? now))%bool = false) as ->
    by (destruct Hd as [->|]; [done|]; apply andb_false_iff; right; by apply Z.leb_gt).
  change (rpc_detail.SenderBusy (ReliableSender.state_ (CanRpcClient.request_sender_ self))) with
    (ReliableSender.busy (CanRpcClient.request_sender_ self)). rewrite Hp, Hb. cbn [orb].
  unfold CanRpcClient.Submit. rewrite CanRpcClientFacts.submitted_eq. cbn zeta.
  fold id. fold sequence.
  cbn [CanRpcClient.sequence_ CanRpcClient.request_payload_ CanRpcClient.request_sender_].
  pose proof (CanRpcClientFacts.inv_payload _ _ Hi) as Hpay. pose proof (CanRpcClientFacts.inv_sender _ _ Hi) as Hwf.
  destruct (CanRpcClientFacts.inv_sequences _ _ Hi) as [Hseq _]. fold sequence in Hseq.
  destruct Hsizes as [H96 _].
  assert (kRequestHeaderSize + length request <= kRequestPayloadSize Descriptor)%nat as Hfit
    by (unfold kRequestPayloadSize; lia).
  rewrite take_request_of by by rewrite Hpay.
  pose proof (request_bytes_length id deadline request) as Hbl.
  set (payload := request_bytes id deadline request) in *. unfold kRequestHeaderSize in *.
  pose proof (Begin_accepts (kRequestPayloadSize Descriptor) priority route sequence payload now retry retries
    (CanRpcClient.request_sender_ self) Hroute ltac:(lia) Hretry Hb ltac:(lia) ltac:(lia)) as HB.
  destruct (ReliableSender.Begin _ _ _ _ _ _ _ _ _) as [status sender] eqn:HB1. cbn [fst] in HB. subst status.
  cbn [IsOk negb]. unfold CanRpcClient.PumpRequest.
  cbn [CanRpcClient.stats_ CanRpcClient.request_sender_ set_field].
  match goal with |- context [ReliableSender.Pump _ _ ?f ?g ?st _ _] =>
    destruct (begun_is_emitted (kRequestPayloadSize Descriptor) emit caller f g st w priority route sequence payload
      now retry retries _ sender Hwf ltac:(lia) ltac:(lia) Hretries HB1)
      as (arb & stats & s2 & wire & Harb & HP & Hn & Hf & Hwf2 & Hh & Hst & Hq & Hl & H16) end.
  rewrite HP. cbn [IsOk negb].
  exists arb, wire. eexists. split; [reflexivity|]. split.
  { split_and!; try done; lia. }
  split_and!; try done.
  pose proof (HandleAck_completes priority route arb sequence payload s2 ltac:(lia) Harb Hseq Hh Hst) as Hack.
  cbn zeta in Hack. cbn [CanRpcClient.request_sender_ set_field].
  destruct (ReliableSender.HandleAck _ s2) as [status s3]. exact Hack.
Qed.
End Request.

(** The peer's server hands the request to its RPC service. *)
Section Serving.
Context {W C R : Type} (rpc_at : R -> RpcRef W C) (emit : CanFrame -> W -> W).
Variables (Descriptor : ServiceDescriptor) (route : Z) (priority : CanPriority) (clock : CanClockReader W)
  (retry retries : Z) (this : Cell W (CanRpcServer.t R)) (complete : C).
Context `{!CellLaws this, !Device this emit}.
Context (Hroute : 0 <= route).

Let Accept (caller : ExecutionContext) (time : Z) (frame : CanFrame) (w : W) : Status * W :=
  CanRpcServer.Accept rpc_at Descriptor route priority (emits emit) clock retry retries this complete frame time caller w.
Let get (w : W) : ReliableReceiver.t := CanRpcServer.request_receiver_ (load this w).
Let put (r : ReliableReceiver.t) (w : W) : W :=
  store this ((load this w) <| CanRpcServer.request_receiver_ := r |>) w.
Let K : nat := kRequestPayloadSize Descriptor.

(** The head of [Accept] on a data frame. *)
Lemma Server_Accept_data caller time frame w :
  CanRpcServer.bound_ (load this w) = true -> reliable_data route frame ->
  Accept caller time frame w =
    let '(status, message, ack, r) := ReliableReceiver.Accept K frame (get w) in
    let self := (load this w) <| CanRpcServer.request_receiver_ := r |> in
    let w := if CanProtocol.size ack =? 0 then w
             else emit (ack <| write_completion := None |> <| write_token := 0 |>) w in
    if negb (IsOk status) then (status, store this self w)
    else CanRpcServer.Accept_message rpc_at Descriptor route priority (emits emit) clock retry retries this complete
           message time caller self w.
Proof using Type.
  intros Hb [Hn Hk]%reliable_data_head. unfold Accept, CanRpcServer.Accept. rewrite Hb, Hn, Hk. cbn [negb].
  fold K. fold (get w). destruct (ReliableReceiver.Accept K frame (get w)) as [[[status message] ack] r].
  destruct (CanProtocol.size ack =? 0); [done|]. cbn [CanFrameWriter_Send ReliableSender.emitting]. done.
Qed.

Lemma Server_absorbs caller time frame w r :
  CanRpcServer.bound_ (load this w) = true -> reliable_data route frame ->
  ReliableReceiver.Accept K frame (get w) = (ReliableReceiver.nothing kUnavailable, r) ->
  Accept caller time frame w = (kUnavailable, put r w).
Proof using Type. intros Hb Hd HA. by rewrite Server_Accept_data, HA by done. Qed.

(** What [Accept] does with a request in time. *)
Definition serve (caller : ExecutionContext) (request : list Z) (deadline : Z) (self : CanRpcServer.t R) (w : W)
    : Status * W :=
  let '(status, w) :=
    RpcRef_CallAsync (CanRpcServer.rpc_of rpc_at self) Descriptor request deadline (Some complete) (Some caller)
      (store this self w) in
  if IsOk status then
    (kOk, store this ((load this w)
            <| CanRpcServer.stats_ := bump CanRpcServer.requests (CanRpcServer.stats_ (load this w)) |>) w)
  else
    let self := (load this w) <| CanRpcServer.active_ := false |> in
    CanRpcServer.respond Descriptor route priority (emits emit) clock retry retries this status caller
      (self <| CanRpcServer.stats_ := bump CanRpcServer.rejected (CanRpcServer.stats_ self) |>) w.

Lemma Accept_message_serves caller id deadline request sequence time (self : CanRpcServer.t R) w :
  CanRpcServer.active_ self = false -> ReliableSender.busy (CanRpcServer.response_sender_ self) = false ->
  1 <= id <= UINT32_MAX -> 0 <= deadline <= UINT64_MAX -> (length request <= kRequestSize Descriptor)%nat ->
  deadline = 0 \/ time < deadline ->
  exists self',
    CanRpcServer.Accept_message rpc_at Descriptor route priority (emits emit) clock retry retries this complete
      (MkReassembledMessage route sequence (request_bytes id deadline request)) time caller self w =
      serve caller request deadline self' w /\
    CanRpcServer.active_ self' = true /\ CanRpcServer.active_request_id_ self' = id /\
    CanRpcServer.active_sequence_ self' = sequence /\ CanRpcServer.rpc_ self' = CanRpcServer.rpc_ self /\
    CanRpcServer.request_receiver_ self' = CanRpcServer.request_receiver_ self /\
    CanRpcServer.response_sender_ self' = CanRpcServer.response_sender_ self /\
    CanRpcServer.response_payload_ self' = CanRpcServer.response_payload_ self /\
    CanRpcServer.bound_ self' = CanRpcServer.bound_ self /\
    CanRpcServer.drop_active_response_ self' = CanRpcServer.drop_active_response_ self.
Proof using Type.
  intros Ha Hb Hid Hdl Hlen Ht. unfold CanRpcServer.Accept_message. cbn [msg_payload msg_sequence].
  change (rpc_detail.SenderBusy (ReliableSender.state_ (CanRpcServer.response_sender_ self))) with
    (ReliableSender.busy (CanRpcServer.response_sender_ self)). rewrite Ha, Hb. cbn [orb].
  pose proof (request_bytes_length id deadline request) as Hl.
  destruct (request_fields id deadline request) as (Hid' & Hdl' & Hreq).
  guard_false ((length (request_bytes id deadline request) <? kRequestHeaderSize)%nat ||
    (kRequestSize Descriptor <? length (request_bytes id deadline request) - kRequestHeaderSize)%nat)%bool.
  rewrite Hid', Hdl', Hreq. unfold UINT32_MAX, UINT64_MAX in *. rewrite u32_small, u64_small by lia.
  cbn [CanRpcServer.active_request_id_ set_field]. guard_false (id =? 0). unfold CanRpcServer.Accept_request.
  assert ((negb (deadline =? 0) && (deadline <=? time))%bool = false) as ->
    by (destruct Ht as [->|]; [done|]; apply andb_false_iff; right; by apply Z.leb_gt).
  match goal with |- context [store this ?s w] => exists s end.
  split; [|done]. unfold serve. destruct (RpcRef_CallAsync _ _ _ _ _ _ _) as [status w2].
  by destruct (IsOk status) eqn:E.
Qed.

(** A first delivery is served; a repeated one is acknowledged. *)
Lemma Server_serves p arb id deadline request sequence frames caller order last times time w :
  carried p route arb sequence (request_bytes id deadline request) frames ->
  CanRpcServer.bound_ (load this w) = true -> ready K arb sequence (get w) ->
  ReliableReceiver.repeated arb sequence (get w) = false -> covers (length frames) order last times ->
  CanRpcServer.active_ (load this w) = false ->
  ReliableSender.busy (CanRpcServer.response_sender_ (load this w)) = false ->
  1 <= id <= UINT32_MAX -> 0 <= deadline <= UINT64_MAX -> (length request <= kRequestSize Descriptor)%nat ->
  deadline = 0 \/ time < deadline ->
  exists self',
    deliver (Accept caller) (arrivals_in (fun i => nth i frames CanFrame_default) order last times time) w =
      (let '(final, w') := serve caller request deadline self' (emit (ReliableReceiver.ack_frame arb sequence) w) in
       (replicate (length order) kUnavailable ++ [final], w')) /\
    CanRpcServer.active_ self' = true /\ CanRpcServer.active_request_id_ self' = id /\
    CanRpcServer.active_sequence_ self' = sequence /\ CanRpcServer.rpc_ self' = CanRpcServer.rpc_ (load this w) /\
    ReliableReceiver.repeated arb sequence (CanRpcServer.request_receiver_ self') = true /\
    ReliableReceiver.wf K (CanRpcServer.request_receiver_ self') /\
    ReliableReceiver.active_ (CanRpcServer.request_receiver_ self') = false /\
    CanRpcServer.response_sender_ self' = CanRpcServer.response_sender_ (load this w) /\
    CanRpcServer.response_payload_ self' = CanRpcServer.response_payload_ (load this w) /\
    CanRpcServer.bound_ self' = true /\
    CanRpcServer.drop_active_response_ self' = CanRpcServer.drop_active_response_ (load this w).
Proof using All.
  intros Hc Hb Hr Hrep Hcov Ha Hbusy Hid Hdl Hlen Ht.
  destruct (deliver_message K p route arb sequence (request_bytes id deadline request) frames (Accept caller)
    (fun w => CanRpcServer.bound_ (load this w) = true) get put order last times time w)
    as (r1 & r' & HA & Hrd & Hwf & Hact & Hrep' & HD); try done.
  - intros r w0 H0. unfold put. by rewrite load_store.
  - intros r w0. unfold get, put. by rewrite load_store.
  - intros r r' w0. unfold put. by rewrite load_store, store_store.
  - intros w0. unfold put, get. destruct (load this w0) eqn:E. cbn. rewrite <- E. apply store_load.
  - intros time0 frame w0 r H0 H1 H2. by apply Server_absorbs.
  - rewrite request_bytes_length. unfold K, kRequestPayloadSize. lia.
  - rewrite HD. clear HD. unfold ReliableReceiver.final_result in HA. rewrite Hrep in HA.
    rewrite Server_Accept_data by (done || unfold put; by rewrite load_store).
    assert (get (put r1 w) = r1) as -> by (unfold get, put; by rewrite load_store).
    rewrite HA. cbn [IsOk negb].
    match goal with |- context [CanRpcServer.Accept_message _ _ _ _ _ _ _ _ _ _ _ _ _ ?s ?w0] =>
      set (self1 := s); set (w1 := w0) end.
    assert (CanRpcServer.active_ self1 = false) as Ha1 by (unfold self1, put; by rewrite load_store).
    assert (CanRpcServer.response_sender_ self1 = CanRpcServer.response_sender_ (load this w)) as Hs1
      by (unfold self1, put; by rewrite load_store).
    destruct (Accept_message_serves caller id deadline request sequence time self1 w1 Ha1 ltac:(by rewrite Hs1) Hid Hdl
      Hlen Ht) as (self' & -> & H1 & H2 & H3 & H4 & H5 & H6 & H7 & H8 & H9).
    exists self'. split.
    + assert (store this self' w1 = store this self' (emit (ReliableReceiver.ack_frame arb sequence) w)) as Hw
        by (change w1 with (emit (ReliableReceiver.ack_frame arb sequence) (put r1 w)); unfold put;
            by rewrite !store_emit, store_store).
      unfold serve. by rewrite Hw.
    + rewrite H4, H5, H6, H7, H8, H9. unfold self1, put. rewrite load_store. by split_and!.
Qed.

Lemma Server_repeats p arb sequence payload frames caller order last times time w :
  carried p route arb sequence payload frames -> (length payload <= K)%nat ->
  CanRpcServer.bound_ (load this w) = true -> ReliableReceiver.wf K (get w) ->
  ReliableReceiver.active_ (get w) = false -> ReliableReceiver.repeated arb sequence (get w) = true ->
  covers (length frames) order last times ->
  exists r', deliver (Accept caller) (arrivals_in (fun i => nth i frames CanFrame_default) order last times time) w =
    (replicate (length order) kUnavailable ++ [kUnavailable],
     store this ((load this w) <| CanRpcServer.request_receiver_ := r' |>)
       (emit (ReliableReceiver.ack_frame arb sequence) w)).
Proof using All.
  intros Hc HK Hb Hwf Hact Hrep Hcov.
  destruct (deliver_message K p route arb sequence payload frames (Accept caller)
    (fun w => CanRpcServer.bound_ (load this w) = true) get put order last times time w)
    as (r1 & r' & HA & Hrd & Hwf' & Hact' & Hrep' & HD); try done.
  - intros r w0 H0. unfold put. by rewrite load_store.
  - intros r w0. unfold get, put. by rewrite load_store.
  - intros r r' w0. unfold put. by rewrite load_store, store_store.
  - intros w0. unfold put, get. destruct (load this w0) eqn:E. cbn. rewrite <- E. apply store_load.
  - intros time0 frame w0 r H0 H1 H2. by apply Server_absorbs.
  - by apply repeated_ready.
  - exists r'. rewrite HD. clear HD. unfold ReliableReceiver.final_result in HA. rewrite Hrep in HA.
    rewrite Server_Accept_data by (done || unfold put; by rewrite load_store).
    assert (get (put r1 w) = r1) as -> by (unfold get, put; by rewrite load_store).
    rewrite HA. cbn [IsOk negb].
    match goal with |- context [store this _ ?w0] =>
      change w0 with (emit (ReliableReceiver.ack_frame arb sequence) (put r1 w)) end.
    unfold put. by rewrite load_store, !store_emit, store_store.
Qed.
End Serving.

(** ** The response *)

Definition response_bytes (code id : Z) (response : list Z) : list Z :=
  code :: rpc_detail.WriteU32 id ++ response.

Lemma response_bytes_length code id response :
  length (response_bytes code id response) = (kResponseHeaderSize + length response)%nat.
Proof. unfold response_bytes, rpc_detail.WriteU32. cbn. by rewrite length_app, write_le_length. Qed.

Lemma take_response_of code id response payload :
  (kResponseHeaderSize + length response <= length payload)%nat ->
  take (kResponseHeaderSize + length response) (CanRpcServer.response_of code id response payload) =
    response_bytes code id response.
Proof.
  intros H. unfold CanRpcServer.response_of, rpc_detail.WriteU32, kResponseHeaderSize in *.
  destruct payload as [|b payload]; [cbn in H; lia|]. pose proof (write_le_length 4 id).
  change (<[0%nat := code]> (b :: payload)) with ([code] ++ payload). cbn [length] in H.
  rewrite (copy_into_next 1), (copy_into_next 5); rewrite ?length_app, ?length_drop; try done; try (cbn; lia).
  unfold response_bytes, rpc_detail.WriteU32.
  change (code :: write_le 4 id ++ response) with ([code] ++ write_le 4 id ++ response).
  rewrite (app_assoc [code]). apply take_app_length'. rewrite !length_app. cbn. lia.
Qed.

Lemma response_fields code id response :
  let payload := response_bytes code id response in
  byte_at payload 0 = code /\ rpc_detail.ReadU32 (subspan 1 4 payload) = u32 id /\
  drop kResponseHeaderSize payload = response.
Proof.
  unfold response_bytes, rpc_detail.ReadU32, rpc_detail.WriteU32. cbn zeta. pose proof (write_le_length 4 id).
  split; [done|]. change (code :: write_le 4 id ++ response) with ([code] ++ write_le 4 id ++ response).
  rewrite (subspan_middle [code] _ _ 1 4), read_write_le by done. split; [done|].
  rewrite app_assoc. apply drop_app_length'. by rewrite length_app, H.
Qed.

Section Responding.
Context {W C R : Type} (emit : CanFrame -> W -> W).
Variables (Descriptor : ServiceDescriptor) (route : Z) (priority : CanPriority) (clock : CanClockReader W)
  (retry retries : Z) (this : Cell W (CanRpcServer.t R)).
Context (Hroute : 1 <= route <= kMaximumRouteId) (Hretry : retry <> 0) (Hretries : 0 <= retries < 256).
Context (Hsizes : sizes_ok Descriptor).

(** The completion of the server's call sends the answer. *)
Lemma Complete_sends status response info context now w :
  let self := load this w in let id := CanRpcServer.active_request_id_ self in
  let sequence := CanRpcServer.active_sequence_ self in
  CanRpcServer.drop_active_response_ self = false -> 0 <= sequence <= 0x0f ->
  length (CanRpcServer.response_payload_ self) = kResponsePayloadSize Descriptor ->
  ReliableSender.wf (kResponsePayloadSize Descriptor) (CanRpcServer.response_sender_ self) ->
  ReliableSender.busy (CanRpcServer.response_sender_ self) = false ->
  (length response <= kResponseSize Descriptor)%nat -> IsOk status = true \/ response = [] ->
  CanClockReader_NowNs clock w = (kOk, now) ->
  exists code arb frames self',
    rpc_detail.EncodeStatus status = (true, code) /\
    CanRpcServer.Complete Descriptor route priority (emits emit) clock retry retries this (ToAbiStatus status)
      (buffer_of response) info (Some context) w = store this self' (ReliableSender.emitted emit frames w) /\
    carried priority route arb sequence (response_bytes code id response) frames /\
    CanRpcServer.active_ self' = false /\
    (let '(acked, sender) := ReliableSender.HandleAck (ReliableReceiver.ack_frame arb sequence)
       (CanRpcServer.response_sender_ self') in acked = kOk /\ ReliableSender.state_ sender = kComplete).
Proof using Hroute Hretry Hretries Hsizes.
  intros self id sequence Hdrop Hseq Hpay Hwf Hb Hlen Hst Hclock. destruct Hsizes as [_ H96].
  unfold CanRpcServer.Complete. cbn [bv_data buffer_of bv_size]. rewrite bool_decide_eq_false_2 by done. cbn [andb].
  fold self. cbn [CanRpcServer.drop_active_response_ set_field]. rewrite Hdrop, FromAbiStatus_ToAbi.
  rewrite bytes_of_buffer. unfold CanRpcServer.SendResponse.
  assert (((kResponseSize Descriptor <? length response)%nat ||
    (negb (IsOk status) && negb (length response =? 0)%nat))%bool = false) as ->.
  { guard_false (kResponseSize Descriptor <? length response)%nat.
    destruct Hst as [->| ->]; [done|]. apply andb_false_r. }
  pose proof (proj1 rpc_status_roundtrip status) as Hcode.
  destruct (rpc_detail.EncodeStatus status) as [known code]. destruct Hcode as (-> & _ & _). cbn [negb].
  rewrite Hclock. cbn [IsOk negb CanRpcServer.response_payload_ CanRpcServer.active_sequence_
    CanRpcServer.active_request_id_ CanRpcServer.response_sender_ set_field].
  fold id. fold sequence.
  assert (kResponseHeaderSize + length response <= kResponsePayloadSize Descriptor)%nat as Hfit
    by (unfold kResponsePayloadSize; lia).
  rewrite take_response_of by by rewrite Hpay.
  pose proof (response_bytes_length code id response) as Hbl.
  set (payload := response_bytes code id response) in *. unfold kResponseHeaderSize in *.
  pose proof (Begin_accepts (kResponsePayloadSize Descriptor) priority route sequence payload now retry retries
    (CanRpcServer.response_sender_ self) Hroute ltac:(lia) Hretry Hb ltac:(lia) ltac:(lia)) as HB.
  destruct (ReliableSender.Begin _ _ _ _ _ _ _ _ _) as [begin_status sender] eqn:HB1. cbn [fst] in HB.
  subst begin_status. cbn [IsOk negb]. unfold CanRpcServer.PumpResponse.
  cbn [CanRpcServer.stats_ CanRpcServer.response_sender_ set_field].
  match goal with |- context [ReliableSender.Pump _ ?c ?f ?g ?st _ _] =>
    destruct (begun_is_emitted (kResponsePayloadSize Descriptor) emit c f g st w priority route sequence payload
      now retry retries _ sender Hwf ltac:(lia) ltac:(lia) Hretries HB1)
      as (arb & stats & s2 & wire & Harb & HP & Hn & Hf & Hwf2 & Hh & Hs2 & Hq & Hl & H16) end.
  rewrite HP. cbn [IsOk negb].
  exists code, arb, wire. eexists. split; [done|]. split; [reflexivity|]. split.
  { fold payload. split_and!; try done; lia. }
  split; [done|].
  pose proof (HandleAck_completes priority route arb sequence payload s2 ltac:(lia) Harb Hseq Hh Hs2) as Hack.
  cbn zeta in Hack. cbn [CanRpcServer.response_sender_ set_field].
  destruct (ReliableSender.HandleAck _ s2) as [acked s3]. exact Hack.
Qed.
End Responding.

(** The client that waits for it calls the completion. *)
Section Completing.
Context {W C : Type} (completion_fn : C -> aster_rpc_completion_t W) (emit : CanFrame -> W -> W).
Variables (Descriptor : ServiceDescriptor) (route : Z) (this : Cell W (CanRpcClient.t C)).
Context `{!CellLaws this, !Device this emit}.
Context (Hroute : 0 <= route).

Let Accept (caller : ExecutionContext) (_ : Z) (frame : CanFrame) (w : W) : Status * W :=
  CanRpcClient.Accept completion_fn Descriptor route (emits emit) this frame caller w.
Let get (w : W) : ReliableReceiver.t := CanRpcClient.response_receiver_ (load this w).
Let put (r : ReliableReceiver.t) (w : W) : W :=
  store this ((load this w) <| CanRpcClient.response_receiver_ := r |>) w.
Let K : nat := kResponsePayloadSize Descriptor.

Lemma Client_Accept_data caller time frame w :
  CanRpcClient.sealed_ (load this w) = true -> reliable_data route frame ->
  Accept caller time frame w =
    let '(status, message, ack, r) := ReliableReceiver.Accept K frame (get w) in
    let self := (load this w) <| CanRpcClient.response_receiver_ := r |> in
    let w := if CanProtocol.size ack =? 0 then w
             else emit (ack <| write_completion := None |> <| write_token := 0 |>) w in
    if negb (IsOk status) then (status, store this self w)
    else CanRpcClient.Accept_response completion_fn Descriptor this message caller self w.
Proof using Type.
  intros Hb [Hn Hk]%reliable_data_head. unfold Accept, CanRpcClient.Accept. rewrite Hb, Hn, Hk. cbn [negb].
  fold K. fold (get w). destruct (ReliableReceiver.Accept K frame (get w)) as [[[status message] ack] r].
  destruct (CanProtocol.size ack =? 0); [done|]. cbn [CanFrameWriter_Send ReliableSender.emitting]. done.
Qed.

Lemma Client_absorbs caller time frame w r :
  CanRpcClient.sealed_ (load this w) = true -> reliable_data route frame ->
  ReliableReceiver.Accept K frame (get w) = (ReliableReceiver.nothing kUnavailable, r) ->
  Accept caller time frame w = (kUnavailable, put r w).
Proof using Type. intros Hb Hd HA. by rewrite Client_Accept_data, HA by done. Qed.

(** A run of deliveries up to the frame that completes the message. *)
Lemma Client_deliver p arb sequence payload frames caller order last times time w :
  carried p route arb sequence payload frames -> (length payload <= K)%nat ->
  CanRpcClient.sealed_ (load this w) = true -> ready K arb sequence (get w) -> covers (length frames) order last times ->
  exists r1 r', ReliableReceiver.wf K r' /\ ReliableReceiver.active_ r' = false /\
    ReliableReceiver.repeated arb sequence r' = true /\
    deliver (Accept caller) (arrivals_in (fun i => nth i frames CanFrame_default) order last times time) w =
      let self := (load this w) <| CanRpcClient.response_receiver_ := r' |> in
      let w1 := emit (ReliableReceiver.ack_frame arb sequence) (put r1 w) in
      let '(final, w') :=
        if ReliableReceiver.repeated arb sequence (get w) then (kUnavailable, store this self w1)
        else CanRpcClient.Accept_response completion_fn Descriptor this (MkReassembledMessage route sequence payload)
               caller self w1 in
      (replicate (length order) kUnavailable ++ [final], w').
Proof using All.
  intros Hc HK Hb Hr Hcov.
  destruct (deliver_message K p route arb sequence payload frames (Accept caller)
    (fun w => CanRpcClient.sealed_ (load this w) = true) get put order last times time w)
    as (r1 & r' & HA & Hrd & Hwf & Hact & Hrep' & HD); try done.
  - intros r w0 H0. unfold put. by rewrite load_store.
  - intros r w0. unfold get, put. by rewrite load_store.
  - intros r r' w0. unfold put. by rewrite load_store, store_store.
  - intros w0. unfold put, get. destruct (load this w0) eqn:E. cbn. rewrite <- E. apply store_load.
  - intros time0 frame w0 r H0 H1 H2. by apply Client_absorbs.
  - exists r1, r'. split; [done|]. split; [done|]. split; [done|]. rewrite HD. cbn zeta.
    rewrite Client_Accept_data by (done || unfold put; by rewrite load_store).
    assert (get (put r1 w) = r1) as -> by (unfold get, put; by rewrite load_store).
    rewrite HA. assert (load this (put r1 w) = (load this w) <| CanRpcClient.response_receiver_ := r1 |>) as ->
      by (unfold put; by rewrite load_store).
    unfold ReliableReceiver.final_result. by destruct (ReliableReceiver.repeated arb sequence (get w)).
Qed.

Lemma store_acknowledged a ack r w : store this a (emit ack (put r w)) = store this a (emit ack w).
Proof using CellLaws0 Device0. unfold put. by rewrite !store_emit, store_store. Qed.

Lemma Client_completes p arb sequence status code id response frames k caller order last times time w :
  let self := load this w in
  carried p route arb sequence (response_bytes code id response) frames ->
  CanRpcClient.sealed_ self = true -> ready K arb sequence (get w) ->
  ReliableReceiver.repeated arb sequence (get w) = false -> covers (length frames) order last times ->
  CanRpcClient.pending_ self = true -> CanRpcClient.completion_ self = Some k ->
  CanRpcClient.sequence_ self = sequence -> request_id (CanRpcClient.call_info_ self) = id ->
  0 <= id <= UINT32_MAX -> rpc_detail.EncodeStatus status = (true, code) ->
  (length response <= kResponseSize Descriptor)%nat -> IsOk status = true \/ response = [] ->
  exists self',
    deliver (Accept caller) (arrivals_in (fun i => nth i frames CanFrame_default) order last times time) w =
      (replicate (length order) kUnavailable ++ [kOk],
       completion_fn k (ToAbiStatus status) (buffer_of response) (Some (ToAbiRpcCallInfo (CanRpcClient.call_info_ self)))
         (Some (ToAbiExecutionContext caller)) (store this self' (emit (ReliableReceiver.ack_frame arb sequence) w))) /\
    CanRpcClient.pending_ self' = false /\ CanRpcClient.sealed_ self' = true /\
    CanRpcClient.request_sender_ self' = CanRpcClient.request_sender_ self /\
    ReliableReceiver.wf K (CanRpcClient.response_receiver_ self') /\
    ReliableReceiver.active_ (CanRpcClient.response_receiver_ self') = false /\
    ReliableReceiver.repeated arb sequence (CanRpcClient.response_receiver_ self') = true.
Proof using All.
  intros self Hc Hs Hr Hrep Hcov Hp Hk Hseq Hid Hidr Hcode Hlen Hst.
  pose proof (response_bytes_length code id response) as Hbl.
  destruct (Client_deliver p arb sequence (response_bytes code id response) frames caller order last times time w)
    as (r1 & r' & Hwf & Hact & Hrep' & ->); try done.
  { rewrite Hbl. unfold K, kResponsePayloadSize. lia. }
  cbn zeta. rewrite Hrep. fold self. unfold CanRpcClient.Accept_response. cbn [msg_payload msg_sequence].
  cbn [CanRpcClient.pending_ CanRpcClient.sequence_ CanRpcClient.call_info_ set_field].
  destruct (response_fields code id response) as (Hc0 & Hi0 & Hd0).
  unfold UINT32_MAX in Hidr. rewrite Hp, Hseq, Hid, Hi0, u32_small, !Z.eqb_refl, Hc0, Hd0, Hbl by lia.
  guard_false (kResponseHeaderSize + length response <? kResponseHeaderSize)%nat. cbn [negb orb].
  pose proof (proj1 rpc_status_roundtrip status) as Hround. rewrite Hcode in Hround.
  destruct Hround as (_ & _ & ->). cbn [negb orb].
  assert ((IsOk status && (kResponseSize Descriptor <? kResponseHeaderSize + length response - kResponseHeaderSize)%nat
    || negb (IsOk status) && negb (kResponseHeaderSize + length response =? kResponseHeaderSize)%nat)%bool = false) as ->.
  { guard_false (kResponseSize Descriptor <? kResponseHeaderSize + length response - kResponseHeaderSize)%nat.
    rewrite andb_false_r. destruct Hst as [->| ->]; [done|]. apply andb_false_r. }
  unfold CanRpcClient.complete_with. cbn [CanRpcClient.completion_ CanRpcClient.call_info_ set_field]. rewrite Hk.
  cbn [CanRpcClient.finish]. rewrite store_acknowledged. eexists. split; [reflexivity|]. done.
Qed.

Lemma Client_repeats p arb sequence payload frames caller order last times time w :
  carried p route arb sequence payload frames -> (length payload <= K)%nat ->
  CanRpcClient.sealed_ (load this w) = true -> ReliableReceiver.wf K (get w) ->
  ReliableReceiver.active_ (get w) = false -> ReliableReceiver.repeated arb sequence (get w) = true ->
  covers (length frames) order last times ->
  exists r', deliver (Accept caller) (arrivals_in (fun i => nth i frames CanFrame_default) order last times time) w =
    (replicate (length order) kUnavailable ++ [kUnavailable],
     store this ((load this w) <| CanRpcClient.response_receiver_ := r' |>)
       (emit (ReliableReceiver.ack_frame arb sequence) w)).
Proof using All.
  intros Hc HK Hb Hwf Hact Hrep Hcov.
  destruct (Client_deliver p arb sequence payload frames caller order last times time w)
    as (r1 & r' & _ & _ & _ & ->); try done; [by apply repeated_ready|].
  exists r'. cbn zeta. by rewrite Hrep, store_acknowledged.
Qed.
End Completing.

(** ** Properties *)

(** C22: a call made through the CAN client becomes exactly one call on the
    peer. An admitted call is written as the frames of its request, and the
    acknowledgement completes its sender. A server that has all of them, in any order and
    with repetitions, acknowledges, notes the identifier and the sequence number,
    and then calls its node's RPC service with the request's bytes and deadline; a
    refusal is answered at once with its status. When the frames come again, the
    server acknowledges again and calls nothing. *)
Theorem can_rpc_request_delivery {W1 C1} (emit1 : CanFrame -> W1 -> W1) Descriptor route priority read retry retries
    request deadline (k : C1) now caller (client : CanRpcClient.t C1) w :
  1 <= route <= kMaximumRouteId -> retry <> 0 -> 0 <= retries < 256 -> sizes_ok Descriptor ->
  CanRpcClientFacts.inv Descriptor client -> CanRpcClient.sealed_ client = true ->
  CanRpcClient.pending_ client = false -> ReliableSender.busy (CanRpcClient.request_sender_ client) = false ->
  (length request <= kRequestSize Descriptor)%nat -> read w = (kOk, now) -> 0 <= deadline <= UINT64_MAX ->
  deadline = 0 \/ now < deadline ->
  let id := CanRpcClient.advance_request_id (CanRpcClient.next_request_id_ client) in
  let sequence := CanRpcClient.next_sequence_ client in
  exists arb frames client',
    CanRpcClient.CallAsync Descriptor route priority (emits emit1) (Some read) retry retries Descriptor request
      deadline (Some k) caller client w = (kOk, client', ReliableSender.emitted emit1 frames w) /\
    CanRpcClient.call_info_ client' = MkRpcCallInfo id deadline /\ CanRpcClient.pending_ client' = true /\
    CanRpcClient.completion_ client' = Some k /\ CanRpcClient.sequence_ client' = sequence /\
    let ack := ReliableReceiver.ack_frame arb sequence in
    let wire i := nth i frames CanFrame_default in
    (let '(acked, sender) := ReliableSender.HandleAck ack (CanRpcClient.request_sender_ client') in
     acked = kOk /\ ReliableSender.state_ sender = kComplete) /\
    forall (W C R : Type) (rpc_at : R -> RpcRef W C) emit clock retry' retries' (this : Cell W (CanRpcServer.t R))
        complete caller' order last times time w2,
      CellLaws this -> Device this emit ->
      let server := load this w2 in
      let K := kRequestPayloadSize Descriptor in
      let accept caller time frame :=
        CanRpcServer.Accept rpc_at Descriptor route priority (emits emit) clock retry' retries' this complete frame time
          caller in
      CanRpcServer.bound_ server = true -> ready K arb sequence (CanRpcServer.request_receiver_ server) ->
      ReliableReceiver.repeated arb sequence (CanRpcServer.request_receiver_ server) = false ->
      CanRpcServer.active_ server = false -> ReliableSender.busy (CanRpcServer.response_sender_ server) = false ->
      covers (length frames) order last times -> deadline = 0 \/ time < deadline ->
      exists server',
        CanRpcServer.active_ server' = true /\ CanRpcServer.active_request_id_ server' = id /\
        CanRpcServer.active_sequence_ server' = sequence /\
        deliver (accept caller') (arrivals_in wire order last times time) w2 =
          (let '(status, w3) :=
             RpcRef_CallAsync (CanRpcServer.rpc_of rpc_at server) Descriptor request deadline (Some complete)
               (Some caller') (store this server' (emit ack w2)) in
           let now_server := load this w3 in
           let '(final, w4) :=
             if IsOk status then
               (kOk, store this (now_server <| CanRpcServer.stats_ :=
                       bump CanRpcServer.requests (CanRpcServer.stats_ now_server) |>) w3)
             else CanRpcServer.respond Descriptor route priority (emits emit) clock retry' retries' this status caller'
                    (now_server <| CanRpcServer.active_ := false |> <| CanRpcServer.stats_ :=
                       bump CanRpcServer.rejected (CanRpcServer.stats_ now_server) |>) w3 in
           (replicate (length order) kUnavailable ++ [final], w4)) /\
        forall order' last' times' time' caller'' w5,
          CanRpcServer.bound_ (load this w5) = true ->
          CanRpcServer.request_receiver_ (load this w5) = CanRpcServer.request_receiver_ server' ->
          covers (length frames) order' last' times' ->
          exists receiver,
            deliver (accept caller'') (arrivals_in wire order' last' times' time') w5 =
              (replicate (length order') kUnavailable ++ [kUnavailable],
               store this ((load this w5) <| CanRpcServer.request_receiver_ := receiver |>) (emit ack w5)).
Proof.
  intros Hroute Hretry Hretries Hsizes Hi Hs Hp Hb Hlen Hread Hdl Hd id sequence.
  destruct (CallAsync_sends emit1 Descriptor route priority read retry retries Hroute Hretry Hretries Hsizes request
    deadline k now caller client w Hi Hs Hp Hb Hlen Hread Hd)
    as (arb & frames & client' & HC & Hc & Hp' & Hk & Hinfo & Hseq & _ & _ & Hack).
  exists arb, frames, client'. do 5 (split; [done|]). split; [exact Hack|].
  intros W C R rpc_at emit clock retry' retries' this complete caller' order last times time w2 Hlaws Hdev server K
    accept Hbound Hready Hrep Hactive Hbusy Hcov Ht.
  pose proof (CanRpcClientFacts.advance_request_id_range _ (CanRpcClientFacts.inv_request_id _ _ Hi)) as Hid.
  destruct (Server_serves rpc_at emit Descriptor route priority clock retry' retries' this complete ltac:(lia) priority
    arb id deadline request sequence frames caller' order last times time w2 Hc Hbound Hready Hrep Hcov Hactive Hbusy
    Hid Hdl Hlen Ht) as (server' & HD & Ha & Hi' & Hq & Hrpc & Hrep' & Hwf' & Hact' & _).
  exists server'. do 3 (split; [done|]). split.
  - etransitivity; [exact HD|]. unfold serve, CanRpcServer.rpc_of. rewrite Hrpc. fold server.
    destruct (RpcRef_CallAsync _ _ _ _ _ _ _) as [status w3]. by destruct (IsOk status).
  - intros order' last' times' time' caller'' w5 Hb5 Hr5 Hcov5.
    apply (Server_repeats rpc_at emit Descriptor route priority clock retry' retries' this complete ltac:(lia) priority
      arb sequence (request_bytes id deadline request)); try done; try (rewrite Hr5; done).
    rewrite request_bytes_length. unfold kRequestPayloadSize. lia.
Qed.

(** C23: the answer of the peer's RPC service reaches the caller's completion
    exactly once. When the service completes the server's call, the server writes
    the answer, with the identifier and sequence number of the request, as frames,
    and is free for the next request. A client that waits for this identifier and
    has all the frames, in any order, acknowledges, takes its pending
    call out and calls its completion with the status and the bytes that the
    service gave; frames that come again are acknowledged and complete nothing. *)
Theorem can_rpc_response_delivery {W1 C1 R} emit1 Descriptor route priority clock retry retries
    (server_at : Cell W1 (CanRpcServer.t R)) status response info context now w :
  let server := load server_at w in
  let id := CanRpcServer.active_request_id_ server in let sequence := CanRpcServer.active_sequence_ server in
  let K := kResponsePayloadSize Descriptor in
  1 <= route <= kMaximumRouteId -> retry <> 0 -> 0 <= retries < 256 -> sizes_ok Descriptor ->
  CanRpcServer.drop_active_response_ server = false -> 0 <= sequence <= 0x0f -> 0 <= id <= UINT32_MAX ->
  length (CanRpcServer.response_payload_ server) = K -> ReliableSender.wf K (CanRpcServer.response_sender_ server) ->
  ReliableSender.busy (CanRpcServer.response_sender_ server) = false ->
  (length response <= kResponseSize Descriptor)%nat -> IsOk status = true \/ response = [] ->
  CanClockReader_NowNs clock w = (kOk, now) ->
  exists arb frames server',
    CanRpcServer.Complete Descriptor route priority (emits emit1) clock retry retries server_at (ToAbiStatus status)
      (buffer_of response) info (Some context) w = store server_at server' (ReliableSender.emitted emit1 frames w) /\
    CanRpcServer.active_ server' = false /\
    let ack := ReliableReceiver.ack_frame arb sequence in
    let wire i := nth i frames CanFrame_default in
    (let '(acked, sender) := ReliableSender.HandleAck ack (CanRpcServer.response_sender_ server') in
     acked = kOk /\ ReliableSender.state_ sender = kComplete) /\
    forall (W : Type) (completion_fn : C1 -> aster_rpc_completion_t W) emit (this : Cell W (CanRpcClient.t C1)) k caller
        order last times time w2,
      CellLaws this -> Device this emit ->
      let client := load this w2 in
      let accept (caller : ExecutionContext) (_ : Z) frame :=
        CanRpcClient.Accept completion_fn Descriptor route (emits emit) this frame caller in
      CanRpcClient.sealed_ client = true -> CanRpcClient.pending_ client = true ->
      CanRpcClient.completion_ client = Some k -> CanRpcClient.sequence_ client = sequence ->
      request_id (CanRpcClient.call_info_ client) = id ->
      ready K arb sequence (CanRpcClient.response_receiver_ client) ->
      ReliableReceiver.repeated arb sequence (CanRpcClient.response_receiver_ client) = false ->
      covers (length frames) order last times ->
      exists client',
        CanRpcClient.pending_ client' = false /\
        deliver (accept caller) (arrivals_in wire order last times time) w2 =
          (replicate (length order) kUnavailable ++ [kOk],
           completion_fn k (ToAbiStatus status) (buffer_of response)
             (Some (ToAbiRpcCallInfo (CanRpcClient.call_info_ client))) (Some (ToAbiExecutionContext caller))
             (store this client' (emit ack w2))) /\
        forall order' last' times' time' caller' w3,
          CanRpcClient.sealed_ (load this w3) = true ->
          CanRpcClient.response_receiver_ (load this w3) = CanRpcClient.response_receiver_ client' ->
          covers (length frames) order' last' times' ->
          exists receiver,
            deliver (accept caller') (arrivals_in wire order' last' times' time') w3 =
              (replicate (length order') kUnavailable ++ [kUnavailable],
               store this ((load this w3) <| CanRpcClient.response_receiver_ := receiver |>) (emit ack w3)).
Proof.
  intros server id sequence K Hroute Hretry Hretries Hsizes Hdrop Hseq Hid Hpay Hwf Hb Hlen Hst Hclock.
  destruct (Complete_sends emit1 Descriptor route priority clock retry retries server_at Hroute Hretry Hretries Hsizes
    status response info context now w Hdrop Hseq Hpay Hwf Hb Hlen Hst Hclock)
    as (code & arb & frames & server' & Hcode & HC & Hc & Ha & Hack).
  exists arb, frames, server'. do 2 (split; [done|]). split; [exact Hack|].
  intros W completion_fn emit this k caller order last times time w2 Hlaws Hdev client accept Hs Hp Hk Hq Hi Hready
    Hrep Hcov.
  destruct (Client_completes completion_fn emit Descriptor route this ltac:(lia) priority arb sequence status code id
    response frames k caller order last times time w2 Hc Hs Hready Hrep Hcov Hp Hk Hq Hi Hid Hcode Hlen Hst)
    as (client' & HD & Hp' & Hs' & _ & Hwf' & Hact' & Hrep').
  exists client'. split; [done|]. split; [exact HD|].
  intros order' last' times' time' caller' w3 Hs3 Hr3 Hcov3.
  apply (Client_repeats completion_fn emit Descriptor route this ltac:(lia) priority arb sequence
    (response_bytes code id response)); try done; try (rewrite Hr3; done).
  rewrite response_bytes_length. unfold kResponsePayloadSize. lia.
Qed.

(** A client and a server that have just been set up. *)
Lemma sample_start_inv : CanRpcClientFacts.inv sample_service (world_client sample_start).
Proof. destruct (CanRpcClientFacts.inv_init (C := unit) sample_service) as [H1 H2 H3 H4 H5 H6 H7]. split; done. Qed.

Lemma can_rpc_request_delivery_witness :
  exists frames client',
    CanRpcClient.CallAsync sample_service 20 kCritical (emits sample_emit) sample_rpc_clock 50 2 sample_service [7; 8]
      150 (Some tt) sample_context (world_client sample_start) sample_start =
      (kOk, client', ReliableSender.emitted sample_emit frames sample_start) /\
    CanRpcClient.call_info_ client' = MkRpcCallInfo 1 150.
Proof.
  destruct (can_rpc_request_delivery sample_emit sample_service 20 kCritical (fun _ => (kOk, 100)) 50 2 [7; 8] 150 tt
    100 sample_context (world_client sample_start) sample_start) as (arb & frames & client' & HC & Hinfo & _).
  - by vm_compute.
  - discriminate.
  - lia.
  - split; vm_compute; lia.
  - apply sample_start_inv.
  - reflexivity.
  - reflexivity.
  - reflexivity.
  - vm_compute. lia.
  - reflexivity.
  - by vm_compute.
  - by right.
  - exists frames, client'. split; [exact HC|exact Hinfo].
Defined.

Lemma can_rpc_response_delivery_witness :
  exists frames server',
    CanRpcServer.Complete sample_service 20 kCritical (emits sample_server_emit) sample_server_clock 50 2 sample_server
      (ToAbiStatus kOk) (buffer_of [9]) None (Some (ToAbiExecutionContext sample_context)) sample_serving =
      store sample_server server' (ReliableSender.emitted sample_server_emit frames sample_serving) /\
    CanRpcServer.active_ server' = false.
Proof.
  destruct (can_rpc_response_delivery (C1 := unit) sample_server_emit sample_service 20 kCritical sample_server_clock
    50 2 sample_server kOk [9] None (ToAbiExecutionContext sample_context) 120 sample_serving)
    as (arb & frames & server' & HC & Ha & _).
  - by vm_compute.
  - discriminate.
  - lia.
  - split; vm_compute; lia.
  - reflexivity.
  - by vm_compute.
  - by vm_compute.
  - reflexivity.
  - apply ReliableSender.sender_wf_init.
  - reflexivity.
  - vm_compute. lia.
  - by left.
  - reflexivity.
  - exists frames, server'. split; [exact HC|exact Ha].
Defined.
