(* ===== verification/PacketBridge.v ===== *)
(** Channels over packets ([aster_runtime/transport/channel_bridge.hpp]): the
    egress turns each message of a channel into a packet, the ingress is a route
    of the router and publishes the packets it is handed. Both are objects of the
    program: the transport and the channel may call back into them. *)

From S2P Require Export StreamTransport LocalChannel Rpc.

Local Open Scope Z_scope.

(** ** A transport as its users call it

    [Transport& transport]: the virtual calls, on the state of the program. *)
Record TransportRef (W : Type) := MkTransportRef {
  ref_Start : option (PacketReceiver W) -> W -> Status * W;
  ref_Send : PacketView -> ExecutionContext -> W -> Status * W;
  ref_Poll : ExecutionContext -> W -> Status * W;
  ref_Stop : W -> W
}.
Arguments MkTransportRef {_}.
Arguments ref_Start {_}.
Arguments ref_Send {_}.
Arguments ref_Poll {_}.
Arguments ref_Stop {_}.

(** An assignment to a member of an object of the program. *)
Definition update {W A} (this : Cell W A) (f : A -> A) (w : W) : W := store this (f (load this w)) w.

Lemma load_update {W A} {this : Cell W A} `{!CellLaws this} f w : load this (update this f w) = f (load this w).
Proof. apply load_store. Qed.

Lemma update_update {W A} {this : Cell W A} `{!CellLaws this} f g w :
  update this f (update this g w) = update this (fun a => f (g a)) w.
Proof. unfold update. by rewrite load_store, store_store. Qed.

(** ** [ChannelPacketEgress] *)

Module ChannelPacketEgress.

Record ChannelPacketEgressStats := MkStats {
  messages : Z;
  send_failures : Z
}.
#[global] Instance eta_stats : Eta ChannelPacketEgressStats := fun r => MkStats (messages r) (send_failures r).

Record t := Mk {
  descriptor_ : ChannelDescriptor;
  bound_ : bool;
  stats_ : ChannelPacketEgressStats
}.
#[global] Instance eta_t : Eta t := fun r => Mk (descriptor_ r) (bound_ r) (stats_ r).

Definition init : t := Mk ChannelDescriptor_default false (MkStats 0 0).

(** The packet of a message. *)
Definition packet_of (route_id_ maximum_age_ns_ : Z) (descriptor : ChannelDescriptor) (message : list Z)
    (info : MessageInfo) : PacketView :=
  let deadline :=
    if maximum_age_ns_ =? 0 then 0 else SaturatingAdd (info_source_timestamp_ns info) maximum_age_ns_ in
  MkPacketView
    (MkPacketHeader route_id_ kChannel (info_sequence info) (info_source_timestamp_ns info) deadline
       (schema_hash (message_type descriptor)))
    message.

Section Egress.
Context {W : Type}.

(** The constructor's arguments, which do not change afterwards. *)
Variables (route_id_ : Z) (transport_ : TransportRef W) (maximum_age_ns_ : Z).
Variable this : Cell W t.

Definition Send (message : list Z) (info : MessageInfo) (caller : ExecutionContext) (w : W) : Status * W :=
  let descriptor := descriptor_ (load this w) in
  let fail := update this (fun self => self <| stats_ := bump send_failures (stats_ self) |>) in
  if max_serialized_size (message_type descriptor) <? Z.of_nat (length message)
  then (kCapacityExceeded, fail w)
  else
    let '(status, w) :=
      ref_Send transport_ (packet_of route_id_ maximum_age_ns_ descriptor message info) caller w in
    if negb (IsOk status) then (status, fail w)
    else (kOk, update this (fun self => self <| stats_ := bump messages (stats_ self) |>) w).

Definition Forward : RawChannelCallback W := fun message info caller w => Send message info caller w.

Definition Bind (channel : ChannelRef W) (descriptor : ChannelDescriptor) (w : W) : Status * W :=
  let bound := bound_ (load this w) in
  if bound || (route_id_ =? 0) || (max_serialized_size (message_type descriptor) =? 0)
  then (if bound then kInvalidState else kInvalidArgument, w)
  else
    let '(status, w) := ChannelRef_RegisterSubscriber Forward channel descriptor w in
    if IsOk status
    then (status, update this (fun self => self <| descriptor_ := descriptor |> <| bound_ := true |>) w)
    else (status, w).
End Egress.
End ChannelPacketEgress.

(** ** [ChannelPacketIngress] *)

Module ChannelPacketIngress.

Record ChannelPacketIngressStats := MkStats {
  messages : Z;
  expired : Z;
  rejected : Z;
  publish_failures : Z
}.
#[global] Instance eta_stats : Eta ChannelPacketIngressStats := fun r =>
  MkStats (messages r) (expired r) (rejected r) (publish_failures r).

(** [channel_] is set once, by the [Bind] that sets [bound_], and read only when
    bound: the handle is a parameter of the operations. *)
Record t := Mk {
  descriptor_ : ChannelDescriptor;
  bound_ : bool;
  stats_ : ChannelPacketIngressStats
}.
#[global] Instance eta_t : Eta t := fun r => Mk (descriptor_ r) (bound_ r) (stats_ r).

Definition init : t := Mk ChannelDescriptor_default false (MkStats 0 0 0 0).

(** The packet is not one of this route. *)
Definition foreign (route_id_ : Z) (descriptor : ChannelDescriptor) (packet : PacketView) : bool :=
  negb (route_id (header packet) =? route_id_) ||
  negb (bool_decide (packet_kind (header packet) = kChannel)) ||
  negb (bool_decide (packet_schema_hash (header packet) = schema_hash (message_type descriptor))) ||
  (max_serialized_size (message_type descriptor) <? Z.of_nat (length (payload packet))).

Definition overdue (caller : ExecutionContext) (packet : PacketView) : bool :=
  negb (TypeSupport.deadline_ns (header packet) =? 0) && (TypeSupport.deadline_ns (header packet) <=? timestamp_ns caller).

Section Ingress.
Context {W : Type}.
Variables (route_id_ : Z) (channel_ : ChannelRef W) (this : Cell W t).

Definition Accept (packet : PacketView) (caller : ExecutionContext) (w : W) : Status * W :=
  let self := load this w in
  let count bumped := update this (fun self => self <| stats_ := bumped (stats_ self) |>) in
  if negb (bound_ self) then (kInvalidState, w)
  else if foreign route_id_ (descriptor_ self) packet then
    (kTypeMismatch, count (fun stats => bump rejected stats) w)
  else if overdue caller packet then (kTimeout, count (fun stats => bump expired stats) w)
  else
    let '(status, w) := ChannelRef_Publish channel_ (descriptor_ self) (payload packet)
      (source_timestamp_ns (header packet)) (Some caller) w in
    if negb (IsOk status) then (status, count (fun stats => bump publish_failures stats) w)
    else (kOk, count (fun stats => bump messages stats) w).

Definition Receive : PacketReceiver W := fun packet caller w => Accept packet caller w.

Definition Bind (MaxRoutes : nat) (router : StaticRouter.t W) (descriptor : ChannelDescriptor) (w : W)
    : Status * StaticRouter.t W * W :=
  let bound := bound_ (load this w) in
  if bound || (route_id_ =? 0) || (max_serialized_size (message_type descriptor) =? 0)
  then (if bound then kInvalidState else kInvalidArgument, router, w)
  else
    let '(status, router) := StaticRouter.Register MaxRoutes route_id_ kChannel
      (schema_hash (message_type descriptor)) (Some Receive) router in
    if negb (IsOk status) then (status, router, w)
    else
      let '(status, w) := ChannelRef_RegisterPublisher channel_ descriptor w in
      if negb (IsOk status) then (status, router, w)
      else (kOk, router,
            update this (fun self => self <| descriptor_ := descriptor |> <| bound_ := true |>) w).
End Ingress.
End ChannelPacketIngress.

(** ** A transport object of the program

    The transport and what its receiver may reach stand side by side at [place];
    [receiver] is the code behind the registered function pointer. *)
Definition TransportAt {T V W} `{!Transport T V} (place : Cell W (T * V)) (receiver : PacketReceiver V)
    : TransportRef W := {|
  ref_Start := fun registered w =>
    let '(t, v) := load place w in
    let '(status, t) := transport_Start ((fun _ => receiver) <$> registered) t in (status, store place (t, v) w);
  ref_Send := fun packet caller w =>
    let '(t, v) := load place w in
    let '(status, t, v) := transport_Send packet caller t v in (status, store place (t, v) w);
  ref_Poll := fun caller w =>
    let '(t, v) := load place w in
    let '(status, t, v) := transport_Poll caller t v in (status, store place (t, v) w);
  ref_Stop := fun w => let '(t, v) := load place w in store place (transport_Stop t, v) w
|}.

(** Two objects that share nothing. *)
Class Apart {W A B} (a : Cell W A) (b : Cell W B) : Prop := {
  load_apart_l : forall y w, load a (store b y w) = load a w;
  load_apart_r : forall x w, load b (store a x w) = load b w;
  store_apart : forall x y w, store a x (store b y w) = store b y (store a x w)
}.

(** Code that neither reads nor writes an object. *)
Class Ignores {W A} (this : Cell W A) (f : W -> Status * W) : Prop := {
  load_ignored : forall w, load this (f w).2 = load this w;
  store_ignored : forall a w, f (store this a w) = let '(status, w') := f w in (status, store this a w')
}.

Lemma update_ignored {W A} (this : Cell W A) f `{!Ignores this f} g w :
  f (update this g w) = let '(status, w') := f w in (status, update this g w').
Proof.
  unfold update. rewrite store_ignored. pose proof (load_ignored w) as Hl.
  destruct (f w) as [status w']. cbn in Hl. by rewrite Hl.
Qed.

(** ** Lemmas: the egress *)

Section EgressFacts.
Import ChannelPacketEgress.
Context {W : Type} (route : Z) (transport : TransportRef W) (age : Z) (this : Cell W t).

Definition counted (n : nat) : t -> t := Nat.iter n (fun self => self <| stats_ := bump messages (stats_ self) |>).

Lemma counted_descriptor n self : descriptor_ (counted n self) = descriptor_ self.
Proof. induction n as [|n IH]; [done|]. exact IH. Qed.

Lemma Send_fits message info caller w :
  Z.of_nat (length message) <= max_serialized_size (message_type (descriptor_ (load this w))) ->
  Send route transport age this message info caller w =
    let '(status, w) :=
      ref_Send transport (packet_of route age (descriptor_ (load this w)) message info) caller w in
    if IsOk status then (kOk, update this (counted 1) w)
    else (status, update this (fun self => self <| stats_ := bump send_failures (stats_ self) |>) w).
Proof.
  intros H. unfold Send. guard_false (max_serialized_size (message_type (descriptor_ (load this w))) <?
    Z.of_nat (length message)).
  destruct (ref_Send _ _ _ _) as [status w']. by destruct (IsOk status).
Qed.

(** Messages forwarded one after the other. *)
Fixpoint forwards (caller : ExecutionContext) (messages : list (list Z * MessageInfo)) (w : W)
    : list Status * W :=
  match messages with
  | [] => ([], w)
  | (message, info) :: messages =>
      let '(status, w) := Forward route transport age this message info caller w in
      let '(statuses, w) := forwards caller messages w in (status :: statuses, w)
  end.
End EgressFacts.

(** A stream that takes the frames of [packets]. *)
Inductive takes {S} `{!ByteStream S} : S -> list PacketView -> S -> Prop :=
  | takes_nil stream : takes stream [] stream
  | takes_cons stream packet stream' packets stream'' :
      stream_Write (PacketCodec.wire_image packet) stream =
        (kOk, length (PacketCodec.wire_image packet), stream') ->
      takes stream' packets stream'' -> takes stream (packet :: packets) stream''.

(** An egress over a byte stream writes one frame per message. *)
Section EgressStream.
Import ChannelPacketEgress.
Context {S V W : Type} `{!ByteStream S} (MaxPayload : nat) (route age : Z).
Context (this : Cell W t) (place : Cell W (StreamTransport.t S V * V)) (receiver : PacketReceiver V).
Context `{!CellLaws this, !CellLaws place, !Apart this place}.

Let transport : TransportRef W :=
  TransportAt (Transport0 := StreamTransport.transport S V MaxPayload) place receiver.

Lemma forwards_stream caller messages d stream stream' w :
  StreamTransport.inv MaxPayload (load place w).1 -> StreamTransport.receiver_ (load place w).1 <> None ->
  StreamTransport.stream_ (load place w).1 = stream -> descriptor_ (load this w) = d ->
  Forall (fun m => Z.of_nat (length m.1) <= max_serialized_size (message_type d)) messages ->
  let packets := (fun m => packet_of route age d m.1 m.2) <$> messages in
  Forall (PacketCodec.packet_legal MaxPayload) packets -> takes stream packets stream' ->
  exists transport' w', forwards route transport age this caller messages w =
      (replicate (length messages) kOk, w') /\
    load place w' = (transport', (load place w).2) /\
    StreamTransport.inv MaxPayload transport' /\ StreamTransport.stream_ transport' = stream' /\
    StreamTransport.receiver_ transport' = StreamTransport.receiver_ (load place w).1 /\
    load this w' = counted (length messages) (load this w).
Proof.
  intros I Hrec Hstream Hd Hsize packets L Ht. subst packets.
  revert stream w I Hrec Hstream Hd L Ht.
  induction Hsize as [|[message info] messages Hm Hsize IH]; intros stream w I Hrec Hstream Hd L Ht;
    cbn [forwards fmap list_fmap length replicate] in *.
  - inversion Ht; subst. exists (load place w).1, w. split_and!; try done. by destruct (load place w).
  - inversion Ht as [|? ? stream1 ? ? Hw Ht']; subst. apply Forall_cons in L as [Lp L].
    unfold Forward. rewrite Send_fits by done. cbn [ref_Send transport TransportAt fst snd] in *.
    destruct (load place w) as [tr v] eqn:Hplace. cbn [fst snd] in *.
    destruct (StreamTransport.Send_wire MaxPayload _ caller tr v I Hrec Lp) as (codec & encoded & Hs).
    pose proof (StreamTransport.Send_inv MaxPayload (packet_of route age (descriptor_ (load this w)) message info)
      caller tr v I) as I1.
    pose proof (StreamTransport.Send_receiver MaxPayload (packet_of route age (descriptor_ (load this w)) message info)
      caller tr v) as Hr1.
    rewrite Hs, Hw, Nat.eqb_refl in I1, Hr1. cbn [IsOk andb fst snd] in I1, Hr1.
    unfold transport_Send, StreamTransport.transport. rewrite Hs, Hw, Nat.eqb_refl. cbn [IsOk andb].
    set (tr1 := set_field StreamTransport.stats_ _ _) in *.
    set (w1 := update this (counted 1) (store place (tr1, v) w)).
    assert (load place w1 = (tr1, v)) as Hp1 by (unfold w1, update; by rewrite load_apart_r, load_store).
    assert (load this w1 = counted 1 (load this w)) as Ht1
      by (unfold w1; by rewrite load_update, load_apart_l).
    destruct (IH stream1 w1) as (tr2 & w2 & -> & Hp2 & I2 & Hs2 & Hr2 & Hc2);
      rewrite ?Hp1, ?Ht1; cbn [fst]; try done.
    rewrite Hp1 in Hp2, Hr2. cbn [fst snd] in *.
    exists tr2, w2. split_and!; try done. rewrite Hc2, Ht1.
    unfold counted. by rewrite <- (Nat.iter_succ_r (length messages)).
Qed.
End EgressStream.

(** ** Lemmas: the ingress *)

Section IngressFacts.
Import ChannelPacketIngress.
Context {V : Type} (route : Z) (channel : ChannelRef V) (this : Cell V t).

Definition tally (status : Status) (stats : ChannelPacketIngressStats) : ChannelPacketIngressStats :=
  if IsOk status then bump messages stats else bump publish_failures stats.

Definition published (n : nat) : t -> t := Nat.iter n (fun self => self <| stats_ := bump messages (stats_ self) |>).

Lemma published_keeps n self :
  descriptor_ (published n self) = descriptor_ self /\ bound_ (published n self) = bound_ self.
Proof. induction n as [|n IH]; [done|]. exact IH. Qed.

(** What a bound ingress does with a packet of its own egress. *)
Lemma Accept_packet age d message info caller v :
  let self := load this v in
  let packet := ChannelPacketEgress.packet_of route age d message info in
  bound_ self = true -> schema_hash (message_type d) = schema_hash (message_type (descriptor_ self)) ->
  Z.of_nat (length message) <= max_serialized_size (message_type (descriptor_ self)) ->
  Accept route channel this packet caller v =
    if overdue caller packet
    then (kTimeout, update this (fun self => self <| stats_ := bump expired (stats_ self) |>) v)
    else
      let '(status, v) := ChannelRef_Publish channel (descriptor_ self) message
        (info_source_timestamp_ns info) (Some caller) v in
      (status, update this (fun self => self <| stats_ := tally status (stats_ self) |>) v).
Proof.
  intros self packet Hb Hh Hl. unfold Accept. fold self. rewrite Hb. cbn [negb].
  assert (foreign route (descriptor_ self) packet = false) as ->.
  { unfold foreign. cbn [packet ChannelPacketEgress.packet_of header payload route_id packet_kind packet_schema_hash].
    rewrite Z.eqb_refl, Hh, !bool_decide_true by done. by guard_false (max_serialized_size
      (message_type (descriptor_ self)) <? Z.of_nat (length message)). }
  destruct (overdue _ _); [done|].
  cbn [packet ChannelPacketEgress.packet_of header payload source_timestamp_ns].
  destruct (ChannelRef_Publish _ _ _ _ _ _) as [status v']. unfold tally.
  destruct (IsOk status) eqn:E; [|done]. by apply IsOk_spec in E as ->.
Qed.

(** A packet of another route, kind or schema, or too long for the channel, and
    any packet before [Bind], publish nothing. *)
Lemma Accept_foreign packet caller v :
  bound_ (load this v) = true -> foreign route (descriptor_ (load this v)) packet = true ->
  Accept route channel this packet caller v =
    (kTypeMismatch, update this (fun self => self <| stats_ := bump rejected (stats_ self) |>) v).
Proof. intros Hb Hf. unfold Accept. by rewrite Hb, Hf. Qed.

Lemma Accept_unbound packet caller v :
  bound_ (load this v) = false -> Accept route channel this packet caller v = (kInvalidState, v).
Proof. intros Hb. unfold Accept. by rewrite Hb. Qed.

(** The messages published on the channel one after the other. *)
Fixpoint republish (d : ChannelDescriptor) (caller : ExecutionContext) (messages : list (list Z * MessageInfo))
    (v : V) : option V :=
  match messages with
  | [] => Some v
  | (message, info) :: messages =>
      let '(status, v) :=
        ChannelRef_Publish channel d message (info_source_timestamp_ns info) (Some caller) v in
      if IsOk status then republish d caller messages v else None
  end.

(** The channel's subscribers leave the ingress alone. *)
Definition Undisturbed : Prop := forall d message ts caller,
  Ignores this (ChannelRef_Publish channel d message ts caller).

Context `{!CellLaws this} (Hun : Undisturbed).

Lemma republish_ignores d caller messages n v :
  republish d caller messages (update this (published n) v) =
    update this (published n) <$> republish d caller messages v.
Proof using Hun.
  revert v. induction messages as [|[message info] messages IH]; intros v; [done|]. cbn [republish].
  pose proof (Hun d message (info_source_timestamp_ns info) (Some caller)).
  rewrite (update_ignored this _). destruct (ChannelRef_Publish _ _ _ _ _ _) as [status v'].
  destruct (IsOk status); [apply IH|done].
Qed.

(** A router whose route for [route] is this ingress. *)
Definition routes_to (router : StaticRouter.t V) (hash : SchemaHash) : Prop :=
  StaticRouter.sealed_ router = true /\
  NoDup ((fun r => (StaticRouter.r_route_id r, StaticRouter.r_kind r)) <$> StaticRouter.routes_ router) /\
  StaticRouter.MkRoute route kChannel hash (Receive route channel this) ∈ StaticRouter.routes_ router.

Lemma routed_packet router hash age d message info caller v :
  routes_to router hash -> schema_hash (message_type d) = hash ->
  let packet := ChannelPacketEgress.packet_of route age d message info in
  StaticRouter.Receive (Some router) packet caller v = Accept route channel this packet caller v.
Proof.
  intros (Hs & Hn & Hin) Hh packet. cbn [StaticRouter.Receive]. unfold StaticRouter.Accept. rewrite Hs. cbn [negb].
  rewrite (StaticRouter.Accept_loop_route _ _ _ _ _ Hn Hin) by done. cbn [StaticRouter.r_schema_hash packet
    ChannelPacketEgress.packet_of header packet_schema_hash]. by rewrite bool_decide_true by done.
Qed.

(** In time, the packets of a list of messages publish exactly these. *)
Lemma deliver_republishes router age d caller messages v v' :
  let self := load this v in
  routes_to router (schema_hash (message_type (descriptor_ self))) ->
  schema_hash (message_type d) = schema_hash (message_type (descriptor_ self)) -> bound_ self = true ->
  Forall (fun m => Z.of_nat (length m.1) <= max_serialized_size (message_type (descriptor_ self)) /\
    overdue caller (ChannelPacketEgress.packet_of route age d m.1 m.2) = false) messages ->
  republish (descriptor_ self) caller messages v = Some v' ->
  StreamTransport.deliver (StaticRouter.Receive (Some router)) caller
    ((fun m => ChannelPacketEgress.packet_of route age d m.1 m.2) <$> messages) v =
    Some (update this (published (length messages)) v').
Proof using All.
  intros self Hr Hh Hb Hm. subst self. revert v Hr Hh Hb Hm v'.
  induction messages as [|[message info] messages IH]; intros v Hr Hh Hb Hm v' Hv';
    cbn [republish fmap list_fmap StreamTransport.deliver length] in *.
  - injection Hv' as ->. unfold update. cbn. by rewrite store_load.
  - apply Forall_cons in Hm as [[Hl Ho] Hm]. cbn [fst snd] in *.
    rewrite (routed_packet router (schema_hash (message_type (descriptor_ (load this v))))) by done.
    rewrite Accept_packet, Ho by done.
    pose proof (Hun (descriptor_ (load this v)) message (info_source_timestamp_ns info) (Some caller)) as Hi.
    pose proof (load_ignored v) as Hload.
    destruct (ChannelRef_Publish _ _ _ _ _ _) as [status v1]. cbn [snd] in Hload.
    destruct (IsOk status) eqn:E; [|done]. apply IsOk_spec in E as ->.
    change (update this (fun self => self <| stats_ := tally kOk (stats_ self) |>) v1)
      with (update this (published 1) v1).
    assert (descriptor_ (load this (update this (published 1) v1)) = descriptor_ (load this v)) as Hd
      by (by rewrite load_update, Hload).
    rewrite (IH _ ltac:(by rewrite Hd) ltac:(by rewrite Hd) ltac:(by rewrite load_update, Hload)
      ltac:(by rewrite Hd) (update this (published 1) v')).
    + f_equal. unfold update. rewrite load_store, store_store. unfold published.
      by rewrite <- (Nat.iter_succ_r (length messages)).
    + by rewrite Hd, republish_ignores, Hv'.
Qed.
End IngressFacts.

(** ** Binding *)

(** A successful [Bind] of the ingress leaves its route in the router, and it
    stays there; sealing makes it reachable. *)
Lemma ingress_Bind_routes {V} route (channel : ChannelRef V) (this : Cell V ChannelPacketIngress.t) MaxRoutes
    router descriptor v router' v' :
  CellLaws this -> StaticRouter.wf MaxRoutes router ->
  ChannelPacketIngress.Bind route channel this MaxRoutes router descriptor v = (kOk, router', v') ->
  StaticRouter.wf MaxRoutes router' /\
  StaticRouter.routes_ router' = StaticRouter.routes_ router ++
    [StaticRouter.MkRoute route kChannel (schema_hash (message_type descriptor))
       (ChannelPacketIngress.Receive route channel this)] /\
  ChannelPacketIngress.bound_ (load this v') = true /\
  ChannelPacketIngress.descriptor_ (load this v') = descriptor.
Proof.
  intros HL Hwf. unfold ChannelPacketIngress.Bind. split_if; [by destruct (ChannelPacketIngress.bound_ _)|].
  bool_hyps. pose proof (StaticRouter.router_Register_wf MaxRoutes route kChannel
    (schema_hash (message_type descriptor)) (Some (ChannelPacketIngress.Receive route channel this)) router Hwf) as Hwf'.
  unfold StaticRouter.Register in *. destruct (StaticRouter.sealed_ router); [done|].
  repeat split_if; try done. cbn [IsOk negb snd] in *.
  destruct (ChannelRef_RegisterPublisher _ _ _) as [status v1]. split_if; [by intros [=-> _ _]|].
  intros [=<- <-]. split_and!; [done|done|..]; by rewrite load_update.
Qed.

Lemma packet_of_legal MaxPayload route age d message info :
  0 < route < 2 ^ 16 -> 0 <= age < 2 ^ 64 -> hash_wf (schema_hash (message_type d)) ->
  0 <= info_sequence info < 2 ^ 32 -> 0 <= info_source_timestamp_ns info < 2 ^ 64 ->
  Forall is_byte message -> (length message <= MaxPayload)%nat -> Z.of_nat (length message) < 2 ^ 16 ->
  PacketCodec.packet_legal MaxPayload (ChannelPacketEgress.packet_of route age d message info).
Proof.
  intros Hr Ha Hh Hs Ht Hb Hl H16. pose proof (SaturatingAdd_range (info_source_timestamp_ns info) age).
  unfold is_u64, UINT64_MAX in *.
  split; cbn -[Z.pow]; try done; [|lia]. split; cbn -[Z.pow]; try done; [lia|]. split_if; lia.
Qed.

(** ** Properties *)

(** C27: over the in-process transport a bridge is the channel itself. Publishing
    on a bound egress whose transport delivers to the router of a bound ingress of
    the same route and schema returns what publishing the same bytes with the same
    time stamp on the ingress's channel returns, and changes the rest of the
    program in the same way; one counter of the ingress and one of the egress
    tell how it went. The only difference is the bridge's own deadline: a message
    older than the egress's maximum age returns [kTimeout] and publishes nothing. *)
Theorem local_bridge_transparent {V W} (channel : ChannelRef V) route age
    (out_at : Cell W ChannelPacketEgress.t) (in_at : Cell V ChannelPacketIngress.t)
    (place : Cell W (LocalTransport.t V * V)) receiver router message info caller w :
  CellLaws out_at -> CellLaws place -> Apart out_at place ->
  let v := (load place w).2 in
  let egress := load out_at w in
  let d := ChannelPacketIngress.descriptor_ (load in_at v) in
  LocalTransport.receiver_ (load place w).1 = Some (StaticRouter.Receive (Some router)) ->
  routes_to route channel in_at router (schema_hash (message_type d)) ->
  ChannelPacketIngress.bound_ (load in_at v) = true ->
  schema_hash (message_type (ChannelPacketEgress.descriptor_ egress)) = schema_hash (message_type d) ->
  Z.of_nat (length message) <= max_serialized_size (message_type (ChannelPacketEgress.descriptor_ egress)) ->
  Z.of_nat (length message) <= max_serialized_size (message_type d) ->
  let '(status, w') :=
    ChannelPacketEgress.Forward route (TransportAt (Transport0 := LocalTransport.transport V) place receiver)
      age out_at message info caller w in
  let late := negb (age =? 0) && (negb (SaturatingAdd (info_source_timestamp_ns info) age =? 0)) &&
    (SaturatingAdd (info_source_timestamp_ns info) age <=? timestamp_ns caller) in
  let '(direct, v') :=
    ChannelRef_Publish channel d message (info_source_timestamp_ns info) (Some caller) v in
  status = (if late then kTimeout else direct) /\
  (load place w').2 =
    update in_at (fun self => self <| ChannelPacketIngress.stats_ :=
        if late then bump ChannelPacketIngress.expired (ChannelPacketIngress.stats_ self)
        else tally direct (ChannelPacketIngress.stats_ self) |>) (if late then v else v') /\
  load out_at w' = egress <| ChannelPacketEgress.stats_ :=
    if IsOk status then bump ChannelPacketEgress.messages (ChannelPacketEgress.stats_ egress)
    else bump ChannelPacketEgress.send_failures (ChannelPacketEgress.stats_ egress) |>.
Proof.
  intros HO HP HA v egress d Hrec Hroute Hb Hh Hl Hl'.
  unfold ChannelPacketEgress.Forward. rewrite Send_fits by done. fold egress.
  cbn [ref_Send TransportAt]. destruct (load place w) as [t v0] eqn:Hplace. cbn [fst snd] in *. subst v.
  set (packet := ChannelPacketEgress.packet_of route age (ChannelPacketEgress.descriptor_ egress) message info).
  set (late := (_ && _ && _)%bool).
  assert (overdue_eq : ChannelPacketIngress.overdue caller packet = late).
  { unfold ChannelPacketIngress.overdue, packet, late. cbn [ChannelPacketEgress.packet_of header TypeSupport.deadline_ns].
    by destruct (age =? 0). }
  cbn [transport_Send LocalTransport.transport]. unfold LocalTransport.Send. rewrite Hrec.
  assert (StaticRouter.Receive (Some router) packet caller v0 =
    ChannelPacketIngress.Accept route channel in_at packet caller v0) as ->
    by by eapply (routed_packet route channel in_at router (schema_hash (message_type d))).
  subst packet. rewrite Accept_packet, overdue_eq by done. fold d.
  destruct (ChannelRef_Publish _ _ _ _ _ _) as [direct v'].
  destruct late; cbn [IsOk fst snd];
    [|destruct (IsOk direct) eqn:E; [apply IsOk_spec in E as ->|]; rewrite ?E];
    cbn [IsOk]; rewrite ?E; split_and!; try done.
  1, 3, 5: unfold update; rewrite load_apart_r, load_store; reflexivity.
  all: by rewrite load_update, load_apart_l.
Qed.

(** C26: a channel bridged over a byte stream arrives as it was published. The
    egress writes one frame per message, in order, as long as the stream takes
    them, and counts them; the peer, polling a stream that yields those bytes in
    any chunks, publishes on its channel the same messages with the same time
    stamps in the same order, each once, and counts them, provided its channel
    accepts them, they fit it and none is past its deadline there. *)
Theorem packet_channel_delivery {SA VA WA SB VB} `{!ByteStream SA} `{!ByteStream SB} MaxPayload route age
    (out_at : Cell WA ChannelPacketEgress.t) (place : Cell WA (StreamTransport.t SA VA * VA)) receiver
    sender_caller sent wa
    (channel : ChannelRef VB) (in_at : Cell VB ChannelPacketIngress.t) router poller chunks from to
    (peer : StreamTransport.t SB VB) (messages : list (list Z * MessageInfo)) vb vb' :
  CellLaws out_at -> CellLaws place -> Apart out_at place -> CellLaws in_at -> Undisturbed channel in_at ->
  let d := ChannelPacketEgress.descriptor_ (load out_at wa) in
  let d' := ChannelPacketIngress.descriptor_ (load in_at vb) in
  let packets := (fun m => ChannelPacketEgress.packet_of route age d m.1 m.2) <$> messages in
  let sender := (load place wa).1 in
  (** the two ends are up and bound *)
  StreamTransport.inv MaxPayload sender -> StreamTransport.receiver_ sender <> None ->
  StreamTransport.inv MaxPayload peer -> StreamTransport.received_size_ peer = 0%nat ->
  StreamTransport.receiver_ peer = Some (StaticRouter.Receive (Some router)) ->
  routes_to route channel in_at router (schema_hash (message_type d')) ->
  ChannelPacketIngress.bound_ (load in_at vb) = true ->
  schema_hash (message_type d) = schema_hash (message_type d') ->
  (** the messages fit, and the peer sees them in time *)
  0 < route < 2 ^ 16 -> 0 <= age < 2 ^ 64 -> hash_wf (schema_hash (message_type d)) ->
  Forall (fun m =>
    0 <= info_sequence m.2 < 2 ^ 32 /\ 0 <= info_source_timestamp_ns m.2 < 2 ^ 64 /\
    Forall is_byte m.1 /\ (length m.1 <= MaxPayload)%nat /\ Z.of_nat (length m.1) < 2 ^ 16 /\
    Z.of_nat (length m.1) <= max_serialized_size (message_type d) /\
    Z.of_nat (length m.1) <= max_serialized_size (message_type d') /\
    ChannelPacketIngress.overdue poller (ChannelPacketEgress.packet_of route age d m.1 m.2) = false) messages ->
  (** the line carries the bytes, the peer's channel accepts the messages *)
  takes (StreamTransport.stream_ sender) packets sent ->
  StreamTransport.stream_ peer = from -> StreamTransport.reads from chunks to ->
  concat chunks = concat (PacketCodec.wire_image <$> packets) ->
  republish channel d' poller messages vb = Some vb' ->
  (exists wa', forwards route
      (TransportAt (Transport0 := StreamTransport.transport SA VA MaxPayload) place receiver) age out_at
      sender_caller messages wa = (replicate (length messages) kOk, wa') /\
    StreamTransport.stream_ (load place wa').1 = sent /\ (load place wa').2 = (load place wa).2 /\
    load out_at wa' = counted (length messages) (load out_at wa)) /\
  exists peer', StreamTransport.Polls MaxPayload (length chunks) poller peer vb =
      (kOk, peer', update in_at (published (length messages)) vb') /\
    StreamTransport.received_size_ peer' = 0%nat.
Proof.
  intros HO HP HA HI Hun d d' packets sender Is Hrs Ip Hz Hrp Hroute Hb Hh Hr Hage Hhash Hm Htakes Hfrom Hreads
    Hline Hv.
  assert (Forall (PacketCodec.packet_legal MaxPayload) packets) as L.
  { apply Forall_fmap. eapply Forall_impl; [exact Hm|]. intros [message info] (?&?&?&?&?&_).
    by apply packet_of_legal. }
  split.
  - edestruct (forwards_stream MaxPayload route age out_at place receiver sender_caller messages d)
      as (tr & wa' & Hf & Hpl & _ & Hs & _ & Hc); try done.
    + eapply Forall_impl; [exact Hm|]. by intros m (?&?&?&?&?&?&_).
    + exists wa'. rewrite Hpl. by split_and!.
  - edestruct (StreamTransport.Poll_loop_packets MaxPayload (StaticRouter.Receive (Some router)) poller packets peer vb)
      as (peer' & Hloop & _ & Hz' & _); try done.
    { eapply deliver_republishes; try done. eapply Forall_impl; [exact Hm|]. by intros m (?&?&?&?&?&?&?&?). }
    rewrite <- Hline in Hloop.
    pose proof (StreamTransport.Polls_reads MaxPayload (StaticRouter.Receive (Some router)) poller from chunks to
      peer vb peer' _ Hreads Hrp Hloop) as Hp.
    exists (peer' <| StreamTransport.stream_ := to |>). rewrite <- Hp. split; [|done].
    f_equal. destruct peer; cbn in *; by subst.
Qed.

(** *** Witnesses: a node that records what its channel publishes. *)

Module PacketBridgeSamples.
Import StreamTransport.

Definition type : TypeDescriptor := MkTypeDescriptor "demo.Speed" (MkSchemaHash (replicate 16 7)) 8.
Definition descriptor : ChannelDescriptor := MkChannelDescriptor "speed" type.

Definition node : Type := ChannelPacketIngress.t * list (list Z * Z).
Definition in_at : Cell node ChannelPacketIngress.t := MkCell fst (fun ingress v => (ingress, v.2)).
#[global] Instance in_at_laws : CellLaws in_at.
Proof. split; [done|by intros []|done]. Qed.

Definition recorder : ChannelRef node :=
  Some (AbiChannel true (Some (fun _ v => (0, v))) None
    (Some (fun _ message ts _ v => (0, (v.1, v.2 ++ [(bytes_of message, ts)]))))).

Lemma recorder_undisturbed : Undisturbed recorder in_at.
Proof. intros d message ts caller. by split; [intros []|intros ? []]. Qed.

Definition fresh : node := (ChannelPacketIngress.init, []).
Definition io : ExecutionContext := MkExecutionContext "io" kThread 100.

Definition bound : Status * StaticRouter.t node * node :=
  ChannelPacketIngress.Bind 5 recorder in_at 1 StaticRouter.init descriptor fresh.
Definition router : StaticRouter.t node := (StaticRouter.Seal bound.1.2).2.

Lemma bound_routes : routes_to 5 recorder in_at router (schema_hash type).
Proof.
  split; [done|]. split; [apply NoDup_singleton|by left].
Qed.

Definition egress : ChannelPacketEgress.t :=
  ChannelPacketEgress.init <| ChannelPacketEgress.descriptor_ := descriptor |>
    <| ChannelPacketEgress.bound_ := true |>.

Definition out_at {X} : Cell (ChannelPacketEgress.t * X) ChannelPacketEgress.t :=
  MkCell fst (fun egress w => (egress, w.2)).
Definition place {X} : Cell (ChannelPacketEgress.t * X) X := MkCell snd (fun x w => (w.1, x)).
#[global] Instance out_at_laws X : CellLaws (@out_at X).
Proof. split; [done|by intros []|done]. Qed.
#[global] Instance place_laws X : CellLaws (@place X).
Proof. split; [done|by intros []|done]. Qed.
#[global] Instance out_at_place X : Apart (@out_at X) place.
Proof. by split. Qed.

Definition receiver : PacketReceiver node := StaticRouter.Receive (Some router).
Definition loopback : ChannelPacketEgress.t * (LocalTransport.t node * node) :=
  (egress, ((LocalTransport.Start (Some receiver) LocalTransport.init).2, bound.2)).

Definition stream (queue : list (list Z)) : t (list (list Z)) node :=
  (Start (Some receiver) (init 16 queue)).2.
Definition messages : list (list Z * MessageInfo) :=
  [([1; 2], MkMessageInfo 1 90); ([3], MkMessageInfo 2 95)].
Definition wire : list (list Z) :=
  (fun m => PacketCodec.wire_image (ChannelPacketEgress.packet_of 5 20 descriptor m.1 m.2)) <$> messages.
End PacketBridgeSamples.

Lemma local_bridge_transparent_witness :
  let '(status, w) := ChannelPacketEgress.Forward 5
    (TransportAt (Transport0 := LocalTransport.transport _) PacketBridgeSamples.place PacketBridgeSamples.receiver)
    20 PacketBridgeSamples.out_at [1; 2] (MkMessageInfo 1 90) PacketBridgeSamples.io
    PacketBridgeSamples.loopback in
  status = kOk /\ w.2.2.2 = [([1; 2], 90)].
Proof.
  pose proof (local_bridge_transparent PacketBridgeSamples.recorder 5 20 PacketBridgeSamples.out_at
    PacketBridgeSamples.in_at PacketBridgeSamples.place PacketBridgeSamples.receiver PacketBridgeSamples.router
    [1; 2] (MkMessageInfo 1 90) PacketBridgeSamples.io PacketBridgeSamples.loopback _ _ _ eq_refl
    PacketBridgeSamples.bound_routes eq_refl eq_refl ltac:(vm_compute; discriminate)
    ltac:(vm_compute; discriminate)) as H.
  destruct (ChannelPacketEgress.Forward _ _ _ _ _ _ _ _) as [status w] eqn:E.
  destruct (ChannelRef_Publish _ _ _ _ _ _) as [direct v'] eqn:E'. vm_compute in E'. injection E' as <- <-.
  destruct H as (-> & H & _). split; [reflexivity|].
  apply (f_equal snd) in H. vm_compute in H. exact H.
Defined.

Lemma packet_channel_delivery_witness :
  exists peer, StreamTransport.Polls (ByteStream0 := StreamTransport.queue_stream) 16 2 PacketBridgeSamples.io
    (PacketBridgeSamples.stream PacketBridgeSamples.wire) PacketBridgeSamples.bound.2 =
    (kOk, peer, update PacketBridgeSamples.in_at (published 2)
       (PacketBridgeSamples.bound.2.1, [([1; 2], 90); ([3], 95)])).
Proof.
  destruct (packet_channel_delivery (ByteStream0 := StreamTransport.queue_stream)
    (ByteStream1 := StreamTransport.queue_stream) 16 5 20 PacketBridgeSamples.out_at PacketBridgeSamples.place
    PacketBridgeSamples.receiver PacketBridgeSamples.io PacketBridgeSamples.wire
    (PacketBridgeSamples.egress, (PacketBridgeSamples.stream [], PacketBridgeSamples.fresh))
    PacketBridgeSamples.recorder PacketBridgeSamples.in_at PacketBridgeSamples.router PacketBridgeSamples.io
    PacketBridgeSamples.wire PacketBridgeSamples.wire [] (PacketBridgeSamples.stream PacketBridgeSamples.wire)
    PacketBridgeSamples.messages PacketBridgeSamples.bound.2
    (PacketBridgeSamples.bound.2.1, [([1; 2], 90); ([3], 95)]))
    as [_ (peer & Hp & _)].
  - apply _.
  - apply _.
  - apply _.
  - apply _.
  - apply PacketBridgeSamples.recorder_undisturbed.
  - apply StreamTransport.Start_inv, StreamTransport.stream_init_inv.
  - discriminate.
  - apply StreamTransport.Start_inv, StreamTransport.stream_init_inv.
  - reflexivity.
  - reflexivity.
  - apply PacketBridgeSamples.bound_routes.
  - reflexivity.
  - reflexivity.
  - lia.
  - lia.
  - split; [reflexivity|]. vm_compute. repeat constructor; discriminate.
  - repeat constructor; cbn -[Z.pow]; unfold is_byte; try lia; vm_compute; reflexivity.
  - vm_compute. repeat (econstructor; [reflexivity|]). constructor.
  - reflexivity.
  - vm_compute. repeat (econstructor; [reflexivity|discriminate|]). constructor.
  - vm_compute. reflexivity.
  - vm_compute. reflexivity.
  - exists peer. exact Hp.
Defined.
