(* ===== verification/Polling.v ===== *)
(** Modules that keep a transport going by posting themselves: what the
    scheduling modules of [aster_runtime/transport/] share. A module posts its
    poll to an executor; the poll does the work and posts itself again while the
    module runs. *)

From S2P Require Export PacketBridge Lifecycle.

Local Open Scope Z_scope.

(** ** The pending work of a module

    What an executor has accepted from the module and not yet run, oldest first. *)
Class PostsTo {W P} (executor : ExecutorRef W P) (queue : Cell W (list (Z * P))) : Prop := {
  TryPostAt_posts : forall at_ns item caller w,
    let '(status, w') := ExecutorRef_TryPostAt executor at_ns (Some item) caller w in
    w' = if IsOk status then update queue (fun pending => pending ++ [(at_ns, item)]) w else w
}.

(** ** The contract

    [begin], [run] and [halt] are the module's [Start], its work item and its
    [Shutdown]. A start that fails leaves nothing behind; one that succeeds posts
    once. A run of a stopped module does nothing; a run of a running one posts
    once or leaves the module stopped. *)
Class PollLoop {W P} (running : W -> bool) (queue : Cell W (list (Z * P))) (begin : W -> Status * W)
    (run : ExecutionContext -> W -> W) (halt : W -> W) : Prop := {
  begin_posts : forall w, let '(status, w') := begin w in
    if IsOk status
    then running w' = true /\ exists item, load queue w' = load queue w ++ [item]
    else running w' = running w /\ load queue w' = load queue w;
  run_stopped : forall caller w, running w = false -> run caller w = w;
  run_posts : forall caller w, running w = true ->
    (running (run caller w) = true /\ exists item, load queue (run caller w) = load queue w ++ [item]) \/
    (running (run caller w) = false /\ load queue (run caller w) = load queue w);
  halt_stops : forall w, running (halt w) = false /\ load queue (halt w) = load queue w;
  pop_running : forall pending w, running (store queue pending w) = running w
}.

Section PollLoop.
Context {W P : Type} (running : W -> bool) (queue : Cell W (list (Z * P))) (begin : W -> Status * W)
  (run : ExecutionContext -> W -> W) (halt : W -> W).

(** The life of a module: started with none of its work pending, run by the
    executor in order, shut down at any time. *)
Inductive life : W -> W -> Prop :=
  | life_begin w : load queue w = [] -> life w (begin w).2
  | life_run caller item pending w :
      load queue w = item :: pending -> life w (run caller (store queue pending w))
  | life_halt w : life w (halt w).

Context `{!CellLaws queue, !PollLoop running queue begin run halt}.

(** At most one poll is pending, exactly one while the module runs. *)
Definition chained (w : W) : Prop :=
  (length (load queue w) <= 1)%nat /\ (running w = true -> length (load queue w) = 1%nat).

Lemma life_chained w w' : chained w -> life w w' -> chained w'.
Proof using All.
  unfold chained. intros H L. destruct L as [w1 Hq|caller item pending w1 Hq|w1]; destruct H as [Hl Hr].
  - pose proof (begin_posts w1) as H. destruct (begin w1) as [status w2]. cbn [snd].
    destruct (IsOk status).
    + destruct H as [-> (item & ->)]. by rewrite Hq.
    + by destruct H as [-> ->].
  - rewrite Hq in *. destruct pending as [|next pending]; [|cbn in Hl; lia].
    set (w2 := store queue [] w1). assert (load queue w2 = []) as Hw2 by apply load_store.
    destruct (running w2) eqn:Hrun.
    + destruct (run_posts caller w2 Hrun) as [[_ (next & ->)]|[-> ->]]; rewrite Hw2; split; cbn; done || lia.
    + rewrite run_stopped, Hw2, Hrun by done. split; cbn; [lia|done].
  - by destruct (halt_stops w1) as [-> ->].
Qed.

Lemma lives_chained w w' : chained w -> rtc life w w' -> chained w'.
Proof using All. induction 2; eauto using life_chained. Qed.
End PollLoop.

(** ** The transport a module drives

    [up] is whether it holds a receiver. *)
Class TransportRefLaws {W} (transport : TransportRef W) (up : W -> bool) : Prop := {
  ref_start_up : forall receiver w, let '(status, w') := ref_Start transport (Some receiver) w in
    up w' = (IsOk status || up w) /\ (up w = true -> status = kInvalidState);
  ref_poll_up : forall caller w, up (ref_Poll transport caller w).2 = up w;
  ref_stop_up : forall w, up (ref_Stop transport w) = false
}.

(** The transport's work does not reach an object. *)
Class RefKeeps {W A} (transport : TransportRef W) (c : Cell W A) : Prop := {
  start_keeps : forall receiver w, load c (ref_Start transport receiver w).2 = load c w;
  poll_keeps : forall caller w, load c (ref_Poll transport caller w).2 = load c w;
  stop_keeps : forall w, load c (ref_Stop transport w) = load c w
}.

(** Both hold of any transport that stands apart from the object. *)
#[export] Instance TransportAt_laws {T V W} `{!Transport T V} `{!TransportLaws T V} (place : Cell W (T * V))
    receiver `{!CellLaws place} :
  TransportRefLaws (TransportAt place receiver) (fun w => transport_started (load place w).1).
Proof.
  split; cbn.
  - intros registered w. destruct (load place w) as [t v]. cbn.
    destruct (transport_started t) eqn:Hs.
    + rewrite start_twice by done. cbn. by rewrite load_store.
    + destruct (start_once receiver t Hs) as [Hok Hup]. destruct (transport_Start (Some receiver) t) as [status t'].
      cbn in *. subst. by rewrite load_store.
  - intros caller w. destruct (load place w) as [t v]. cbn. pose proof (poll_started caller t v) as Hp.
    destruct (transport_Poll caller t v) as [[status t'] v']. cbn in *. by rewrite load_store.
  - intros w. destruct (load place w) as [t v]. cbn. rewrite load_store. apply stop_stopped.
Qed.

#[export] Instance TransportAt_keeps {T V W A} `{!Transport T V} (place : Cell W (T * V)) receiver (c : Cell W A)
    `{!Apart c place} : RefKeeps (TransportAt place receiver) c.
Proof.
  split; cbn.
  - intros registered w. destruct (load place w) as [t v]. destruct (transport_Start _ t). apply load_apart_l.
  - intros caller w. destruct (load place w) as [t v]. destruct (transport_Poll _ t v) as [[??]?]. apply load_apart_l.
  - intros w. destruct (load place w) as [t v]. apply load_apart_l.
Qed.

(** Reading and writing through an equation on the object of interest. *)
Lemma load_update_apart {W A B} {a : Cell W A} {b : Cell W B} `{!Apart a b} f w : load a (update b f w) = load a w.
Proof. apply load_apart_l. Qed.
Lemma load_update_apart_r {W A B} {a : Cell W A} {b : Cell W B} `{!Apart a b} f w : load b (update a f w) = load b w.
Proof. apply load_apart_r. Qed.
