(* ===== verification/ChannelModule.v ===== *)
(** The module that runs packet bridges on a node
    ([aster_runtime/transport/channel_transport_module.hpp]): routes are
    configured, bound when the module is initialized, and polled from the node's
    executor while it runs. *)

From S2P Require Export Polling.
From Stdlib Require FunctionalExtensionality.

Local Open Scope Z_scope.

Module ChannelTransportModule.

Record ChannelTransportModuleStats := MkStats {
  polls : Z;
  poll_failures : Z;
  schedule_failures : Z;
  last_failure : Status
}.
#[global] Instance eta_stats : Eta ChannelTransportModuleStats := fun r =>
  MkStats (polls r) (poll_failures r) (schedule_failures r) (last_failure r).

Record EgressConfig := MkEgressConfig {
  egress_route_id : Z;
  egress_descriptor : ChannelDescriptor;
  maximum_age_ns : Z
}.

Record IngressConfig := MkIngressConfig {
  ingress_route_id : Z;
  ingress_descriptor : ChannelDescriptor
}.

(** The used parts of the configuration arrays; the counts are their lengths.
    The bridges themselves and the router are objects of their own. *)
Record t := Mk {
  egress_config_ : list EgressConfig;
  ingress_config_ : list IngressConfig;
  configuration_sealed_ : bool;
  initialized_ : bool;
  running_ : bool;
  transport_started_ : bool;
  stats_ : ChannelTransportModuleStats
}.
#[global] Instance eta_t : Eta t := fun r =>
  Mk (egress_config_ r) (ingress_config_ r) (configuration_sealed_ r) (initialized_ r) (running_ r)
    (transport_started_ r) (stats_ r).

Definition init : t := Mk [] [] false false false false (MkStats 0 0 0 kOk).

Definition Valid (route_id : Z) (descriptor : ChannelDescriptor) : bool :=
  negb (route_id =? 0) && negb (bool_decide (channel_name descriptor = ""%string)) &&
  negb (bool_decide (type_name (message_type descriptor) = ""%string)) &&
  negb (max_serialized_size (message_type descriptor) =? 0).

Definition HasRoute (route_id : Z) (self : t) : bool :=
  existsb (fun config => egress_route_id config =? route_id) (egress_config_ self) ||
  existsb (fun config => ingress_route_id config =? route_id) (ingress_config_ self).

Section Module_.
Context {W P : Type}.

(** The template and constructor arguments; [executor_], [clock_] and the channel
    are what the core gives the module when it is initialized. *)
Variables (MaxEgressRoutes MaxIngressRoutes : nat).
Variables (name_ : string) (transport_ : TransportRef W) (poll_interval_ns_ : Z).
Variables (executor_ : ExecutorRef W P) (clock_ : ClockRef W).

(** The module, its bridges and the pointer its work item carries. *)
Variables (this : Cell W t) (egress_ : nat -> Cell W ChannelPacketEgress.t)
  (ingress_ : nat -> Cell W ChannelPacketIngress.t) (self_ : P).

Definition kRouterCapacity : nat := if (MaxIngressRoutes =? 0)%nat then 1 else MaxIngressRoutes.

Definition AddEgress (route_id : Z) (descriptor : ChannelDescriptor) (age : Z) (self : t) : Status * t :=
  if configuration_sealed_ self || negb (Valid route_id descriptor)
  then (if configuration_sealed_ self then kInvalidState else kInvalidArgument, self)
  else if HasRoute route_id self then (kAlreadyExists, self)
  else if (length (egress_config_ self) =? MaxEgressRoutes)%nat then (kCapacityExceeded, self)
  else (kOk, self <| egress_config_ := egress_config_ self ++ [MkEgressConfig route_id descriptor age] |>).

Definition AddIngress (route_id : Z) (descriptor : ChannelDescriptor) (self : t) : Status * t :=
  if configuration_sealed_ self || negb (Valid route_id descriptor)
  then (if configuration_sealed_ self then kInvalidState else kInvalidArgument, self)
  else if HasRoute route_id self then (kAlreadyExists, self)
  else if (length (ingress_config_ self) =? MaxIngressRoutes)%nat then (kCapacityExceeded, self)
  else (kOk, self <| ingress_config_ := ingress_config_ self ++ [MkIngressConfig route_id descriptor] |>).

Definition Info : ModuleInfo :=
  MkModuleInfo name_ "aster.transport.ChannelTransportModule" "asterctrl" (MkSemanticVersion 0 2 0).

(** The loop over the egress routes: construct the bridge in its slot, bind it. *)
Fixpoint bind_egress (channel : ChannelRef W) (index : nat) (configs : list EgressConfig) (w : W) : Status * W :=
  match configs with
  | [] => (kOk, w)
  | config :: configs =>
      let w := store (egress_ index) ChannelPacketEgress.init w in
      let '(status, w) := ChannelPacketEgress.Bind (egress_route_id config) transport_ (maximum_age_ns config)
        (egress_ index) channel (egress_descriptor config) w in
      if negb (IsOk status) then (status, w) else bind_egress channel (S index) configs w
  end.

Fixpoint bind_ingress (channel : ChannelRef W) (index : nat) (configs : list IngressConfig)
    (router : StaticRouter.t W) (w : W) : Status * StaticRouter.t W * W :=
  match configs with
  | [] => (kOk, router, w)
  | config :: configs =>
      let w := store (ingress_ index) ChannelPacketIngress.init w in
      let '(status, router, w) := ChannelPacketIngress.Bind (ingress_route_id config) channel (ingress_ index)
        kRouterCapacity router (ingress_descriptor config) w in
      if negb (IsOk status) then (status, router, w) else bind_ingress channel (S index) configs router w
  end.

Definition Initialize (channel : ChannelRef W) (router_ : StaticRouter.t W) (w : W)
    : Status * StaticRouter.t W * W :=
  if configuration_sealed_ (load this w) then (kInvalidState, router_, w)
  else
    let w := update this (fun self => self <| configuration_sealed_ := true |>) w in
    let self := load this w in
    if bool_decide (name_ = ""%string) || (poll_interval_ns_ =? 0) ||
       (length (egress_config_ self) + length (ingress_config_ self) =? 0)%nat ||
       bool_decide (executor_ = None) || bool_decide (clock_ = None) || bool_decide (channel = None)
    then (kInvalidArgument, router_, w)
    else
      let '(status, w) := bind_egress channel 0 (egress_config_ self) w in
      if negb (IsOk status) then (status, router_, w)
      else
        let '(status, router_, w) := bind_ingress channel 0 (ingress_config_ self) router_ w in
        if negb (IsOk status) then (status, router_, w)
        else
          let '(status, router_) := StaticRouter.Seal router_ in
          (status, router_, update this (fun self => self <| initialized_ := IsOk status |>) w).

Definition Schedule (caller : ExecutionContext) (now_ns : Z) (w : W) : Status * W :=
  ExecutorRef_TryPostAt executor_ (SaturatingAdd now_ns poll_interval_ns_) (Some self_) caller w.

(** Read the clock and, if it answers, schedule: [caller] is built from the time. *)
Definition schedule_now (caller : Z -> ExecutionContext) (w : W) : Status * W :=
  let '(status, now_ns) := ClockRef_NowNs clock_ 0 w in
  if IsOk status then Schedule (caller now_ns) now_ns w else (status, w).

Definition Start (router_ : StaticRouter.t W) (w : W) : Status * W :=
  let self := load this w in
  if negb (initialized_ self) || running_ self || transport_started_ self then (kInvalidState, w)
  else
    let '(status, w) := ref_Start transport_ (Some (StaticRouter.Receive (Some router_))) w in
    if negb (IsOk status) then (status, w)
    else
      let w := update this (fun self => self <| transport_started_ := true |> <| running_ := true |>) w in
      let '(status, w) := schedule_now (fun now_ns => MkExecutionContext name_ kThread now_ns) w in
      if negb (IsOk status) then
        let w := update this (fun self => self <| running_ := false |>) w in
        let w := ref_Stop transport_ w in
        (status, update this (fun self => self <| transport_started_ := false |>) w)
      else (status, w).

Definition Shutdown (w : W) : W :=
  let w := update this (fun self => self <| running_ := false |>) w in
  if transport_started_ (load this w) then
    let w := ref_Stop transport_ w in
    update this (fun self => self <| transport_started_ := false |>) w
  else w.

Definition PollOnce (caller : ExecutionContext) (w : W) : W :=
  if negb (running_ (load this w)) then w
  else
    let '(poll_status, w) := ref_Poll transport_ caller w in
    let count bumped := update this (fun self => self <| stats_ := bumped (stats_ self) |>) in
    let w := count (fun stats => bump polls stats) w in
    let w :=
      if negb (IsOk poll_status) && negb (bool_decide (poll_status = kUnavailable))
      then count (fun stats => (bump poll_failures stats) <| last_failure := poll_status |>) w else w in
    let '(schedule_status, w) := schedule_now (fun _ => caller) w in
    if negb (IsOk schedule_status) then
      update this (fun self => self <| running_ := false |>)
        (count (fun stats => (bump schedule_failures stats) <| last_failure := schedule_status |>) w)
    else w.
End Module_.

(** [Initialize(CoreRef core)] takes the handles from the core. *)
Definition Initialize_core {W P C D M} MaxIngressRoutes name_ (transport_ : TransportRef W) poll_interval_ns_
    this egress_ ingress_ (core : CoreRef W P C D M) (router_ : StaticRouter.t W) (w : W) :=
  Initialize MaxIngressRoutes name_ transport_ poll_interval_ns_ (CoreRef_executor core w) (CoreRef_clock core w)
    this egress_ ingress_ (CoreRef_channel core w) router_ w.
End ChannelTransportModule.

Module ChannelModuleFacts.
Import ChannelTransportModule.

(** ** Lemmas: the configuration *)

Definition routes (self : t) : list Z :=
  (egress_route_id <$> egress_config_ self) ++ (ingress_route_id <$> ingress_config_ self).

Record wf (MaxEgressRoutes MaxIngressRoutes : nat) (self : t) : Prop := {
  wf_egress : (length (egress_config_ self) <= MaxEgressRoutes)%nat;
  wf_ingress : (length (ingress_config_ self) <= MaxIngressRoutes)%nat;
  wf_routes : NoDup (routes self);
  wf_egress_valid : Forall (fun c => Valid (egress_route_id c) (egress_descriptor c) = true) (egress_config_ self);
  wf_ingress_valid :
    Forall (fun c => Valid (ingress_route_id c) (ingress_descriptor c) = true) (ingress_config_ self)
}.

Lemma HasRoute_spec route_id self : HasRoute route_id self = true <-> route_id ∈ routes self.
Proof.
  unfold HasRoute, routes. rewrite orb_true_iff, elem_of_app, !list_elem_of_fmap, !existsb_exists.
  split; (intros [(c & H1 & H2)|(c & H1 & H2)]; [left|right]; exists c).
  - bool_hyps. by rewrite list_elem_of_In.
  - bool_hyps. by rewrite list_elem_of_In.
  - subst. rewrite <- list_elem_of_In. by rewrite Z.eqb_refl.
  - subst. rewrite <- list_elem_of_In. by rewrite Z.eqb_refl.
Qed.

Lemma init_wf m n : wf m n init.
Proof. split; cbn; try lia; constructor. Qed.

Lemma AddEgress_wf m n route_id descriptor age self :
  wf m n self -> wf m n (AddEgress m route_id descriptor age self).2.
Proof.
  intros H. unfold AddEgress. split_if; [done|]. destruct (HasRoute route_id self) eqn:Hr; [done|].
  split_if; [done|]. bool_hyps. destruct H as [He Hi Hn Hv Hv']. split; cbn; try done.
  - rewrite length_app. cbn. lia.
  - unfold routes in *. cbn. rewrite fmap_app. cbn. rewrite <- app_assoc. cbn.
    rewrite <- Permutation_middle. apply NoDup_cons. split; [|done]. intros Hin.
    enough (HasRoute route_id self = true) by congruence. by apply HasRoute_spec.
  - by apply Forall_app_2, Forall_singleton.
Qed.

Lemma AddIngress_wf m n route_id descriptor self :
  wf m n self -> wf m n (AddIngress n route_id descriptor self).2.
Proof.
  intros H. unfold AddIngress. split_if; [done|]. destruct (HasRoute route_id self) eqn:Hr; [done|].
  split_if; [done|]. bool_hyps. destruct H as [He Hi Hn Hv Hv']. split; cbn; try done.
  - rewrite length_app. cbn. lia.
  - unfold routes in *. cbn. rewrite fmap_app, app_assoc. cbn. rewrite <- Permutation_cons_append. apply NoDup_cons.
    split; [|done]. intros Hin. enough (HasRoute route_id self = true) by congruence. by apply HasRoute_spec.
  - by apply Forall_app_2, Forall_singleton.
Qed.

(** ** Lemmas: initialization *)

Section Wiring.
Context {W P : Type} (MaxEgressRoutes MaxIngressRoutes : nat) (name_ : string) (transport_ : TransportRef W)
  (interval : Z) (executor_ : ExecutorRef W P) (clock_ : ClockRef W) (channel : ChannelRef W)
  (this : Cell W t) (egress_ : nat -> Cell W ChannelPacketEgress.t)
  (ingress_ : nat -> Cell W ChannelPacketIngress.t).

(** The module and its bridges are different objects. *)
Class Objects : Prop := {
  objects_this : CellLaws this;
  objects_egress i : CellLaws (egress_ i);
  objects_ingress i : CellLaws (ingress_ i);
  objects_this_egress i : Apart this (egress_ i);
  objects_this_ingress i : Apart this (ingress_ i);
  objects_egress_egress i j : i <> j -> Apart (egress_ i) (egress_ j);
  objects_egress_ingress i j : Apart (egress_ i) (ingress_ j);
  objects_ingress_ingress i j : i <> j -> Apart (ingress_ i) (ingress_ j)
}.

(** Registering with the channel leaves an object alone. *)
Definition kept_by_registration {A} (c : Cell W A) : Prop := forall d callback w,
  load c (ChannelRef_RegisterSubscriber callback channel d w).2 = load c w /\
  load c (ChannelRef_RegisterPublisher channel d w).2 = load c w.

Context (objects : Objects) (kept_this : kept_by_registration this)
  (kept_egress : forall i, kept_by_registration (egress_ i))
  (kept_ingress : forall i, kept_by_registration (ingress_ i)).
#[local] Existing Instances objects_this objects_egress objects_ingress.

Definition bound_egress (config : EgressConfig) : ChannelPacketEgress.t :=
  ChannelPacketEgress.Mk (egress_descriptor config) true (ChannelPacketEgress.MkStats 0 0).
Definition bound_ingress (config : IngressConfig) : ChannelPacketIngress.t :=
  ChannelPacketIngress.Mk (ingress_descriptor config) true (ChannelPacketIngress.MkStats 0 0 0 0).

Lemma Valid_binds route_id d :
  Valid route_id d = true -> (route_id =? 0) = false /\ (max_serialized_size (message_type d) =? 0) = false.
Proof. unfold Valid. intros. bool_hyps. split; by apply Z.eqb_neq. Qed.

(** A failed registration is the channel's refusal. *)
Definition refused (status : Status) : Prop := exists d w,
  (exists callback, (ChannelRef_RegisterSubscriber callback channel d w).1 = status) \/
  (ChannelRef_RegisterPublisher channel d w).1 = status.

Lemma egress_Bind_fresh index config w :
  Valid (egress_route_id config) (egress_descriptor config) = true ->
  let '(status, w') := ChannelPacketEgress.Bind (egress_route_id config) transport_ (maximum_age_ns config)
    (egress_ index) channel (egress_descriptor config) (store (egress_ index) ChannelPacketEgress.init w) in
  (if IsOk status then load (egress_ index) w' = bound_egress config else refused status) /\
  forall A (c : Cell W A), kept_by_registration c -> Apart c (egress_ index) -> load c w' = load c w.
Proof using objects kept_egress.
  intros [Hr Hm]%Valid_binds. unfold ChannelPacketEgress.Bind. rewrite load_store, Hr, Hm. cbn [orb ChannelPacketEgress.bound_ ChannelPacketEgress.init].
  set (w1 := store _ _ w). set (forward := ChannelPacketEgress.Forward _ _ _ _).
  assert (load (egress_ index) w1 = ChannelPacketEgress.init) as Hw1 by apply load_store.
  pose proof (fun A (c : Cell W A) (K : kept_by_registration c) => K (egress_descriptor config) forward w1) as K.
  assert (refused (ChannelRef_RegisterSubscriber forward channel (egress_descriptor config) w1).1) as Href
    by (exists (egress_descriptor config), w1; left; by exists forward).
  destruct (ChannelRef_RegisterSubscriber _ _ _ _) as [status w2]. cbn [fst snd] in *.
  pose proof (proj1 (K _ _ (kept_egress index))) as Hk.
  assert (forall A (c : Cell W A), kept_by_registration c -> Apart c (egress_ index) -> load c w2 = load c w) as Hk'.
  { intros A c Kc Ac. rewrite (proj1 (K _ _ Kc)). unfold w1. apply load_apart_l. }
  destruct (IsOk status) eqn:E; rewrite E.
  - split; [by rewrite load_update, Hk, Hw1|].
    intros A c Kc Ac. unfold update. by rewrite load_apart_l, Hk'.
  - by split.
Qed.

Lemma bind_egress_spec k configs w :
  Forall (fun c => Valid (egress_route_id c) (egress_descriptor c) = true) configs ->
  let '(status, w') := bind_egress transport_ egress_ channel k configs w in
  (if IsOk status
   then forall i config, configs !! i = Some config -> load (egress_ (k + i)) w' = bound_egress config
   else refused status) /\
  forall A (c : Cell W A), kept_by_registration c ->
    (forall i, (k <= i)%nat -> Apart c (egress_ i)) -> load c w' = load c w.
Proof using objects kept_egress.
  intros Hv. revert k w. induction Hv as [|config configs Hc Hv IH]; intros k w; cbn [bind_egress]; [by split|].
  pose proof (egress_Bind_fresh k config w Hc) as Hb.
  destruct (ChannelPacketEgress.Bind _ _ _ _ _ _ _) as [status w1]. destruct Hb as [Hb Hkeep].
  destruct (IsOk status) eqn:E; cbn [negb].
  - specialize (IH (S k) w1). destruct (bind_egress _ _ _ _ _ _) as [status' w2]. destruct IH as [Hrest Hkeep'].
    split.
    + destruct (IsOk status'); [|done]. intros [|i] config' Hi; cbn in Hi.
      * injection Hi as ->. rewrite Nat.add_0_r, Hkeep'; [done|done|].
        intros i Hi. apply objects_egress_egress. lia.
      * replace (k + S i)%nat with (S k + i)%nat by lia. by apply Hrest.
    + intros A c Kc Ac. rewrite Hkeep', Hkeep; [done|done|apply Ac; lia|done|intros i Hi; apply Ac; lia].
  - rewrite E. split; [done|]. intros A c Kc Ac. apply Hkeep; [done|apply Ac; lia].
Qed.

Notation capacity := (kRouterCapacity MaxIngressRoutes).
Notation key := (fun r => (StaticRouter.r_route_id r, StaticRouter.r_kind r)).

(** The route of an ingress. *)
Definition route_of (index : nat) (config : IngressConfig) : StaticRouter.Route W :=
  StaticRouter.MkRoute (ingress_route_id config) kChannel (schema_hash (message_type (ingress_descriptor config)))
    (ChannelPacketIngress.Receive (ingress_route_id config) channel (ingress_ index)).

Lemma ingress_Bind_fresh index config router w :
  Valid (ingress_route_id config) (ingress_descriptor config) = true ->
  StaticRouter.sealed_ router = false -> (ingress_route_id config, kChannel) ∉ key <$> StaticRouter.routes_ router ->
  (length (StaticRouter.routes_ router) < capacity)%nat ->
  let '(status, router', w') := ChannelPacketIngress.Bind (ingress_route_id config) channel (ingress_ index)
    capacity router (ingress_descriptor config) (store (ingress_ index) ChannelPacketIngress.init w) in
  StaticRouter.sealed_ router' = false /\
  StaticRouter.routes_ router' = StaticRouter.routes_ router ++ [route_of index config] /\
  (if IsOk status then load (ingress_ index) w' = bound_ingress config else refused status) /\
  forall A (c : Cell W A), kept_by_registration c -> Apart c (ingress_ index) -> load c w' = load c w.
Proof using objects kept_ingress.
  intros Hv Hs Hn Hl. destruct (Valid_binds _ _ Hv) as [Hr Hm]. unfold ChannelPacketIngress.Bind.
  rewrite load_store, Hr, Hm. cbn [orb ChannelPacketIngress.bound_ ChannelPacketIngress.init].
  rewrite StaticRouter.Register_open by (done || by apply Z.eqb_neq).
  rewrite decide_False by done. guard_false (length (StaticRouter.routes_ router) =? capacity)%nat. cbn [IsOk negb].
  set (w1 := store _ _ w).
  assert (load (ingress_ index) w1 = ChannelPacketIngress.init) as Hw1 by apply load_store.
  pose proof (fun A (c : Cell W A) (K : kept_by_registration c) =>
    K (ingress_descriptor config) (fun _ _ _ w => (kOk, w)) w1) as K.
  assert (refused (ChannelRef_RegisterPublisher channel (ingress_descriptor config) w1).1) as Href
    by (exists (ingress_descriptor config), w1; by right).
  destruct (ChannelRef_RegisterPublisher _ _ _) as [status w2]. cbn [fst snd] in *.
  pose proof (proj2 (K _ _ (kept_ingress index))) as Hk.
  assert (forall A (c : Cell W A), kept_by_registration c -> Apart c (ingress_ index) -> load c w2 = load c w) as Hk'.
  { intros A c Kc Ac. rewrite (proj2 (K _ _ Kc)). unfold w1. apply load_apart_l. }
  destruct (IsOk status) eqn:E; cbn [negb]; rewrite ?E; split_and!; try done.
  - cbn [IsOk]. by rewrite load_update, Hk, Hw1.
  - intros A c Kc Ac. unfold update. by rewrite load_apart_l, Hk'.
Qed.

Lemma route_keys k configs :
  NoDup (ingress_route_id <$> configs) -> NoDup (key <$> imap (fun i => route_of (k + i)) configs).
Proof using Type.
  intros H. assert (key <$> imap (fun i => route_of (k + i)) configs =
    (fun id => (id, kChannel)) <$> (ingress_route_id <$> configs)) as ->.
  { clear H. revert k. induction configs as [|config configs IH]; intros k; [done|]. cbn. f_equal.
    rewrite <- (IH (S k)). f_equal. apply imap_ext. intros i x _. cbn. by rewrite Nat.add_succ_r. }
  apply NoDup_fmap_2; [|done]. by intros ? ? [=].
Qed.

Lemma bind_ingress_spec k configs router w :
  Forall (fun c => Valid (ingress_route_id c) (ingress_descriptor c) = true) configs ->
  StaticRouter.sealed_ router = false ->
  NoDup ((StaticRouter.r_route_id <$> StaticRouter.routes_ router) ++ (ingress_route_id <$> configs)) ->
  (length (StaticRouter.routes_ router) + length configs <= capacity)%nat ->
  let '(status, router', w') :=
    bind_ingress MaxIngressRoutes ingress_ channel k configs router w in
  StaticRouter.sealed_ router' = false /\
  (if IsOk status
   then (forall i config, configs !! i = Some config -> load (ingress_ (k + i)) w' = bound_ingress config) /\
     StaticRouter.routes_ router' = StaticRouter.routes_ router ++ imap (fun i => route_of (k + i)) configs
   else refused status) /\
  forall A (c : Cell W A), kept_by_registration c ->
    (forall i, (k <= i)%nat -> Apart c (ingress_ i)) -> load c w' = load c w.
Proof using objects kept_ingress.
  intros Hv. revert k router w. induction Hv as [|config configs Hc Hv IH]; intros k router w Hs Hn Hl; cbn [bind_ingress].
  - cbn. by rewrite app_nil_r.
  - cbn [length] in Hl. rewrite fmap_cons in Hn.
    assert ((ingress_route_id config, kChannel) ∉ key <$> StaticRouter.routes_ router) as Hnew.
    { rewrite <- Permutation_middle in Hn. apply NoDup_cons in Hn as [Hn _].
      intros (r & Hr & Hin)%list_elem_of_fmap. injection Hr as Hr _. apply Hn. rewrite elem_of_app. left.
      apply list_elem_of_fmap. by exists r. }
    pose proof (ingress_Bind_fresh k config router w Hc Hs Hnew ltac:(lia)) as Hb.
    destruct (ChannelPacketIngress.Bind _ _ _ _ _ _ _) as [[status router1] w1]. destruct Hb as (Hs1 & Hr1 & Hb & Hkeep).
    destruct (IsOk status) eqn:E; cbn [negb].
    + specialize (IH (S k) router1 w1 Hs1). rewrite Hr1, fmap_app, <- app_assoc, length_app in IH. cbn in IH.
      specialize (IH Hn ltac:(lia)). destruct (bind_ingress _ _ _ _ _ _ _) as [[status' router2] w2].
      destruct IH as (Hs2 & Hrest & Hkeep'). split; [done|]. split.
      * destruct (IsOk status'); [|done]. destruct Hrest as [Hrest ->]. split.
        -- intros [|i] config' Hi; cbn in Hi.
           ++ injection Hi as ->. rewrite Nat.add_0_r, Hkeep'; [done|done|].
              intros i Hi. apply objects_ingress_ingress. lia.
           ++ rewrite Nat.add_succ_r. by apply Hrest.
        -- rewrite <- app_assoc. cbn [imap app]. rewrite Nat.add_0_r. do 2 f_equal. apply imap_ext. intros i x _. cbn.
           by rewrite Nat.add_succ_r.
      * intros A c Kc Ac. rewrite Hkeep', Hkeep; [done|done|apply Ac; lia|done|intros i Hi; apply Ac; lia].
    + rewrite E. split_and!; [done|done|]. intros A c Kc Ac. apply Hkeep; [done|apply Ac; lia].
Qed.
End Wiring.
(** ** Lemmas: running *)

Section Running.
Context {W P : Type} (name_ : string) (transport_ : TransportRef W) (interval : Z) (executor_ : ExecutorRef W P)
  (clock_ : ClockRef W) (this : Cell W t) (self_ : P) (router : StaticRouter.t W).
Context (queue : Cell W (list (Z * P))) (up : W -> bool).
Context `{!CellLaws this, !CellLaws queue, !Apart this queue, !PostsTo executor_ queue,
  !TransportRefLaws transport_ up, !RefKeeps transport_ this, !RefKeeps transport_ queue}.
Context (up_this : forall a w, up (store this a w) = up w) (up_queue : forall q w, up (store queue q w) = up w).

Definition running (w : W) : bool := running_ (load this w).

(** The module's idea of the transport is right, and it runs only while the
    transport is up. *)
Definition sound (w : W) : Prop :=
  transport_started_ (load this w) = up w /\ (running w = true -> up w = true).

Lemma schedule_now_posts caller w :
  let '(status, w') := schedule_now interval executor_ clock_ self_ caller w in
  load this w' = load this w /\ up w' = up w /\
  (if IsOk status
   then (ClockRef_NowNs clock_ 0 w).1 = kOk /\
     load queue w' = load queue w ++ [(SaturatingAdd (ClockRef_NowNs clock_ 0 w).2 interval, self_)]
   else w' = w).
Proof using All.
  unfold schedule_now, Schedule. destruct (ClockRef_NowNs clock_ 0 w) as [status now]. cbn [fst snd].
  destruct (IsOk status) eqn:E; [apply IsOk_spec in E as ->|by rewrite E].
  pose proof (TryPostAt_posts (SaturatingAdd now interval) self_ (caller now) w) as H.
  destruct (ExecutorRef_TryPostAt _ _ _ _ _) as [status w']. destruct (IsOk status); subst; [|done].
  split_and!; [by rewrite load_update_apart|apply up_queue|done|by rewrite load_update].
Qed.

Notation Start := (Start name_ transport_ interval executor_ clock_ this self_ router).
Notation PollOnce := (PollOnce transport_ interval executor_ clock_ this self_).
Notation Shutdown := (Shutdown transport_ this).

(** [Start] on every branch: a refusal leaves the module down with nothing pending. *)
Lemma Start_spec w :
  let '(status, w') := Start w in
  (sound w -> sound w') /\
  (if IsOk status
   then running w' = true /\ exists item, load queue w' = load queue w ++ [item]
   else running w' = running w /\ load queue w' = load queue w).
Proof using All.
  unfold sound, running, ChannelTransportModule.Start.
  destruct (initialized_ (load this w)); [|by cbn; auto].
  destruct (running_ (load this w)) eqn:Er; [by cbn; rewrite Er; auto|].
  destruct (transport_started_ (load this w)) eqn:Et; [by cbn; rewrite Er, Et; auto|]. cbn [negb orb].
  pose proof (ref_start_up (StaticRouter.Receive (Some router)) w) as Hup.
  pose proof (start_keeps (c := this) (Some (StaticRouter.Receive (Some router))) w) as Hk.
  pose proof (start_keeps (c := queue) (Some (StaticRouter.Receive (Some router))) w) as Hq.
  destruct (ref_Start transport_ _ w) as [status w1]. destruct Hup as [Hup _]. cbn [snd] in *.
  destruct (IsOk status) eqn:Ok; cbn [negb]; [|rewrite Ok, Hk, Hq, Hup, Er, Et; by auto].
  set (w2 := update this _ w1).
  assert (load this w2 = (load this w) <| transport_started_ := true |> <| running_ := true |>) as Hw2
    by (unfold w2; by rewrite load_update, Hk).
  assert (up w2 = true) as Hup2 by (unfold w2, update; by rewrite up_this).
  assert (load queue w2 = load queue w) as Hq2 by (unfold w2; by rewrite load_update_apart_r, Hq).
  pose proof (schedule_now_posts (fun now_ns => MkExecutionContext name_ kThread now_ns) w2) as Hs.
  destruct (schedule_now _ _ _ _ _ _) as [status' w3]. destruct Hs as (Hs1 & Hs2 & Hs3).
  destruct (IsOk status') eqn:Ok'; cbn [negb]; rewrite Ok'.
  - destruct Hs3 as [_ Hs3]. rewrite Hs1, Hs2, Hw2, Hup2, Hs3, Hq2. cbn. eauto.
  - subst w3. set (w4 := update this _ w2).
    assert (load this w4 = (load this w2) <| running_ := false |>) as Hw4 by apply load_update.
    assert (load queue w4 = load queue w) as Hq4 by (unfold w4; by rewrite load_update_apart_r).
    rewrite load_update, stop_keeps, load_update_apart_r, stop_keeps, Hw4, Hq4.
    unfold update. rewrite up_this, ref_stop_up. by cbn.
Qed.

(** [Shutdown] always leaves the module and the transport down. *)
Lemma Shutdown_spec w :
  (sound w -> sound (Shutdown w)) /\ running (Shutdown w) = false /\ load queue (Shutdown w) = load queue w.
Proof using All.
  unfold sound, running, ChannelTransportModule.Shutdown. set (w1 := update this _ w).
  assert (load this w1 = (load this w) <| running_ := false |>) as Hw1 by apply load_update.
  assert (load queue w1 = load queue w) as Hq1 by (unfold w1; by rewrite load_update_apart_r).
  assert (up w1 = up w) as Hup1 by apply up_this.
  rewrite Hw1. cbn [transport_started_ set_field]. split_if.
  - rewrite load_update, stop_keeps, load_update_apart_r, stop_keeps, Hw1, Hq1.
    unfold update. rewrite up_this, ref_stop_up. by cbn.
  - rewrite Hw1, Hq1, Hup1. cbn. rewrite E. split_and!; try done. by intros [? _].
Qed.

(** One poll of a running module: the transport is polled once, the outcome is
    counted, and the next poll is posted or the module stops. *)
Lemma PollOnce_spec caller w :
  running w = true ->
  let w' := PollOnce caller w in
  (sound w -> sound w') /\
  (let polled := (ref_Poll transport_ caller w).2 in
   polls (stats_ (load this w')) = incr32 (polls (stats_ (load this w))) /\
   exists stats w2, w2 = update this (fun self => self <| stats_ := stats |>) polled /\
   let '(status, now_ns) := ClockRef_NowNs clock_ 0 w2 in
   (running w' = true /\ status = kOk /\ load queue w' = load queue w ++ [(SaturatingAdd now_ns interval, self_)]) \/
   (running w' = false /\ load queue w' = load queue w)).
Proof using All.
  unfold sound, running, ChannelTransportModule.PollOnce. intros Hr. rewrite Hr. cbn [negb].
  pose proof (ref_poll_up caller w) as Hup.
  pose proof (poll_keeps (c := this) caller w) as Hk. pose proof (poll_keeps (c := queue) caller w) as Hq.
  destruct (ref_Poll transport_ caller w) as [poll_status w1]. cbn [snd] in *.
  set (stats1 := bump polls (stats_ (load this w))).
  set (failed := (_ && _)%bool).
  set (stats2 := if failed then (bump poll_failures stats1) <| last_failure := poll_status |> else stats1).
  set (w2 := update this (fun self => self <| stats_ := stats2 |>) w1).
  match goal with |- context [schedule_now _ _ _ _ _ ?x] => assert (x = w2) as -> end.
  { unfold w2, stats2, stats1. destruct failed; [rewrite update_update|]; unfold update; by rewrite Hk. }
  assert (load this w2 = (load this w) <| stats_ := stats2 |>) as Hw2 by (unfold w2; by rewrite load_update, Hk).
  assert (up w2 = up w) as Hup2 by (unfold w2, update; by rewrite up_this).
  assert (load queue w2 = load queue w) as Hq2 by (unfold w2; by rewrite load_update_apart_r).
  assert (polls stats2 = incr32 (polls (stats_ (load this w)))) as Hp by (unfold stats2; by destruct failed).
  pose proof (schedule_now_posts (fun _ => caller) w2) as Hs.
  destruct (schedule_now _ _ _ _ _ _) as [status w3]. destruct Hs as (Hs1 & Hs2 & Hs3).
  destruct (IsOk status) eqn:Ok; cbn [negb].
  - destruct Hs3 as [Hc Hs3]. rewrite Hs1, Hs2, Hw2, Hup2. cbn. rewrite Hr. split; [by intros [? ?]|]. split; [done|].
    exists stats2, w2. split; [done|]. destruct (ClockRef_NowNs clock_ 0 w2) as [status' now_ns]. left. cbn in *.
    by rewrite Hs3, Hq2.
  - subst w3. rewrite !load_update, Hw2, !load_update_apart_r. unfold update at 1 2. rewrite !up_this, Hup2.
    cbn. split; [by intros [? _]|]. split; [done|].
    exists stats2, w2. split; [done|]. destruct (ClockRef_NowNs clock_ 0 w2). by right.
Qed.

#[export] Instance module_polls : PollLoop running queue Start PollOnce Shutdown.
Proof using All.
  split.
  - intros w. pose proof (Start_spec w) as H. destruct (Start w). by destruct H.
  - intros caller w Hr. unfold running in Hr. unfold ChannelTransportModule.PollOnce. by rewrite Hr.
  - intros caller w Hr. destruct (PollOnce_spec caller w Hr) as (_ & _ & stats & w2 & _ & H).
    destruct (ClockRef_NowNs _ _ _) as [status now_ns]. destruct H as [(H & _ & Hq)|[H Hq]]; [left|by right].
    split; [done|]. by eexists.
  - intros w. by destruct (Shutdown_spec w) as (_ & ? & ?).
  - intros pending w. unfold running. by rewrite load_apart_l.
Qed.

Notation lives := (rtc (life queue Start PollOnce Shutdown)).

Lemma lives_sound w w' : sound w -> lives w w' -> sound w'.
Proof using All.
  intros Hs H. induction H as [|w1 w2 w3 [w Hq|caller item pending w Hq|w] _ IH]; [done|..]; apply IH.
  - pose proof (Start_spec w) as H. destruct (Start w). by apply H.
  - assert (sound (store queue pending w)) as Hs'.
    { destruct Hs as [Ht Hr]. split; [by rewrite load_apart_l, up_queue|]. unfold running in *.
      by rewrite load_apart_l, up_queue. }
    destruct (running (store queue pending w)) eqn:Hr; [by apply PollOnce_spec|].
    by rewrite (run_stopped (PollLoop := module_polls)).
  - by apply Shutdown_spec.
Qed.
End Running.

(** The states a module reaches while it is being configured. *)
Inductive configured (m n : nat) : t -> Prop :=
  | configured_init : configured m n init
  | configured_egress route_id descriptor age self :
      configured m n self -> configured m n (AddEgress m route_id descriptor age self).2
  | configured_ingress route_id descriptor self :
      configured m n self -> configured m n (AddIngress n route_id descriptor self).2.

Lemma configured_wf m n self :
  configured m n self -> wf m n self /\ configuration_sealed_ self = false /\ initialized_ self = false /\
    running_ self = false /\ transport_started_ self = false.
Proof.
  induction 1 as [|? ? ? ? ? (H & Hs & Hi & Hr & Ht)|? ? ? ? (H & Hs & Hi & Hr & Ht)].
  - split; [apply init_wf|done].
  - split; [by apply AddEgress_wf|]. unfold AddEgress. by repeat split_if.
  - split; [by apply AddIngress_wf|]. unfold AddIngress. by repeat split_if.
Qed.

(** What [Initialize] refuses before it binds anything. *)
Definition unusable {W P} (name_ : string) (interval : Z) (executor_ : ExecutorRef W P) (clock_ : ClockRef W)
    (channel : ChannelRef W) (self : t) : Prop :=
  name_ = ""%string \/ interval = 0 \/ routes self = [] \/ executor_ = None \/ clock_ = None \/ channel = None.

(** Initializing a configured module wires every route. The status is
    [kInvalidArgument] when a handle, the name, the interval or the routes are
    missing; otherwise it is the first refusal of the channel, because the router,
    sized for the configuration, never refuses. When it is [kOk] every egress is
    bound to its descriptor, every ingress is bound and is the one route of the
    sealed router for its id, with its schema; whatever it is, the configuration
    is sealed and the module counts as initialized exactly on success. *)
Theorem channel_module_wires {W P} m n name_ (transport_ : TransportRef W) interval (executor_ : ExecutorRef W P)
    clock_ channel (this : Cell W t) egress_ ingress_ w :
  Objects this egress_ ingress_ -> kept_by_registration channel this ->
  (forall i, kept_by_registration channel (egress_ i)) -> (forall i, kept_by_registration channel (ingress_ i)) ->
  configured m n (load this w) ->
  let '(status, router, w') := Initialize n name_ transport_ interval executor_ clock_ this egress_ ingress_
    channel StaticRouter.init w in
  load this w' = (load this w) <| configuration_sealed_ := true |> <| initialized_ := IsOk status |> /\
  (if IsOk status
   then
     (forall i c, egress_config_ (load this w) !! i = Some c -> load (egress_ i) w' = bound_egress c) /\
     (forall i c, ingress_config_ (load this w) !! i = Some c -> load (ingress_ i) w' = bound_ingress c /\
        routes_to (ingress_route_id c) channel (ingress_ i) router
          (schema_hash (message_type (ingress_descriptor c))))
   else (status = kInvalidArgument /\ unusable name_ interval executor_ clock_ channel (load this w)) \/
        refused channel status).
Proof.
  intros objects Kt Ke Ki (Hwf & Hs & Hi & _)%configured_wf. pose proof (objects_this _ _ _ (Objects := objects)).
  unfold Initialize. rewrite Hs. set (w1 := update this _ w).
  assert (load this w1 = (load this w) <| configuration_sealed_ := true |>) as Hw1 by apply load_update.
  rewrite Hw1. cbn [egress_config_ ingress_config_ set_field].
  destruct Hwf as [He Hn Hnd Hev Hiv].
  split_if.
  { split; [rewrite Hw1; destruct (load this w); cbn in *; by subst|]. left. split; [done|].
    unfold unusable, routes. rewrite !orb_true_iff in E. rewrite !bool_decide_eq_true in E.
    destruct E as [[[[[?|?]|E]|?]|?]|?]; bool_hyps; try tauto.
    right; right; left. destruct (egress_config_ _), (ingress_config_ _); cbn in E; done || lia. }
  pose proof (bind_egress_spec transport_ channel this egress_ ingress_ objects Ke 0
    (egress_config_ (load this w)) w1 Hev) as Hb.
  destruct (bind_egress _ _ _ _ _ _) as [status w2]. destruct Hb as [Hb Hkeep].
  assert (load this w2 = load this w1) as Hw2
    by (apply Hkeep; [done|intros i _; by eapply objects_this_egress]).
  destruct (IsOk status) eqn:Hok; cbn [negb].
  2: { rewrite Hw2, Hw1, Hok. split; [destruct (load this w); cbn in *; by subst|by right]. }
  pose proof (bind_ingress_spec n channel this egress_ ingress_ objects Ki 0
    (ingress_config_ (load this w)) StaticRouter.init w2 Hiv eq_refl) as Hb'.
  destruct (bind_ingress _ _ _ _ _ _ _) as [[status' router] w3].
  destruct Hb' as (Hrs & Hb' & Hkeep').
  { cbn. unfold routes in Hnd. by apply NoDup_app in Hnd as (_ & _ & ?). }
  { cbn. unfold kRouterCapacity. split_if; bool_hyps; lia. }
  assert (load this w3 = load this w1) as Hw3.
  { rewrite <- Hw2. apply Hkeep'; [done|intros i _; by eapply objects_this_ingress]. }
  destruct (IsOk status') eqn:Hok'; cbn [negb].
  2: { rewrite Hw3, Hw1, Hok'. split; [destruct (load this w); cbn in *; by subst|by right]. }
  unfold StaticRouter.Seal. rewrite Hrs. cbn [IsOk]. split; [rewrite load_update, Hw3, Hw1; reflexivity|].
  destruct Hb' as [Hb' Hroutes]. split.
  - intros i c Hc. unfold update. rewrite (objects_this_egress _ _ _ i).(load_apart_r).
    rewrite Hkeep' by (done || intros; by eapply objects_egress_ingress). by apply Hb.
  - intros i c Hc. split.
    + unfold update. rewrite (objects_this_ingress _ _ _ i).(load_apart_r). by apply Hb'.
    + split; [done|]. cbn [StaticRouter.routes_ set_field]. rewrite Hroutes. cbn [StaticRouter.routes_ StaticRouter.init app].
      split; [apply route_keys; unfold routes in Hnd; by apply NoDup_app in Hnd as (_ & _ & ?)|].
      apply list_elem_of_lookup. exists i. by rewrite list_lookup_imap, Hc.
Qed.


(** Started again while the poll of its previous run is still pending, the module
    has two polls pending, each of which goes on posting itself. *)
Lemma restart_doubles_polls {W P} name_ (transport_ : TransportRef W) interval (executor_ : ExecutorRef W P) clock_
    (this : Cell W t) (self_ : P) router (queue : Cell W (list (Z * P))) (up : W -> bool) w :
  CellLaws this -> CellLaws queue -> Apart this queue -> PostsTo executor_ queue ->
  TransportRefLaws transport_ up -> RefKeeps transport_ this -> RefKeeps transport_ queue ->
  (forall a w, up (store this a w) = up w) -> (forall q w, up (store queue q w) = up w) ->
  length (load queue w) = 1%nat ->
  let '(status, w') := Start name_ transport_ interval executor_ clock_ this self_ router (Shutdown transport_ this w) in
  status = kOk -> length (load queue w') = 2%nat.
Proof.
  intros ? ? ? ? ? ? ? Hut Huq Hq.
  destruct (Shutdown_spec name_ transport_ interval executor_ clock_ this self_ router queue up Hut Huq w)
    as (_ & _ & Hq').
  pose proof (Start_spec name_ transport_ interval executor_ clock_ this self_ router queue up Hut Huq
    (Shutdown transport_ this w)) as H'.
  destruct (Start _ _ _ _ _ _ _ _ _) as [status w']. destruct H' as [_ H']. intros ->. cbn [IsOk] in H'.
  destruct H' as [_ (item & ->)]. rewrite length_app, Hq', Hq. done.
Qed.

(** *** Witnesses *)

Definition set_slot {A} (i : nat) (a : A) (f : nat -> A) : nat -> A := fun j => if decide (i = j) then a else f j.

Definition sample_node : Type :=
  (t * list (Z * nat)) * ((nat -> ChannelPacketEgress.t) * (nat -> ChannelPacketIngress.t)) * (LocalTransport.t unit * unit).

Definition at_module : Cell sample_node t :=
  MkCell (fun w => w.1.1.1) (fun self w => ((self, w.1.1.2), w.1.2, w.2)).
Definition at_queue : Cell sample_node (list (Z * nat)) :=
  MkCell (fun w => w.1.1.2) (fun pending w => ((w.1.1.1, pending), w.1.2, w.2)).
Definition at_egress (i : nat) : Cell sample_node ChannelPacketEgress.t :=
  MkCell (fun w => w.1.2.1 i) (fun e w => (w.1.1, (set_slot i e w.1.2.1, w.1.2.2), w.2)).
Definition at_ingress (i : nat) : Cell sample_node ChannelPacketIngress.t :=
  MkCell (fun w => w.1.2.2 i) (fun e w => (w.1.1, (w.1.2.1, set_slot i e w.1.2.2), w.2)).
Definition at_line : Cell sample_node (LocalTransport.t unit * unit) :=
  MkCell (fun w => w.2) (fun line w => (w.1, line)).

Lemma slot_laws {A} (i : nat) (a b : A) (f : nat -> A) :
  set_slot i a f i = a /\ set_slot i (f i) f = f /\ set_slot i a (set_slot i b f) = set_slot i a f.
Proof.
  unfold set_slot. split_and!; [by rewrite decide_True|..];
    apply FunctionalExtensionality.functional_extensionality; intros j; by destruct (decide _) as [->|].
Qed.

Lemma slots_apart {A} (i j : nat) (a b : A) (f : nat -> A) :
  i <> j -> set_slot j b f i = f i /\ set_slot i a (set_slot j b f) = set_slot j b (set_slot i a f).
Proof.
  intros Hij. unfold set_slot. split; [by rewrite decide_False|].
  apply FunctionalExtensionality.functional_extensionality. intros k.
  destruct (decide (i = k)) as [->|], (decide (j = k)) as [->|]; congruence.
Qed.

Lemma sample_objects : Objects at_module at_egress at_ingress.
Proof.
  split.
  - split; [done|by intros [[[] ?] ?]|done].
  - intros i. split.
    + intros a w. exact (proj1 (slot_laws i a a w.1.2.1)).
    + intros [[? [f g]] ?]. unfold store, load, at_egress. cbn. by destruct (slot_laws i (f i) (f i) f) as (_ & -> & _).
    + intros a b [[? [f g]] ?]. unfold store, at_egress. cbn. by destruct (slot_laws i a b f) as (_ & _ & ->).
  - intros i. split.
    + intros a w. exact (proj1 (slot_laws i a a w.1.2.2)).
    + intros [[? [f g]] ?]. unfold store, load, at_ingress. cbn. by destruct (slot_laws i (g i) (g i) g) as (_ & -> & _).
    + intros a b [[? [f g]] ?]. unfold store, at_ingress. cbn. by destruct (slot_laws i a b g) as (_ & _ & ->).
  - by intros i; split.
  - by intros i; split.
  - intros i j Hij. split.
    + intros y w. exact (proj1 (slots_apart i j y y w.1.2.1 Hij)).
    + intros x w. exact (proj1 (slots_apart j i x x w.1.2.1 (not_eq_sym Hij))).
    + intros x y [[? [f g]] ?]. unfold store, at_egress. cbn. by destruct (slots_apart i j x y f Hij) as [_ ->].
  - by intros i j; split.
  - intros i j Hij. split.
    + intros y w. exact (proj1 (slots_apart i j y y w.1.2.2 Hij)).
    + intros x w. exact (proj1 (slots_apart j i x x w.1.2.2 (not_eq_sym Hij))).
    + intros x y [[? [f g]] ?]. unfold store, at_ingress. cbn. by destruct (slots_apart i j x y g Hij) as [_ ->].
Qed.

Definition sample_channel : ChannelRef sample_node :=
  Some (AbiChannel true (Some (fun _ w => (0, w))) (Some (fun _ _ w => (0, w))) (Some (fun _ _ _ _ w => (0, w)))).
Definition sample_executor : ExecutorRef sample_node nat :=
  Some (AbiExecutor true None None (Some (fun at_ns work _ w =>
    match work with
    | Some item => (0, update at_queue (fun pending => pending ++ [(at_ns, item)]) w)
    | None => (1, w)
    end))).
Definition sample_clock : ClockRef sample_node := Some (Clock_NativeHandle (MkClock (fun _ => kMonotonic) (fun _ => 40))).
Definition sample_receiver : PacketReceiver unit := fun _ _ w => (kOk, w).
Definition sample_transport : TransportRef sample_node :=
  TransportAt (Transport0 := LocalTransport.transport unit) at_line sample_receiver.

#[local] Instance at_module_laws : CellLaws at_module.
Proof. split; [done|by intros [[[] ?] ?]|done]. Qed.
#[local] Instance at_queue_laws : CellLaws at_queue.
Proof. split; [done|by intros [[[] ?] ?]|done]. Qed.
#[local] Instance at_line_laws : CellLaws at_line.
Proof. split; [done|by intros []|done]. Qed.
#[local] Instance at_module_queue : Apart at_module at_queue.
Proof. by split. Qed.
#[local] Instance at_module_line : Apart at_module at_line.
Proof. by split. Qed.
#[local] Instance at_queue_line : Apart at_queue at_line.
Proof. by split. Qed.
#[local] Instance sample_executor_posts : PostsTo sample_executor at_queue.
Proof. by split. Qed.

Definition sample_up (w : sample_node) : bool :=
  transport_started (Transport := LocalTransport.transport unit) (load at_line w).1.
#[local] Instance sample_transport_laws : TransportRefLaws sample_transport sample_up.
Proof. apply (TransportAt_laws (TransportLaws0 := LocalTransport.transport_laws unit)); apply _. Qed.
#[local] Instance sample_keeps {A} (c : Cell sample_node A) `{!Apart c at_line} : RefKeeps sample_transport c.
Proof. by apply TransportAt_keeps. Qed.

Definition sample_descriptor : ChannelDescriptor := PacketBridgeSamples.descriptor.
Definition sample_configured : t :=
  (AddIngress 1 6 sample_descriptor (AddEgress 1 5 sample_descriptor 0 init).2).2.
Definition node_of (self : t) : sample_node :=
  ((self, []), (fun _ => ChannelPacketEgress.init, fun _ => ChannelPacketIngress.init), (LocalTransport.init, tt)).

Lemma channel_module_wires_witness :
  let '(status, router, w') := Initialize 1 "bridge" sample_transport 10 sample_executor sample_clock at_module
    at_egress at_ingress sample_channel StaticRouter.init (node_of sample_configured) in
  status = kOk /\ routes_to 6 sample_channel (at_ingress 0) router (schema_hash (message_type sample_descriptor)).
Proof.
  pose proof (channel_module_wires 1 1 "bridge" sample_transport 10 sample_executor sample_clock sample_channel
    at_module at_egress at_ingress (node_of sample_configured) sample_objects
    ltac:(intros d callback w; split; reflexivity) ltac:(intros i d callback w; split; reflexivity)
    ltac:(intros i d callback w; split; reflexivity)
    ltac:(apply configured_ingress, configured_egress, configured_init)) as H.
  destruct (Initialize _ _ _ _ _ _ _ _ _ _ _ _) as [[status router] w'] eqn:E.
  assert (status = kOk) as -> by (apply (f_equal (fun r => r.1.1)) in E; vm_compute in E; congruence).
  destruct H as (_ & _ & H). split; [reflexivity|]. by destruct (H 0%nat (MkIngressConfig 6 sample_descriptor) eq_refl).
Defined.

(** The module as [Initialize] leaves it. *)
Definition sample_ready : sample_node :=
  (Initialize 1 "bridge" sample_transport 10 sample_executor sample_clock at_module at_egress at_ingress
    sample_channel StaticRouter.init (node_of sample_configured)).2.

Definition sample_start : sample_node -> Status * sample_node :=
  Start "bridge" sample_transport 10 sample_executor sample_clock at_module 7%nat StaticRouter.init.

End ChannelModuleFacts.
