(* ===== verification/CanModule.v ===== *)
(** The module that runs the CAN bridges of a node
    ([aster_runtime/transport/can/channel_transport_module.hpp]): it owns the link
    control plane and the channel bridges, spreads received frames over them and
    polls all of them from the node's executor. *)

From S2P Require Export Polling CanRpcPath ReliableChannelBridge LinkControl.

Local Open Scope Z_scope.

(** The adapter of the CAN device, a template argument of the module. *)
Record CanAdapter (W : Type) := MkCanAdapter {
  adapter_writer : CanFrameWriter W;
  adapter_Ready : W -> Status;
  adapter_Start : CanFrameReceiver W -> W -> Status * W;
  adapter_Poll : ExecutionContext -> W -> Status * W;
  adapter_Stop : W -> Status * W
}.
Arguments MkCanAdapter {_}.
Arguments adapter_writer {_}.
Arguments adapter_Ready {_}.
Arguments adapter_Start {_}.
Arguments adapter_Poll {_}.
Arguments adapter_Stop {_}.

(** The functions of an [RpcRoute], behind its [state] pointer; a client has no
    [bind]. [H] is what an RPC handle points to. *)
Record RpcRouteOps (W H : Type) := MkRpcRouteOps {
  rpc_accept : CanFrame -> Z -> ExecutionContext -> W -> Status * W;
  rpc_poll : Z -> ExecutionContext -> W -> Status * W;
  rpc_reset : ExecutionContext -> W -> W;
  rpc_bind : option (H -> W -> Status * W)
}.
Arguments MkRpcRouteOps {_ _}.
Arguments rpc_accept {_ _}.
Arguments rpc_poll {_ _}.
Arguments rpc_reset {_ _}.
Arguments rpc_bind {_ _}.

Module CanChannelTransportModule.

Inductive ChannelReliability := kBestEffort | kReliable.

#[export] Instance ChannelReliability_eq_dec : EqDecision ChannelReliability.
Proof. solve_decision. Defined.

Record CanChannelTransportModuleStats := MkStats {
  polls : Z;
  poll_failures : Z;
  schedule_failures : Z;
  peer_resets : Z;
  last_failure : Status
}.
#[global] Instance eta_stats : Eta CanChannelTransportModuleStats := fun r =>
  MkStats (polls r) (poll_failures r) (schedule_failures r) (peer_resets r) (last_failure r).

Record EgressConfig := MkEgressConfig {
  egress_route_id : Z;
  egress_descriptor : ChannelDescriptor;
  egress_reliability : ChannelReliability;
  egress_priority : CanPriority;
  egress_minimum_period_ns : Z
}.

Record IngressConfig := MkIngressConfig {
  ingress_route_id : Z;
  ingress_descriptor : ChannelDescriptor;
  ingress_reliability : ChannelReliability;
  ingress_freshness : FreshnessConfig
}.

(** An [RpcRoute]: its id and its [state]; the pointer decides the functions. *)
Record RpcRoute (R : Type) := MkRpcRoute { rpc_route_id : Z; rpc_state : R }.
Arguments MkRpcRoute {_}.
Arguments rpc_route_id {_}.
Arguments rpc_state {_}.

(** The used parts of the arrays; the counts are their lengths. [egress_engaged_]
    and [ingress_engaged_] say, for the slots filled so far, whether it is the
    reliable bridge that was constructed. *)
Record t (R : Type) := Mk {
  egress_config_ : list EgressConfig;
  ingress_config_ : list IngressConfig;
  rpc_clients_ : list (RpcRoute R);
  rpc_servers_ : list (RpcRoute R);
  egress_engaged_ : list bool;
  ingress_engaged_ : list bool;
  observed_peer_restarts_ : Z;
  configuration_sealed_ : bool;
  initialized_ : bool;
  adapter_started_ : bool;
  running_ : bool;
  stats_ : CanChannelTransportModuleStats
}.
Arguments Mk {_}.
Arguments egress_config_ {_}.
Arguments ingress_config_ {_}.
Arguments rpc_clients_ {_}.
Arguments rpc_servers_ {_}.
Arguments egress_engaged_ {_}.
Arguments ingress_engaged_ {_}.
Arguments observed_peer_restarts_ {_}.
Arguments configuration_sealed_ {_}.
Arguments initialized_ {_}.
Arguments adapter_started_ {_}.
Arguments running_ {_}.
Arguments stats_ {_}.
#[global] Instance eta_t R : Eta (t R) := fun r =>
  Mk (egress_config_ r) (ingress_config_ r) (rpc_clients_ r) (rpc_servers_ r) (egress_engaged_ r)
    (ingress_engaged_ r) (observed_peer_restarts_ r) (configuration_sealed_ r) (initialized_ r)
    (adapter_started_ r) (running_ r) (stats_ r).

Definition init {R} : t R := Mk [] [] [] [] [] [] 0 false false false false (MkStats 0 0 0 0 kOk).

(** An ingress without its channel handle, which is the same for all of them. *)
Record FastSlot := MkFastSlot {
  fast_descriptor : ChannelDescriptor;
  fast_reassembler : FastReassembler.t;
  fast_freshness : FreshnessGuard.t;
  fast_bound : bool;
  fast_stats : FastChannelIngress.ChannelIngressStats
}.
Record ReliableSlot := MkReliableSlot {
  reliable_freshness : FreshnessGuard.t;
  reliable_receiver : ReliableReceiver.t;
  reliable_descriptor : ChannelDescriptor;
  reliable_bound : bool;
  reliable_stats : ReliableChannelIngress.ReliableChannelIngressStats
}.

Definition fast_view {W} (channel : ChannelRef W) (s : FastSlot) : FastChannelIngress.t W :=
  FastChannelIngress.Mk (if fast_bound s then channel else None) (fast_descriptor s) (fast_reassembler s)
    (fast_freshness s) (fast_bound s) (fast_stats s).
Definition fast_slot {W} (i : FastChannelIngress.t W) : FastSlot :=
  MkFastSlot (FastChannelIngress.descriptor_ i) (FastChannelIngress.reassembler_ i)
    (FastChannelIngress.freshness_ i) (FastChannelIngress.bound_ i) (FastChannelIngress.stats_ i).
Definition reliable_view {W} (channel : ChannelRef W) (s : ReliableSlot) : ReliableChannelIngress.t W :=
  ReliableChannelIngress.Mk (reliable_freshness s) (reliable_receiver s)
    (if reliable_bound s then channel else None) (reliable_descriptor s) (reliable_bound s) (reliable_stats s).
Definition reliable_slot {W} (i : ReliableChannelIngress.t W) : ReliableSlot :=
  MkReliableSlot (ReliableChannelIngress.freshness_ i) (ReliableChannelIngress.receiver_ i)
    (ReliableChannelIngress.descriptor_ i) (ReliableChannelIngress.bound_ i) (ReliableChannelIngress.stats_ i).

Definition ValidRouteId (route_id : Z) : bool :=
  (kFirstApplicationRouteId <=? route_id) && (route_id <=? kMaximumRouteId).

Definition Valid (MaximumMessageSize : nat) (route_id : Z) (descriptor : ChannelDescriptor) : bool :=
  ValidRouteId route_id && negb (bool_decide (channel_name descriptor = ""%string)) &&
  negb (bool_decide (type_name (message_type descriptor) = ""%string)) &&
  negb (max_serialized_size (message_type descriptor) =? 0) &&
  (max_serialized_size (message_type descriptor) <=? Z.of_nat MaximumMessageSize).

Definition HasRoute {R} (route_id : Z) (self : t R) : bool :=
  existsb (fun c => egress_route_id c =? route_id) (egress_config_ self) ||
  existsb (fun c => ingress_route_id c =? route_id) (ingress_config_ self) ||
  existsb (fun c => rpc_route_id c =? route_id) (rpc_clients_ self) ||
  existsb (fun c => rpc_route_id c =? route_id) (rpc_servers_ self).

(** What the four functions that add a route share: [valid] is their own check,
    [full] whether their array is. *)
Definition AddRoute {R} (valid full : bool) (route_id : Z) (add : t R -> t R) (self : t R) : Status * t R :=
  if configuration_sealed_ self || negb valid
  then (if configuration_sealed_ self then kInvalidState else kInvalidArgument, self)
  else if HasRoute route_id self then (kAlreadyExists, self)
  else if full then (kCapacityExceeded, self)
  else (kOk, add self).

Section Configuration.
Context {R : Type} (MaximumMessageSize MaxEgressRoutes MaxIngressRoutes MaxRpcClients MaxRpcServers : nat).

Definition AddEgress (route_id : Z) (descriptor : ChannelDescriptor) (reliability : ChannelReliability)
    (priority : CanPriority) (minimum_period_ns : Z) (self : t R) : Status * t R :=
  AddRoute (Valid MaximumMessageSize route_id descriptor)
    (length (egress_config_ self) =? MaxEgressRoutes)%nat route_id
    (fun self => self <| egress_config_ := egress_config_ self ++
       [MkEgressConfig route_id descriptor reliability priority minimum_period_ns] |>) self.

Definition AddIngress (route_id : Z) (descriptor : ChannelDescriptor) (reliability : ChannelReliability)
    (freshness : FreshnessConfig) (self : t R) : Status * t R :=
  AddRoute (Valid MaximumMessageSize route_id descriptor)
    (length (ingress_config_ self) =? MaxIngressRoutes)%nat route_id
    (fun self => self <| ingress_config_ := ingress_config_ self ++
       [MkIngressConfig route_id descriptor reliability freshness] |>) self.

Definition AddRpcClient (route_id : Z) (client : R) (self : t R) : Status * t R :=
  AddRoute (ValidRouteId route_id) (length (rpc_clients_ self) =? MaxRpcClients)%nat route_id
    (fun self => self <| rpc_clients_ := rpc_clients_ self ++ [MkRpcRoute route_id client] |>) self.

Definition AddRpcServer (route_id : Z) (server : R) (self : t R) : Status * t R :=
  AddRoute (ValidRouteId route_id) (length (rpc_servers_ self) =? MaxRpcServers)%nat route_id
    (fun self => self <| rpc_servers_ := rpc_servers_ self ++ [MkRpcRoute route_id server] |>) self.
End Configuration.

(** The first entry of a configuration array that a scan stops at. *)
Fixpoint scan {A} (stop : nat -> A -> bool) (index : nat) (entries : list A) : option (nat * A) :=
  match entries with
  | [] => None
  | entry :: entries => if stop index entry then Some (index, entry) else scan stop (S index) entries
  end.

Section Module_.
Context {W P C H R : Type}.
Variables (MaximumMessageSize : nat).

(** The constructor's arguments, and the handles the core gives the module. *)
Variables (name_ : string) (adapter_ : CanAdapter W) (poll_interval_ns_ retry_timeout_ns_ : Z)
  (maximum_retries_ reassembly_timeout_ns_ : Z).
Variables (executor_ : ExecutorRef W P) (clock_ : ClockRef W) (channel_ : ChannelRef W).
Variables (rpc_at : H -> RpcRef W C) (rpc_ops : R -> RpcRouteOps W H).

(** The objects of the module and the pointer its work item carries. *)
Variables (this : Cell W (t R)) (control_ : Cell W CanLinkControlPlane.t)
  (egress_fast : nat -> Cell W FastChannelEgress.t) (egress_reliable : nat -> Cell W ReliableChannelEgress.t)
  (ingress_fast : nat -> Cell W FastSlot) (ingress_reliable : nat -> Cell W ReliableSlot) (self_ : P).

(** *** The control plane in its place *)

Definition control_call {A} (f : CanLinkControlPlane.t * W -> A * (CanLinkControlPlane.t * W)) (w : W) : A * W :=
  let '(result, (c, w)) := f (load control_ w, w) in (result, store control_ c w).

Definition physical_writer : CanFrameWriter W := adapter_writer adapter_.

(** [control_.application_writer()] and [control_.time_converter()]. *)
Definition application_writer : CanFrameWriter W :=
  Some (fun frame caller w => control_call (CanLinkControlPlane.WriteApplication physical_writer frame caller) w).
Definition time_converter : CanTimeConverter W :=
  Some (fun w local_time_ns => CanLinkControlPlane.ToNetworkTime local_time_ns (load control_ w)).

Definition ReadClock : CanClockReader W := Some (fun w => ClockRef_NowNs clock_ 0 w).

Definition ReadNetworkClock (output : Z) (w : W) : Status * Z :=
  let '(status, now) := ClockRef_NowNs clock_ 0 w in
  (status, if IsOk status then CanLinkControlPlane.ToNetworkTime now (load control_ w) else output).
Definition network_clock : CanClockReader W := Some (fun w => ReadNetworkClock 0 w).

(** [control_(control, adapter.writer(), {ReadClock, this})]. *)
Definition control_init (config : CanLinkControlConfig) : CanLinkControlPlane.t :=
  CanLinkControlPlane.init physical_writer ReadClock config.

Definition Info : ModuleInfo :=
  MkModuleInfo name_ "aster.transport.can.ChannelTransportModule" "asterctrl" (MkSemanticVersion 0 2 0).

(** *** [Initialize] *)

Definition bind_egress_at (index : nat) (config : EgressConfig) (w : W) : Status * W :=
  let reliable := bool_decide (egress_reliability config = kReliable) in
  let w := update this (fun self => self <| egress_engaged_ := egress_engaged_ self ++ [reliable] |>) w in
  if reliable then
    ReliableChannelEgress.Bind MaximumMessageSize (egress_route_id config) (egress_priority config)
      application_writer time_converter (egress_minimum_period_ns config) retry_timeout_ns_ maximum_retries_
      (egress_reliable index) channel_ (egress_descriptor config)
      (store (egress_reliable index) (ReliableChannelEgress.init MaximumMessageSize) w)
  else
    FastChannelEgress.Bind MaximumMessageSize (egress_route_id config) (egress_priority config)
      application_writer time_converter (egress_minimum_period_ns config) (egress_fast index) channel_
      (egress_descriptor config) (store (egress_fast index) (FastChannelEgress.init MaximumMessageSize) w).

Definition bind_ingress_at (index : nat) (config : IngressConfig) (w : W) : Status * W :=
  let reliable := bool_decide (ingress_reliability config = kReliable) in
  let w := update this (fun self => self <| ingress_engaged_ := ingress_engaged_ self ++ [reliable] |>) w in
  if reliable then
    let fresh := ReliableChannelIngress.init MaximumMessageSize (ingress_freshness config) reassembly_timeout_ns_ in
    let w := store (ingress_reliable index) (reliable_slot fresh) w in
    let '(status, bound, w) :=
      ReliableChannelIngress.Bind MaximumMessageSize channel_ (ingress_descriptor config) fresh w in
    (status, store (ingress_reliable index) (reliable_slot bound) w)
  else
    let fresh := FastChannelIngress.init MaximumMessageSize (ingress_freshness config) in
    let w := store (ingress_fast index) (fast_slot fresh) w in
    let '(status, bound, w) :=
      FastChannelIngress.Bind MaximumMessageSize channel_ (ingress_descriptor config) fresh w in
    (status, store (ingress_fast index) (fast_slot bound) w).

(** [for (index = 0; ...) { status = bind; if (!IsOk(status)) return status; }]. *)
Fixpoint bind_all {A} (bind : nat -> A -> W -> Status * W) (index : nat) (entries : list A) (w : W) : Status * W :=
  match entries with
  | [] => (kOk, w)
  | entry :: entries =>
      let '(status, w) := bind index entry w in
      if negb (IsOk status) then (status, w) else bind_all bind (S index) entries w
  end.

(** A server's route always has its [bind]. *)
Definition bind_server (rpc : H) (_ : nat) (server : RpcRoute R) (w : W) : Status * W :=
  match rpc_bind (rpc_ops (rpc_state server)) with
  | Some bind => bind rpc w
  | None => (kOk, w)
  end.

Definition Initialize (rpc : H) (w : W) : Status * W :=
  if configuration_sealed_ (load this w) then (kInvalidState, w)
  else
    let w := update this (fun self => self <| configuration_sealed_ := true |>) w in
    let self := load this w in
    let channels := (length (egress_config_ self) + length (ingress_config_ self))%nat in
    let services := (length (rpc_clients_ self) + length (rpc_servers_ self))%nat in
    if bool_decide (name_ = ""%string) || (poll_interval_ns_ =? 0) || (retry_timeout_ns_ =? 0) ||
       (reassembly_timeout_ns_ =? 0) || (channels + services =? 0)%nat ||
       bool_decide (executor_ = None) || bool_decide (clock_ = None) ||
       (negb (channels =? 0)%nat && bool_decide (channel_ = None)) ||
       (negb (services =? 0)%nat && bool_decide (rpc_at rpc = None))
    then (kInvalidArgument, w)
    else
      let '(status, w) := bind_all bind_egress_at 0 (egress_config_ self) w in
      if negb (IsOk status) then (status, w)
      else
        let '(status, w) := bind_all bind_ingress_at 0 (ingress_config_ self) w in
        if negb (IsOk status) then (status, w)
        else
          let '(status, w) := bind_all (bind_server rpc) 0 (rpc_servers_ self) w in
          if negb (IsOk status) then (status, w)
          else (kOk, update this (fun self => self <| initialized_ := true |>) w).

(** *** Received frames *)

Definition accept_ingress (index : nat) (config : IngressConfig) (frame : CanFrame) (network_time_ns : Z)
    (caller : ExecutionContext) (w : W) : Status * W :=
  if default false (ingress_engaged_ (load this w) !! index) then
    let '(status, ingress, w) := ReliableChannelIngress.Accept MaximumMessageSize (ingress_route_id config)
      application_writer frame network_time_ns caller (reliable_view channel_ (load (ingress_reliable index) w)) w in
    (status, store (ingress_reliable index) (reliable_slot ingress) w)
  else
    let '(status, ingress, w) := FastChannelIngress.Accept MaximumMessageSize (ingress_route_id config)
      frame network_time_ns caller (fast_view channel_ (load (ingress_fast index) w)) w in
    (status, store (ingress_fast index) (fast_slot ingress) w).

(** The four scans of [Accept], for a frame of route [route]. *)
Definition Accept_route (route : Z) (frame : CanFrame) (network_time_ns : Z) (caller : ExecutionContext) (w : W)
    : Status * W :=
  let self := load this w in
  match scan (fun index c => (egress_route_id c =? route) && default false (egress_engaged_ self !! index)) 0
          (egress_config_ self) with
  | Some (index, _) =>
      let '(status, egress) :=
        ReliableChannelEgress.AcceptAcknowledgement frame (load (egress_reliable index) w) in
      (status, store (egress_reliable index) egress w)
  | None =>
      match scan (fun _ c => ingress_route_id c =? route) 0 (ingress_config_ self) with
      | Some (index, config) => accept_ingress index config frame network_time_ns caller w
      | None =>
          match scan (fun _ c => rpc_route_id c =? route) 0 (rpc_clients_ self) with
          | Some (_, client) => rpc_accept (rpc_ops (rpc_state client)) frame network_time_ns caller w
          | None =>
              match scan (fun _ c => rpc_route_id c =? route) 0 (rpc_servers_ self) with
              | Some (_, server) => rpc_accept (rpc_ops (rpc_state server)) frame network_time_ns caller w
              | None => (kUnavailable, w)
              end
          end
      end
  end.

Definition Accept (frame : CanFrame) (receive_time_ns : Z) (caller : ExecutionContext) (w : W) : Status * W :=
  match CanArbitrationId_Decode (arbitration_id frame) with
  | None => (kInvalidArgument, w)
  | Some id =>
      if CanProtocol.size frame =? 0 then (kInvalidArgument, w)
      else if id_route id <? kFirstApplicationRouteId then
        control_call (CanLinkControlPlane.Accept physical_writer frame receive_time_ns caller) w
      else if negb (CanLinkControlPlane.application_enabled_ (load control_ w)) then (kUnavailable, w)
      else
        Accept_route (id_route id) frame
          (CanLinkControlPlane.ToNetworkTime receive_time_ns (load control_ w)) caller w
  end.

Definition Receive : CanFrameReceiver W :=
  Some (fun frame receive_time_ns caller w => Accept frame receive_time_ns caller w).
(** *** The life of the module *)

Definition count (f : CanChannelTransportModuleStats -> CanChannelTransportModuleStats) (w : W) : W :=
  update this (fun self => self <| stats_ := f (stats_ self) |>) w.

Definition RecordPoll (status : Status) (w : W) : W :=
  if negb (IsOk status) && negb (bool_decide (status = kUnavailable)) && negb (bool_decide (status = kTimeout)) &&
     negb (bool_decide (status = kCapacityExceeded))
  then count (fun stats => (bump poll_failures stats) <| last_failure := status |>) w else w.

Definition post_poll (at_ns : Z) (caller : ExecutionContext) (w : W) : Status * W :=
  ExecutorRef_TryPostAt executor_ at_ns (Some self_) caller w.

Definition Start (w : W) : Status * W :=
  let self := load this w in
  if negb (initialized_ self) || running_ self then (kInvalidState, w)
  else
    let status := adapter_Ready adapter_ w in
    if negb (IsOk status) then (status, w)
    else
      let '(status, w) := adapter_Start adapter_ Receive w in
      if negb (IsOk status) then (status, w)
      else
        let w := update this (fun self => self <| adapter_started_ := true |> <| running_ := true |>) w in
        let '(status, now_ns) := ClockRef_NowNs clock_ 0 w in
        let '(status, w) :=
          if IsOk status then post_poll now_ns (MkExecutionContext name_ kThread now_ns) w else (status, w) in
        if negb (IsOk status) then
          let w := update this (fun self => self <| running_ := false |>) w in
          let '(stop_status, w) := adapter_Stop adapter_ w in
          (status,
           if IsOk stop_status then update this (fun self => self <| adapter_started_ := false |>) w
           else count (fun stats => stats <| last_failure := stop_status |>) w)
        else (status, w).

Definition Shutdown (w : W) : W :=
  let w := update this (fun self => self <| running_ := false |>) w in
  if adapter_started_ (load this w) then
    let '(status, w) := adapter_Stop adapter_ w in
    if negb (IsOk status) then count (fun stats => stats <| last_failure := status |>) w
    else update this (fun self => self <| adapter_started_ := false |>) w
  else w.

(** [for (index = 0; index < count; ++index) body]. *)
Definition for_each (entries : nat) (body : nat -> W -> W) (w : W) : W :=
  foldl (fun w index => body index w) w (seq 0 entries).

Definition ResetPeerRoutes (caller : ExecutionContext) (w : W) : W :=
  let self := load this w in
  let w := for_each (length (egress_config_ self)) (fun index w =>
    if default false (egress_engaged_ self !! index)
    then update (egress_reliable index) (ReliableChannelEgress.ResetPeer MaximumMessageSize) w else w) w in
  let w := for_each (length (ingress_config_ self)) (fun index w =>
    if default false (ingress_engaged_ self !! index)
    then update (ingress_reliable index)
      (fun s => reliable_slot (ReliableChannelIngress.ResetPeer (reliable_view channel_ s))) w
    else update (ingress_fast index) (fun s => fast_slot (FastChannelIngress.ResetPeer (fast_view channel_ s))) w) w in
  let w := foldl (fun w client => rpc_reset (rpc_ops (rpc_state client)) caller w) w (rpc_clients_ self) in
  foldl (fun w server => rpc_reset (rpc_ops (rpc_state server)) caller w) w (rpc_servers_ self).

Definition poll_egress (network_now_ns : Z) (caller : ExecutionContext) (index : nat) (w : W) : W :=
  if default false (egress_engaged_ (load this w) !! index) then
    let '(status, egress, w) := ReliableChannelEgress.Poll application_writer network_now_ns caller
      (load (egress_reliable index) w) w in
    RecordPoll status (store (egress_reliable index) egress w)
  else w.

Definition poll_ingress (network_now_ns : Z) (index : nat) (w : W) : W :=
  if default false (ingress_engaged_ (load this w) !! index) then
    let '(status, ingress) :=
      ReliableChannelIngress.Poll network_now_ns (reliable_view channel_ (load (ingress_reliable index) w)) in
    RecordPoll status (store (ingress_reliable index) (reliable_slot ingress) w)
  else
    update (ingress_fast index) (fun s =>
      let '(_, guard) := FreshnessGuard.Poll network_now_ns (fast_freshness s) in
      MkFastSlot (fast_descriptor s) (fast_reassembler s) guard (fast_bound s) (fast_stats s)) w.

Definition poll_rpc (network_now_ns : Z) (caller : ExecutionContext) (w : W) (route : RpcRoute R) : W :=
  let '(status, w) := rpc_poll (rpc_ops (rpc_state route)) network_now_ns caller w in RecordPoll status w.

(** The bridges' share of a poll. *)
Definition poll_routes (network_now_ns : Z) (caller : ExecutionContext) (w : W) : W :=
  let self := load this w in
  let w := for_each (length (egress_config_ self)) (poll_egress network_now_ns caller) w in
  let w := for_each (length (ingress_config_ self)) (poll_ingress network_now_ns) w in
  let w := foldl (poll_rpc network_now_ns caller) w (rpc_clients_ self) in
  foldl (poll_rpc network_now_ns caller) w (rpc_servers_ self).

(** The control plane's share: a restart of the peer that it has seen since the
    last poll resets every route. *)
Definition poll_control (now_ns : Z) (caller : ExecutionContext) (w : W) : W :=
  let '(status, w) := control_call (CanLinkControlPlane.Poll physical_writer now_ns caller) w in
  let w := RecordPoll status w in
  let peer_restarts := LinkControl.peer_restarts (CanLinkControlPlane.stats_ (load control_ w)) in
  if negb (peer_restarts =? observed_peer_restarts_ (load this w)) then
    let w := update this (fun self => self <| observed_peer_restarts_ := peer_restarts |>) w in
    count (fun stats => bump peer_resets stats) (ResetPeerRoutes caller w)
  else w.

(** The end of [PollOnce]. *)
Definition repost (now_ns : Z) (caller : ExecutionContext) (w : W) : W :=
  let w := count (fun stats => bump polls stats) w in
  let '(status, w) := post_poll (SaturatingAdd now_ns poll_interval_ns_) caller w in
  if negb (IsOk status) then
    let w := count (fun stats => (bump schedule_failures stats) <| last_failure := status |>) w in
    let w := update this (fun self => self <| running_ := false |>) w in
    let '(_, w) := adapter_Stop adapter_ w in
    update this (fun self => self <| adapter_started_ := false |>) w
  else w.

Definition PollOnce (caller : ExecutionContext) (w : W) : W :=
  if negb (running_ (load this w)) then w
  else
    let '(adapter_status, w) := adapter_Poll adapter_ caller w in
    let w := RecordPoll adapter_status w in
    let '(clock_status, now_ns) := ClockRef_NowNs clock_ 0 w in
    if negb (IsOk clock_status) then
      update this (fun self => self <| running_ := false |>) (RecordPoll clock_status w)
    else
      let w := poll_control now_ns caller w in
      let network_now_ns := CanLinkControlPlane.ToNetworkTime now_ns (load control_ w) in
      repost now_ns caller (poll_routes network_now_ns caller w).
End Module_.

(** The routes of [CanRpcClient] and [CanRpcServer]: [AcceptRpcClient] and its
    likes, for any service. *)
Definition client_ops {W C H} (completion_fn : C -> aster_rpc_completion_t W) Descriptor route_id writer
    (client : Cell W (CanRpcClient.t C)) : RpcRouteOps W H := {|
  rpc_accept := fun frame _ caller w =>
    CanRpcClient.Accept completion_fn Descriptor route_id writer client frame caller w;
  rpc_poll := fun now_ns caller w => CanRpcClient.Poll completion_fn Descriptor writer client now_ns caller w;
  rpc_reset := fun caller w => CanRpcClient.ResetPeer completion_fn Descriptor client caller w;
  rpc_bind := None
|}.

Definition server_ops {W C H} (rpc_at : H -> RpcRef W C) Descriptor route_id priority writer clock retry retries
    (server : Cell W (CanRpcServer.t H)) (complete : C) : RpcRouteOps W H := {|
  rpc_accept := fun frame receive_time_ns caller w =>
    CanRpcServer.Accept rpc_at Descriptor route_id priority writer clock retry retries server complete frame
      receive_time_ns caller w;
  rpc_poll := fun now_ns caller w => CanRpcServer.Poll writer server now_ns caller w;
  rpc_reset := fun _ w => CanRpcServer.ResetPeer Descriptor server w;
  rpc_bind := Some (fun rpc w => CanRpcServer.Bind rpc_at Descriptor server rpc w)
|}.
End CanChannelTransportModule.
