(* ===== verification/CanModuleFacts.v ===== *)
(** What the CAN module does ([CanModule]): a received frame reaches one object
    and only through the open gate, and a running module is polled. *)

From S2P Require Export CanModule.

Local Open Scope Z_scope.

Module CanModuleFacts.
Import CanChannelTransportModule.

(** ** Lemmas: the configuration *)

Section Configured.
Context {R : Type} (M egress_max ingress_max clients_max servers_max : nat).

(** All route ids, in the order in which [Accept] looks for them. *)
Definition routes (self : t R) : list Z :=
  (egress_route_id <$> egress_config_ self) ++ (ingress_route_id <$> ingress_config_ self) ++
  (rpc_route_id <$> rpc_clients_ self) ++ (rpc_route_id <$> rpc_servers_ self).

Record wf (self : t R) : Prop := {
  wf_routes : NoDup (routes self);
  wf_range : Forall (fun route => kFirstApplicationRouteId <= route <= kMaximumRouteId) (routes self);
  wf_egress : (length (egress_config_ self) <= egress_max)%nat;
  wf_ingress : (length (ingress_config_ self) <= ingress_max)%nat;
  wf_clients : (length (rpc_clients_ self) <= clients_max)%nat;
  wf_servers : (length (rpc_servers_ self) <= servers_max)%nat
}.

(** The states a module reaches while it is being configured. *)
Inductive configured : t R -> Prop :=
  | configured_init : configured init
  | configured_egress route_id d reliability priority period self :
      configured self -> configured (AddEgress M egress_max route_id d reliability priority period self).2
  | configured_ingress route_id d reliability freshness self :
      configured self -> configured (AddIngress M ingress_max route_id d reliability freshness self).2
  | configured_client route_id client self :
      configured self -> configured (AddRpcClient clients_max route_id client self).2
  | configured_server route_id server self :
      configured self -> configured (AddRpcServer servers_max route_id server self).2.

Lemma existsb_route {A} (id : A -> Z) route_id (l : list A) :
  existsb (fun c => id c =? route_id) l = true <-> route_id ∈ id <$> l.
Proof.
  rewrite existsb_exists, list_elem_of_fmap. split; intros (c & H1 & H2); exists c.
  - bool_hyps. by rewrite list_elem_of_In.
  - subst. rewrite <- list_elem_of_In. by rewrite Z.eqb_refl.
Qed.

Lemma can_HasRoute_spec route_id (self : t R) : HasRoute route_id self = true <-> route_id ∈ routes self.
Proof.
  unfold HasRoute, routes. rewrite !orb_true_iff, !existsb_route, !elem_of_app. tauto.
Qed.

Lemma ValidRouteId_spec route_id :
  ValidRouteId route_id = true <-> kFirstApplicationRouteId <= route_id <= kMaximumRouteId.
Proof. unfold ValidRouteId. rewrite andb_true_iff, !Z.leb_le. done. Qed.

(** Adding a route on every branch: the state only changes by the addition of a
    new, valid route that fits. *)
Lemma AddRoute_cases valid full route_id add (self : t R) :
  AddRoute valid full route_id add self =
    if configuration_sealed_ self then (kInvalidState, self)
    else if negb valid then (kInvalidArgument, self)
    else if decide (route_id ∈ routes self) then (kAlreadyExists, self)
    else if full then (kCapacityExceeded, self) else (kOk, add self).
Proof.
  unfold AddRoute. destruct (configuration_sealed_ self); [done|]. destruct valid; [|done]. cbn [negb orb].
  destruct (HasRoute route_id self) eqn:H; destruct (decide _) as [Hin|Hnot]; try done.
  - by apply can_HasRoute_spec in H.
  - apply can_HasRoute_spec in Hin. congruence.
Qed.

Lemma AddRoute_wf valid full route_id add (self : t R) :
  wf self -> (valid = true -> ValidRouteId route_id = true) ->
  routes (add self) ≡ₚ route_id :: routes self ->
  (full = false -> (length (egress_config_ (add self)) <= egress_max)%nat /\
    (length (ingress_config_ (add self)) <= ingress_max)%nat /\
    (length (rpc_clients_ (add self)) <= clients_max)%nat /\ (length (rpc_servers_ (add self)) <= servers_max)%nat) ->
  wf (AddRoute valid full route_id add self).2.
Proof.
  intros Hwf Hv Hp Hl. rewrite AddRoute_cases. destruct (configuration_sealed_ self); [done|].
  destruct valid; [|done]. cbn [negb]. destruct (decide _) as [|Hnew]; [done|]. destruct full; [done|].
  destruct (Hl eq_refl) as (?&?&?&?). destruct Hwf as [Hn Hr _ _ _ _]. split; cbn [snd]; try done.
  - rewrite Hp. by apply NoDup_cons.
  - rewrite Hp. constructor; [by apply ValidRouteId_spec, Hv|done].
Qed.

Lemma AddRoute_keeps (K : t R -> Prop) valid full route_id add self :
  K self -> K (add self) -> K (AddRoute valid full route_id add self).2.
Proof. unfold AddRoute. by repeat split_if. Qed.

(** Not initialized yet. *)
Definition fresh (self : t R) : Prop :=
  configuration_sealed_ self = false /\ initialized_ self = false /\ running_ self = false /\
  adapter_started_ self = false /\ egress_engaged_ self = [] /\ ingress_engaged_ self = [].

Lemma can_configured_wf self :
  configured self ->
  wf self /\ fresh self.
Proof.
  induction 1 as [|? ? ? ? ? ? ? (Hw & H)|? ? ? ? ? ? (Hw & H)|? ? ? ? (Hw & H)|? ? ? ? (Hw & H)].
  - split; [|done]. split; try constructor; cbn; lia.
  - split; [|by apply (AddRoute_keeps fresh)].
    apply AddRoute_wf; [done|unfold Valid; intros; by bool_hyps| |].
    + unfold routes. cbn. rewrite fmap_app, <- app_assoc. cbn. by rewrite <- !Permutation_middle.
    + intros. bool_hyps. destruct Hw. cbn. rewrite length_app. cbn. lia.
  - split; [|by apply (AddRoute_keeps fresh)].
    apply AddRoute_wf; [done|unfold Valid; intros; by bool_hyps| |].
    + unfold routes. cbn. rewrite fmap_app, <- app_assoc. cbn. by rewrite <- !Permutation_middle.
    + intros. bool_hyps. destruct Hw. cbn. rewrite length_app. cbn. lia.
  - split; [|by apply (AddRoute_keeps fresh)].
    apply AddRoute_wf; [done|done| |].
    + unfold routes. cbn. rewrite fmap_app, <- app_assoc. cbn. by rewrite <- !Permutation_middle.
    + intros. bool_hyps. destruct Hw. cbn. rewrite length_app. cbn. lia.
  - split; [|by apply (AddRoute_keeps fresh)].
    apply AddRoute_wf; [done|done| |].
    + unfold routes. cbn. rewrite fmap_app. cbn. rewrite !app_assoc. symmetry. apply Permutation_cons_append.
    + intros. bool_hyps. destruct Hw. cbn. rewrite length_app. cbn. lia.
Qed.
End Configured.

(** ** Lemmas: the scans *)

Lemma scan_none {A} (stop : nat -> A -> bool) k l :
  (forall i c, l !! i = Some c -> stop (k + i)%nat c = false) -> scan stop k l = None.
Proof.
  revert k. induction l as [|c l IH]; intros k H; [done|]. cbn.
  pose proof (H 0%nat c eq_refl) as H0. rewrite Nat.add_0_r in H0. rewrite H0. apply IH. intros i c' Hi.
  specialize (H (S i) c' Hi). by rewrite Nat.add_succ_r in H.
Qed.

Lemma scan_first {A} (stop : nat -> A -> bool) k l i c :
  l !! i = Some c -> stop (k + i)%nat c = true ->
  (forall j c', (j < i)%nat -> l !! j = Some c' -> stop (k + j)%nat c' = false) -> scan stop k l = Some ((k + i)%nat, c).
Proof.
  revert k i. induction l as [|c0 l IH]; intros k i Hi Hs Hb; [done|]. destruct i as [|i]; cbn in *.
  - injection Hi as ->. by rewrite Nat.add_0_r in *; rewrite Hs.
  - pose proof (Hb 0%nat c0 ltac:(lia) eq_refl) as H0. rewrite Nat.add_0_r in H0. rewrite H0.
    rewrite Nat.add_succ_r in *. apply (IH (S k) i); [done|done|].
    intros j c' Hj Hc. specialize (Hb (S j) c' ltac:(lia) Hc). by rewrite Nat.add_succ_r in Hb.
Qed.

Section Scan.
Context {A} (id : A -> Z) (l : list A).

Lemma same_entry i j c c' : NoDup (id <$> l) -> l !! i = Some c -> l !! j = Some c' -> id c = id c' -> i = j.
Proof.
  intros Hn Hi Hj Heq. apply (NoDup_lookup (id <$> l) _ _ (id c)); [done|..]; rewrite list_lookup_fmap.
  - by rewrite Hi.
  - rewrite Hj. cbn. by rewrite Heq.
Qed.

Lemma scan_route_found i c more :
  NoDup (id <$> l) -> l !! i = Some c -> more i c = true ->
  scan (fun index c' => (id c' =? id c) && more index c') 0 l = Some (i, c).
Proof.
  intros Hn Hi Hm. apply (scan_first _ 0 l i c); [done|by rewrite Z.eqb_refl|].
  intros j c' Hj Hc. apply andb_false_intro1, Z.eqb_neq. intros Heq.
  pose proof (same_entry j i c' c Hn Hc Hi Heq). lia.
Qed.

Lemma scan_id_found i c :
  NoDup (id <$> l) -> l !! i = Some c -> scan (fun _ c' => id c' =? id c) 0 l = Some (i, c).
Proof.
  intros Hn Hi. apply (scan_first _ 0 l i c); [done|by rewrite Z.eqb_refl|].
  intros j c' Hj Hc. apply Z.eqb_neq. intros Heq.
  pose proof (same_entry j i c' c Hn Hc Hi Heq). lia.
Qed.

Lemma scan_id_none route : route ∉ id <$> l -> scan (fun _ c => id c =? route) 0 l = None.
Proof.
  intros H. apply scan_none. intros i c Hi. apply Z.eqb_neq. intros <-. apply H.
  apply list_elem_of_fmap. exists c. split; [done|]. by apply list_elem_of_lookup_2 in Hi.
Qed.
End Scan.

(** ** Lemmas: initialization *)

(** Every slot has been filled with the bridge its configuration asks for. *)
Record ready {R} (self : t R) : Prop := {
  ready_routes : NoDup (routes self);
  ready_egress :
    egress_engaged_ self = (fun c => bool_decide (egress_reliability c = kReliable)) <$> egress_config_ self;
  ready_ingress :
    ingress_engaged_ self = (fun c => bool_decide (ingress_reliability c = kReliable)) <$> ingress_config_ self
}.

Section Initializing.
Context {W P C H R : Type} (M : nat) (name_ : string) (adapter_ : CanAdapter W) (interval retry retries reassembly : Z)
  (executor_ : ExecutorRef W P) (clock_ : ClockRef W) (channel_ : ChannelRef W) (rpc_at : H -> RpcRef W C)
  (rpc_ops : R -> RpcRouteOps W H) (this : Cell W (t R)) (control_ : Cell W CanLinkControlPlane.t)
  (egress_fast : nat -> Cell W FastChannelEgress.t) (egress_reliable : nat -> Cell W ReliableChannelEgress.t)
  (ingress_fast : nat -> Cell W FastSlot) (ingress_reliable : nat -> Cell W ReliableSlot).
Context `{!CellLaws this}.
Context (apart_ef : forall i, Apart this (egress_fast i)) (apart_er : forall i, Apart this (egress_reliable i))
  (apart_if : forall i, Apart this (ingress_fast i)) (apart_ir : forall i, Apart this (ingress_reliable i)).
Context (kept : forall d callback w,
  load this (ChannelRef_RegisterSubscriber callback channel_ d w).2 = load this w /\
  load this (ChannelRef_RegisterPublisher channel_ d w).2 = load this w).
Context (bind_kept : forall pointer bind rpc w,
  rpc_bind (rpc_ops pointer) = Some bind -> load this (bind rpc w).2 = load this w).

Lemma bind_egress_at_this index config w :
  load this (bind_egress_at M adapter_ retry retries channel_ this control_ egress_fast egress_reliable index config w).2 =
    (load this w) <| egress_engaged_ :=
      egress_engaged_ (load this w) ++ [bool_decide (egress_reliability config = kReliable)] |>.
Proof using CellLaws0 apart_ef apart_er kept.
  unfold bind_egress_at. set (w1 := update this _ w). rewrite <- (load_update (this := this) _ w). fold w1.
  split_if.
  - unfold ReliableChannelEgress.Bind. split_if; [apply load_apart_l|].
    set (w2 := store _ _ w1). set (forward := ReliableChannelEgress.Forward _ _ _ _ _ _ _ _ _).
    pose proof (proj1 (kept (egress_descriptor config) forward w2)) as Hk.
    destruct (ChannelRef_RegisterSubscriber _ _ _ _) as [status w3]. cbn [snd] in Hk.
    destruct (IsOk status); cbn [snd]; rewrite ?load_apart_l, Hk; apply load_apart_l.
  - unfold FastChannelEgress.Bind. split_if; [apply load_apart_l|].
    set (w2 := store _ _ w1). set (forward := FastChannelEgress.Forward _ _ _ _ _ _ _).
    pose proof (proj1 (kept (egress_descriptor config) forward w2)) as Hk.
    destruct (ChannelRef_RegisterSubscriber _ _ _ _) as [status w3]. cbn [snd] in Hk.
    destruct (IsOk status); cbn [snd]; rewrite ?load_apart_l, Hk; apply load_apart_l.
Qed.

Lemma bind_ingress_at_this index config w :
  load this (bind_ingress_at M reassembly channel_ this ingress_fast ingress_reliable index config w).2 =
    (load this w) <| ingress_engaged_ :=
      ingress_engaged_ (load this w) ++ [bool_decide (ingress_reliability config = kReliable)] |>.
Proof using CellLaws0 apart_if apart_ir kept.
  unfold bind_ingress_at. set (w1 := update this _ w). rewrite <- (load_update (this := this) _ w). fold w1.
  split_if.
  - unfold ReliableChannelIngress.Bind. split_if; [cbn [snd]; by rewrite !load_apart_l|].
    set (w2 := store _ _ w1).
    pose proof (proj2 (kept (ingress_descriptor config) (fun _ _ _ w => (kOk, w)) w2)) as Hk.
    destruct (ChannelRef_RegisterPublisher _ _ _) as [status w3]. cbn [snd] in Hk.
    destruct (IsOk status); cbn [snd]; rewrite load_apart_l, Hk; apply load_apart_l.
  - unfold FastChannelIngress.Bind. split_if; [cbn [snd]; by rewrite !load_apart_l|].
    set (w2 := store _ _ w1).
    pose proof (proj2 (kept (ingress_descriptor config) (fun _ _ _ w => (kOk, w)) w2)) as Hk.
    destruct (ChannelRef_RegisterPublisher _ _ _) as [status w3]. cbn [snd] in Hk.
    destruct (IsOk status); cbn [snd]; rewrite load_apart_l, Hk; apply load_apart_l.
Qed.

(** A loop whose step changes the module by [f] changes it by all the [f]s. *)
Lemma bind_all_this {A} (bind : nat -> A -> W -> Status * W) (f : A -> t R -> t R) index entries w :
  (forall index entry w, load this (bind index entry w).2 = f entry (load this w)) ->
  let '(status, w') := bind_all bind index entries w in
  status = kOk -> load this w' = foldl (fun self entry => f entry self) (load this w) entries.
Proof using Type.
  intros Hf. revert index w. induction entries as [|entry entries IH]; intros index w; cbn [bind_all]; [done|].
  pose proof (Hf index entry w) as Hb. destruct (bind index entry w) as [status w1]. cbn [snd] in Hb.
  destruct (IsOk status) eqn:E; cbn [negb]; [|by intros ->].
  cbn [foldl]. rewrite <- Hb. apply IH.
Qed.

Lemma foldl_egress_engaged {A} (g : A -> bool) (self : t R) l :
  foldl (fun self c => self <| egress_engaged_ := egress_engaged_ self ++ [g c] |>) self l =
    self <| egress_engaged_ := egress_engaged_ self ++ (g <$> l) |>.
Proof using Type.
  revert self. induction l as [|c l IH]; intros self; cbn [foldl fmap list_fmap].
  - rewrite app_nil_r. by destruct self.
  - rewrite IH. cbn. by rewrite <- app_assoc.
Qed.

Lemma foldl_ingress_engaged {A} (g : A -> bool) (self : t R) l :
  foldl (fun self c => self <| ingress_engaged_ := ingress_engaged_ self ++ [g c] |>) self l =
    self <| ingress_engaged_ := ingress_engaged_ self ++ (g <$> l) |>.
Proof using Type.
  revert self. induction l as [|c l IH]; intros self; cbn [foldl fmap list_fmap].
  - rewrite app_nil_r. by destruct self.
  - rewrite IH. cbn. by rewrite <- app_assoc.
Qed.

Lemma foldl_id {A B} (b : B) (l : list A) : foldl (fun b _ => b) b l = b.
Proof using Type. by induction l. Qed.

Lemma Initialize_ready rpc w :
  NoDup (routes (load this w)) -> fresh (load this w) ->
  let '(status, w') := Initialize M name_ adapter_ interval retry retries reassembly executor_ clock_ channel_ rpc_at
    rpc_ops this control_ egress_fast egress_reliable ingress_fast ingress_reliable rpc w in
  status = kOk -> ready (load this w') /\ initialized_ (load this w') = true /\ running_ (load this w') = false /\
    adapter_started_ (load this w') = false /\
    egress_config_ (load this w') = egress_config_ (load this w) /\
    ingress_config_ (load this w') = ingress_config_ (load this w).
Proof using All.
  intros Hn (Hs & Hi & Hr & Ha & He & Hg). unfold Initialize. rewrite Hs.
  set (w1 := update this _ w). assert (load this w1 = (load this w) <| configuration_sealed_ := true |>) as H1
    by apply load_update.
  rewrite H1. cbn [egress_config_ ingress_config_ rpc_servers_ rpc_clients_ set_field]. split_if; [done|].
  pose proof (bind_all_this _ (fun c self => self <| egress_engaged_ := egress_engaged_ self ++
    [bool_decide (egress_reliability c = kReliable)] |>) 0 (egress_config_ (load this w)) w1 bind_egress_at_this) as H2.
  destruct (bind_all _ 0 (egress_config_ _) w1) as [s2 w2]. destruct (IsOk s2) eqn:E2; cbn [negb]; [|by intros ->].
  apply IsOk_spec in E2. specialize (H2 E2).
  pose proof (bind_all_this _ (fun c self => self <| ingress_engaged_ := ingress_engaged_ self ++
    [bool_decide (ingress_reliability c = kReliable)] |>) 0 (ingress_config_ (load this w)) w2 bind_ingress_at_this) as H3.
  destruct (bind_all _ 0 (ingress_config_ _) w2) as [s3 w3]. destruct (IsOk s3) eqn:E3; cbn [negb]; [|by intros ->].
  apply IsOk_spec in E3. specialize (H3 E3).
  pose proof (bind_all_this (bind_server rpc_ops rpc) (fun _ self => self) 0 (rpc_servers_ (load this w)) w3) as H4.
  destruct (bind_all _ 0 (rpc_servers_ _) w3) as [s4 w4]. destruct (IsOk s4) eqn:E4; cbn [negb]; [|by intros ->].
  apply IsOk_spec in E4. intros _. rewrite load_update, H4, H3, H2, H1, foldl_egress_engaged, foldl_ingress_engaged.
  - rewrite foldl_id. destruct (load this w). cbn in *. subst. by split_and!.
  - intros index server w5. unfold bind_server. destruct (rpc_bind _) eqn:Hb; [by eapply bind_kept|done].
  - done.
Qed.
End Initializing.

(** ** Lemmas: dispatch *)

Lemma NoDup_routes_apart {R} (self : t R) :
  NoDup (routes self) ->
  NoDup (egress_route_id <$> egress_config_ self) /\ NoDup (ingress_route_id <$> ingress_config_ self) /\
  NoDup (rpc_route_id <$> rpc_clients_ self) /\ NoDup (rpc_route_id <$> rpc_servers_ self) /\
  (forall r, r ∈ ingress_route_id <$> ingress_config_ self -> r ∉ egress_route_id <$> egress_config_ self) /\
  (forall r, r ∈ rpc_route_id <$> rpc_clients_ self -> r ∉ egress_route_id <$> egress_config_ self /\
     r ∉ ingress_route_id <$> ingress_config_ self) /\
  (forall r, r ∈ rpc_route_id <$> rpc_servers_ self -> r ∉ egress_route_id <$> egress_config_ self /\
     r ∉ ingress_route_id <$> ingress_config_ self /\ r ∉ rpc_route_id <$> rpc_clients_ self).
Proof.
  unfold routes. rewrite !NoDup_app. intros (H1 & Ha & H2 & Hb & H3 & Hc & H4).
  split_and!; try done.
  - intros r Hr He. apply (Ha r He). apply elem_of_app. by left.
  - intros r Hr. split; intros He; [apply (Ha r He)|apply (Hb r He)]; rewrite ?elem_of_app; tauto.
  - intros r Hr. split_and!; intros He; [apply (Ha r He)|apply (Hb r He)|apply (Hc r He)]; rewrite ?elem_of_app; tauto.
Qed.

(** No reliable egress has the route. *)
Lemma scan_egress_none {R} (self : t R) route :
  route ∉ egress_route_id <$> egress_config_ self ->
  scan (fun index c => (egress_route_id c =? route) && default false (egress_engaged_ self !! index)) 0
    (egress_config_ self) = None.
Proof.
  intros Hnot. apply scan_none. intros i c Hi. apply andb_false_intro1, Z.eqb_neq. intros <-. apply Hnot.
  apply list_elem_of_fmap. exists c. split; [done|]. by apply list_elem_of_lookup_2 in Hi.
Qed.

Lemma elem_of_ids {A} (id : A -> Z) (l : list A) (i : nat) c : l !! i = Some c -> id c ∈ id <$> l.
Proof. intros Hi. apply list_elem_of_fmap. exists c. split; [done|]. by apply list_elem_of_lookup_2 in Hi. Qed.

Section Dispatch.
Context {W P C H R : Type} (M : nat) (adapter_ : CanAdapter W) (channel_ : ChannelRef W)
  (rpc_ops : R -> RpcRouteOps W H) (this : Cell W (t R)) (control_ : Cell W CanLinkControlPlane.t)
  (egress_reliable : nat -> Cell W ReliableChannelEgress.t)
  (ingress_fast : nat -> Cell W FastSlot) (ingress_reliable : nat -> Cell W ReliableSlot).

Notation Accept_route :=
  (Accept_route M adapter_ channel_ rpc_ops this control_ egress_reliable ingress_fast ingress_reliable).
Notation accept_ingress := (accept_ingress M adapter_ channel_ this control_ ingress_fast ingress_reliable).

Lemma Accept_route_cases frame now caller w :
  ready (load this w) ->
  let self := load this w in
  (forall i c, egress_config_ self !! i = Some c ->
     Accept_route (egress_route_id c) frame now caller w =
       if bool_decide (egress_reliability c = kReliable) then
         let '(status, egress) :=
           ReliableChannelEgress.AcceptAcknowledgement frame (load (egress_reliable i) w) in
         (status, store (egress_reliable i) egress w)
       else (kUnavailable, w)) /\
  (forall i c, ingress_config_ self !! i = Some c ->
     Accept_route (ingress_route_id c) frame now caller w = accept_ingress i c frame now caller w) /\
  (forall route, route ∈ rpc_clients_ self \/ route ∈ rpc_servers_ self ->
     Accept_route (rpc_route_id route) frame now caller w =
       rpc_accept (rpc_ops (rpc_state route)) frame now caller w) /\
  (forall route, route ∉ routes self -> Accept_route route frame now caller w = (kUnavailable, w)).
Proof using Type.
  intros [Hn He Hi]. intros self. fold self in Hn, He, Hi.
  destruct (NoDup_routes_apart _ Hn) as (Ne & Ni & Nc & Ns & Die & Dc & Ds).
  unfold CanChannelTransportModule.Accept_route. fold self.
  assert (forall route, route ∉ rpc_route_id <$> rpc_clients_ self -> route ∉ rpc_route_id <$> rpc_servers_ self ->
    route ∉ ingress_route_id <$> ingress_config_ self ->
    scan (fun _ c => ingress_route_id c =? route) 0 (ingress_config_ self) = None /\
    scan (fun _ c => rpc_route_id c =? route) 0 (rpc_clients_ self) = None /\
    scan (fun _ c => rpc_route_id c =? route) 0 (rpc_servers_ self) = None) as Hnone
    by (intros; split_and!; by apply scan_id_none).
  split_and!.
  - intros i c Hc. pose proof (elem_of_ids egress_route_id _ _ _ Hc) as Hin.
    destruct (bool_decide _) eqn:Hrel.
    + rewrite (scan_route_found egress_route_id _ i c (fun index _ => default false (egress_engaged_ self !! index)));
        [done|done|done|]. by rewrite He, list_lookup_fmap, Hc.
    + rewrite scan_none.
      * destruct (Hnone (egress_route_id c)) as (-> & -> & ->); [..|done].
        -- intros Hx. by destruct (Dc _ Hx).
        -- intros Hx. by destruct (Ds _ Hx).
        -- intros Hx. by apply Die in Hx.
      * intros j c' Hj. cbn [Nat.add]. rewrite He, list_lookup_fmap, Hj. cbn.
        destruct (Z.eqb_spec (egress_route_id c') (egress_route_id c)) as [Heq|]; [|done]. cbn.
        pose proof (same_entry egress_route_id _ j i c' c Ne Hj Hc Heq). subst. rewrite Hc in Hj. by injection Hj as ->.
  - intros i c Hc. pose proof (elem_of_ids ingress_route_id _ _ _ Hc) as Hin.
    rewrite scan_egress_none by by apply Die. by rewrite (scan_id_found ingress_route_id _ i c).
  - intros route [Hin|Hin]; apply list_elem_of_lookup_1 in Hin as [i Hc];
      pose proof (elem_of_ids rpc_route_id _ _ _ Hc) as Hin.
    + destruct (Dc _ Hin) as [? ?]. rewrite scan_egress_none, scan_id_none by done.
      by rewrite (scan_id_found rpc_route_id _ i route).
    + destruct (Ds _ Hin) as (? & ? & ?). rewrite scan_egress_none, !scan_id_none by done.
      by rewrite (scan_id_found rpc_route_id _ i route).
  - intros route Hr. unfold routes in Hr. rewrite !not_elem_of_app in Hr. destruct Hr as (? & ? & ? & ?).
    rewrite scan_egress_none by done. by destruct (Hnone route) as (-> & -> & ->).
Qed.

(** While the gate is closed the writer of the bridges refuses every frame, and
    the device sees none of them. *)
Lemma application_writer_closed frame caller w :
  CanLinkControlPlane.application_enabled_ (load control_ w) = false ->
  let '(status, _, w') := CanFrameWriter_Send (application_writer adapter_ control_) frame caller w in
  status <> kOk /\ exists c, w' = store control_ c w /\
    CanLinkControlPlane.application_enabled_ c = false.
Proof using Type.
  intros Hg. unfold CanFrameWriter_Send, application_writer, control_call.
  set (wire := set_field write_token _ _). unfold CanLinkControlPlane.WriteApplication.
  destruct (CanArbitrationId_Decode _) as [id|]; [|split; [done|by eexists]].
  split_if; [split; [done|by eexists]|]. rewrite Hg. cbn [negb]. split; [done|by eexists].
Qed.
End Dispatch.

(** C29: a frame from the bus reaches one object. An empty frame or one without a
    valid identifier is refused; a frame of a control route goes to the control
    plane and to nothing else; an application frame is refused, and nothing is
    touched, while the gate is closed. With the gate open it reaches, with its
    time of arrival on the network's clock, the one route configured for its id:
    acknowledgements the reliable egress, data the ingress in the mode it was
    configured for, RPC frames the client or the server; a route that nothing is
    configured for, or a best-effort egress, takes no frames. In the other
    direction a closed gate makes the writer of every bridge refuse its frames,
    before the device. *)
Theorem can_module_dispatch {W H R} M (adapter_ : CanAdapter W) channel_ (rpc_ops : R -> RpcRouteOps W H)
    (this : Cell W (t R)) control_ egress_reliable ingress_fast ingress_reliable frame time caller w :
  ready (load this w) ->
  let accept := Accept M adapter_ channel_ rpc_ops this control_ egress_reliable ingress_fast ingress_reliable
    frame time caller w in
  let self := load this w in
  let plane := load control_ w in
  let now := CanLinkControlPlane.ToNetworkTime time plane in
  (CanArbitrationId_Decode (arbitration_id frame) = None \/ CanProtocol.size frame = 0 ->
     accept = (kInvalidArgument, w)) /\
  (forall p route, CanArbitrationId_Decode (arbitration_id frame) = Some (MkDecodedArbitrationId p route) ->
     CanProtocol.size frame <> 0 ->
     (route < kFirstApplicationRouteId ->
        accept = control_call control_
          (CanLinkControlPlane.Accept (physical_writer adapter_) frame time caller) w) /\
     (kFirstApplicationRouteId <= route ->
        if CanLinkControlPlane.application_enabled_ plane then
          (forall i c, egress_config_ self !! i = Some c -> egress_route_id c = route ->
             accept = if bool_decide (egress_reliability c = kReliable) then
                 let '(status, egress) :=
                   ReliableChannelEgress.AcceptAcknowledgement frame (load (egress_reliable i) w) in
                 (status, store (egress_reliable i) egress w)
               else (kUnavailable, w)) /\
          (forall i c, ingress_config_ self !! i = Some c -> ingress_route_id c = route ->
             accept = if bool_decide (ingress_reliability c = kReliable) then
                 let '(status, ingress, w') := ReliableChannelIngress.Accept M route
                   (application_writer adapter_ control_) frame now caller
                   (reliable_view channel_ (load (ingress_reliable i) w)) w in
                 (status, store (ingress_reliable i) (reliable_slot ingress) w')
               else
                 let '(status, ingress, w') := FastChannelIngress.Accept M route frame now caller
                   (fast_view channel_ (load (ingress_fast i) w)) w in
                 (status, store (ingress_fast i) (fast_slot ingress) w')) /\
          (forall rpc, rpc ∈ rpc_clients_ self \/ rpc ∈ rpc_servers_ self -> rpc_route_id rpc = route ->
             accept = rpc_accept (rpc_ops (rpc_state rpc)) frame now caller w) /\
          (route ∉ routes self -> accept = (kUnavailable, w))
        else accept = (kUnavailable, w))) /\
  (CanLinkControlPlane.application_enabled_ plane = false ->
   let '(status, _, w') := CanFrameWriter_Send (application_writer adapter_ control_) frame caller w in
   status <> kOk /\ exists c, w' = store control_ c w /\ CanLinkControlPlane.application_enabled_ c = false).
Proof.
  intros Hready accept self plane now. split; [|split; [|apply application_writer_closed]].
  - unfold accept, Accept. intros [->|Hz]; [done|]. destruct (CanArbitrationId_Decode _); [|done]. by rewrite Hz.
  - intros p route Hid Hz. unfold accept, Accept. rewrite Hid. cbn [id_route].
    guard_false (CanProtocol.size frame =? 0). split.
    + intros Hr. by guard_true (route <? kFirstApplicationRouteId).
    + intros Hr. guard_false (route <? kFirstApplicationRouteId). fold plane. fold now.
      destruct (CanLinkControlPlane.application_enabled_ plane); cbn [negb]; [|done].
      destruct (Accept_route_cases M adapter_ channel_ rpc_ops this control_ egress_reliable ingress_fast
        ingress_reliable frame now caller w Hready) as (He & Hi & Hc & Hn). fold self in He, Hi, Hc, Hn.
      split_and!.
      * intros i c Hin <-. by apply He.
      * intros i c Hin <-. rewrite (Hi i c Hin). unfold accept_ingress. fold self.
        pose proof (ready_ingress _ Hready) as Hg. fold self in Hg. rewrite Hg, list_lookup_fmap, Hin.
        cbn [fmap option_fmap option_map default from_option id]. by destruct (bool_decide _).
      * intros rpc Hin <-. by apply Hc.
      * apply Hn.
Qed.

(** ** Lemmas: what a poll writes *)

Section ControlWrites.
Context {W : Type} (writer : CanFrameWriter W) (caller : ExecutionContext).
Notation writes := (ReliableSender.writes writer caller).

(** A stage of the control plane only writes frames. *)
Definition only_writes {A} (f : CanLinkControlPlane.t * W -> A * (CanLinkControlPlane.t * W)) : Prop :=
  forall s, writes s.2 (f s).2.2.

Lemma and_then_writes {A} (f g : stage (CanLinkControlPlane.t * W) A) :
  only_writes f -> only_writes g -> only_writes (f >>> g).
Proof.
  intros Hf Hg s. unfold and_then. pose proof (Hf s) as H. destruct (f s) as [[r|] s1]; [done|].
  etransitivity; [exact H|apply Hg].
Qed.

Lemma when_writes {A} condition (f : stage (CanLinkControlPlane.t * W) A) : only_writes f -> only_writes (when condition f).
Proof. intros Hf s. unfold when. split_if; [apply Hf|done]. Qed.

Lemma finished_writes (f : stage (CanLinkControlPlane.t * W) Status) :
  only_writes f -> only_writes (fun s => let '(returned, s) := f s in (default kOk returned, s)).
Proof. intros Hf s. pose proof (Hf s) as H. by destruct (f s) as [? [? ?]]. Qed.

Lemma PumpHandshake_writes now : only_writes (CanLinkControlPlane.PumpHandshake writer now caller).
Proof.
  intros [c w]. unfold CanLinkControlPlane.PumpHandshake.
  pose proof (ReliableSender.Pump_loop_effects writer caller (fun _ => true) (fun sent => sent) (fun _ => True)
    (ReliableSender.pump_fuel (CanLinkControlPlane.handshake_sender_ c)) false
    (CanLinkControlPlane.handshake_sender_ c) w ltac:(done) ltac:(done) I) as H.
  unfold ReliableSender.Pump. destruct (ReliableSender.Pump_loop _ _ _ _ _ _ _ _) as [[[status sent] sender] w'].
  destruct H as [_ H]. cbn [snd]. split_if; [done|]. split_if; [|done].
  by destruct (ReliableSender.ArmAckDeadline _ _).
Qed.

Lemma pump_or_return_writes now : only_writes (CanLinkControlPlane.pump_or_return writer now caller).
Proof.
  intros s. unfold CanLinkControlPlane.pump_or_return. pose proof (PumpHandshake_writes now s) as H.
  by destruct (CanLinkControlPlane.PumpHandshake _ _ _ s).
Qed.

Lemma send_control_writes encoded : only_writes (CanLinkControlPlane.send_control writer encoded caller).
Proof.
  intros [c w]. unfold CanLinkControlPlane.send_control. destruct encoded as [status frame]. split_if; [done|].
  pose proof (ReliableSender.writes_one writer caller frame w) as H.
  by destruct (CanFrameWriter_Send _ _ _ _) as [[? ?] ?].
Qed.

Lemma control_Poll_writes now : only_writes (CanLinkControlPlane.Poll writer now caller).
Proof.
  unfold CanLinkControlPlane.Poll. apply finished_writes.
  repeat first [apply and_then_writes | apply when_writes].
  - intros [c w]. unfold CanLinkControlPlane.poll_guard. by repeat split_if.
  - intros [c w]. unfold CanLinkControlPlane.poll_receiver. destruct (ReliableReceiver.Poll _ _). by repeat split_if.
  - apply pump_or_return_writes.
  - intros [c w]. unfold CanLinkControlPlane.poll_retry. destruct (ReliableSender.Poll _ _).
    split_if; [|by repeat split_if].
    match goal with |- context [CanLinkControlPlane.pump_or_return _ _ _ ?x] => exact (pump_or_return_writes now x) end.
  - intros [c w]. unfold CanLinkControlPlane.begin_handshake. destruct (ReliableSender.Begin _ _ _ _ _ _ _ _ _) as [st sender].
    split_if; [done|]. match goal with |- context [CanLinkControlPlane.pump_or_return _ _ _ ?x] =>
      pose proof (pump_or_return_writes now x) as H; destruct (CanLinkControlPlane.pump_or_return _ _ _ x) as [[r|] [c' w']] end;
      exact H.
  - by intros [c w].
  - intros [c w]. unfold CanLinkControlPlane.send_heartbeat.
    match goal with |- context [CanLinkControlPlane.send_control _ ?e _ ?x] =>
      pose proof (send_control_writes e x) as H; destruct (CanLinkControlPlane.send_control _ e _ x) as [[r|] [c' w']] end;
      exact H.
  - intros [c w]. unfold CanLinkControlPlane.send_time_sync.
    match goal with |- context [CanLinkControlPlane.send_control _ ?e _ ?x] =>
      pose proof (send_control_writes e x) as H; destruct (CanLinkControlPlane.send_control _ e _ x) as [[r|] [c' w']] end;
      exact H.
Qed.

Lemma reliable_egress_Poll_writes now (self : ReliableChannelEgress.t) w :
  writes w (ReliableChannelEgress.Poll writer now caller self w).2.
Proof.
  assert (forall self : ReliableChannelEgress.t, writes w (ReliableChannelEgress.Pump writer caller self w).2) as HP.
  { intros self'. unfold ReliableChannelEgress.Pump, ReliableSender.Pump.
    match goal with |- context [ReliableSender.Pump_loop _ _ ?f ?g ?n ?st ?sender ?w'] =>
      pose proof (ReliableSender.Pump_loop_effects writer caller f g (fun _ => True) n st sender w'
        ltac:(done) ltac:(done) I) as H;
      destruct (ReliableSender.Pump_loop _ _ f g n st sender w') as [[[? ?] ?] ?] end.
    by destruct H. }
  unfold ReliableChannelEgress.Poll.
  assert (writes w (ReliableChannelEgress.Poll_sender writer now caller self w).2) as H.
  { unfold ReliableChannelEgress.Poll_sender. split_if; [apply HP|]. split_if; [|done].
    destruct (ReliableSender.Poll _ _). split_if; [apply HP|]. by split_if. }
  by destruct (ReliableChannelEgress.Poll_sender _ _ _ _ _) as [[? ?] ?].
Qed.
End ControlWrites.

(** ** Lemmas: running *)

Section Running.
Context {W P C H R : Type} (M : nat) (name_ : string) (adapter_ : CanAdapter W) (interval : Z)
  (executor_ : ExecutorRef W P) (clock_ : ClockRef W) (channel_ : ChannelRef W)
  (rpc_ops : R -> RpcRouteOps W H) (this : Cell W (t R)) (control_ : Cell W CanLinkControlPlane.t)
  (egress_reliable : nat -> Cell W ReliableChannelEgress.t)
  (ingress_fast : nat -> Cell W FastSlot) (ingress_reliable : nat -> Cell W ReliableSlot) (self_ : P).
Context (queue : Cell W (list (Z * P))) (up : W -> bool).

Definition running (w : W) : bool := running_ (load this w).

(** The life of the module goes on as it was. *)
Definition calm (w w' : W) : Prop :=
  running_ (load this w') = running_ (load this w) /\
  adapter_started_ (load this w') = adapter_started_ (load this w) /\
  load queue w' = load queue w /\ up w' = up w.

(** What the module stands on: its objects are its own, the executor keeps what
    it accepts, the device is up from a successful start to a successful stop, and
    neither the device nor the RPC routes start or stop the module from inside a
    poll. *)
Class Surroundings : Prop := {
  sur_this : CellLaws this;
  sur_queue : CellLaws queue;
  sur_apart : Apart this queue;
  sur_posts : PostsTo executor_ queue;
  sur_up_this : forall self w, up (store this self w) = up w;
  sur_up_queue : forall pending w, up (store queue pending w) = up w;
  sur_control : forall c w, calm w (store control_ c w);
  sur_egress : forall i c w, calm w (store (egress_reliable i) c w);
  sur_ingress_fast : forall i c w, calm w (store (ingress_fast i) c w);
  sur_ingress_reliable : forall i c w, calm w (store (ingress_reliable i) c w);
  sur_start : forall receiver w, let '(status, w') := adapter_Start adapter_ receiver w in
    load this w' = load this w /\ load queue w' = load queue w /\ up w' = (IsOk status || up w);
  sur_stop : forall w, let '(status, w') := adapter_Stop adapter_ w in
    load this w' = load this w /\ load queue w' = load queue w /\ up w' = (negb (IsOk status) && up w);
  sur_write : forall frame caller w,
    calm w (CanFrameWriter_Send (physical_writer adapter_) frame caller w).2;
  sur_poll : forall caller w, calm w (adapter_Poll adapter_ caller w).2;
  sur_rpc_poll : forall pointer now caller w, calm w (rpc_poll (rpc_ops pointer) now caller w).2;
  sur_rpc_reset : forall pointer caller w, calm w (rpc_reset (rpc_ops pointer) caller w)
}.

Context (around : Surroundings).
#[local] Existing Instances sur_this sur_queue sur_apart sur_posts.

#[local] Instance calm_preorder : PreOrder calm.
Proof using Type.
  split; [done|]. intros w1 w2 w3 (H1 & H2 & H3 & H4) (K1 & K2 & K3 & K4). unfold calm. by rewrite K1, K2, K3, K4.
Qed.

Lemma update_calm f w :
  (forall self, running_ (f self) = running_ self /\ adapter_started_ (f self) = adapter_started_ self) ->
  calm w (update this f w).
Proof using around.
  intros Hf. unfold calm. rewrite load_update, load_update_apart_r. destruct (Hf (load this w)) as [-> ->].
  unfold update. by rewrite sur_up_this.
Qed.

Lemma count_calm f w : calm w (count this f w).
Proof using around. by apply update_calm. Qed.

Lemma RecordPoll_calm status w : calm w (RecordPoll this status w).
Proof using around. unfold RecordPoll. split_if; [apply count_calm|done]. Qed.

Lemma for_each_calm n body w : (forall i w, calm w (body i w)) -> calm w (for_each n body w).
Proof using Type.
  intros Hb. unfold for_each. generalize (seq 0 n). intros l. revert w.
  induction l as [|i l IH]; intros w; [done|]. cbn. etransitivity; [apply Hb|apply IH].
Qed.

Lemma foldl_calm {A} (f : W -> A -> W) l w : (forall a w, calm w (f w a)) -> calm w (foldl f w l).
Proof using Type.
  intros Hf. revert w. induction l as [|a l IH]; intros w; [done|]. cbn. etransitivity; [apply Hf|apply IH].
Qed.

Lemma writes_calm writer caller w w' :
  (forall frame w, calm w (CanFrameWriter_Send writer frame caller w).2) ->
  ReliableSender.writes writer caller w w' -> calm w w'.
Proof using Type.
  intros Hw Hrun. induction Hrun as [|w1 w2 w3 [frame ->] _ IH]; [done|]. etransitivity; [apply Hw|exact IH].
Qed.

Lemma application_write_calm frame caller w :
  calm w (CanFrameWriter_Send (application_writer adapter_ control_) frame caller w).2.
Proof using around.
  unfold CanFrameWriter_Send, application_writer, control_call. set (wire := set_field write_token _ _).
  unfold CanLinkControlPlane.WriteApplication. destruct (CanArbitrationId_Decode _); [|apply sur_control].
  split_if; [apply sur_control|]. split_if; [apply sur_control|].
  pose proof (sur_write wire caller w) as Hw. destruct (CanFrameWriter_Send _ _ _ w) as [[status done_] w1].
  etransitivity; [exact Hw|]. apply sur_control.
Qed.

Notation ResetPeerRoutes :=
  (ResetPeerRoutes M channel_ rpc_ops this egress_reliable ingress_fast ingress_reliable).
Notation poll_routes :=
  (poll_routes adapter_ channel_ rpc_ops this control_ egress_reliable ingress_fast ingress_reliable).
Notation poll_control :=
  (poll_control M adapter_ channel_ rpc_ops this control_ egress_reliable ingress_fast ingress_reliable).

Lemma ResetPeerRoutes_calm caller w : calm w (ResetPeerRoutes caller w).
Proof using around.
  unfold CanChannelTransportModule.ResetPeerRoutes.
  etransitivity; [|apply foldl_calm; intros; apply sur_rpc_reset].
  etransitivity; [|apply foldl_calm; intros; apply sur_rpc_reset].
  etransitivity; [|apply for_each_calm; intros; split_if; [apply sur_ingress_reliable|apply sur_ingress_fast]].
  apply for_each_calm. intros. split_if; [apply sur_egress|done].
Qed.

Lemma poll_control_calm now caller w : calm w (poll_control now caller w).
Proof using around.
  unfold CanChannelTransportModule.poll_control, control_call.
  pose proof (control_Poll_writes (physical_writer adapter_) caller now (load control_ w, w)) as Hp.
  destruct (CanLinkControlPlane.Poll _ _ _ _) as [status [c w1]]. cbn [snd] in Hp.
  apply writes_calm in Hp; [|intros; apply sur_write].
  assert (calm w (RecordPoll this status (store control_ c w1))) as H1.
  { etransitivity; [exact Hp|]. etransitivity; [apply sur_control|apply RecordPoll_calm]. }
  split_if; [|exact H1]. etransitivity; [exact H1|]. etransitivity; [|apply count_calm].
  etransitivity; [|apply ResetPeerRoutes_calm]. by apply update_calm.
Qed.

Lemma poll_routes_calm now caller w : calm w (poll_routes now caller w).
Proof using around.
  assert (forall w route, calm w (poll_rpc rpc_ops this now caller w route)) as Hrpc.
  { intros w1 route. unfold poll_rpc. pose proof (sur_rpc_poll (rpc_state route) now caller w1) as Hp.
    destruct (rpc_poll _ _ _ _) as [status w2]. etransitivity; [exact Hp|apply RecordPoll_calm]. }
  unfold CanChannelTransportModule.poll_routes.
  etransitivity; [|apply foldl_calm; intros; apply Hrpc].
  etransitivity; [|apply foldl_calm; intros; apply Hrpc].
  etransitivity; [|apply for_each_calm; intros i w1; unfold poll_ingress; split_if].
  - apply for_each_calm. intros i w1. unfold poll_egress. split_if; [|done].
    pose proof (reliable_egress_Poll_writes (application_writer adapter_ control_) caller now
      (load (egress_reliable i) w1) w1) as Hp.
    destruct (ReliableChannelEgress.Poll _ _ _ _ _) as [[status egress] w2]. cbn [snd] in Hp.
    apply writes_calm in Hp; [|intros; apply application_write_calm].
    etransitivity; [exact Hp|]. etransitivity; [apply sur_egress|apply RecordPoll_calm].
  - destruct (ReliableChannelIngress.Poll _ _) as [status ingress].
    etransitivity; [apply sur_ingress_reliable|apply RecordPoll_calm].
  - apply sur_ingress_fast.
Qed.

Notation Start := (Start M name_ adapter_ executor_ clock_ channel_ rpc_ops this control_ egress_reliable
  ingress_fast ingress_reliable self_).
Notation Shutdown := (Shutdown adapter_ this).
Notation PollOnce := (PollOnce M adapter_ interval executor_ clock_ channel_ rpc_ops this control_
  egress_reliable ingress_fast ingress_reliable self_).

(** The device is up while the module runs, and the module knows. *)
Definition sound (w : W) : Prop := running w = true -> adapter_started_ (load this w) = true /\ up w = true.

Lemma post_poll_spec at_ns caller w :
  let '(status, w') := post_poll executor_ self_ at_ns caller w in
  load this w' = load this w /\ up w' = up w /\
  (if IsOk status then load queue w' = load queue w ++ [(at_ns, self_)] else w' = w).
Proof using around.
  unfold post_poll. pose proof (TryPostAt_posts at_ns self_ caller w) as Hp.
  destruct (ExecutorRef_TryPostAt _ _ _ _ _) as [status w']. destruct (IsOk status); subst; [|done].
  split_and!; [by rewrite load_update_apart|apply sur_up_queue|by rewrite load_update].
Qed.

(** [Start] on every branch. A start that fails leaves nothing pending, and the
    device down unless it refuses to stop. *)
Lemma can_Start_spec w :
  let '(status, w') := Start w in
  (sound w -> sound w') /\
  (if IsOk status
   then running w' = true /\ exists item, load queue w' = load queue w ++ [item]
   else running w' = running w /\ load queue w' = load queue w).
Proof using around.
  unfold sound, running, CanChannelTransportModule.Start.
  destruct (initialized_ (load this w)); [|by cbn; auto].
  destruct (running_ (load this w)) eqn:Er; [by cbn; rewrite Er; auto|]. cbn [negb orb].
  destruct (IsOk (adapter_Ready adapter_ w)) eqn:Ready; cbn [negb]; [|by rewrite Ready, Er].
  set (receiver := Receive _ _ _ _ _ _ _ _ _). pose proof (sur_start receiver w) as Hs.
  destruct (adapter_Start adapter_ receiver w) as [status w1]. destruct Hs as (Hk & Hq & Hup).
  destruct (IsOk status) eqn:Ok; cbn [negb orb] in *; [|by rewrite Ok, Hk, Hq, Er].
  set (w2 := update this _ w1).
  assert (load this w2 = (load this w) <| adapter_started_ := true |> <| running_ := true |>) as Hw2
    by (unfold w2; by rewrite load_update, Hk).
  assert (up w2 = true) as Hup2 by (unfold w2, update; by rewrite sur_up_this).
  assert (load queue w2 = load queue w) as Hq2 by (unfold w2; by rewrite load_update_apart_r, Hq).
  destruct (ClockRef_NowNs clock_ 0 w2) as [clock_status now].
  assert (let '(status', w3) := if IsOk clock_status
      then post_poll executor_ self_ now (MkExecutionContext name_ kThread now) w2 else (clock_status, w2) in
    load this w3 = load this w2 /\ up w3 = up w2 /\
    (if IsOk status' then load queue w3 = load queue w2 ++ [(now, self_)] else w3 = w2)) as Hp.
  { destruct (IsOk clock_status) eqn:Oc; [apply post_poll_spec|by rewrite Oc]. }
  destruct (if IsOk clock_status then _ else _) as [status' w3]. destruct Hp as (Hp1 & Hp2 & Hp3).
  destruct (IsOk status') eqn:Ok'; cbn [negb].
  - rewrite Ok', Hp1, Hp2, Hw2, Hup2, Hp3, Hq2. cbn. eauto.
  - subst w3. set (w4 := update this _ w2).
    assert (load this w4 = (load this w2) <| running_ := false |>) as Hw4 by apply load_update.
    assert (load queue w4 = load queue w) as Hq4 by (unfold w4; by rewrite load_update_apart_r).
    pose proof (sur_stop w4) as Hst. destruct (adapter_Stop adapter_ w4) as [stop w5]. destruct Hst as (Hst1 & Hst2 & _).
    rewrite Ok'. destruct (IsOk stop); unfold count; rewrite load_update, load_update_apart_r, Hst1, Hst2, Hw4, Hq4;
      by cbn.
Qed.

Lemma can_Shutdown_spec w :
  running (Shutdown w) = false /\ load queue (Shutdown w) = load queue w /\ sound (Shutdown w).
Proof using around.
  unfold sound, running, CanChannelTransportModule.Shutdown. set (w1 := update this _ w).
  assert (load this w1 = (load this w) <| running_ := false |>) as Hw1 by apply load_update.
  assert (load queue w1 = load queue w) as Hq1 by (unfold w1; by rewrite load_update_apart_r).
  rewrite Hw1. cbn [adapter_started_ set_field]. split_if; [|rewrite Hw1, Hq1; by cbn].
  pose proof (sur_stop w1) as Hst. destruct (adapter_Stop adapter_ w1) as [stop w2]. destruct Hst as (Hst1 & Hst2 & _).
  destruct (IsOk stop); cbn [negb]; unfold count; rewrite load_update, load_update_apart_r, Hst1, Hst2, Hw1, Hq1; by cbn.
Qed.

(** A shutdown takes the device down if it stops, and otherwise leaves the module
    ready to try again. *)
Lemma Shutdown_device w :
  adapter_started_ (load this w) = true ->
  up (Shutdown w) = false \/
  (adapter_started_ (load this (Shutdown w)) = true /\ up (Shutdown w) = up w).
Proof using around.
  intros Ha. unfold CanChannelTransportModule.Shutdown. set (w1 := update this _ w).
  assert (load this w1 = (load this w) <| running_ := false |>) as Hw1 by apply load_update.
  assert (up w1 = up w) as Hup1 by apply sur_up_this.
  rewrite Hw1. cbn [adapter_started_ set_field]. rewrite Ha.
  pose proof (sur_stop w1) as Hst. destruct (adapter_Stop adapter_ w1) as [stop w2]. destruct Hst as (Hst1 & _ & Hst3).
  destruct (IsOk stop); cbn [negb andb] in *.
  - left. unfold update. by rewrite sur_up_this.
  - right. unfold count. rewrite load_update, Hst1, Hw1. cbn. split; [done|].
    unfold update. by rewrite sur_up_this, Hst3.
Qed.

(** What comes before the next poll is posted. *)
Definition worked (now : Z) (caller : ExecutionContext) (w : W) : W :=
  let w := poll_control now caller w in
  poll_routes (CanLinkControlPlane.ToNetworkTime now (load control_ w)) caller w.

Lemma repost_spec now caller w :
  let w' := repost adapter_ interval executor_ this self_ now caller w in
  (running w' = running w /\ adapter_started_ (load this w') = adapter_started_ (load this w) /\ up w' = up w /\
   load queue w' = load queue w ++ [(SaturatingAdd now interval, self_)]) \/
  (running w' = false /\ load queue w' = load queue w).
Proof using around.
  unfold repost, running. set (w1 := count this _ w).
  destruct (count_calm (fun stats => bump polls stats) w) as (H1 & H2 & H3 & H4). fold w1 in H1, H2, H3, H4.
  pose proof (post_poll_spec (SaturatingAdd now interval) caller w1) as Hp.
  destruct (post_poll _ _ _ _ _) as [status w2]. destruct Hp as (Hp1 & Hp2 & Hp3).
  destruct (IsOk status); cbn [negb].
  - left. by rewrite Hp1, Hp2, Hp3, H1, H2, H3, H4.
  - right. subst w2. unfold count. set (w3 := update this _ w1). set (w4 := update this _ w3).
    assert (running_ (load this w4) = false /\ load queue w4 = load queue w) as [K1 K2].
    { unfold w4, w3. split; [by rewrite load_update|by rewrite !load_update_apart_r]. }
    pose proof (sur_stop w4) as Hst. destruct (adapter_Stop adapter_ w4) as [stop w5]. destruct Hst as (Hst1 & Hst2 & _).
    by rewrite load_update, load_update_apart_r, Hst1, Hst2.
Qed.

Lemma can_PollOnce_spec caller w :
  running w = true ->
  let w' := PollOnce caller w in
  (sound w -> sound w') /\
  (let polled := adapter_Poll adapter_ caller w in
   let w1 := RecordPoll this polled.1 polled.2 in
   let '(status, now) := ClockRef_NowNs clock_ 0 w1 in
   if IsOk status
   then w' = repost adapter_ interval executor_ this self_ now caller (worked now caller w1) /\
     ((running w' = true /\ load queue w' = load queue w ++ [(SaturatingAdd now interval, self_)]) \/
      (running w' = false /\ load queue w' = load queue w))
   else running w' = false /\ load queue w' = load queue w).
Proof using around.
  intros Hr w'. subst w'. unfold CanChannelTransportModule.PollOnce. unfold running in Hr. rewrite Hr. cbn [negb].
  pose proof (sur_poll caller w) as Hp. destruct (adapter_Poll adapter_ caller w) as [status w1]. cbn [fst snd] in *.
  assert (calm w (RecordPoll this status w1)) as Hc by (etransitivity; [exact Hp|apply RecordPoll_calm]).
  set (w2 := RecordPoll this status w1) in *. destruct (ClockRef_NowNs clock_ 0 w2) as [clock_status now].
  destruct (IsOk clock_status); cbn [negb].
  - fold (worked now caller w2). assert (calm w (worked now caller w2)) as (C1 & C2 & C3 & C4).
    { etransitivity; [exact Hc|]. unfold worked. etransitivity; [apply poll_control_calm|apply poll_routes_calm]. }
    destruct (repost_spec now caller (worked now caller w2)) as [(K1 & K2 & K3 & K4)|[K1 K2]]; unfold sound, running in *.
    + split; [rewrite K1, C1, K2, K3, C2, C4; auto|]. split; [done|]. left. by rewrite K1, C1, K4, C3.
    + split; [intros _ ?; congruence|]. split; [done|]. right. by rewrite K2, C3.
  - destruct (RecordPoll_calm clock_status w2) as (D1 & D2 & D3 & D4). destruct Hc as (C1 & C2 & C3 & C4).
    unfold sound, running. rewrite load_update, load_update_apart_r, D3, C3. by cbn.
Qed.

#[export] Instance can_module_loop : PollLoop running queue Start PollOnce Shutdown.
Proof using around.
  split.
  - intros w. pose proof (can_Start_spec w) as Hs. destruct (Start w). by destruct Hs.
  - intros caller w Hr. unfold running in Hr. unfold CanChannelTransportModule.PollOnce. by rewrite Hr.
  - intros caller w Hr. destruct (can_PollOnce_spec caller w Hr) as [_ Hp]. cbn zeta in Hp.
    destruct (ClockRef_NowNs _ _ _) as [status now]. destruct (IsOk status); [|by right].
    destruct Hp as [_ [[? ?]|?]]; [left|by right]. split; [done|]. by eexists.
  - intros w. by destruct (can_Shutdown_spec w) as (? & ? & _).
  - intros pending w. unfold running. by rewrite load_apart_l.
Qed.

Lemma can_lives_sound w w' : sound w -> rtc (life queue Start PollOnce Shutdown) w w' -> sound w'.
Proof using around.
  intros Hs Hl. induction Hl as [|w1 w2 w3 [w Hq|caller item pending w Hq|w] _ IH]; [done|..]; apply IH.
  - pose proof (can_Start_spec w) as Hst. destruct (Start w). by apply Hst.
  - assert (sound (store queue pending w)) as Hs'.
    { unfold sound, running in *. by rewrite load_apart_l, sur_up_queue. }
    destruct (running (store queue pending w)) eqn:Hr; [by apply can_PollOnce_spec|].
    by rewrite (run_stopped (PollLoop := can_module_loop)).
  - apply can_Shutdown_spec.
Qed.
End Running.


(** A poll that cannot be posted again gives the device up even if the device
    refuses to stop: the module then takes it for stopped, and its shutdown does
    not stop it either. [Start] and [Shutdown] remember a refusal. *)
Lemma repost_forgets_device {W P H R} (adapter_ : CanAdapter W) interval (executor_ : ExecutorRef W P)
    (rpc_ops : R -> RpcRouteOps W H) (this : Cell W (t R)) control_ egress_reliable ingress_fast ingress_reliable
    (self_ : P) (queue : Cell W (list (Z * P))) up now caller w :
  Surroundings adapter_ executor_ rpc_ops this control_ egress_reliable ingress_fast ingress_reliable queue up ->
  up w = true ->
  (forall at_ns caller w, (ExecutorRef_TryPostAt executor_ at_ns (Some self_) caller w).1 = kCapacityExceeded) ->
  (forall w, (adapter_Stop adapter_ w).1 = kUnavailable) ->
  let w' := repost adapter_ interval executor_ this self_ now caller w in
  adapter_started_ (load this w') = false /\ up w' = true /\ up (Shutdown adapter_ this w') = true.
Proof.
  intros around Hup Hpost Hstop w'. pose proof (sur_this _ _ _ _ _ _ _ _ _ _ (Surroundings := around)).
  assert (adapter_started_ (load this w') = false /\ up w' = true) as [H1 H2].
  { subst w'. unfold repost, post_poll. set (w1 := count this _ w).
    assert (up w1 = true) as Hup1 by (unfold w1, count, update; by rewrite (sur_up_this _ _ _ _ _ _ _ _ _ _ (Surroundings := around))).
    pose proof (post_poll_spec adapter_ executor_ rpc_ops this control_ egress_reliable ingress_fast ingress_reliable
      self_ queue up around (SaturatingAdd now interval) caller w1) as Hp. unfold post_poll in Hp.
    pose proof (Hpost (SaturatingAdd now interval) caller w1) as Hst.
    destruct (ExecutorRef_TryPostAt _ _ _ _ _) as [status w2]. cbn [fst] in Hst. subst status. cbn [IsOk negb] in *.
    destruct Hp as (_ & _ & ->). unfold count. set (w3 := update this _ w1). set (w4 := update this _ w3).
    assert (up w4 = true) as Hup4.
    { unfold w4, w3, update. by rewrite !(sur_up_this _ _ _ _ _ _ _ _ _ _ (Surroundings := around)). }
    pose proof (sur_stop _ _ _ _ _ _ _ _ _ _ (Surroundings := around) w4) as Hs.
    pose proof (Hstop w4) as Hst. destruct (adapter_Stop adapter_ w4) as [stop w5]. cbn [fst] in Hst. subst stop.
    cbn [IsOk negb andb] in Hs. destruct Hs as (_ & _ & Hs). rewrite load_update. split; [done|].
    unfold update. by rewrite (sur_up_this _ _ _ _ _ _ _ _ _ _ (Surroundings := around)), Hs. }
  split_and!; [done|done|]. unfold Shutdown. set (v := update this _ w').
  assert (adapter_started_ (load this v) = false) as -> by (unfold v; rewrite load_update; exact H1).
  unfold v, update. by rewrite (sur_up_this _ _ _ _ _ _ _ _ _ _ (Surroundings := around)).
Qed.

(** *** Witnesses: a node with one RPC server, counting the frames it is handed. *)

Record sample_node := MkNode {
  node_module : t nat;
  node_queue : list (Z * nat);
  node_plane : CanLinkControlPlane.t;
  node_egress : ReliableChannelEgress.t;
  node_fast : FastSlot;
  node_reliable : ReliableSlot;
  node_up : bool;
  node_served : Z
}.
#[global] Instance eta_node : Eta sample_node := fun r =>
  MkNode (node_module r) (node_queue r) (node_plane r) (node_egress r) (node_fast r) (node_reliable r) (node_up r)
    (node_served r).

Definition at_module : Cell sample_node (t nat) := MkCell node_module (fun m w => w <| node_module := m |>).
Definition at_queue : Cell sample_node (list (Z * nat)) := MkCell node_queue (fun q w => w <| node_queue := q |>).
Definition at_plane : Cell sample_node CanLinkControlPlane.t := MkCell node_plane (fun c w => w <| node_plane := c |>).
Definition at_egress (_ : nat) : Cell sample_node ReliableChannelEgress.t :=
  MkCell node_egress (fun e w => w <| node_egress := e |>).
Definition at_fast (_ : nat) : Cell sample_node FastSlot := MkCell node_fast (fun f w => w <| node_fast := f |>).
Definition at_reliable (_ : nat) : Cell sample_node ReliableSlot :=
  MkCell node_reliable (fun r w => w <| node_reliable := r |>).

Definition sample_device : CanAdapter sample_node := {|
  adapter_writer := Some (fun _ _ w => (kOk, w));
  adapter_Ready := fun _ => kOk;
  adapter_Start := fun _ w => (kOk, w <| node_up := true |>);
  adapter_Poll := fun _ w => (kUnavailable, w);
  adapter_Stop := fun w => (kOk, w <| node_up := false |>)
|}.
Definition sample_executor : ExecutorRef sample_node nat :=
  Some (AbiExecutor true None None (Some (fun at_ns work _ w =>
    match work with
    | Some item => (0, update at_queue (fun pending => pending ++ [(at_ns, item)]) w)
    | None => (1, w)
    end))).
Definition sample_module_clock : ClockRef sample_node :=
  Some (Clock_NativeHandle (MkClock (fun _ => kMonotonic) (fun _ => 40))).
Definition sample_ops (_ : nat) : RpcRouteOps sample_node unit := {|
  rpc_accept := fun _ _ _ w => (kOk, w <| node_served := node_served w + 1 |>);
  rpc_poll := fun _ _ w => (kUnavailable, w);
  rpc_reset := fun _ w => w;
  rpc_bind := None
|}.

Lemma sample_surroundings :
  Surroundings sample_device sample_executor sample_ops at_module at_plane at_egress at_fast at_reliable at_queue node_up.
Proof.
  split; try done.
  1, 2: split; [done|by intros []|done].
  all: by split.
Qed.

Definition sample_route : Z := 40.
Definition sample_frame : CanFrame :=
  CanFrame_default <| arbitration_id := (CanArbitrationId_Encode kCritical sample_route).2 |> <| CanProtocol.size := 1 |>.
Definition sample_plane (open : bool) : CanLinkControlPlane.t :=
  (CanLinkControlPlane.init (W := sample_node) None None
    (MkConfig Handshake_default 0 true 0 0 0 0 0 0 0 0)) <| CanLinkControlPlane.application_enabled_ := open |>.
Definition sample_can_node (open : bool) : sample_node :=
  MkNode ((AddRpcServer 1 sample_route 3%nat init).2 <| initialized_ := true |>) [] (sample_plane open)
    (ReliableChannelEgress.init 8) (fast_slot (W := unit) (FastChannelIngress.init 8 (MkFreshnessConfig 0 0 kAutomatic)))
    (reliable_slot (W := unit) (ReliableChannelIngress.init 8 (MkFreshnessConfig 0 0 kAutomatic) 0)) false 0.
Definition sample_io : ExecutionContext := MkExecutionContext "io" kThread 50.

Lemma can_module_dispatch_witness :
  (Accept 8 sample_device None sample_ops at_module at_plane at_egress at_fast at_reliable sample_frame 60 sample_io
    (sample_can_node true)).2.(node_served) = 1.
Proof.
  destruct (can_module_dispatch 8 sample_device None sample_ops at_module at_plane at_egress at_fast at_reliable
    sample_frame 60 sample_io (sample_can_node true)) as (_ & H & _).
  { split; [apply NoDup_singleton|reflexivity|reflexivity]. }
  destruct (H kCritical sample_route ltac:(vm_compute; reflexivity) ltac:(discriminate)) as [_ Hr].
  specialize (Hr ltac:(vm_compute; discriminate)). cbn [CanLinkControlPlane.application_enabled_ sample_can_node
    load at_plane node_plane sample_plane set_field] in Hr.
  destruct Hr as (_ & _ & Hr & _). rewrite (Hr (MkRpcRoute sample_route 3%nat)); [reflexivity| |reflexivity].
  right. left.
Defined.

Definition sample_can_start : sample_node -> Status * sample_node :=
  Start 8 "can" sample_device sample_executor sample_module_clock None sample_ops at_module at_plane at_egress at_fast
    at_reliable 7%nat.
Definition sample_can_poll : ExecutionContext -> sample_node -> sample_node :=
  PollOnce 8 sample_device 10 sample_executor sample_module_clock None sample_ops at_module at_plane at_egress at_fast
    at_reliable 7%nat.
Definition sample_running : sample_node := (sample_can_start (sample_can_node true)).2.

End CanModuleFacts.
