(* ===== verification/ZephyrExecutor.v ===== *)
(** The executor of a Zephyr node: [ThreadExecutor] of
    [aster_runtime/platform/zephyr/runtime_services.hpp], one kernel thread fed
    by a message queue. Its code is cut where other threads may run; the step
    relation interleaves the thread, the supervisor that calls the life-cycle
    methods, and posts from anywhere. *)

From S2P Require Export Execution.

Local Open Scope Z_scope.

(** ** Kernel objects

    Message queues with [K_NO_WAIT] puts and [K_FOREVER] gets, and counting
    semaphores; [None] of a take is that the caller waits. *)
Inductive MsgqGet (E Q : Type) := Got (e : E) (q : Q) | Blocked | GetFailed (code : Z).
Arguments Got {E Q} e q.
Arguments Blocked {E Q}.
Arguments GetFailed {E Q} code.

Class Msgq (E Q : Type) := {
  k_msgq_init : nat -> Q;
  k_msgq_put : Q -> E -> Z * Q;
  k_msgq_get : Q -> MsgqGet E Q;
  k_msgq_purge : Q -> Q
}.

Class MsgqLaws (E Q : Type) `{!Msgq E Q} := {
  contents : Q -> list E;
  msgq_size : Q -> nat;
  msgq_init_laws n : contents (k_msgq_init n) = [] /\ msgq_size (k_msgq_init n) = n;
  msgq_put_size q e : msgq_size (k_msgq_put q e).2 = msgq_size q;
  msgq_put_room q e : (length (contents q) < msgq_size q)%nat ->
    (k_msgq_put q e).1 = 0 /\ contents (k_msgq_put q e).2 = contents q ++ [e];
  msgq_put_full q e : (msgq_size q <= length (contents q))%nat ->
    (k_msgq_put q e).1 <> 0 /\ contents (k_msgq_put q e).2 = contents q;
  msgq_get_empty q : contents q = [] -> k_msgq_get q = Blocked;
  msgq_get_next q e rest : contents q = e :: rest ->
    exists q', k_msgq_get q = Got e q' /\ contents q' = rest /\ msgq_size q' = msgq_size q;
  msgq_purge_laws q : contents (k_msgq_purge q) = [] /\ msgq_size (k_msgq_purge q) = msgq_size q
}.

Class Semaphore (S : Type) := {
  k_sem_init : nat -> nat -> S;
  k_sem_give : S -> S;
  k_sem_take : S -> option S
}.

Class SemaphoreLaws (S : Type) `{!Semaphore S} := {
  sem_count : S -> nat;
  sem_limit : S -> nat;
  sem_init_laws count limit :
    sem_count (k_sem_init count limit) = count /\ sem_limit (k_sem_init count limit) = limit;
  sem_give_laws s : sem_count (k_sem_give s) = Nat.min (1 + sem_count s) (sem_limit s) /\
    sem_limit (k_sem_give s) = sem_limit s;
  sem_take_none s : sem_count s = 0%nat -> k_sem_take s = None;
  sem_take_some s n : sem_count s = Datatypes.S n ->
    exists s', k_sem_take s = Some s' /\ sem_count s' = n /\ sem_limit s' = sem_limit s
}.

Module ZephyrThreadExecutor.

Inductive State := kConstructed | kPrepared | kRunning | kQuiescing | kStopped | kFailed.

#[global] Instance State_eq_dec : EqDecision State.
Proof. solve_decision. Defined.

Section ZephyrThreadExecutor.
Context {P Q S : Type}.

Record Entry := MkEntry { entry_timestamp_ns : Z; work : WorkItem P }.

Context `{!Msgq Entry Q, !Semaphore S}.

(** What the constructor is given: the stack is not null, and its size. *)
Variables (name : string) (stack : bool) (stack_size : Z) (Capacity : nat).

(** Where the thread is in [Run]; a bracket names what it does next. *)
Inductive thread_pc :=
  | Absent
  | AtGate
  | AtQueue
  | Checking (entry : Entry)
  | Timing (entry : Entry)
  | Delaying (entry : Entry) (since delay_ns : Z)
  | Delayed (entry : Entry)
  | Rechecking (entry : Entry)
  | Starting (entry : Entry)
  | Running (entry : Entry)
  | Exited.

(** Where the supervisor is in [Prepare], [Activate] or [Shutdown]. *)
Inductive owner_pc :=
  | Idle | Creating | Opening
  | Purging | Stopping | OpeningToStop | Interrupting | Joining | Emptying | Finishing
  | Panicked.

Record t := Mk {
  state_ : State;
  queue_ : Q;
  run_gate_ : S;
  delay_gate_ : S;
  thread_id_ : bool;
  thread : thread_pc;
  owner : owner_pc;
  now : Z;
  accepted : list Entry;
  begun : list (Entry * ExecutionContext)
}.

#[export] Instance t_eta : Eta t := fun x =>
  Mk (state_ x) (queue_ x) (run_gate_ x) (delay_gate_ x) (thread_id_ x) (thread x) (owner x) (now x)
    (accepted x) (begun x).

Definition init (now : Z) : t :=
  Mk kConstructed (k_msgq_init Capacity) (k_sem_init 0 1) (k_sem_init 0 1) false Absent Idle now [] [].

Definition IsRunning (x : t) : bool := bool_decide (state_ x = kRunning).

(** *** The supervisor: the first stretch of each method, with its status *)

Definition Prepare (x : t) : Status * t :=
  if bool_decide (name = ""%string) || negb stack || (stack_size =? 0) then (kInvalidState, x)
  else if negb (bool_decide (state_ x = kConstructed)) then (kInvalidState, x)
  else (kOk, x <| state_ := kPrepared |> <| owner := Creating |>).

(** [k_thread_create] returned [created]. *)
Definition Prepare_create (created : bool) (x : t) : Status * t :=
  if created then (kOk, x <| thread_id_ := true |> <| thread := AtGate |> <| owner := Idle |>)
  else (kUnavailable, x <| state_ := kFailed |> <| owner := Idle |>).

Definition Activate (x : t) : Status * t :=
  if negb (bool_decide (state_ x = kPrepared)) then (kInvalidState, x)
  else (kOk, x <| state_ := kRunning |> <| owner := Opening |>).

(** [reentrant] is [k_is_in_isr()] or that the caller is the executor's thread. *)
Definition Shutdown (reentrant : bool) (x : t) : t :=
  if bool_decide (state_ x = kStopped) || bool_decide (state_ x = kFailed) then x
  else if reentrant then x <| owner := Panicked |>
  else if bool_decide (state_ x = kStopped) || bool_decide (state_ x = kFailed)
      || bool_decide (state_ x = kQuiescing) then x
  else if bool_decide (state_ x = kConstructed) then x <| state_ := kStopped |>
  else x <| state_ := kQuiescing |> <| owner := Purging |>.

(** The rest of [Activate] and [Shutdown]; [joined] is what [k_thread_join]
    returns once it returns. *)
Definition owner_step (joined : Z) (x : t) : option t :=
  match owner x with
  | Idle | Creating | Panicked => None
  | Opening => Some (x <| run_gate_ := k_sem_give (run_gate_ x) |> <| owner := Idle |>)
  | Purging => Some (x <| queue_ := k_msgq_purge (queue_ x) |> <| owner := Stopping |>)
  | Stopping => Some (x <| queue_ := (k_msgq_put (queue_ x) (MkEntry 0 None)).2 |> <| owner := OpeningToStop |>)
  | OpeningToStop => Some (x <| run_gate_ := k_sem_give (run_gate_ x) |> <| owner := Interrupting |>)
  | Interrupting => Some (x <| delay_gate_ := k_sem_give (delay_gate_ x) |> <| owner := Joining |>)
  | Joining =>
      if negb (thread_id_ x) then Some (x <| owner := Emptying |>)
      else match thread x with
      | Exited =>
          if negb (joined =? 0) then Some (x <| owner := Panicked |>)
          else Some (x <| thread_id_ := false |> <| owner := Emptying |>)
      | _ => None
      end
  | Emptying => Some (x <| queue_ := k_msgq_purge (queue_ x) |> <| owner := Finishing |>)
  | Finishing => Some (x <| state_ := kStopped |> <| owner := Idle |>)
  end.

(** *** Posts *)

Definition TryPostAt (timestamp : Z) (item : WorkItem P) (x : t) : Status * t :=
  match item with
  | None => (kInvalidArgument, x)
  | Some _ =>
      if negb (bool_decide (state_ x = kPrepared)) && negb (IsRunning x) then (kInvalidState, x)
      else
        let entry := MkEntry timestamp item in
        let '(code, queue) := k_msgq_put (queue_ x) entry in
        if code =? 0 then (kOk, x <| queue_ := queue |> <| accepted := accepted x ++ [entry] |>)
        else (kCapacityExceeded, x <| queue_ := queue |>)
  end.

Definition TryPost (item : WorkItem P) (x : t) : Status * t := TryPostAt (now x) item x.

(** *** The thread

    [timeout] is how a wait for the delay gate ends, where it may end either way;
    [None] is that the thread waits. *)
Definition Run (timeout : bool) (x : t) : option t :=
  match thread x with
  | Absent | Exited => None
  | AtGate =>
      match k_sem_take (run_gate_ x) with
      | Some gate => Some (x <| run_gate_ := gate |> <| thread := AtQueue |>)
      | None => None
      end
  | AtQueue =>
      match k_msgq_get (queue_ x) with
      | Got entry queue => Some (x <| queue_ := queue |> <| thread := Checking entry |>)
      | GetFailed _ => Some x
      | Blocked => None
      end
  | Checking entry =>
      if bool_decide (work entry = None) || negb (IsRunning x) then Some (x <| thread := Exited |>)
      else Some (x <| thread := Timing entry |>)
  | Timing entry =>
      if now x <? entry_timestamp_ns entry
      then Some (x <| thread := Delaying entry (now x) (entry_timestamp_ns entry - now x) |>)
      else Some (x <| thread := Rechecking entry |>)
  | Delaying entry since delay_ns =>
      if timeout
      then if delay_ns <=? now x - since then Some (x <| thread := Delayed entry |>) else None
      else match k_sem_take (delay_gate_ x) with
      | Some gate => Some (x <| delay_gate_ := gate |> <| thread := Exited |>)
      | None => None
      end
  | Delayed entry => Some (x <| thread := if IsRunning x then Rechecking entry else Exited |>)
  | Rechecking entry => Some (x <| thread := if IsRunning x then Starting entry else Exited |>)
  | Starting entry =>
      Some (x <| thread := Running entry |>
        <| begun := begun x ++ [(entry, MkExecutionContext name kThread (now x))] |>)
  | Running _ => Some (x <| thread := AtQueue |>)
  end.

(** *** Interleaving

    The supervisor serializes the life-cycle calls; time passes; anything may
    post. A kernel that panicked takes no step. *)
Inductive step : t -> t -> Prop :=
  | step_time x later : owner x <> Panicked -> now x <= later -> step x (x <| now := later |>)
  | step_thread x timeout y : owner x <> Panicked -> Run timeout x = Some y -> step x y
  | step_post x timestamp item : owner x <> Panicked -> step x (TryPostAt timestamp item x).2
  | step_prepare x : owner x = Idle -> step x (Prepare x).2
  | step_create x created : owner x = Creating -> step x (Prepare_create created x).2
  | step_activate x : owner x = Idle -> step x (Activate x).2
  | step_shutdown x reentrant : owner x = Idle -> step x (Shutdown reentrant x)
  | step_owner x joined y : owner_step joined x = Some y -> step x y.

Definition reachable (x : t) : Prop := exists start, rtc step (init start) x.

(** *** The invariant *)

Context `{!MsgqLaws Entry Q, !SemaphoreLaws S}.

Definition stop : Entry := MkEntry 0 None.
Definition has_work (entry : Entry) : Prop := work entry <> None.
Definition queued (x : t) : list Entry := contents (queue_ x).

#[export] Instance has_work_dec entry : Decision (has_work entry).
Proof. unfold has_work. destruct (work entry); [left; done|right; naive_solver]. Defined.

Definition in_hand (pc : thread_pc) : list Entry :=
  match pc with
  | Checking entry | Timing entry | Delaying entry _ _ | Delayed entry | Rechecking entry
  | Starting entry => [entry]
  | Absent | AtGate | AtQueue | Running _ | Exited => []
  end.

Definition present (pc : thread_pc) : Prop := pc <> Absent.
Definition alive (pc : thread_pc) : Prop := pc <> Absent /\ pc <> Exited.

(** The stop entry waits for the thread, or the thread has taken it, or left. *)
Definition stop_ready (x : t) : Prop :=
  queued x = [stop] \/ (queued x = [] /\ thread x = Checking stop) \/ thread x = Exited.

Definition gate_open (x : t) : Prop := thread x = AtGate -> sem_count (run_gate_ x) = 1%nat.

Definition phase (x : t) : Prop :=
  match owner x, state_ x with
  | Idle, kConstructed => thread x = Absent /\ thread_id_ x = false /\
      sem_count (run_gate_ x) = 0%nat /\ sem_count (delay_gate_ x) = 0%nat /\ queued x = []
  | Creating, kPrepared => thread x = Absent /\ thread_id_ x = false /\
      sem_count (run_gate_ x) = 0%nat /\ sem_count (delay_gate_ x) = 0%nat /\ Forall has_work (queued x)
  | Idle, kPrepared | Opening, kRunning => thread x = AtGate /\ thread_id_ x = true /\
      sem_count (run_gate_ x) = 0%nat /\ sem_count (delay_gate_ x) = 0%nat /\ Forall has_work (queued x)
  | Idle, kRunning => alive (thread x) /\ thread_id_ x = true /\ gate_open x /\
      sem_count (delay_gate_ x) = 0%nat /\ Forall has_work (queued x) /\ Forall has_work (in_hand (thread x))
  | Purging, kQuiescing => present (thread x) /\ thread_id_ x = true /\ Forall has_work (queued x)
  | Stopping, kQuiescing => present (thread x) /\ thread_id_ x = true /\ queued x = []
  | OpeningToStop, kQuiescing => present (thread x) /\ thread_id_ x = true /\ stop_ready x
  | Interrupting, kQuiescing => present (thread x) /\ thread_id_ x = true /\ stop_ready x /\ gate_open x
  | Joining, kQuiescing => present (thread x) /\ thread_id_ x = true /\ stop_ready x /\ gate_open x /\
      (thread x <> Exited -> sem_count (delay_gate_ x) = 1%nat)
  | Emptying, kQuiescing => thread x = Exited /\ thread_id_ x = false
  | Finishing, kQuiescing => thread x = Exited /\ thread_id_ x = false /\ queued x = []
  | Idle, kStopped => (thread x = Absent \/ thread x = Exited) /\ thread_id_ x = false /\ queued x = []
  | Idle, kFailed => thread x = Absent /\ thread_id_ x = false
  | Panicked, _ => True
  | _, _ => False
  end.

Record control (x : t) : Prop := {
  c_size : msgq_size (queue_ x) = Capacity;
  c_bound : (length (queued x) <= Capacity)%nat;
  c_run : sem_limit (run_gate_ x) = 1%nat;
  c_delay : sem_limit (delay_gate_ x) = 1%nat;
  c_phase : phase x
}.

(** What the thread knows of the entry it holds. *)
Definition timed (x : t) : Prop :=
  match thread x with
  | Timing entry => has_work entry
  | Delaying entry since delay_ns =>
      has_work entry /\ delay_ns = entry_timestamp_ns entry - since /\ since <= now x
  | Delayed entry | Rechecking entry | Starting entry => has_work entry /\ entry_timestamp_ns entry <= now x
  | _ => True
  end.

Definition proper_start (x : t) (run : Entry * ExecutionContext) : Prop :=
  has_work run.1 /\ entry_timestamp_ns run.1 <= timestamp_ns run.2 /\ timestamp_ns run.2 <= now x /\
  executor_name run.2 = name /\ kind run.2 = kThread.

(** Entries leave in the order they came; none is lost before [Shutdown]. *)
Definition accepting (x : t) : Prop := state_ x = kConstructed \/ state_ x = kPrepared \/ state_ x = kRunning.

Definition history (x : t) : Prop :=
  exists rest, accepted x = (begun x).*1 ++ filter has_work (in_hand (thread x)) ++ rest /\
    (thread x <> Exited -> filter has_work (queued x) `prefix_of` rest) /\
    (accepting x -> rest = queued x).

Lemma take_some s s' : k_sem_take s = Some s' ->
  exists n, sem_count s = Datatypes.S n /\ sem_count s' = n /\ sem_limit s' = sem_limit s.
Proof using Type*.
  intros H. destruct (sem_count s) as [|n] eqn:Hn; [by rewrite sem_take_none in H|].
  destruct (sem_take_some s n Hn) as (s2 & H2 & ? & ?). rewrite H2 in H. simplify_eq. eauto.
Qed.

Lemma take_zero s s' : k_sem_take s = Some s' -> sem_count s = 0%nat -> False.
Proof using Type*. intros H. apply take_some in H as (n & -> & _). done. Qed.

Lemma get_spec q : match k_msgq_get q with
  | Got e q' => contents q = e :: contents q' /\ msgq_size q' = msgq_size q
  | Blocked => contents q = []
  | GetFailed _ => False
  end.
Proof using Type*.
  destruct (contents q) as [|e rest] eqn:Hq; [by rewrite msgq_get_empty|].
  destruct (msgq_get_next q e rest Hq) as (q' & -> & <- & ->). done.
Qed.

Lemma give_open s : sem_limit s = 1%nat -> sem_count (k_sem_give s) = 1%nat /\ sem_limit (k_sem_give s) = 1%nat.
Proof using Type*. intros H. destruct (sem_give_laws s) as [-> ->]. rewrite H. lia. Qed.

Hypothesis Capacity_positive : (0 < Capacity)%nat.

Lemma control_init start : control (init start).
Proof using Type*.
  destruct (msgq_init_laws (E:=Entry) (Q:=Q) Capacity) as [Hc Hs].
  destruct (sem_init_laws (S:=S) 0 1) as [Hz Hl].
  split; cbn; unfold queued; cbn; rewrite ?Hc; cbn; try (done || lia).
Qed.

Ltac owner_cases H :=
  unfold phase in H; repeat match type of H with
  | context [owner ?x] => destruct (owner x) eqn:?; try contradiction
  | context [state_ ?x] => destruct (state_ x) eqn:?; try contradiction
  end.

Ltac solve_phase :=
  destruct_and?; unfold alive, present in *; simplify_eq/=;
  repeat match goal with H : thread ?x = _ |- _ => rewrite H in * end;
  repeat split; cbn; intros; eauto; try (done || congruence || by constructor || (left; congruence)).

Lemma control_post timestamp item x : control x -> control (TryPostAt timestamp item x).2.
Proof using Type*.
  intros [Hs Hb Hr Hd Hp]. unfold TryPostAt, IsRunning. destruct item as [work|]; [|done].
  split_if; [done|]. unfold queued in Hb.
  set (entry := MkEntry timestamp (Some work)). pose proof (msgq_put_size (queue_ x) entry) as Hs'.
  destruct (decide (length (contents (queue_ x)) < msgq_size (queue_ x))%nat) as [Hroom|Hfull].
  - destruct (msgq_put_room (queue_ x) entry Hroom) as [Hc Hq].
    destruct (k_msgq_put (queue_ x) entry) as [code queue]. cbn [fst snd] in *. subst code.
    assert (has_work entry) as Hw by done.
    split; cbn; unfold queued; cbn; rewrite ?Hq, ?length_app; cbn; try (done || lia || congruence).
    unfold phase, gate_open, stop_ready, queued. cbn. unfold queued in *. rewrite Hq.
    unfold phase, gate_open, stop_ready, queued in Hp.
    owner_cases Hp; cbn in *; try done; rewrite Forall_app; naive_solver.
  - destruct (msgq_put_full (queue_ x) entry ltac:(lia)) as [Hc Hq].
    destruct (k_msgq_put (queue_ x) entry) as [code queue]. cbn [fst snd] in *.
    apply Z.eqb_neq in Hc as ->. split; cbn; unfold queued; cbn; try (congruence || lia).
    unfold phase, gate_open, stop_ready, queued in *. cbn. by rewrite Hq.
Qed.

Lemma control_prepare x : owner x = Idle -> control x -> control (Prepare x).2.
Proof using Type*.
  intros Ho [Hs Hb Hr Hd Hp]. unfold Prepare. do 2 (split_if; [done|]). bool_hyps.
  split; try done. unfold phase in *. cbn. rewrite Ho in Hp.
  destruct (state_ x); try done. unfold queued in *. cbn. destruct Hp as (? & ? & ? & ? & ->). auto.
Qed.

Lemma control_create created x : owner x = Creating -> control x -> control (Prepare_create created x).2.
Proof using Type*.
  intros Ho [Hs Hb Hr Hd Hp]. unfold Prepare_create. unfold phase in Hp. rewrite Ho in Hp.
  destruct (state_ x) eqn:Hst; try done.
  destruct created; split; try done; unfold phase, queued; cbn; rewrite ?Hst; solve_phase.
Qed.

Lemma control_activate x : owner x = Idle -> control x -> control (Activate x).2.
Proof using Type*.
  intros Ho [Hs Hb Hr Hd Hp]. unfold Activate. split_if; [done|]. bool_hyps.
  split; try done. unfold phase in *. cbn. rewrite Ho in Hp. destruct (state_ x); try done.
Qed.

Lemma control_shutdown reentrant x : owner x = Idle -> control x -> control (Shutdown reentrant x).
Proof using Type*.
  intros Ho [Hs Hb Hr Hd Hp]. unfold Shutdown. unfold phase in Hp. rewrite Ho in Hp.
  repeat case_bool_decide; cbn; try congruence; destruct reentrant; try done;
    split; try done; unfold phase, queued, present, alive in *; cbn; rewrite ?Ho.
  all: destruct (state_ x); try done; solve_phase.
Qed.

Lemma control_owner joined x y : control x -> owner_step joined x = Some y -> control y.
Proof using Type*.
  intros [Hs Hb Hr Hd Hp] H. unfold owner_step in H. unfold phase in Hp.
  destruct (give_open (run_gate_ x) Hr) as [Hrun Hrun']. destruct (give_open (delay_gate_ x) Hd) as [Hdel Hdel'].
  destruct (msgq_purge_laws (E:=Entry) (queue_ x)) as [Hpc Hps].
  destruct (owner x) eqn:Ho; try done; destruct (state_ x) eqn:Hst; try done.
  - simplify_eq. split; try done. unfold phase, gate_open, queued, alive. cbn. rewrite Hst. solve_phase.
  - simplify_eq. split; cbn; unfold queued; cbn; rewrite ?Hpc; try (done || congruence || cbn; lia).
    unfold phase, queued. cbn. rewrite Hst. solve_phase.
  - simplify_eq. unfold queued in Hp, Hb.
    destruct (msgq_put_room (queue_ x) stop) as [Hc Hq]; [rewrite (proj2 (proj2 Hp)); cbn; lia|].
    pose proof (msgq_put_size (queue_ x) stop) as Hs'. fold stop.
    split; cbn; unfold queued; cbn; rewrite ?Hq; try (done || congruence).
    + rewrite (proj2 (proj2 Hp)). cbn. lia.
    + unfold phase, stop_ready, queued. cbn. rewrite Hst, Hq, (proj2 (proj2 Hp)). solve_phase.
  - simplify_eq. split; try done. unfold phase, gate_open, stop_ready, queued in *. cbn. rewrite Hst. solve_phase.
  - simplify_eq. split; try done. unfold phase, gate_open, stop_ready, queued in *. cbn. rewrite Hst. solve_phase.
  - destruct Hp as (Hpr & Hid & Hp). rewrite Hid in H. cbn in H. destruct (thread x) eqn:Hth; try done.
    split_if_in H; simplify_eq; split; try done. unfold phase; cbn; by rewrite ?Hst.
  - simplify_eq. split; cbn; unfold queued; cbn; rewrite ?Hpc; try (done || congruence || cbn; lia).
    unfold phase, queued. cbn. rewrite Hst. solve_phase.
  - simplify_eq. split; try done. unfold phase, queued in *. cbn. solve_phase.
Qed.

(** The thread moves on without touching a kernel object. *)
Lemma control_moves pc x : control x -> alive (thread x) -> thread x <> AtGate -> pc <> AtGate -> alive pc ->
  (in_hand pc = in_hand (thread x) \/ in_hand pc = []) -> thread x <> Checking stop ->
  control (x <| thread := pc |>).
Proof using Type*.
  intros [Hs Hb Hr Hd Hp] Hal Hg Hpc Hal' Hh Hst. split; try done.
  unfold phase, gate_open, stop_ready, queued in *. cbn. destruct Hal, Hal'.
  assert (Forall has_work (in_hand (thread x)) -> Forall has_work (in_hand pc)) by (destruct Hh as [->| ->]; auto).
  destruct (owner x), (state_ x); solve_phase; naive_solver.
Qed.

Lemma control_exits x : control x -> alive (thread x) -> state_ x <> kRunning -> thread x <> AtGate ->
  control (x <| thread := Exited |>).
Proof using Type*.
  intros [Hs Hb Hr Hd Hp] Hal Hrun Hg. split; try done.
  unfold phase, gate_open, stop_ready, queued in *. cbn. destruct Hal.
  destruct (owner x), (state_ x); solve_phase; naive_solver.
Qed.

Lemma running_phase x : control x -> owner x <> Panicked -> state_ x = kRunning -> thread x <> AtGate ->
  alive (thread x) /\ thread_id_ x = true /\ sem_count (delay_gate_ x) = 0%nat /\ Forall has_work (in_hand (thread x)).
Proof using Type*.
  intros [_ _ _ _ Hp] Hpan Hrun Hg. unfold phase in Hp. rewrite Hrun in Hp.
  destruct (owner x); try done; destruct_and!; done.
Qed.

Lemma running_hand x : control x -> owner x <> Panicked -> state_ x = kRunning -> Forall has_work (in_hand (thread x)).
Proof using All.
  intros Hc Hp Hr. pose proof (running_phase x Hc Hp Hr) as H.
  destruct (thread x); try (by constructor); by apply H.
Qed.

Lemma IsRunning_spec x : IsRunning x = true <-> state_ x = kRunning.
Proof. apply bool_decide_eq_true. Qed.
Lemma IsRunning_false x : IsRunning x = false <-> state_ x <> kRunning.
Proof. apply bool_decide_eq_false. Qed.

Lemma control_gate gate x : control x -> thread x = AtGate -> k_sem_take (run_gate_ x) = Some gate ->
  control (x <| run_gate_ := gate |> <| thread := AtQueue |>).
Proof using Type*.
  intros [Hs Hb Hr Hd Hp] Hth Ht. pose proof (take_zero _ _ Ht) as Hz. apply take_some in Ht as (n & _ & _ & Hl).
  split; cbn; try (done || congruence). unfold phase, gate_open, stop_ready, queued in *. cbn.
  destruct (owner x), (state_ x); solve_phase; naive_solver.
Qed.

Lemma control_get entry queue x : control x -> thread x = AtQueue -> k_msgq_get (queue_ x) = Got entry queue ->
  control (x <| queue_ := queue |> <| thread := Checking entry |>).
Proof using Type*.
  intros [Hs Hb Hr Hd Hp] Hth Hg. pose proof (get_spec (queue_ x)) as Hq. rewrite Hg in Hq. destruct Hq as [Hq Hz].
  unfold queued in *. rewrite Hq in Hb. cbn in Hb. split; cbn; unfold queued; cbn; try (done || congruence || lia).
  unfold phase, gate_open, stop_ready, queued in *. cbn. rewrite Hq in *. rewrite Hth in *.
  assert (forall q, Forall has_work (entry :: q) -> has_work entry /\ Forall has_work q) as HF by (intros q H; by inversion H).
  destruct (owner x), (state_ x); solve_phase;
    repeat match goal with H : Forall has_work (_ :: _) |- _ => apply HF in H as [? ?] end; naive_solver.
Qed.

Lemma control_interrupted entry since delay_ns gate x : control x -> owner x <> Panicked ->
  thread x = Delaying entry since delay_ns -> k_sem_take (delay_gate_ x) = Some gate ->
  control (x <| delay_gate_ := gate |> <| thread := Exited |>).
Proof using Type*.
  intros [Hs Hb Hr Hd Hp] Hpan Hth Ht. pose proof (take_zero _ _ Ht) as Hz.
  apply take_some in Ht as (n & _ & _ & Hl). split; cbn; try (done || congruence).
  unfold phase, gate_open, stop_ready, queued in *. cbn.
  destruct (owner x), (state_ x); solve_phase; naive_solver.
Qed.

Lemma control_thread timeout x y : owner x <> Panicked -> control x -> Run timeout x = Some y -> control y.
Proof using Type*.
  intros Hpan Hc H. unfold Run in H. pose proof (running_phase x Hc Hpan) as Hrun.
  destruct (thread x) eqn:Hth; try done.
  - destruct (k_sem_take _) eqn:Ht; simplify_eq. by apply control_gate.
  - pose proof (get_spec (queue_ x)) as Hq.
    destruct (k_msgq_get _) eqn:Hg; simplify_eq; try done. by apply control_get.
  - split_if_in H; simplify_eq.
    + apply control_exits; try first [done|by rewrite Hth].
      intros Hr. destruct Hrun as (_ & _ & _ & Hw); try done. cbn in Hw. inversion Hw as [|? ? Hw' _]; subst.
      apply orb_true_iff in E as [E|E]; bool_hyps; [done|]. by apply IsRunning_false in E.
    + bool_hyps. apply control_moves; try first [done|by rewrite Hth|rewrite Hth; by left].
      rewrite Hth. intros Heq. by injection Heq as ->.
  - split_if_in H; simplify_eq; apply control_moves; try first [done|by rewrite Hth|rewrite Hth; by left].
  - destruct timeout; [split_if_in H; simplify_eq; apply control_moves; try first [done|by rewrite Hth|rewrite Hth; by left]|].
    destruct (k_sem_take _) eqn:Ht; simplify_eq. by eapply control_interrupted.
  - destruct (IsRunning x) eqn:E; simplify_eq.
    + apply control_moves; try first [done|by rewrite Hth|rewrite Hth; by left].
    + apply control_exits; try first [done|by rewrite Hth|by apply IsRunning_false].
  - destruct (IsRunning x) eqn:E; simplify_eq.
    + apply control_moves; try first [done|by rewrite Hth|rewrite Hth; by left].
    + apply control_exits; try first [done|by rewrite Hth|by apply IsRunning_false].
  - simplify_eq. assert (control (x <| thread := Running entry |>)) as Hc'
      by (apply control_moves; try first [done|by rewrite Hth|rewrite Hth; by right]).
    destruct Hc'. split; done.
  - simplify_eq. apply control_moves; try first [done|by rewrite Hth|rewrite Hth; by right].
Qed.

Lemma control_step x y : step x y -> control x -> control y.
Proof using Type*.
  intros H Hc. destruct H; eauto using control_thread, control_post, control_prepare, control_create,
    control_activate, control_shutdown, control_owner.
  destruct Hc. split; done.
Qed.

Lemma reachable_ind (inv : t -> Prop) :
  (forall start, inv (init start)) -> (forall x y, control x -> step x y -> inv x -> inv y) ->
  forall x, reachable x -> control x /\ inv x.
Proof using Type*.
  intros Hi Hs x [start H]. revert H. generalize (control_init start), (Hi start). generalize (init start).
  intros y Hc Hy H. induction H; eauto using control_step.
Qed.

(** The fields a post, a life-cycle call or a step of the supervisor leaves alone. *)
Lemma post_frame timestamp item x : let y := (TryPostAt timestamp item x).2 in
  thread y = thread x /\ now y = now x /\ begun y = begun x /\ state_ y = state_ x /\ owner y = owner x.
Proof. unfold TryPostAt. destruct item; [|done]. split_if; [done|]. destruct (k_msgq_put _ _). by split_if. Qed.

Lemma call_frame x y : (exists reentrant, y = Shutdown reentrant x) \/ y = (Prepare x).2 \/ y = (Activate x).2 ->
  thread y = thread x /\ now y = now x /\ begun y = begun x /\ accepted y = accepted x /\ queue_ y = queue_ x.
Proof.
  intros [[reentrant ->]|[-> | ->]]; unfold Shutdown, Prepare, Activate; repeat (split_if; try done).
Qed.

Lemma owner_frame joined x y : owner_step joined x = Some y ->
  thread y = thread x /\ now y = now x /\ begun y = begun x /\ accepted y = accepted x.
Proof.
  unfold owner_step. intros H. destruct (owner x); simplify_eq; try done.
  split_if_in H; simplify_eq; [done|]. destruct (thread x) eqn:Hth; try done. split_if_in H; by simplify_eq.
Qed.

Lemma timed_step x y : step x y -> timed x -> timed y.
Proof using All.
  unfold timed. intros H Ht. destruct H.
  - cbn in *. destruct (thread x); intuition lia.
  - unfold Run in *. destruct (thread x) eqn:Hth; simplify_eq/=; try done.
    + destruct (k_sem_take _); by simplify_eq.
    + destruct (k_msgq_get _); simplify_eq; [done|by rewrite Hth].
    + split_if_in H0; simplify_eq; cbn; [done|]. by bool_hyps.
    + split_if_in H0; simplify_eq; cbn; bool_hyps; [split_and!; [done|done|lia]|done].
    + destruct timeout; [split_if_in H0; simplify_eq; cbn; bool_hyps; destruct Ht as (? & -> & ?); split; [done|lia]|].
      destruct (k_sem_take _); by simplify_eq.
    + by destruct (IsRunning x).
    + by destruct (IsRunning x).
  - destruct (post_frame timestamp item x) as (-> & -> & _). done.
  - destruct (call_frame x (Prepare x).2) as (-> & -> & _); [eauto|done].
  - unfold Prepare_create. destruct created; [done|]. cbn. done.
  - destruct (call_frame x (Activate x).2) as (-> & -> & _); [eauto|done].
  - destruct (call_frame x (Shutdown reentrant x)) as (-> & -> & _); [eauto|done].
  - destruct (owner_frame _ _ _ H) as (-> & -> & _). done.
Qed.

Ltac keeps H :=
  match goal with |- Forall (proper_start ?z) _ => apply (H z); [cbn; lia|done] end.

Lemma begun_step x y : step x y -> timed x -> Forall (proper_start x) (begun x) -> Forall (proper_start y) (begun y).
Proof using All.
  intros H Ht Hf.
  assert (forall z, now x <= now z -> begun z = begun x -> Forall (proper_start z) (begun z)) as Hkeep.
  { intros z Hn ->. eapply Forall_impl; [done|]. unfold proper_start. intuition lia. }
  destruct H.
  - by apply Hkeep.
  - unfold Run, timed in *. destruct (thread x) eqn:Hth; simplify_eq/=;
      try solve [keeps Hkeep].
    + destruct (k_sem_take _); simplify_eq. keeps Hkeep.
    + destruct (k_msgq_get _); simplify_eq; keeps Hkeep.
    + split_if_in H0; simplify_eq; keeps Hkeep.
    + split_if_in H0; simplify_eq; keeps Hkeep.
    + destruct timeout; [split_if_in H0; simplify_eq; keeps Hkeep|].
      destruct (k_sem_take _); simplify_eq. keeps Hkeep.
    + cbn. apply Forall_app. split; [done|]. apply Forall_singleton. unfold proper_start. cbn. intuition lia.
  - destruct (post_frame timestamp item x) as (_ & Hn & Hb & _). apply Hkeep; [lia|done].
  - destruct (call_frame x (Prepare x).2) as (_ & Hn & Hb & _); [eauto|]. apply Hkeep; [lia|done].
  - unfold Prepare_create. destruct created; keeps Hkeep.
  - destruct (call_frame x (Activate x).2) as (_ & Hn & Hb & _); [eauto|]. apply Hkeep; [lia|done].
  - destruct (call_frame x (Shutdown reentrant x)) as (_ & Hn & Hb & _); [eauto|]. apply Hkeep; [lia|done].
  - destruct (owner_frame _ _ _ H) as (_ & Hn & Hb & _). apply Hkeep; [lia|done].
Qed.

Lemma accepting_alive x : control x -> owner x <> Panicked -> accepting x -> thread x <> Exited.
Proof using All.
  intros [_ _ _ _ Hp] Hpan Ha Hth. unfold phase in Hp. rewrite Hth in Hp. unfold alive in Hp.
  destruct Ha as [Ha|[Ha|Ha]]; rewrite Ha in Hp; destruct (owner x); try done; destruct_and!; simplify_eq; naive_solver.
Qed.

Lemma accepting_works x : control x -> owner x <> Panicked -> accepting x -> Forall has_work (queued x).
Proof using All.
  intros [_ _ _ _ Hp] Hpan Ha. unfold phase in Hp.
  destruct Ha as [Ha|[Ha|Ha]]; rewrite Ha in Hp; destruct (owner x); try done; destruct_and!; try done.
  match goal with H : queued x = [] |- _ => by rewrite H end.
Qed.

Lemma filter_works l : Forall has_work l -> filter has_work l = l.
Proof using Type. induction 1; [done|]. rewrite filter_cons_True by done. congruence. Qed.

Lemma history_frame x y : thread y = thread x -> begun y = begun x -> accepted y = accepted x ->
  (filter has_work (queued y) = filter has_work (queued x) \/ filter has_work (queued y) = []) ->
  (accepting y -> accepting x /\ queued y = queued x) -> history x -> history y.
Proof using All.
  intros Ht Hb Ha Hq Hacc (rest & Heq & Hp & Hr). exists rest. rewrite Ht, Hb, Ha. split_and!; [done| |].
  - intros Hx. destruct Hq as [-> | ->]; [auto|apply prefix_nil].
  - intros Hy. destruct (Hacc Hy) as [Hx ->]. auto.
Qed.

(** The thread goes on with what it holds, or leaves. *)
Lemma history_thread pc x y : begun y = begun x -> accepted y = accepted x -> thread y = pc ->
  thread x <> Exited -> queue_ y = queue_ x -> state_ y = state_ x ->
  (pc = Exited /\ ~ accepting y \/ filter has_work (in_hand pc) = filter has_work (in_hand (thread x))) ->
  history x -> history y.
Proof using All.
  intros Hb Ha Ht Hex Hq Hs Hpc (rest & Heq & Hp & Hr). unfold history, queued, accepting. rewrite Ht, Hb, Ha, Hq, Hs.
  destruct Hpc as [[-> Hacc]|Hh].
  - exists (filter has_work (in_hand (thread x)) ++ rest). split_and!; [done|done|].
    intros Hx. destruct Hacc. unfold accepting. by rewrite Hs.
  - exists rest. rewrite Hh. split_and!; auto.
Qed.

Ltac stays pc Hth :=
  match goal with H : history ?x |- _ =>
    apply (history_thread pc x); try first [done|by rewrite Hth|right; by rewrite Hth] end.

Lemma history_run timeout x y : owner x <> Panicked -> control x -> control y -> timed x ->
  Run timeout x = Some y -> history x -> history y.
Proof using All.
  intros Hpan Hc Hc' Ht H Hh. pose proof (accepting_alive y Hc') as Hal. pose proof (running_phase x Hc Hpan) as Hrun.
  unfold Run, timed in *. destruct (thread x) eqn:Hth; simplify_eq/=; try done.
  - destruct (k_sem_take _); simplify_eq. stays AtQueue Hth.
  - pose proof (get_spec (queue_ x)) as Hq. destruct (k_msgq_get (queue_ x)) as [e q| |] eqn:Hg; simplify_eq; try done.
    destruct Hq as [Hq _]. destruct Hh as (rest & Heq & Hp & Hr). unfold history, queued in *. rewrite Hth, Hq in *. cbn in *.
    specialize (Hp ltac:(done)). destruct (decide (has_work e)) as [Hw|Hw].
    + destruct Hp as [more ->]. exists (filter has_work (contents q) ++ more). split_and!; [done| |].
      * intros _. by exists more.
      * intros Ha. unfold accepting in *. cbn in Ha. specialize (Hr Ha). cbn in Hr. by simplify_eq.
    + exists rest. split_and!; [done|done|]. intros Ha. specialize (Hr Ha). exfalso.
      pose proof (accepting_works x Hc Hpan Ha) as Hall. unfold queued in Hall. rewrite Hq in Hall. by inversion Hall.
  - split_if_in H; simplify_eq; [|stays (Timing entry) Hth].
    stays Exited Hth. left. split; [done|]. intros Ha. by apply Hal.
  - split_if_in H; simplify_eq; [|stays (Rechecking entry) Hth].
    stays (Delaying entry (now x) (entry_timestamp_ns entry - now x)) Hth.
  - destruct timeout; [split_if_in H; simplify_eq; stays (Delayed entry) Hth|].
    destruct (k_sem_take _); simplify_eq. stays Exited Hth. left. split; [done|]. intros Ha. by apply Hal.
  - destruct (IsRunning x) eqn:E; [stays (Rechecking entry) Hth|].
    stays Exited Hth. left. split; [done|]. intros Ha. by apply Hal.
  - destruct (IsRunning x) eqn:E; [stays (Starting entry) Hth|].
    stays Exited Hth. left. split; [done|]. intros Ha. by apply Hal.
  - destruct Hh as (rest & Heq & Hp & Hr). exists rest. cbn [begun accepted thread]. rewrite Hth in Heq, Hp.
    unfold in_hand in Heq |- *. rewrite filter_singleton_True in Heq by (try exact []; apply Ht).
    rewrite fmap_app, <- app_assoc.
    split_and!; [done| |done]. intros _. by apply Hp.
  - stays AtQueue Hth.
Qed.

Lemma owner_queue joined x y : control x -> owner_step joined x = Some y ->
  filter has_work (queued y) = filter has_work (queued x) \/ filter has_work (queued y) = [].
Proof using All.
  intros [_ _ _ _ Hp] H. unfold owner_step in H. unfold phase in Hp.
  destruct (owner x); simplify_eq/=; eauto; unfold queued in *; cbn.
  - right. by destruct (msgq_purge_laws (E:=Entry) (queue_ x)) as [-> _].
  - right. destruct (state_ x); try done. destruct Hp as (_ & _ & Hp).
    destruct (decide (length (contents (queue_ x)) < msgq_size (queue_ x))%nat) as [Hroom|Hfull].
    + destruct (msgq_put_room (queue_ x) stop Hroom) as [_ Hq]. fold stop. by rewrite Hq, Hp.
    + destruct (msgq_put_full (queue_ x) stop ltac:(lia)) as [_ Hq]. fold stop. by rewrite Hq, Hp.
  - split_if_in H; simplify_eq/=; eauto. destruct (thread x); try done. split_if_in H; simplify_eq/=; eauto.
  - right. by destruct (msgq_purge_laws (E:=Entry) (queue_ x)) as [-> _].
Qed.

Lemma owner_accepting joined x y : control x -> owner_step joined x = Some y ->
  accepting y -> accepting x /\ queued y = queued x.
Proof using All.
  intros [_ _ _ _ Hp] H. unfold owner_step in H. unfold phase in Hp. unfold accepting.
  destruct (owner x); simplify_eq/=; destruct (state_ x) eqn:Hst; try done; try (intros; naive_solver).
  split_if_in H; simplify_eq/=; rewrite ?Hst; [naive_solver|].
  destruct (thread x); try done. split_if_in H; simplify_eq/=; rewrite ?Hst; naive_solver.
Qed.

Lemma history_step x y : control x -> control y -> timed x -> step x y -> history x -> history y.
Proof using All.
  intros Hc Hc' Ht H Hh. destruct H.
  - destruct Hh as (rest & Hr). by exists rest.
  - eauto using history_run.
  - unfold TryPostAt, IsRunning. destruct item as [work|]; [|done]. split_if; [done|].
    assert (accepting x) as Ha.
    { unfold accepting. apply andb_false_iff in E as [E|E]; bool_hyps; auto. }
    destruct Hh as (rest & Heq & Hp & Hr). specialize (Hr Ha). subst rest. unfold history, queued in *.
    set (entry := MkEntry timestamp (Some work)).
    destruct (decide (length (contents (queue_ x)) < msgq_size (queue_ x))%nat) as [Hroom|Hfull].
    + destruct (msgq_put_room (queue_ x) entry Hroom) as [Hz Hq].
      destruct (k_msgq_put (queue_ x) entry) as [code queue]. cbn [fst snd] in *. subst code. cbn. rewrite Hq.
      exists (contents (queue_ x) ++ [entry]). rewrite Heq, <- !app_assoc. split_and!; [done| |done].
      intros _. rewrite filter_works; [done|]. apply Forall_app. split; [by apply accepting_works|by apply Forall_singleton].
    + destruct (msgq_put_full (queue_ x) entry ltac:(lia)) as [Hz Hq].
      destruct (k_msgq_put (queue_ x) entry) as [code queue]. cbn [fst snd] in *.
      apply Z.eqb_neq in Hz as ->. cbn. rewrite Hq. eauto.
  - destruct (call_frame x (Prepare x).2) as (? & _ & ? & ? & Hq); [eauto|].
    apply (history_frame x); try done; unfold queued; rewrite Hq; [by left|]. intros Ha. split; [|done].
    unfold Prepare, accepting in *. repeat (split_if_in Ha; [done|]). bool_hyps. auto.
  - assert (thread x = Absent) as Hth.
    { destruct Hc as [_ _ _ _ Hp]. unfold phase in Hp. rewrite H in Hp. destruct (state_ x); try done. apply Hp. }
    unfold Prepare_create. destruct created; [stays AtGate Hth|].
    apply (history_frame x); try done; [by left|]. unfold accepting. cbn. naive_solver.
  - destruct (call_frame x (Activate x).2) as (? & _ & ? & ? & Hq); [eauto|].
    apply (history_frame x); try done; unfold queued; rewrite Hq; [by left|]. intros Ha. split; [|done].
    unfold Activate, accepting in *. split_if_in Ha; [done|]. bool_hyps. auto.
  - destruct (call_frame x (Shutdown reentrant x)) as (? & _ & ? & ? & Hq); [eauto|].
    apply (history_frame x); try done; unfold queued; rewrite Hq; [by left|]. intros Ha. split; [|done].
    unfold Shutdown, accepting in *. repeat (split_if_in Ha; cbn in Ha; try naive_solver).
  - destruct (owner_frame _ _ _ H) as (? & _ & ? & ?). apply (history_frame x); try done;
      [by eapply owner_queue|by eapply owner_accepting].
Qed.

Lemma reachable_inv x : reachable x ->
  control x /\ timed x /\ Forall (proper_start x) (begun x) /\ history x.
Proof using All.
  intros [start H]. assert (control (init start) /\ timed (init start) /\
    Forall (proper_start (init start)) (begun (init start)) /\ history (init start)) as Hi.
  { split_and!; [apply control_init|done|by constructor|].
    destruct (msgq_init_laws (E:=Entry) (Q:=Q) Capacity) as [Hq _]. exists []. unfold queued. cbn. by rewrite Hq. }
  revert H Hi. generalize (init start). intros y H. induction H as [|x y z Hs Hr IH]; [done|].
  intros (Hc & Ht & Hb & Hh). apply IH. pose proof (control_step _ _ Hs Hc).
  split_and!; eauto using timed_step, begun_step, history_step.
Qed.

(** C31: order of the executor of a Zephyr node. Whatever the interleaving of the
    thread, the supervisor, posts and the clock, the items begun are the first
    accepted ones, in the order of their acceptance, each once; each begins on
    the executor's thread, under its name, no earlier than its time stamp. The
    queue never holds more than [Capacity] entries, and while the executor runs
    every accepted item has begun, is in the thread's hand, or is queued. *)
Theorem zephyr_executor_order x : reachable x ->
  (begun x).*1 `prefix_of` accepted x /\
  Forall (proper_start x) (begun x) /\
  (length (queued x) <= Capacity)%nat /\
  (state_ x = kRunning -> owner x <> Panicked ->
    accepted x = (begun x).*1 ++ in_hand (thread x) ++ queued x).
Proof using All.
  intros H. apply reachable_inv in H as (Hc & _ & Hb & rest & Heq & _ & Hr). split_and!; [|done|apply Hc|].
  - eexists. exact Heq.
  - intros Hrun Hpan. rewrite Heq, (Hr ltac:(by right; right)), filter_works; [done|].
    by apply running_hand.
Qed.

(** *** The end of [Shutdown] *)

(** [Shutdown] waits for the thread, or has done so. *)
Definition ending (x : t) : Prop :=
  match owner x with
  | Joining | Emptying | Finishing | Panicked => state_ x = kQuiescing
  | Idle => state_ x = kStopped
  | _ => False
  end.

Definition rank (pc : thread_pc) : nat :=
  match pc with
  | Absent | Exited => 0 | Checking _ => 1 | AtQueue => 2 | Running _ | AtGate => 3
  | Starting _ => 4 | Rechecking _ => 5 | Delayed _ => 6 | Delaying _ _ _ => 7 | Timing _ => 8
  end.

(** A run of the system in which the thread takes [k] steps. *)
Inductive run : nat -> t -> t -> Prop :=
  | run_nil x : run 0 x x
  | run_thread k timeout x y z : owner x <> Panicked -> Run timeout x = Some y -> run k y z -> run (Datatypes.S k) x z
  | run_other k x y z : step x y -> thread y = thread x -> run k y z -> run k x z.

Lemma ending_step x y : ending x -> step x y -> ending y /\ (thread y = thread x \/ exists timeout, Run timeout x = Some y).
Proof using All.
  unfold ending. intros He H. destruct H; cbn in *; eauto.
  - split; [|eauto]. unfold Run in H0. destruct (thread x); simplify_eq/=; eauto; try (split_if_in H0; simplify_eq/=; by eauto);
      try (destruct (k_sem_take _); simplify_eq/=; by eauto); [by destruct (k_msgq_get _); simplify_eq/=; eauto|].
    destruct timeout; [split_if_in H0|destruct (k_sem_take _)]; simplify_eq/=; eauto.
  - destruct (post_frame timestamp item x) as (Ht & _ & _ & -> & ->). eauto.
  - rewrite H in *. destruct (call_frame x (Prepare x).2) as (Ht & _); [eauto|]. split; [|eauto].
    unfold Prepare. split_if; [cbn; by rewrite H|]. rewrite bool_decide_false by congruence. cbn. by rewrite H.
  - by rewrite H in He.
  - rewrite H in *. destruct (call_frame x (Activate x).2) as (Ht & _); [eauto|]. split; [|eauto].
    unfold Activate. rewrite bool_decide_false by congruence. cbn. by rewrite H.
  - rewrite H in *. destruct (call_frame x (Shutdown reentrant x)) as (Ht & _); [eauto|]. split; [|eauto].
    unfold Shutdown. rewrite bool_decide_true by done. cbn. by rewrite H.
  - destruct (owner_frame _ _ _ H) as (Ht & _). split; [|eauto]. unfold owner_step in H.
    destruct (owner x) eqn:Ho; simplify_eq/=; try done.
    split_if_in H; simplify_eq/=; [done|]. destruct (thread x); try done. by split_if_in H; simplify_eq/=.
Qed.

Lemma ending_rank timeout x y : control x -> ending x -> owner x <> Panicked -> Run timeout x = Some y ->
  (rank (thread y) < rank (thread x))%nat.
Proof using All.
  intros [_ _ _ _ Hp] He Hpan H. unfold ending in He. unfold Run in H.
  destruct (thread x) eqn:Hth; simplify_eq/=; try lia.
  - destruct (k_sem_take _); simplify_eq/=. lia.
  - pose proof (get_spec (queue_ x)) as Hq. destruct (k_msgq_get _); simplify_eq/=; lia.
  - split_if_in H; simplify_eq/=; [lia|]. bool_hyps.
    match goal with H : IsRunning x = true |- _ => apply IsRunning_spec in H end.
    destruct (owner x); try done; congruence.
  - split_if_in H; simplify_eq/=; lia.
  - destruct timeout; [split_if_in H|destruct (k_sem_take _)]; simplify_eq/=; lia.
  - destruct (IsRunning x); cbn; lia.
  - destruct (IsRunning x); cbn; lia.
Qed.

Lemma ending_moves x : control x -> ending x -> owner x <> Panicked -> alive (thread x) ->
  owner x = Joining /\ exists y, Run false x = Some y.
Proof using All.
  intros [_ _ _ _ Hp] He Hpan [Ha Hx]. unfold ending in He. unfold phase in Hp.
  destruct (owner x); try done; rewrite He in Hp; try (destruct_and!; tauto).
  destruct Hp as (_ & _ & Hs & Hg & Hd). specialize (Hd Hx). split; [done|]. unfold Run.
  destruct (sem_take_some _ _ Hd) as (gate & Ht & _). unfold stop_ready, gate_open, queued in *.
  destruct (thread x) eqn:Hth; try done; eauto.
  - destruct (sem_take_some _ _ (Hg eq_refl)) as (gate' & -> & _). eauto.
  - pose proof (get_spec (queue_ x)) as Hq. destruct (k_msgq_get _); try done; eauto.
    destruct Hs as [Hs|[[_ Hs]|Hs]]; congruence.
  - split_if; eauto.
  - split_if; eauto.
  - rewrite Ht. eauto.
Qed.

Lemma ending_run k x y : control x -> ending x -> run k x y ->
  control y /\ ending y /\ (k + rank (thread y) <= rank (thread x))%nat.
Proof using All.
  intros Hc He H. induction H as [x|k timeout x y z Hp Hr H IH|k x y z Hs Ht H IH].
  - split_and!; done || lia.
  - assert (step x y) as Hs by (by econstructor). pose proof (ending_rank _ _ _ Hc He Hp Hr).
    destruct IH as (? & ? & ?); [by eapply control_step|by eapply ending_step|]. split_and!; done || lia.
  - rewrite <- Ht. apply IH; [by eapply control_step|by eapply ending_step].
Qed.

Lemma ending_begun x y : control x -> ending x -> ~ alive (thread x) -> step x y ->
  begun y = begun x /\ accepted y = accepted x /\ ~ alive (thread y).
Proof using All.
  intros Hc He Ha H. unfold alive in *. destruct H; cbn in *; eauto.
  - exfalso. unfold Run in H0. destruct (thread x); try done; apply Ha; done.
  - unfold TryPostAt, IsRunning. destruct item; [|done]. unfold ending in He.
    rewrite !bool_decide_false by (destruct (owner x); congruence). done.
  - by destruct (call_frame x (Prepare x).2) as (-> & _ & -> & -> & _); [eauto|].
  - unfold ending in He. by rewrite H in He.
  - by destruct (call_frame x (Activate x).2) as (-> & _ & -> & -> & _); [eauto|].
  - by destruct (call_frame x (Shutdown reentrant x)) as (-> & _ & -> & -> & _); [eauto|].
  - by destruct (owner_frame _ _ _ H) as (-> & _ & -> & ->).
Qed.

Lemma ending_stays x y : control x -> ending x -> ~ alive (thread x) -> rtc step x y ->
  control y /\ begun y = begun x /\ accepted y = accepted x.
Proof using All.
  intros Hc He Ha H. induction H as [|x y z Hs H IH]; [done|].
  destruct (ending_begun _ _ Hc He Ha Hs) as (<- & <- & Ha'). apply IH; [by eapply control_step|by eapply ending_step|done].
Qed.

(** C32: [Shutdown] of a Zephyr executor ends, for good. From the moment it waits
    for the thread, whatever else runs, the thread takes at most eight more steps,
    the end of the item it is running among them, and always has one to take until
    it has left; [Shutdown] then returns in three steps with an empty queue. From
    there on nothing is accepted and nothing begins any more. *)
Theorem zephyr_shutdown_completes x : reachable x -> owner x = Joining ->
  (forall k y, run k x y -> (k <= 8)%nat /\
    (owner y = Joining -> thread y <> Exited -> exists z, Run false y = Some z) /\
    (owner y = Joining -> thread y = Exited -> exists a b c,
      owner_step 0 y = Some a /\ owner_step 0 a = Some b /\ owner_step 0 b = Some c /\
      owner c = Idle /\ state_ c = kStopped /\ queued c = [] /\
      forall z, rtc step c z -> begun z = begun y /\ accepted z = accepted y)).
Proof using All.
  intros Hx Ho k y Hr. apply reachable_inv in Hx as (Hc & _).
  assert (ending x) as He.
  { destruct Hc as [_ _ _ _ Hp]. unfold phase in Hp. unfold ending. rewrite Ho in *. by destruct (state_ x). }
  destruct (ending_run _ _ _ Hc He Hr) as (Hc' & He' & Hk).
  assert (rank (thread x) <= 8)%nat by (destruct (thread x); cbn; lia).
  split_and!; [lia| |].
  - intros Hy Hex. apply ending_moves; try done; [congruence|]. split; [|done].
    destruct Hc' as [_ _ _ _ Hp]. unfold phase in Hp. rewrite Hy in Hp. destruct (state_ y); try done. apply Hp.
  - intros Hy Hex. assert (thread_id_ y = true) as Hid.
    { destruct Hc' as [_ _ _ _ Hp]. unfold phase in Hp. rewrite Hy in Hp. by destruct (state_ y); destruct_and?. }
    destruct (owner_step 0 y) as [a|] eqn:Ha; [|unfold owner_step in Ha; by rewrite Hy, Hid, Hex in Ha].
    assert (owner a = Emptying) as Hoa by (unfold owner_step in Ha; rewrite Hy, Hid, Hex in Ha; by simplify_eq/=).
    destruct (owner_step 0 a) as [b|] eqn:Hb; [|unfold owner_step in Hb; by rewrite Hoa in Hb].
    assert (owner b = Finishing) as Hob by (unfold owner_step in Hb; rewrite Hoa in Hb; by simplify_eq/=).
    destruct (owner_step 0 b) as [c|] eqn:Hcc; [|unfold owner_step in Hcc; by rewrite Hob in Hcc].
    assert (owner c = Idle /\ state_ c = kStopped) as [Hoc Hsc] by (unfold owner_step in Hcc; rewrite Hob in Hcc; by simplify_eq/=).
    assert (rtc step y c) as Hyc by (do 3 (eapply rtc_l; [by eapply step_owner|]); done).
    exists a, b, c. split_and!; try done.
    + assert (control c) as [_ _ _ _ Hp] 
        by (apply (ending_stays y); try done; rewrite Hex; by intros []).
      unfold phase in Hp. rewrite Hoc, Hsc in Hp. apply Hp.
    + intros z Hz. destruct (ending_stays y z) as (_ & ? & ?); try done; [rewrite Hex; by intros []|]. by etrans.
Qed.

End ZephyrThreadExecutor.
End ZephyrThreadExecutor.

(** ** Samples: the kernel objects by their definition *)

#[global] Instance list_msgq {E : Type} : Msgq E (nat * list E) := {
  k_msgq_init n := (n, []);
  k_msgq_put q e := if (length q.2 <? q.1)%nat then (0, (q.1, q.2 ++ [e])) else (-35, q);
  k_msgq_get q := match q.2 with [] => Blocked | e :: rest => Got e (q.1, rest) end;
  k_msgq_purge q := (q.1, [])
}.

#[global] Instance list_msgq_laws {E : Type} : MsgqLaws E (nat * list E).
Proof.
  refine {| contents := snd; msgq_size := fst |}; try done; unfold k_msgq_put, k_msgq_get, list_msgq; cbn [fst snd].
  - intros [n l] e. cbn [fst snd]. by split_if.
  - intros [n l] e H. cbn [fst snd] in *. apply Nat.ltb_lt in H. by rewrite H.
  - intros [n l] e H. cbn [fst snd] in *. apply Nat.ltb_ge in H. by rewrite H.
  - intros [n l] H. cbn in *. by subst.
  - intros [n l] e rest H. cbn in *. subst. eauto.
Defined.

#[global] Instance nat_semaphore : Semaphore (nat * nat) := {
  k_sem_init count limit := (count, limit);
  k_sem_give s := (Nat.min (1 + s.1) s.2, s.2);
  k_sem_take s := match s.1 with 0%nat => None | Datatypes.S n => Some (n, s.2) end
}.

#[global] Instance nat_semaphore_laws : SemaphoreLaws (nat * nat).
Proof.
  refine {| sem_count := fst; sem_limit := snd |}; try done; cbn.
  - intros [n l] H. cbn in *. by subst.
  - intros [c l] n H. cbn in *. subst. eauto.
Defined.

Module ZephyrSamples.
Import ZephyrThreadExecutor.

Definition node : Type := @t nat (nat * list (@Entry nat)) (nat * nat).
Definition moved (x : node) : node := default x (Run "sample" false x).
Definition resumed (x : node) : node := default x (owner_step 0 x).

(** Two items posted while the executor starts, the second one due first. *)
Definition posted : node :=
  (TryPostAt 0 (Some 2%nat) (TryPostAt 1000 (Some 1%nat)
    (resumed (Activate (Prepare_create true (Prepare "sample" true 512 (init 4 0)).2).2).2)).2).2.

(** The thread waits for the time of the first item, the due item behind it. *)
Definition waiting : node := moved (moved (moved (moved posted))).

Example late_entry_delays :
  thread waiting = Delaying (MkEntry 1000 (Some 1%nat)) 0 1000 /\
  queued waiting = [MkEntry 0 (Some 2%nat)] /\ Run "sample" false waiting = None.
Proof. by vm_compute. Qed.

(** At its time the first item runs. *)
Definition timed_out (x : node) : node := default x (Run "sample" true x).
Definition ran : node := moved (moved (moved (timed_out (waiting <| now := 1000 |>)))).

Definition joining (x : node) : node :=
  resumed (resumed (resumed (resumed (Shutdown false x)))).


Lemma moved_step x : owner x <> Panicked -> rtc (step "sample" true 512) x (moved x).
Proof.
  intros H. unfold moved. destruct (Run "sample" false x) eqn:E; [|done].
  apply rtc_once. by eapply step_thread.
Qed.

Lemma timed_out_step x : owner x <> Panicked -> rtc (step "sample" true 512) x (timed_out x).
Proof.
  intros H. unfold timed_out. destruct (Run "sample" true x) eqn:E; [|done].
  apply rtc_once. by eapply step_thread.
Qed.

Lemma resumed_step x : rtc (step "sample" true 512) x (resumed x).
Proof.
  unfold resumed. destruct (owner_step 0 x) eqn:E; [|done]. apply rtc_once. by eapply step_owner.
Qed.

Lemma posted_reachable : reachable "sample" true 512 4 posted.
Proof.
  exists 0. unfold posted.
  eapply rtc_r; [|by apply step_post]. eapply rtc_r; [|by apply step_post].
  etrans; [|apply resumed_step]. eapply rtc_r; [|by apply step_activate].
  eapply rtc_r; [|by apply step_create]. apply rtc_once. by apply step_prepare.
Qed.

Lemma ran_reachable : reachable "sample" true 512 4 ran.
Proof.
  destruct posted_reachable as [start H]. exists start. etrans; [exact H|]. unfold ran, waiting.
  do 3 (etrans; [|by apply moved_step]). etrans; [|by apply timed_out_step].
  eapply rtc_r; [|by apply step_time]. do 3 (etrans; [|by apply moved_step]). by apply moved_step.
Qed.

Lemma joining_reachable : reachable "sample" true 512 4 (joining ran).
Proof.
  destruct ran_reachable as [start H]. exists start. etrans; [exact H|]. unfold joining.
  do 4 (etrans; [|apply resumed_step]). apply rtc_once. by apply step_shutdown.
Qed.

Lemma move_run k x z : is_Some (Run "sample" false x) -> owner x <> Panicked ->
  run "sample" true 512 k (moved x) z -> run "sample" true 512 (S k) x z.
Proof. intros [y Hy] Hp. unfold moved. rewrite Hy. by apply run_thread with (timeout := false). Qed.

Lemma moves_three x : is_Some (Run "sample" false x) -> is_Some (Run "sample" false (moved x)) ->
  is_Some (Run "sample" false (moved (moved x))) ->
  owner x <> Panicked -> owner (moved x) <> Panicked -> owner (moved (moved x)) <> Panicked ->
  run "sample" true 512 3 x (moved (moved (moved x))).
Proof. intros. do 3 (apply move_run; [done..|]). apply run_nil. Qed.

Lemma zephyr_executor_order_witness :
  begun ran = [(MkEntry 1000 (Some 1%nat), MkExecutionContext "sample" kThread 1000)] /\
  accepted ran = (begun ran).*1 ++ in_hand (thread ran) ++ queued ran /\
  (length (queued ran) <= 4)%nat.
Proof.
  destruct (zephyr_executor_order "sample" true 512 4 ltac:(lia) ran ran_reachable) as (_ & _ & Hl & Heq).
  split; [by vm_compute|]. split; [|exact Hl]. by apply Heq.
Defined.

Lemma zephyr_shutdown_completes_witness :
  exists a b c, owner_step 0 (moved (moved (moved (joining ran)))) = Some a /\ owner_step 0 a = Some b /\
    owner_step 0 b = Some c /\ state_ c = kStopped /\ queued c = [].
Proof.
  destruct (zephyr_shutdown_completes "sample" true 512 4 ltac:(lia) (joining ran) joining_reachable ltac:(done)
    3 (moved (moved (moved (joining ran))))) as (_ & _ & H).
  - apply moves_three; vm_compute; (discriminate || eauto).
  - destruct H as (a & b & c & ? & ? & ? & _ & ? & ? & _); [vm_compute; reflexivity..|].
    exists a, b, c. repeat (split; [assumption|]). assumption.
Defined.
End ZephyrSamples.
