(* ===== verification/Platform.v ===== *)
(** The small services of the platforms: loggers and allocators of
    [aster_runtime/platform/zephyr/runtime_services.hpp] and
    [aster_runtime/platform/linux/runtime_services.hpp]. *)

From S2P Require Export Services.

Local Open Scope Z_scope.

Definition INT_MAX : Z := 2 ^ 31 - 1.

(** [Prefix] of both loggers; a level is its value. *)
Definition Prefix (level : Z) : string :=
  if level =? 0 then "TRACE" else if level =? 1 then "DEBUG" else if level =? 2 then "INFO"
  else if level =? 3 then "WARN" else if level =? 4 then "ERROR" else if level =? 5 then "CRITICAL"
  else "UNKNOWN".

Definition size_of (s : string) : Z := Z.of_nat (String.length s).

Section Loggers.
Context {W : Type}.

(** ** Zephyr

    [printk "%s [%.*s] %.*s\n"] with its three strings. *)
Definition PrintkLogger_Write (printk : string -> string -> string -> W -> W) (level : Z) (message : string)
    (caller : ExecutionContext) (w : W) : Status * W :=
  if (INT_MAX <? size_of message) || (INT_MAX <? size_of (executor_name caller)) then (kCapacityExceeded, w)
  else (kOk, printk (Prefix level) (executor_name caller) message w).

(** ** Linux

    [fwrite] to [stderr]: the number of bytes that were written. *)
Variable fwrite : string -> W -> Z * W.

Record StderrLogger := MkStderrLogger {
  instance_ : string;
  threshold_ : Z
}.

(** The operands of [||], each a write that has to be complete; [false] is that
    one was not. *)
Fixpoint write_all (parts : list string) (w : W) : bool * W :=
  match parts with
  | [] => (true, w)
  | part :: parts =>
      let '(written, w) := fwrite part w in
      if negb (written =? size_of part) then (false, w) else write_all parts w
  end.

Definition line_parts (self : StderrLogger) (level : Z) (message : string) (caller : ExecutionContext) : list string :=
  [Prefix level; " ["] ++
  (if negb (bool_decide (instance_ self = ""%string)) then [instance_ self; "/"] else []) ++
  [executor_name caller; "] "; message; String (Ascii.ascii_of_nat 10) ""].

Definition StderrLogger_Write (self : StderrLogger) (level : Z) (message : string) (caller : ExecutionContext)
    (w : W) : Status * W :=
  if level <? threshold_ self then (kOk, w)
  else
    let '(complete, w) := write_all (line_parts self level message caller) w in
    (if complete then kOk else kInternal, w).

(** ** [SystemAllocator]: the guard before [operator new] *)
Context {M : Type}.
Definition SystemAllocator_Allocate (operator_new : Z -> Z -> W -> option M * W) (size alignment : Z) (w : W)
    : option M * W :=
  if bad_layout size alignment then (None, w) else operator_new size alignment w.

Definition SystemAllocator_Deallocate (operator_delete : M -> Z -> W -> W) (memory : option M) (size alignment : Z)
    (w : W) : W :=
  match memory with Some memory => operator_delete memory alignment w | None => w end.
End Loggers.

(** *** The line of the Linux logger

    [stderr] takes a beginning of what it is given and says how long it is. *)
Class Stream {W} (fwrite : string -> W -> Z * W) (out : Cell W string) : Prop := {
  fwrite_takes part w : let '(written, w') := fwrite part w in
    exists taken rest, part = (taken ++ rest)%string /\ written = size_of taken /\
      load out w' = (load out w ++ taken)%string
}.

Section Line.
Context {W : Type} (fwrite : string -> W -> Z * W) (out : Cell W string) `{!Stream fwrite out}.

Fixpoint joined (parts : list string) : string :=
  match parts with [] => "" | part :: parts => part ++ joined parts end.

Lemma string_app_cons c (a b : string) : (String c a ++ b = String c (a ++ b))%string.
Proof using Type. done. Qed.

Lemma string_app_assoc (a b c : string) : (a ++ (b ++ c) = (a ++ b) ++ c)%string.
Proof using Type. induction a as [|x a IH]; [done|]. by rewrite !string_app_cons, IH. Qed.

Lemma string_app_nil (a : string) : (a ++ "")%string = a.
Proof using Type. induction a as [|x a IH]; [done|]. by rewrite string_app_cons, IH. Qed.

Lemma size_of_app a b : size_of (a ++ b)%string = size_of a + size_of b.
Proof using Type. unfold size_of. rewrite <- Nat2Z.inj_add. f_equal. induction a as [|x a IH]; [done|]. rewrite string_app_cons. cbn. by rewrite IH. Qed.

Lemma size_of_zero a : size_of a = 0 -> a = ""%string.
Proof using Type. by destruct a. Qed.

Lemma write_all_spec parts w : let '(complete, w') := write_all fwrite parts w in
  exists taken rest, joined parts = (taken ++ rest)%string /\ load out w' = (load out w ++ taken)%string /\
    (complete = true <-> rest = ""%string).
Proof using All.
  revert w. induction parts as [|part parts IH]; intros w; cbn.
  { exists ""%string, ""%string. split_and!; [done|by rewrite string_app_nil|done]. }
  pose proof (fwrite_takes part w) as Hf. destruct (fwrite part w) as [written w1].
  destruct Hf as (taken & rest & -> & -> & Hout). rewrite size_of_app. split_if; bool_hyps.
  - exists taken, (rest ++ joined parts)%string. rewrite string_app_assoc. split_and!; [done|done|].
    split; [done|]. destruct rest; [unfold size_of in *; cbn in *; lia|done].
  - assert (rest = ""%string) as -> by (apply size_of_zero; lia). rewrite string_app_nil.
    specialize (IH w1). destruct (write_all fwrite parts w1) as [complete w2].
    destruct IH as (taken' & rest' & -> & Hw & Hc). exists (taken ++ taken')%string, rest'.
    by rewrite Hw, Hout, !string_app_assoc.
Qed.

(** A message below the threshold writes nothing; another one writes its line, or
    a proper beginning of it and says so. *)
Lemma StderrLogger_line self level message caller w :
  let line := joined (line_parts self level message caller) in
  let '(status, w') := StderrLogger_Write fwrite self level message caller w in
  if level <? threshold_ self then status = kOk /\ w' = w
  else exists taken rest, line = (taken ++ rest)%string /\ load out w' = (load out w ++ taken)%string /\
    status = (if bool_decide (rest = ""%string) then kOk else kInternal).
Proof using All.
  cbn zeta. unfold StderrLogger_Write. split_if; [done|].
  pose proof (write_all_spec (line_parts self level message caller) w) as H.
  destruct (write_all _ _ _) as [complete w']. destruct H as (taken & rest & Hl & Hw & Hc).
  exists taken, rest. split_and!; [done|done|]. case_bool_decide; destruct complete; naive_solver.
Qed.
End Line.

(** ** [FixedArenaAllocator]

    The storage is aligned to [max_align], so the alignment of a block is that of
    its offset in it; blocks are named by their offset. *)
Module FixedArenaAllocator.
Section FixedArenaAllocator.
Variables Capacity max_align : Z.

Record t := Mk { offset_ : Z }.

Definition init : t := Mk 0.

Definition Allocate (size alignment : Z) (self : t) : option Z * t :=
  if (size =? 0) || (alignment =? 0) || (max_align <? alignment) ||
      negb (Z.land alignment (alignment - 1) =? 0) then (None, self)
  else
    let aligned := Z.land (u64 (offset_ self + alignment - 1)) (u64 (Z.lnot (alignment - 1))) in
    if (Capacity <? aligned) || (Capacity - aligned <? size) then (None, self)
    else (Some aligned, Mk (u64 (aligned + size))).

Definition Deallocate (memory : option Z) (size alignment : Z) (self : t) : t := self.

Definition Reset (self : t) : t := init.

Definition used (self : t) : Z := offset_ self.

(** A caller's use of it. *)
Inductive call := CAllocate (size alignment : Z) | CDeallocate (memory : option Z) (size alignment : Z).

Record block := MkBlock { b_offset : Z; b_size : Z; b_alignment : Z }.

Fixpoint run (calls : list call) (self : t) : list block * t :=
  match calls with
  | [] => ([], self)
  | CAllocate size alignment :: calls =>
      let '(memory, self) := Allocate size alignment self in
      let '(blocks, self) := run calls self in
      (match memory with Some offset => [MkBlock offset size alignment] | None => [] end ++ blocks, self)
  | CDeallocate memory size alignment :: calls => run calls (Deallocate memory size alignment self)
  end.

(** *** Powers of two *)

(** [x & ~(2^k - 1)] on 64 bits. *)
Lemma land_lnot_pow2 x k : 0 <= x < 2 ^ 64 -> 0 <= k ->
  Z.land x (u64 (Z.lnot (2 ^ k - 1))) = 2 ^ k * (x / 2 ^ k).
Proof using Type.
  intros Hx Hk. unfold u64. rewrite <- Z.land_ones by lia. rewrite (Z.land_comm (Z.lnot _)), Z.land_assoc.
  rewrite Z.land_ones, Z.mod_small by lia.
  replace (2 ^ k - 1) with (Z.ones k) by (rewrite Z.ones_equiv; lia).
  rewrite <- Z.ldiff_land, Z.ldiff_ones_r, Z.shiftl_mul_pow2, Z.shiftr_div_pow2 by done. lia.
Qed.

Lemma round_up x a : 0 < a -> let y := a * ((x + a - 1) / a) in x <= y < x + a /\ (a | y).
Proof using Type.
  intros Ha. cbn zeta. pose proof (Z.div_mod (x + a - 1) a ltac:(lia)).
  pose proof (Z.mod_pos_bound (x + a - 1) a Ha). split; [lia|]. by exists ((x + a - 1) / a); lia.
Qed.

Lemma align_up x a : 0 < a -> Z.land a (a - 1) = 0 -> 0 <= x -> x + a - 1 < 2 ^ 64 ->
  Z.land (u64 (x + a - 1)) (u64 (Z.lnot (a - 1))) = a * ((x + a - 1) / a).
Proof using Type.
  intros Ha Hp Hx Hb. pose proof (proj1 (land_pred_pow2 a Ha) Hp) as Hk. pose proof (Z.log2_nonneg a) as Hl.
  revert Hk Hl. generalize (Z.log2 a). intros k -> Hk. unfold u64 at 1. rewrite Z.mod_small by lia.
  apply land_lnot_pow2; lia.
Qed.

Hypothesis Capacity_bound : 0 < Capacity < 2 ^ 63.
Hypothesis align_bound : 0 < max_align < 2 ^ 62.

Definition wf (self : t) : Prop := 0 <= offset_ self <= Capacity.

(** An accepted request: its block starts at the first aligned place. *)
Lemma Allocate_spec size alignment self : wf self -> 0 <= size < 2 ^ 64 -> 0 <= alignment ->
  let first := alignment * ((offset_ self + alignment - 1) / alignment) in
  let fits := 0 < size /\ 0 < alignment <= max_align /\ Z.land alignment (alignment - 1) = 0 /\ first + size <= Capacity in
  match Allocate size alignment self with
  | (Some offset, self') => fits /\ offset = first /\ offset_ self' = first + size
  | (None, self') => ~ fits /\ self' = self
  end.
Proof using All.
  intros [Hlo Hhi] Hs Ha. cbn zeta. unfold Allocate.
  destruct (_ || _ || _ || _) eqn:Hg.
  - split; [|done]. intros (? & ? & ? & _). rewrite !orb_true_iff in Hg. destruct Hg as [[[Hg|Hg]|Hg]|Hg]; bool_hyps; lia.
  - bool_hyps. assert (0 < alignment) as Hp by lia. rewrite align_up by (done || lia).
    destruct (round_up (offset_ self) alignment Hp) as [Hr _].
    set (first := alignment * _) in *.
    destruct (_ || _) eqn:Hf.
    + split; [|done]. intros (? & ? & ? & ?). apply orb_true_iff in Hf as [Hf|Hf]; bool_hyps; lia.
    + bool_hyps. cbn. unfold u64. rewrite Z.mod_small by lia. split_and!; try done; lia.
Qed.

(** Blocks one after the other from [start]. *)
Inductive laid_out : Z -> list block -> Z -> Prop :=
  | laid_nil start : laid_out start [] start
  | laid_cons start b blocks last : start <= b_offset b -> 0 < b_size b -> (b_alignment b | b_offset b) ->
      laid_out (b_offset b + b_size b) blocks last -> laid_out start (b :: blocks) last.

Lemma laid_out_le start blocks last : laid_out start blocks last -> start <= last.
Proof using Type. induction 1; lia. Qed.

Lemma laid_out_bounds start blocks last b : laid_out start blocks last -> b ∈ blocks ->
  start <= b_offset b /\ b_offset b + b_size b <= last /\ 0 < b_size b /\ (b_alignment b | b_offset b).
Proof using Type.
  induction 1 as [|start b' blocks last Hs Hp Ha H IH]; intros Hin; [by apply not_elem_of_nil in Hin|].
  apply laid_out_le in H. apply elem_of_cons in Hin as [->|Hin]; [split_and!; done || lia|].
  destruct (IH Hin) as (? & ? & ? & ?). split_and!; done || lia.
Qed.

Lemma laid_out_disjoint start blocks last i j a b : laid_out start blocks last -> (i < j)%nat ->
  blocks !! i = Some a -> blocks !! j = Some b -> b_offset a + b_size a <= b_offset b.
Proof using Type.
  intros H. revert i j. induction H as [|start b' blocks last Hs Hp Ha H IH]; intros i j Hij Hi Hj; [done|].
  destruct j as [|j]; [lia|]. destruct i as [|i].
  - injection Hi as <-. cbn in Hj. apply list_elem_of_lookup_2 in Hj. by destruct (laid_out_bounds _ _ _ _ H Hj).
  - by apply (IH i j); [lia| |].
Qed.

Definition requests_ok (calls : list call) : Prop :=
  Forall (fun c => match c with
    | CAllocate size alignment => 0 <= size < 2 ^ 64 /\ 0 <= alignment < 2 ^ 64
    | CDeallocate _ _ _ => True
    end) calls.

Lemma run_laid_out calls self : wf self -> requests_ok calls ->
  let '(blocks, self') := run calls self in wf self' /\ laid_out (offset_ self) blocks (offset_ self').
Proof using All.
  revert self. induction calls as [|c calls IH]; intros self Hwf Hok; cbn; [by split; [|constructor]|].
  apply Forall_cons in Hok as [Hc Hok]. destruct c as [size alignment|]; [|by apply IH].
  destruct Hc as [Hs Ha]. pose proof (Allocate_spec size alignment self Hwf Hs ltac:(lia)) as H. cbn zeta in H.
  destruct (Allocate size alignment self) as [[offset|] self1].
  - destruct H as ((Hp & Hal & Hz & Hfit) & -> & Hoff).
    destruct (round_up (offset_ self) alignment ltac:(lia)) as [Hr Hd]. unfold wf in *.
    specialize (IH self1 ltac:(lia) Hok). destruct (run calls self1) as [blocks self'].
    destruct IH as [Hwf' Hl]. split; [done|]. constructor; cbn; try done; [lia|]. by rewrite <- Hoff.
  - destruct H as [_ ->]. specialize (IH self Hwf Hok). by destruct (run calls self).
Qed.

(** C36: memory safety of the arena. Whatever a program asks for and gives back
    after a reset, the blocks it gets lie within the storage, each at a multiple
    of its alignment, and no two of them overlap; a request is refused, and then
    changes nothing, exactly when its size or alignment is not acceptable or the
    block would not fit at the first aligned place after the last one. *)
Theorem arena_blocks_disjoint calls : requests_ok calls ->
  let '(blocks, self) := run calls init in
  (forall b, b ∈ blocks -> 0 <= b_offset b /\ 0 < b_size b /\ b_offset b + b_size b <= Capacity /\
    (b_alignment b | b_offset b)) /\
  (forall i j a b, blocks !! i = Some a -> blocks !! j = Some b -> i <> j ->
    b_offset a + b_size a <= b_offset b \/ b_offset b + b_size b <= b_offset a) /\
  (forall size alignment, 0 <= size < 2 ^ 64 -> 0 <= alignment ->
    let first := alignment * ((used self + alignment - 1) / alignment) in
    let '(memory, self') := Allocate size alignment self in
    (memory = None <-> ~ (0 < size /\ 0 < alignment <= max_align /\ Z.land alignment (alignment - 1) = 0 /\
      first + size <= Capacity)) /\
    (memory = None -> self' = self)).
Proof using All.
  intros Hok. pose proof (run_laid_out calls init ltac:(unfold wf; cbn; lia) Hok) as H.
  destruct (run calls init) as [blocks self]. destruct H as [Hwf Hl]. split_and!.
  - intros b Hb. destruct (laid_out_bounds _ _ _ _ Hl Hb) as (? & ? & ? & ?). unfold wf in Hwf. cbn in *.
    split_and!; done || lia.
  - intros i j a b Hi Hj Hne. destruct (decide (i < j)%nat).
    + left. by eapply (laid_out_disjoint _ _ _ i j).
    + right. eapply (laid_out_disjoint _ _ _ j i); [done|lia|done|done].
  - intros size alignment Hs Ha. pose proof (Allocate_spec size alignment self Hwf Hs Ha) as H. cbn zeta in *.
    unfold used. destruct (Allocate size alignment self) as [[offset|] self']; naive_solver.
Qed.
End FixedArenaAllocator.
End FixedArenaAllocator.

Lemma arena_blocks_disjoint_witness :
  FixedArenaAllocator.run 64 16
    [FixedArenaAllocator.CAllocate 3 1; FixedArenaAllocator.CAllocate 8 8; FixedArenaAllocator.CAllocate 60 1;
     FixedArenaAllocator.CAllocate 16 16] FixedArenaAllocator.init =
  ([FixedArenaAllocator.MkBlock 0 3 1; FixedArenaAllocator.MkBlock 8 8 8; FixedArenaAllocator.MkBlock 16 16 16],
   FixedArenaAllocator.Mk 32) /\
  3 <= 8.
Proof.
  split; [by vm_compute|].
  pose proof (FixedArenaAllocator.arena_blocks_disjoint 64 16 ltac:(lia) ltac:(lia)
    [FixedArenaAllocator.CAllocate 3 1; FixedArenaAllocator.CAllocate 8 8]
    ltac:(repeat constructor; lia)) as [_ [H _]].
  by destruct (H 0%nat 1%nat _ _ eq_refl eq_refl ltac:(done)).
Defined.
