(* ===== verification/LinuxExecutor.v ===== *)
(** The executor of a Linux node: [ThreadExecutor] of
    [aster_runtime/platform/linux/runtime_services.hpp], worker threads over a
    bounded table of timed entries behind one mutex. Every critical section is a
    function; the step relation interleaves them with the condition variable. *)

From stdpp Require Import gmap.
From S2P Require Export Execution.

Local Open Scope Z_scope.

Module LinuxThreadExecutor.

Inductive ThreadExecutorState := kConstructed | kPrepared | kRunning | kQuiescing | kStopped | kFailed.

#[export] Instance ThreadExecutorState_eq_dec : EqDecision ThreadExecutorState.
Proof. solve_decision. Defined.

Section LinuxThreadExecutor.
Context {P : Type}.

Record Entry := MkEntry {
  entry_timestamp_ns : Z;
  sequence : Z;
  work : WorkItem P;
  armed : bool
}.

Definition Entry_init : Entry := MkEntry 0 0 None false.

(** What the mutex protects. *)
Record t := Mk {
  queue_ : list Entry;
  size_ : Z;
  next_sequence_ : Z;
  state_ : ThreadExecutorState
}.
#[global] Instance eta_t : Eta t := fun x => Mk (queue_ x) (size_ x) (next_sequence_ x) (state_ x).

Variables (name : string) (depth thread_count : nat).

Definition init : t := Mk (replicate depth Entry_init) 0 0 kConstructed.

(** [state_ != kPrepared && state_ != kRunning] is [negb (accepting self)]. *)
Definition accepting (self : t) : bool :=
  bool_decide (state_ self = kPrepared) || bool_decide (state_ self = kRunning).

(** *** The table *)

(** Status, [ticket] and object; the condition variable is notified on [kOk]. *)
Definition Enqueue (item : WorkItem P) (timestamp : Z) (arm : bool) (ticket : Z) (self : t) : Status * Z * t :=
  match item with
  | None => (kInvalidArgument, ticket, self)
  | Some _ =>
      if negb (accepting self) then (kInvalidState, ticket, self)
      else if size_ self =? Z.of_nat (length (queue_ self)) then (kCapacityExceeded, ticket, self)
      else match list_find (fun entry => work entry = None) (queue_ self) with
      | None => (kOk, ticket, self)
      | Some (index, _) =>
          let ticket := next_sequence_ self in
          (kOk, ticket, Mk (<[index := MkEntry timestamp ticket item arm]> (queue_ self))
             (u64 (size_ self + 1)) (u64 (next_sequence_ self + 1)) (state_ self))
      end
  end.

Definition TryPostAt (timestamp : Z) (item : WorkItem P) (caller : ExecutionContext) (self : t) : Status * t :=
  if bool_decide (item = None) || bool_decide (kind caller = kInterrupt) then (kInvalidArgument, self)
  else let '(status, _, self) := Enqueue item timestamp true 0 self in (status, self).

Definition TryPost (now : Z) (item : WorkItem P) (caller : ExecutionContext) (self : t) : Status * t :=
  TryPostAt now item caller self.

Definition Reserve (item : WorkItem P) (ticket : Z) (self : t) : Status * Z * t := Enqueue item 0 false ticket self.

(** [entry.work && entry.sequence == ticket]. *)
Definition has_ticket (ticket : Z) (entry : Entry) : Prop := work entry <> None /\ sequence entry = ticket.

#[global] Instance has_ticket_dec ticket entry : Decision (has_ticket ticket entry).
Proof. unfold has_ticket. destruct (work entry); [|right; naive_solver]. destruct (decide (sequence entry = ticket)); [left|right]; naive_solver. Defined.

Definition ScheduleReserved (ticket timestamp : Z) (self : t) : Status * t :=
  if negb (accepting self) then (kInvalidState, self)
  else match list_find (has_ticket ticket) (queue_ self) with
  | Some (index, entry) =>
      (kOk, self <| queue_ := <[index := MkEntry timestamp (sequence entry) (work entry) true]> (queue_ self) |>)
  | None => (kNotFound, self)
  end.

Definition CancelReserved (ticket : Z) (self : t) : Status * t :=
  if negb (accepting self) then (kInvalidState, self)
  else match list_find (has_ticket ticket) (queue_ self) with
  | Some (index, _) =>
      (kOk, self <| queue_ := <[index := Entry_init]> (queue_ self) |> <| size_ := u64 (size_ self - 1) |>)
  | None => (kNotFound, self)
  end.

Definition entry_at (self : t) (index : nat) : Entry := default Entry_init (queue_ self !! index).

Definition candidate (self : t) (index : nat) : bool :=
  negb (bool_decide (work (entry_at self index) = None)) && armed (entry_at self index).

Definition better (self : t) (result index : nat) : bool :=
  (result =? length (queue_ self))%nat ||
  (entry_timestamp_ns (entry_at self index) <? entry_timestamp_ns (entry_at self result)) ||
  ((entry_timestamp_ns (entry_at self index) =? entry_timestamp_ns (entry_at self result)) &&
   (sequence (entry_at self index) <? sequence (entry_at self result))).

Definition NextIndex (self : t) : nat :=
  foldl (fun result index => if candidate self index && better self result index then index else result)
    (length (queue_ self)) (seq 0 (length (queue_ self))).

(** *** The worker *)

(** How one pass of the loop of [Run] ends: the worker leaves, waits, waits at
    most so long, or runs an entry with the mutex released. *)
Inductive pass := Leave | Wait | WaitFor (delay_ns : Z) | Take (entry : Entry).

Definition kMaximumWait_ns : Z := 100000000.

Definition Run_pass (now : Z) (self : t) : pass * t :=
  if negb (bool_decide (state_ self = kRunning)) then (Leave, self)
  else
    let index := NextIndex self in
    if (index =? length (queue_ self))%nat then (Wait, self)
    else
      let entry := entry_at self index in
      if now <? entry_timestamp_ns entry
      then (WaitFor (Z.min (entry_timestamp_ns entry - now) kMaximumWait_ns), self)
      else (Take entry, self <| queue_ := <[index := Entry_init]> (queue_ self) |> <| size_ := u64 (size_ self - 1) |>).

(** *** The life cycle, up to where it waits for the workers *)

(** [created] is how many threads could be created. *)
Definition Prepare (created : nat) (self : t) : Status * t :=
  if negb (bool_decide (state_ self = kConstructed)) || bool_decide (name = ""%string) then (kInvalidState, self)
  else if (length (queue_ self) =? 0)%nat || (thread_count =? 0)%nat then (kInvalidArgument, self)
  else if (created <? thread_count)%nat then (kUnavailable, self <| state_ := kFailed |>)
  else (kOk, self <| state_ := kPrepared |>).

Definition Activate (self : t) : Status * t :=
  if negb (bool_decide (state_ self = kPrepared)) then (kInvalidState, self)
  else (kOk, self <| state_ := kRunning |>).

(** Whether [Shutdown] goes on to wait. *)
Definition Shutdown (self : t) : bool * t :=
  match state_ self with
  | kStopped | kQuiescing | kFailed => (false, self)
  | kConstructed => (false, self <| state_ := kStopped |>)
  | kPrepared | kRunning => (true, self <| state_ := kQuiescing |> <| size_ := 0 |>)
  end.

Definition Shutdown_finish (self : t) : t := self <| state_ := kStopped |>.

(** *** The system

    Where a worker is in [Run]: about to take the mutex, waiting for the end of
    the preparation, about to look for work, waiting, waiting at most so long, or
    running an entry. *)
Inductive worker_pc :=
  | Entering | AtGate | Looping | Waiting | TimedWaiting (delay_ns : Z) | Working (entry : Entry) | Left.

(** Where the caller of the life-cycle methods is: it owes a [notify_all], after
    [Activate], a failed [Prepare] or [Shutdown], or joins the workers. *)
Inductive owner_pc := Idle | Announcing | Aborting | Stopping | Joining (failed : bool).

Record system := MkSystem {
  shared : t;
  workers : list worker_pc;
  owed : nat;
  owner : owner_pc;
  now : Z;
  begun : list (Entry * ExecutionContext)
}.
#[global] Instance eta_system : Eta system := fun x =>
  MkSystem (shared x) (workers x) (owed x) (owner x) (now x) (begun x).

Definition system_init (now : Z) : system := MkSystem init [] 0 Idle now [].

Definition waits (pc : worker_pc) : bool :=
  match pc with AtGate | Waiting | TimedWaiting _ => true | _ => false end.

Definition wake (pc : worker_pc) : worker_pc :=
  match pc with AtGate => Entering | Waiting | TimedWaiting _ => Looping | _ => pc end.

(** One stretch of [Run]; [None] where the worker waits or has left. *)
Definition Run (index : nat) (x : system) : option system :=
  match workers x !! index with
  | Some Entering =>
      let pc := if bool_decide (state_ (shared x) = kPrepared) then AtGate else Looping in
      Some (x <| workers := <[index := pc]> (workers x) |>)
  | Some Looping =>
      let '(result, self) := Run_pass (now x) (shared x) in
      let x := x <| shared := self |> in
      Some match result with
      | Leave => x <| workers := <[index := Left]> (workers x) |>
      | Wait => x <| workers := <[index := Waiting]> (workers x) |>
      | WaitFor delay_ns => x <| workers := <[index := TimedWaiting delay_ns]> (workers x) |>
      | Take entry => x <| workers := <[index := Working entry]> (workers x) |>
          <| begun := begun x ++ [(entry, MkExecutionContext name kThread (now x))] |>
      end
  | Some (Working _) => Some (x <| workers := <[index := Looping]> (workers x) |>)
  | _ => None
  end.

(** [notify_all], [notify_one] and a wake-up for no reason or by time. *)
Definition notify_all (x : system) : system := x <| workers := wake <$> workers x |>.
Definition notify (index : nat) (x : system) : system := x <| workers := alter wake index (workers x) |>.

(** The calls of the interface: with their notification, or the debt of one. *)
Definition posted (result : Status * Z * t) (x : system) : system :=
  let '(status, _, self) := result in
  x <| shared := self |> <| owed := (if IsOk status then S (owed x) else owed x) |>.

Definition rescheduled (result : Status * t) (x : system) : system :=
  let '(status, self) := result in
  let x := x <| shared := self |> in if IsOk status then notify_all x else x.

(** [created] threads started before [Prepare] ended. *)
Definition prepared (created : nat) (x : system) : system :=
  let '(status, self) := Prepare created (shared x) in
  let x := x <| shared := self |> in
  match status with
  | kOk => x <| workers := replicate thread_count Entering |>
  | kUnavailable => x <| workers := replicate created Entering |> <| owner := Aborting |>
  | _ => x
  end.

Definition activated (x : system) : system :=
  let '(status, self) := Activate (shared x) in
  let x := x <| shared := self |> in if IsOk status then x <| owner := Announcing |> else x.

Definition stopped (x : system) : system :=
  let '(waiting, self) := Shutdown (shared x) in
  let x := x <| shared := self |> in if waiting then x <| owner := Stopping |> else x.

(** The rest of the life-cycle methods. *)
Definition owner_step (x : system) : option system :=
  match owner x with
  | Idle => None
  | Announcing => Some (notify_all x <| owner := Idle |>)
  | Aborting => Some (notify_all x <| owner := Joining true |>)
  | Stopping => Some (notify_all x <| owner := Joining false |>)
  | Joining failed =>
      if forallb (fun pc => match pc with Left => true | _ => false end) (workers x)
      then Some (x <| shared := if failed then shared x else Shutdown_finish (shared x) |> <| owner := Idle |>)
      else None
  end.

(** All interleavings, as long as there are tickets. *)
Inductive step : system -> system -> Prop :=
  | step_time x later : now x <= later -> step x (x <| now := later |>)
  | step_run x index y : Run index x = Some y -> step x y
  | step_wake x index : step x (notify index x)
  | step_enqueue x item timestamp arm : next_sequence_ (shared x) < UINT64_MAX ->
      step x (posted (Enqueue item timestamp arm 0 (shared x)) x)
  | step_schedule x ticket timestamp : step x (rescheduled (ScheduleReserved ticket timestamp (shared x)) x)
  | step_cancel x ticket : step x (rescheduled (CancelReserved ticket (shared x)) x)
  | step_notify x index pc debts : owed x = S debts -> workers x !! index = Some pc -> waits pc = true ->
      step x (notify index x <| owed := debts |>)
  | step_notify_none x debts : owed x = S debts -> forallb (fun pc => negb (waits pc)) (workers x) = true ->
      step x (x <| owed := debts |>)
  | step_prepare x created : owner x = Idle -> (created <= thread_count)%nat -> step x (prepared created x)
  | step_activate x : owner x = Idle -> step x (activated x)
  | step_shutdown x : owner x = Idle -> step x (stopped x)
  | step_owner x y : owner_step x = Some y -> step x y.

Definition reachable (x : system) : Prop := exists start, rtc step (system_init start) x.

(** *** The abstract queue: tickets to their time, if armed, and work *)

Definition pair_of (entry : Entry) : option (Z * (option Z * P)) :=
  (fun item => (sequence entry, (if armed entry then Some (entry_timestamp_ns entry) else None, item))) <$> work entry.

Definition pairs (queue : list Entry) : list (Z * (option Z * P)) := omap pair_of queue.
Arguments pairs : simpl never.

Definition pending_of (l : list Entry) : gmap Z (option Z * P) := list_to_map (pairs l).
Definition pending (self : t) : gmap Z (option Z * P) := pending_of (queue_ self).

Record wf (self : t) : Prop := {
  wf_length : length (queue_ self) = depth;
  wf_tickets : NoDup (pairs (queue_ self)).*1;
  wf_next : Forall (fun ticket => 0 <= ticket < next_sequence_ self) (pairs (queue_ self)).*1;
  wf_range : 0 <= next_sequence_ self;
  wf_size : size_ self = Z.of_nat (length (pairs (queue_ self)))
}.

Lemma pairs_perm l l' : l ≡ₚ l' -> pairs l ≡ₚ pairs l'.
Proof using Type. apply omap_Permutation. Qed.

Lemma delete_insert_same (l : list Entry) i e : delete i (<[i := e]> l) = delete i l.
Proof using Type. revert i. induction l as [|x l IH]; intros [|i]; cbn; [done..|]. by f_equal. Qed.

Lemma slot_perm (l : list Entry) i x e : l !! i = Some x ->
  l ≡ₚ x :: delete i l /\ <[i := e]> l ≡ₚ e :: delete i l.
Proof using Type.
  intros H. split; [by apply delete_Permutation|].
  assert (i < length l)%nat as Hl by (by eapply lookup_lt_Some).
  rewrite (delete_Permutation (<[i:=e]> l) i e) by (by apply list_lookup_insert_eq).
  by rewrite delete_insert_same.
Qed.

Lemma pairs_cons e l : pairs (e :: l) = match pair_of e with Some kv => kv :: pairs l | None => pairs l end.
Proof using Type. done. Qed.

Lemma pairs_length l : (length (pairs l) <= length l)%nat.
Proof using Type. induction l as [|e l IH]; [done|]. rewrite pairs_cons. destruct (pair_of e); cbn; lia. Qed.

Lemma pairs_full l : (length (pairs l) < length l)%nat <-> exists i e, list_find (fun entry => work entry = None) l = Some (i, e).
Proof using Type.
  split.
  - intros H. destruct (list_find _ l) as [[i e]|] eqn:E; [by eauto|]. exfalso. apply list_find_None in E.
    induction E as [|e l He Hl IH]; [cbn in H; lia|]. apply IH. rewrite pairs_cons in H. unfold pair_of in H.
    destruct (work e); cbn in H; [lia|done].
  - intros (i & e & H). apply list_find_Some in H as (Hi & He & _).
    destruct (slot_perm l i e e Hi) as [Hp _]. pose proof (pairs_perm _ _ Hp) as Hq. apply Permutation_length in Hp, Hq. rewrite Hp, Hq, pairs_cons.
    unfold pair_of. rewrite He. cbn. pose proof (pairs_length (delete i l)). lia.
Qed.

Lemma pending_perm l l' : NoDup (pairs l).*1 -> l ≡ₚ l' -> pending_of l = pending_of l'.
Proof using Type. intros Hn Hp. apply list_to_map_proper; [done|by apply pairs_perm]. Qed.

(** Overwriting a slot: what it held is gone, what it holds now is there. *)
Lemma pending_insert l i x e : NoDup (pairs l).*1 -> l !! i = Some x ->
  (forall kv, pair_of e = Some kv -> pair_of x = None -> kv.1 ∉ (pairs l).*1) ->
  (forall kv kv', pair_of e = Some kv -> pair_of x = Some kv' -> kv.1 = kv'.1) ->
  pending_of (<[i := e]> l) =
    match pair_of e, pair_of x with
    | Some kv, _ => <[kv.1 := kv.2]> (pending_of l)
    | None, Some kv => delete kv.1 (pending_of l)
    | None, None => pending_of l
    end /\
  NoDup (pairs (<[i := e]> l)).*1 /\
  pairs (<[i := e]> l) ≡ₚ from_option (fun kv => [kv]) [] (pair_of e) ++ pairs (delete i l) /\
  pairs l ≡ₚ from_option (fun kv => [kv]) [] (pair_of x) ++ pairs (delete i l).
Proof using Type.
  intros Hn Hi Hfresh Hsame. destruct (slot_perm l i x e Hi) as [Hl He].
  pose proof (pairs_perm _ _ Hl) as Hpl. pose proof (pairs_perm _ _ He) as Hpe.
  rewrite pairs_cons in Hpl, Hpe.
  assert (NoDup (pairs (<[i := e]> l)).*1) as Hn'.
  { rewrite Hpe. rewrite Hpl in Hn. destruct (pair_of e) as [kv|], (pair_of x) as [kv'|]; try done.
    - cbn in *. by rewrite (Hsame kv kv').
    - cbn. apply NoDup_cons. split; [|done]. specialize (Hfresh kv eq_refl eq_refl). by rewrite Hpl in Hfresh.
    - cbn in Hn. by apply NoDup_cons in Hn as [_ ?]. }
  split_and!; [|done|by destruct (pair_of e)|by destruct (pair_of x)].
  rewrite (pending_perm _ _ Hn' He), (pending_perm _ _ Hn Hl). unfold pending_of. rewrite !pairs_cons.
  destruct (pair_of e) as [kv|] eqn:Ee, (pair_of x) as [kv'|] eqn:Ex; cbn; try done.
  - rewrite (Hsame kv kv') by done. by rewrite insert_insert_eq.
  - rewrite delete_insert_eq, delete_id; [done|]. apply not_elem_of_list_to_map. rewrite Hpl in Hn. cbn in Hn.
    by apply NoDup_cons in Hn as [? _].
Qed.

(** [NextIndex] is the first armed entry by time, then ticket. *)
Definition before (a b : Entry) : Prop :=
  entry_timestamp_ns a < entry_timestamp_ns b \/
  (entry_timestamp_ns a = entry_timestamp_ns b /\ sequence a < sequence b).

Definition select (self : t) (result index : nat) : nat :=
  if candidate self index && better self result index then index else result.

Definition selected (self : t) (k result : nat) : Prop :=
  (result = length (queue_ self) /\ forall i, (i < k)%nat -> candidate self i = false) \/
  ((result < k)%nat /\ candidate self result = true /\
   forall i, (i < k)%nat -> candidate self i = true -> ~ before (entry_at self i) (entry_at self result)).

Lemma better_spec self result index : (result < length (queue_ self))%nat ->
  better self result index = true <-> before (entry_at self index) (entry_at self result).
Proof using Type.
  intros Hr. unfold better, before. rewrite (proj2 (Nat.eqb_neq _ _)) by lia. cbn.
  rewrite orb_true_iff, andb_true_iff, !Z.ltb_lt, Z.eqb_eq. done.
Qed.

Lemma selected_step self k result : (k < length (queue_ self))%nat -> selected self k result ->
  selected self (S k) (select self result k).
Proof using Type.
  intros Hk H. unfold select. destruct (candidate self k) eqn:Hc; cbn.
  - destruct H as [[-> H]|(Hr & Hcr & H)].
    + unfold better. rewrite Nat.eqb_refl. cbn. right. split_and!; [lia|done|].
      intros i Hi Hci. destruct (decide (i = k)) as [->|]; [unfold before; lia|].
      rewrite H in Hci by lia. done.
    + destruct (better self result k) eqn:Hb.
      * apply better_spec in Hb; [|lia]. right. split_and!; [lia|done|].
        intros i Hi Hci Hbi. destruct (decide (i = k)) as [->|]; [unfold before in Hbi; lia|].
        apply (H i); [lia|done|]. unfold before in *. lia.
      * assert (~ before (entry_at self k) (entry_at self result)) as Hn.
        { rewrite <- better_spec by lia. congruence. }
        right. split_and!; [lia|done|]. intros i Hi Hci. destruct (decide (i = k)) as [->|]; [done|].
        apply H; [lia|done].
  - destruct H as [[-> H]|(Hr & Hcr & H)].
    + left. split; [done|]. intros i Hi. destruct (decide (i = k)) as [->|]; [done|]. apply H. lia.
    + right. split_and!; [lia|done|]. intros i Hi Hci. destruct (decide (i = k)) as [->|]; [congruence|].
      apply H; [lia|done].
Qed.

Lemma NextIndex_spec self : selected self (length (queue_ self)) (NextIndex self).
Proof using Type.
  assert (forall k, (k <= length (queue_ self))%nat ->
    selected self k (foldl (select self) (length (queue_ self)) (seq 0 k))) as H.
  { induction k as [|k IH]; intros Hk; [by left; split; [|lia]|].
    rewrite seq_S, foldl_app. apply selected_step; [lia|apply IH; lia]. }
  by apply H.
Qed.

(** *** The operations on the abstract queue *)

Lemma pending_size self : wf self -> Z.of_nat (size (pending self)) = size_ self.
Proof using Type. intros H. rewrite (wf_size _ H). unfold pending, pending_of. by rewrite map_size_list_to_map by apply H. Qed.

Lemma wf_full self : wf self -> size_ self <= Z.of_nat depth /\
  (size_ self = Z.of_nat depth <-> list_find (fun entry => work entry = None) (queue_ self) = None).
Proof using Type.
  intros H. pose proof (pairs_length (queue_ self)) as Hl. pose proof (pairs_full (queue_ self)) as Hf.
  rewrite (wf_size _ H). rewrite (wf_length _ H) in *. split; [lia|].
  destruct (list_find _ _) as [[i e]|]; [split; [|done]; destruct Hf as [_ Hf]; specialize (Hf ltac:(eauto)); lia|].
  split; [done|]. intros _. destruct (decide (length (pairs (queue_ self)) < depth)%nat) as [Hlt|]; [|lia].
  apply Hf in Hlt as (? & ? & ?). done.
Qed.

Hypothesis depth_bound : Z.of_nat depth < 2 ^ 64.

Lemma Enqueue_spec item timestamp arm ticket self : wf self -> next_sequence_ self < UINT64_MAX ->
  let '(status, ticket', self') := Enqueue (Some item) timestamp arm ticket self in
  wf self' /\ state_ self' = state_ self /\
  if IsOk status
  then accepting self = true /\ size_ self < Z.of_nat depth /\ ticket' = next_sequence_ self /\
    pending self !! ticket' = None /\ next_sequence_ self' = next_sequence_ self + 1 /\
    pending self' = <[ticket' := (if arm then Some timestamp else None, item)]> (pending self)
  else ticket' = ticket /\ self' = self /\
    status = (if accepting self then kCapacityExceeded else kInvalidState) /\
    (accepting self = true -> size_ self = Z.of_nat depth).
Proof using depth_bound.
  intros H Hn. unfold Enqueue. destruct (accepting self) eqn:Ha; cbn [negb]; [|done].
  destruct (wf_full self H) as [Hle Hfull]. rewrite (wf_length _ H). split_if; bool_hyps; [done|].
  destruct (list_find _ _) as [[index x]|] eqn:Hf; [|by rewrite Hfull in E].
  apply list_find_Some in Hf as (Hi & Hx & _). pose proof H as [Hl Ht Hnx Hr Hs].
  set (e := MkEntry timestamp (next_sequence_ self) (Some item) arm).
  assert (pair_of x = None) as Hpx by (unfold pair_of; by rewrite Hx).
  assert (next_sequence_ self ∉ (pairs (queue_ self)).*1) as Hfresh.
  { intros Hin. rewrite Forall_forall in Hnx. apply Hnx in Hin. lia. }
  destruct (pending_insert (queue_ self) index x e Ht Hi) as (Hp & Hnd & Hpe & Hpl); [by intros ? [= <-]|by rewrite Hpx|].
  rewrite Hpx in *. cbn in Hp, Hpe, Hpl. unfold u64, UINT64_MAX in *. 
  split; [|split; [done|cbn; split_and!; try done; [lia|by apply not_elem_of_list_to_map|rewrite Z.mod_small; lia]]].
  assert (0 <= size_ self) by lia. rewrite !Z.mod_small by lia. split; cbn; try done.
  - by rewrite length_insert.
  - rewrite Hpe. cbn. rewrite <- Hpl. constructor; [lia|]. eapply Forall_impl; [done|]. cbn. intros k Hk. lia.
  - lia.
  - apply Permutation_length in Hpe, Hpl. cbn in *. lia.
Qed.

(** The slot of a ticket. *)
Lemma find_ticket ticket self : wf self ->
  match list_find (has_ticket ticket) (queue_ self) with
  | Some (index, entry) => queue_ self !! index = Some entry /\ sequence entry = ticket /\
      exists item, work entry = Some item /\
        pending self !! ticket = Some (if armed entry then Some (entry_timestamp_ns entry) else None, item)
  | None => pending self !! ticket = None
  end.
Proof using Type.
  intros H. destruct (list_find _ _) as [[index entry]|] eqn:Hf.
  - apply list_find_Some in Hf as (Hi & [Hw Hs] & _). split_and!; try done.
    destruct (work entry) as [item|] eqn:He; [|done]. exists item. split; [done|].
    apply elem_of_list_to_map; [apply H|]. apply list_elem_of_omap. exists entry.
    split; [by eapply list_elem_of_lookup_2|]. unfold pair_of. by rewrite He, Hs.
  - apply list_find_None in Hf. apply not_elem_of_list_to_map. intros Hin.
    apply list_elem_of_fmap in Hin as ([k v] & -> & Hin). apply list_elem_of_omap in Hin as (entry & Hin & Hp).
    rewrite Forall_forall in Hf. apply (Hf entry Hin). unfold pair_of in Hp. unfold has_ticket.
    destruct (work entry); [|done]. by simplify_eq/=.
Qed.

Lemma ScheduleReserved_spec ticket timestamp self : wf self ->
  let '(status, self') := ScheduleReserved ticket timestamp self in
  wf self' /\ state_ self' = state_ self /\
  match pending self !! ticket with
  | Some (_, item) =>
      if accepting self then status = kOk /\ pending self' = <[ticket := (Some timestamp, item)]> (pending self)
      else status = kInvalidState /\ self' = self
  | None => status = (if accepting self then kNotFound else kInvalidState) /\ self' = self
  end.
Proof using Type.
  intros H. unfold ScheduleReserved. destruct (accepting self); cbn [negb];
    [|split_and!; [done|done|by destruct (pending self !! ticket) as [[? ?]|]]].
  pose proof (find_ticket ticket self H) as Hf. destruct (list_find _ _) as [[index x]|]; [|by rewrite Hf].
  destruct Hf as (Hi & Hs & item & Hw & ->). pose proof H as [Hl Ht Hnx Hr Hsz].
  set (e := MkEntry timestamp (sequence x) (work x) true).
  assert (pair_of e = Some (ticket, (Some timestamp, item))) as He by (unfold pair_of; cbn; by rewrite Hw, Hs).
  assert (exists v, pair_of x = Some (ticket, v)) as [v Hx] by (unfold pair_of; rewrite Hw, Hs; cbn; eauto).
  destruct (pending_insert (queue_ self) index x e Ht Hi) as (Hp & Hnd & Hpe & Hpl); [by rewrite Hx|by rewrite He, Hx; intros ? ? [= <-] [= <-]|].
  rewrite He in Hp, Hpe. rewrite Hx in Hpl. cbn in Hp, Hpe, Hpl. split_and!; try done. split; cbn; try done.
  - by rewrite length_insert.
  - rewrite Hpe. rewrite Hpl in Hnx. cbn in *. done.
  - apply Permutation_length in Hpe, Hpl. cbn in *. lia.
Qed.

(** What [CancelReserved] and the worker do to a slot in use. *)
Lemma clear_spec index x item self : wf self -> queue_ self !! index = Some x -> work x = Some item ->
  let self' := self <| queue_ := <[index := Entry_init]> (queue_ self) |> <| size_ := u64 (size_ self - 1) |> in
  wf self' /\ pending self' = delete (sequence x) (pending self) /\
  pending self !! sequence x = Some (if armed x then Some (entry_timestamp_ns x) else None, item).
Proof using depth_bound.
  intros H Hi Hw. cbn zeta. pose proof H as [Hl Ht Hnx Hr Hsz].
  assert (pair_of x = Some (sequence x, (if armed x then Some (entry_timestamp_ns x) else None, item))) as Hx
    by (unfold pair_of; by rewrite Hw).
  destruct (pending_insert (queue_ self) index x Entry_init Ht Hi) as (Hp & Hnd & Hpe & Hpl); [done|done|].
  rewrite Hx in Hp, Hpl. cbn in Hp, Hpe, Hpl. pose proof (pairs_length (queue_ self)) as Hlen.
  split_and!; [|done|].
  - apply Permutation_length in Hpl as Hpl'. apply Permutation_length in Hpe as Hpe'. cbn in *.
    split; cbn; try done; [by rewrite length_insert|rewrite Hpe|unfold u64; rewrite Z.mod_small; lia].
    rewrite Hpl in Hnx. by apply Forall_cons in Hnx as [_ ?].
  - apply elem_of_list_to_map; [done|]. apply list_elem_of_omap. exists x. split; [by eapply list_elem_of_lookup_2|done].
Qed.

Lemma CancelReserved_spec ticket self : wf self ->
  let '(status, self') := CancelReserved ticket self in
  wf self' /\ state_ self' = state_ self /\
  match pending self !! ticket with
  | Some _ =>
      if accepting self then status = kOk /\ pending self' = delete ticket (pending self)
      else status = kInvalidState /\ self' = self
  | None => status = (if accepting self then kNotFound else kInvalidState) /\ self' = self
  end.
Proof using depth_bound.
  intros H. unfold CancelReserved. destruct (accepting self); cbn [negb];
    [|split_and!; [done|done|by destruct (pending self !! ticket) as [[? ?]|]]].
  pose proof (find_ticket ticket self H) as Hf. destruct (list_find _ _) as [[index x]|]; [|by rewrite Hf].
  destruct Hf as (Hi & <- & item & Hw & ->). by destruct (clear_spec index x item self H Hi Hw) as (? & ? & _).
Qed.

Lemma alter_insert_lookup (m : gmap Z (option Z * P)) k v f : m !! k = Some v -> alter f k m = <[k := f v]> m.
Proof using Type.
  intros H. apply map_eq. intros j. destruct (decide (j = k)) as [->|Hne].
  - by rewrite lookup_alter_eq, lookup_insert_eq, H.
  - by rewrite lookup_alter_ne, lookup_insert_ne.
Qed.

(** The armed ticket that comes first. *)
Definition earliest (m : gmap Z (option Z * P)) (ticket timestamp : Z) (item : P) : Prop :=
  m !! ticket = Some (Some timestamp, item) /\
  forall ticket' timestamp' item', m !! ticket' = Some (Some timestamp', item') ->
    timestamp < timestamp' \/ (timestamp = timestamp' /\ ticket <= ticket').

Lemma candidate_spec self index : candidate self index = true ->
  exists entry item, queue_ self !! index = Some entry /\ entry_at self index = entry /\
    work entry = Some item /\ armed entry = true.
Proof using Type.
  unfold candidate, entry_at. destruct (queue_ self !! index) as [entry|]; cbn; intros H; [|by bool_hyps].
  bool_hyps. destruct (work entry) as [item|] eqn:Hw; [|done]. by exists entry, item.
Qed.

Lemma pending_armed self ticket timestamp item : wf self ->
  pending self !! ticket = Some (Some timestamp, item) ->
  exists index, (index < length (queue_ self))%nat /\ candidate self index = true /\
    sequence (entry_at self index) = ticket /\ entry_timestamp_ns (entry_at self index) = timestamp.
Proof using Type.
  intros H Hp. apply elem_of_list_to_map in Hp; [|apply H]. apply list_elem_of_omap in Hp as (entry & Hin & Hp).
  apply list_elem_of_lookup in Hin as [index Hi]. exists index. split; [by eapply lookup_lt_Some|].
  unfold candidate, entry_at. rewrite Hi. cbn. unfold pair_of in Hp. destruct (work entry); [|done]. cbn in Hp.
  destruct (armed entry); [|by simplify_eq]. by simplify_eq/=.
Qed.

Lemma Run_pass_spec now self : wf self ->
  let '(result, self') := Run_pass now self in
  wf self' /\ state_ self' = state_ self /\
  match result with
  | Leave => state_ self <> kRunning /\ self' = self
  | Wait => state_ self = kRunning /\ self' = self /\
      forall ticket timestamp item, pending self !! ticket <> Some (Some timestamp, item)
  | WaitFor delay_ns => state_ self = kRunning /\ self' = self /\
      exists ticket timestamp item, earliest (pending self) ticket timestamp item /\ now < timestamp /\
        delay_ns = Z.min (timestamp - now) kMaximumWait_ns
  | Take entry => state_ self = kRunning /\
      exists item, work entry = Some item /\ entry_timestamp_ns entry <= now /\
        earliest (pending self) (sequence entry) (entry_timestamp_ns entry) item /\
        pending self' = delete (sequence entry) (pending self)
  end.
Proof using depth_bound.
  intros H. unfold Run_pass. case_bool_decide as Hrun; cbn [negb]; [|done].
  pose proof (NextIndex_spec self) as [[Hi Hn]|(Hi & Hc & Hn)].
  - rewrite Hi, Nat.eqb_refl. split_and!; try done. intros ticket timestamp item Hp.
    destruct (pending_armed _ _ _ _ H Hp) as (index & Hlt & Hc & _). rewrite Hn in Hc by done. done.
  - rewrite (proj2 (Nat.eqb_neq _ _)) by lia. set (index := NextIndex self) in *.
    destruct (candidate_spec _ _ Hc) as (entry & item & Hq & He & Hw & Ha). rewrite He in *.
    destruct (clear_spec index entry item self H Hq Hw) as (Hwf & Hdel & Hlk). rewrite Ha in Hlk.
    assert (earliest (pending self) (sequence entry) (entry_timestamp_ns entry) item) as Hfirst.
    { split; [done|]. intros ticket' timestamp' item' Hp.
      destruct (pending_armed _ _ _ _ H Hp) as (j & Hlt & Hcj & <- & <-).
      specialize (Hn j Hlt Hcj). unfold before in Hn. lia. }
    split_if; bool_hyps; split_and!; eauto 10.
Qed.

(** C33: the table of a Linux executor is a bounded priority queue of tickets. As
    long as no 2^64 tickets were handed out, posting and reserving insert the next
    ticket exactly when the executor takes work and fewer than [depth] tickets are
    out; scheduling a reservation sets its time and cancelling removes it, each
    exactly for a ticket that is out; a worker takes the ticket with the least
    time, the older one at equal times, when that time has come, and otherwise
    waits, for at most the time left. Refused operations change nothing. *)
Theorem linux_queue_refines self : wf self -> next_sequence_ self < UINT64_MAX ->
  (forall item timestamp arm ticket, let '(status, ticket', self') := Enqueue (Some item) timestamp arm ticket self in
    wf self' /\
    status = (if negb (accepting self) then kInvalidState
              else if (size (pending self) =? depth)%nat then kCapacityExceeded else kOk) /\
    if IsOk status
    then ticket' = next_sequence_ self /\ pending self !! ticket' = None /\
      pending self' = <[ticket' := (if arm then Some timestamp else None, item)]> (pending self)
    else ticket' = ticket /\ self' = self) /\
  (forall ticket timestamp, let '(status, self') := ScheduleReserved ticket timestamp self in
    wf self' /\
    status = (if negb (accepting self) then kInvalidState
              else if bool_decide (is_Some (pending self !! ticket)) then kOk else kNotFound) /\
    if IsOk status
    then pending self' = alter (fun slot => (Some timestamp, slot.2)) ticket (pending self)
    else self' = self) /\
  (forall ticket, let '(status, self') := CancelReserved ticket self in
    wf self' /\
    status = (if negb (accepting self) then kInvalidState
              else if bool_decide (is_Some (pending self !! ticket)) then kOk else kNotFound) /\
    if IsOk status then pending self' = delete ticket (pending self) else self' = self) /\
  (forall now, let '(result, self') := Run_pass now self in
    wf self' /\
    match result with
    | Leave => state_ self <> kRunning /\ self' = self
    | Wait => state_ self = kRunning /\ self' = self /\
        forall ticket timestamp item, pending self !! ticket <> Some (Some timestamp, item)
    | WaitFor delay_ns => state_ self = kRunning /\ self' = self /\
        exists ticket timestamp item, earliest (pending self) ticket timestamp item /\ now < timestamp /\
          delay_ns = Z.min (timestamp - now) kMaximumWait_ns
    | Take entry => state_ self = kRunning /\
        exists item, work entry = Some item /\ entry_timestamp_ns entry <= now /\
          earliest (pending self) (sequence entry) (entry_timestamp_ns entry) item /\
          pending self' = delete (sequence entry) (pending self)
    end).
Proof using depth_bound.
  intros H Hn. split_and!.
  - intros item timestamp arm ticket. pose proof (Enqueue_spec item timestamp arm ticket self H Hn) as He.
    destruct (Enqueue _ _ _ _ _) as [[status ticket'] self']. destruct He as (Hwf & _ & He). split; [done|].
    pose proof (pending_size self H) as Hsz. destruct (IsOk status) eqn:Hok.
    + apply IsOk_spec in Hok as ->. destruct He as (-> & Hlt & -> & Hf & _ & Hp). cbn.
      by rewrite (proj2 (Nat.eqb_neq _ _)) by lia.
    + destruct He as (-> & -> & -> & Hfull). destruct (accepting self); [|done]. cbn.
      rewrite (proj2 (Nat.eqb_eq _ _)); [done|]. specialize (Hfull eq_refl). lia.
  - intros ticket timestamp. pose proof (ScheduleReserved_spec ticket timestamp self H) as Hs.
    destruct (ScheduleReserved _ _ _) as [status self']. destruct Hs as (Hwf & _ & Hs). split; [done|].
    destruct (pending self !! ticket) as [[at_ns item]|] eqn:Hp.
    + rewrite bool_decide_true by eauto. destruct (accepting self); cbn; [|by destruct Hs as [-> ->]].
      destruct Hs as [-> ->]. cbn. split; [done|]. by rewrite (alter_insert_lookup _ _ _ _ Hp).
    + rewrite bool_decide_false by (by intros [? ?]). by destruct (accepting self); destruct Hs as [-> ->].
  - intros ticket. pose proof (CancelReserved_spec ticket self H) as Hs.
    destruct (CancelReserved _ _) as [status self']. destruct Hs as (Hwf & _ & Hs). split; [done|].
    destruct (pending self !! ticket) as [[at_ns item]|] eqn:Hp.
    + rewrite bool_decide_true by eauto. destruct (accepting self); cbn; by destruct Hs as [-> ->].
    + rewrite bool_decide_false by (by intros [? ?]). by destruct (accepting self); destruct Hs as [-> ->].
  - intros now. pose proof (Run_pass_spec now self H) as Hr. destruct (Run_pass now self) as [result self'].
    by destruct Hr as (? & _ & ?).
Qed.

(** *** The invariant of the system *)

Definition coherent (o : owner_pc) (s : ThreadExecutorState) (pcs : list worker_pc) : Prop :=
  match o, s with
  | Idle, kConstructed => pcs = []
  | Idle, kPrepared | Announcing, kRunning | Idle, kRunning => pcs <> []
  | Aborting, kFailed | Joining true, kFailed | Stopping, kQuiescing | Joining false, kQuiescing
  | Idle, kFailed | Idle, kStopped => True
  | _, _ => False
  end.

Definition allowed (o : owner_pc) (s : ThreadExecutorState) (pc : worker_pc) : Prop :=
  match o, s with
  | Idle, kPrepared => pc = Entering \/ pc = AtGate
  | Announcing, _ => pc <> Left
  | Idle, kRunning => pc <> Left /\ pc <> AtGate
  | Joining _, _ => waits pc = false
  | Idle, kFailed | Idle, kStopped => pc = Left
  | _, _ => True
  end.

(** A worker that will look at the table again without being told to. *)
Definition attentive (pc : worker_pc) : Prop :=
  match pc with Entering | Looping | TimedWaiting _ | Working _ => True | _ => False end.

Definition has_armed (self : t) : Prop :=
  exists ticket timestamp item, pending self !! ticket = Some (Some timestamp, item).

Definition usable (s : ThreadExecutorState) : bool :=
  match s with kConstructed | kPrepared | kRunning => true | _ => false end.

Record inv (x : system) : Prop := {
  i_wf : usable (state_ (shared x)) = true -> wf (shared x);
  i_coherent : coherent (owner x) (state_ (shared x)) (workers x);
  i_allowed : Forall (allowed (owner x) (state_ (shared x))) (workers x);
  i_awake : state_ (shared x) = kRunning -> owner x = Idle -> has_armed (shared x) ->
    Exists attentive (workers x) \/ (0 < owed x)%nat
}.

Lemma wake_allowed o s pc : allowed o s pc -> allowed o s (wake pc).
Proof using Type. destruct o, s, pc; cbn; naive_solver. Qed.

Lemma wake_attentive pc : attentive pc -> attentive (wake pc).
Proof using Type. by destruct pc. Qed.

Lemma coherent_length o s l l' : length l = length l' -> coherent o s l -> coherent o s l'.
Proof using Type. destruct o as [| | | |[]], s; cbn; destruct l, l'; naive_solver. Qed.

Lemma Forall_alter_wake o s i l : Forall (allowed o s) l -> Forall (allowed o s) (alter wake i l).
Proof using Type. intros H. apply Forall_alter; [done|]. intros pc _. apply wake_allowed. Qed.

Lemma Exists_alter_wake i l : Exists attentive l -> Exists attentive (alter wake i l).
Proof using Type.
  rewrite !Exists_exists. intros (pc & Hin & Ha). apply list_elem_of_lookup in Hin as [j Hj].
  destruct (decide (i = j)) as [->|Hne].
  - exists (wake pc). split; [|by apply wake_attentive]. apply (list_elem_of_lookup_2 _ j). by rewrite list_lookup_alter_eq, Hj.
  - exists pc. split; [|done]. apply (list_elem_of_lookup_2 _ j). by rewrite list_lookup_alter_ne.
Qed.

(** Everybody awake. *)
Lemma all_attentive s l : l <> [] -> Forall (allowed Announcing s) l -> Exists attentive (wake <$> l).
Proof using Type. destruct l as [|pc l]; [done|]. intros _ H. apply Forall_cons in H as [H _]. left. by destruct pc. Qed.

Lemma linux_inv_init start : inv (system_init start).
Proof using Type.
  split; cbn; try done. intros _. assert (pairs (replicate depth Entry_init) = []) as Hp.
  { clear. induction depth as [|n IH]; [done|]. cbn [replicate]. rewrite pairs_cons. exact IH. }
  split; cbn; rewrite ?Hp; cbn; try done; [by rewrite length_replicate|constructor].
Qed.

(** A call of the interface that leaves the state alone. *)
Lemma inv_notify_all self x : inv x -> state_ self = state_ (shared x) -> (usable (state_ self) = true -> wf self) ->
  inv (notify_all (x <| shared := self |>)).
Proof using Type.
  intros [Hwf Hc Hal Haw] Hs Hself. unfold notify_all. split; cbn; rewrite ?Hs in *.
  - done.
  - eapply coherent_length; [|done]. by rewrite length_fmap.
  - apply Forall_fmap. eapply Forall_impl; [done|]. intros pc. apply wake_allowed.
  - intros Hr Ho _. left. rewrite Hr, Ho in *. eapply (all_attentive kRunning); [done|].
    eapply Forall_impl; [done|]. intros pc [? _]. done.
Qed.

Lemma inv_rescheduled status self x : inv x -> state_ self = state_ (shared x) ->
  (usable (state_ self) = true -> wf self) -> (status <> kOk -> self = shared x) -> inv (rescheduled (status, self) x).
Proof using Type.
  intros Hi Hs Hwf Hsame. unfold rescheduled. destruct (IsOk status) eqn:Hok; [by apply inv_notify_all|].
  apply IsOk_false in Hok. rewrite (Hsame Hok). destruct Hi. split; done.
Qed.

Lemma accepting_usable self : accepting self = true -> usable (state_ self) = true.
Proof using Type. unfold accepting. destruct (state_ self); done. Qed.

Lemma unusable_refuses self : usable (state_ self) = false -> accepting self = false.
Proof using Type. intros H. destruct (accepting self) eqn:Ha; [|done]. apply accepting_usable in Ha. congruence. Qed.

Lemma inv_enqueue x item timestamp arm : next_sequence_ (shared x) < UINT64_MAX -> inv x ->
  inv (posted (Enqueue item timestamp arm 0 (shared x)) x).
Proof using All.
  intros Hn Hi. assert (inv (x <| shared := shared x |> <| owed := owed x |>)) as Hsame by (destruct Hi; split; done).
  destruct item as [item|]; [|done]. destruct (usable (state_ (shared x))) eqn:Hu.
  2:{ unfold Enqueue. by rewrite unusable_refuses. }
  pose proof (Enqueue_spec item timestamp arm 0 (shared x) (i_wf x Hi Hu) Hn) as He.
  destruct (Enqueue _ _ _ _ _) as [[status ticket] self]. destruct He as (Hwf & Hs & He). unfold posted.
  destruct (IsOk status); [|by destruct He as (_ & -> & _)].
  destruct Hi as [_ Hc Hal Haw]. split; cbn; rewrite ?Hs; try done. intros _ _ _. right. lia.
Qed.

Lemma inv_schedule x ticket timestamp : inv x -> inv (rescheduled (ScheduleReserved ticket timestamp (shared x)) x).
Proof using All.
  intros Hi. destruct (usable (state_ (shared x))) eqn:Hu.
  - pose proof (ScheduleReserved_spec ticket timestamp (shared x) (i_wf x Hi Hu)) as Hs.
    destruct (ScheduleReserved _ _ _) as [status self]. destruct Hs as (Hwf & Hst & Hs).
    apply inv_rescheduled; try done. intros Hne. destruct (pending (shared x) !! ticket) as [[? ?]|];
      destruct (accepting (shared x)); naive_solver.
  - unfold ScheduleReserved. rewrite unusable_refuses by done. cbn. destruct Hi; split; done.
Qed.

Lemma inv_cancel x ticket : inv x -> inv (rescheduled (CancelReserved ticket (shared x)) x).
Proof using All.
  intros Hi. destruct (usable (state_ (shared x))) eqn:Hu.
  - pose proof (CancelReserved_spec ticket (shared x) (i_wf x Hi Hu)) as Hs.
    destruct (CancelReserved _ _) as [status self]. destruct Hs as (Hwf & Hst & Hs).
    apply inv_rescheduled; try done. intros Hne. destruct (pending (shared x) !! ticket) as [[? ?]|];
      destruct (accepting (shared x)); naive_solver.
  - unfold CancelReserved. rewrite unusable_refuses by done. cbn. destruct Hi; split; done.
Qed.

(** A worker moves from [pc] to [pc']. *)
Lemma inv_moves x self index pc pc' log : inv x -> workers x !! index = Some pc ->
  state_ self = state_ (shared x) -> (usable (state_ self) = true -> wf self) ->
  (allowed (owner x) (state_ (shared x)) pc -> allowed (owner x) (state_ (shared x)) pc') ->
  (attentive pc' \/ ~ has_armed self) -> (has_armed self -> has_armed (shared x)) ->
  inv (x <| shared := self |> <| workers := <[index := pc']> (workers x) |> <| begun := log |>).
Proof using Type.
  intros [Hwf Hc Hal Haw] Hi Hs Hself Hpc Hat Harm. split; cbn; rewrite ?Hs in *.
  - done.
  - eapply coherent_length; [|done]. by rewrite length_insert.
  - apply Forall_insert; [done|]. apply Hpc. by eapply Forall_lookup_1.
  - intros Hr Ho Ha. destruct Hat as [Hat|Hat]; [|done]. left. apply Exists_exists. exists pc'.
    split; [|done]. apply (list_elem_of_lookup_2 _ index). apply list_lookup_insert_eq. by eapply lookup_lt_Some.
Qed.

Ltac by_owner Hi x :=
  let Hc := fresh in pose proof (i_coherent x Hi) as Hc;
  match goal with H : state_ (shared x) = kRunning |- _ => rewrite H in * end;
  destruct (owner x) as [| | | |[]]; cbn in *; try done; try (split; done).

Lemma inv_run x index y : inv x -> Run index x = Some y -> inv y.
Proof using All.
  intros Hi H. unfold Run in H. destruct (workers x !! index) as [[]|] eqn:Hpc; simplify_eq; try done.
  - case_bool_decide as Hst.
    + pose proof (i_coherent x Hi) as Hc. pose proof (i_awake x Hi) as Haw.
      replace (shared x) with (shared x) in * by done.
      assert (inv (x <| shared := shared x |> <| workers := <[index := AtGate]> (workers x) |> <| begun := begun x |>)) as H';
        [|by destruct H'; split].
      destruct Hi as [Hwf Hc' Hal Haw']. split; cbn; try done.
      * eapply coherent_length; [|done]. by rewrite length_insert.
      * apply Forall_insert; [done|]. eapply Forall_lookup_1 in Hal; [|done]. rewrite Hst in *.
        destruct (owner x) as [| | | |[]]; cbn in *; naive_solver.
      * congruence.
    + assert (inv (x <| shared := shared x |> <| workers := <[index := Looping]> (workers x) |> <| begun := begun x |>)) as H';
        [|by destruct H'; split].
      eapply inv_moves; eauto; [apply Hi|intros Ha|by left].
      destruct (owner x) as [| | | |[]], (state_ (shared x)); cbn in *; naive_solver.
  - destruct (usable (state_ (shared x))) eqn:Hu.
    2:{ assert (Run_pass (now x) (shared x) = (Leave, shared x)) as Hrp.
        { unfold Run_pass. rewrite bool_decide_false; [done|]. by intros Hr; rewrite Hr in Hu. }
        rewrite Hrp in H. simplify_eq.
        assert (inv (x <| shared := shared x |> <| workers := <[index := Left]> (workers x) |> <| begun := begun x |>)) as H';
          [|by destruct H'; split].
        destruct Hi as [Hwf Hc Hal Haw]. split; cbn; try done.
        - eapply coherent_length; [|done]. by rewrite length_insert.
        - apply Forall_insert; [done|]. eapply Forall_lookup_1 in Hal; [|done].
          destruct (owner x) as [| | | |[]], (state_ (shared x)); cbn in *; naive_solver.
        - intros Hr. by rewrite Hr in Hu. }
    pose proof (Run_pass_spec (now x) (shared x) (i_wf x Hi Hu)) as Hr.
    destruct (Run_pass _ _) as [result self]. destruct Hr as (Hwf & Hst & Hr).
    simplify_eq. destruct result as [| |delay_ns|entry].
    + destruct Hr as [Hne ->]. pose proof (i_allowed x Hi) as Hal. pose proof (i_coherent x Hi) as Hc.
      eapply Forall_lookup_1 in Hal; [|done].
      exfalso. destruct (owner x) as [| | | |[]], (state_ (shared x)); cbn in *; try done;
        [by rewrite Hc in Hpc|by destruct Hal].
    + destruct Hr as (Hrun & -> & Hno). eapply (inv_moves x (shared x) index Looping Waiting (begun x)); eauto.
      * intros Ha. by_owner Hi x.
      * right. intros (ticket & timestamp & item & Ha). by eapply Hno.
    + destruct Hr as (Hrun & -> & _). eapply (inv_moves x (shared x) index Looping (TimedWaiting delay_ns) (begun x)); eauto; [|by left].
      intros Ha. by_owner Hi x.
    + destruct Hr as (Hrun & item & _ & _ & _ & Hp). eapply (inv_moves x self index Looping (Working entry)); eauto; [|by left|].
      * intros Ha. by_owner Hi x.
      * intros (ticket & timestamp & item' & Ha). exists ticket, timestamp, item'. rewrite Hp in Ha.
        by apply lookup_delete_Some in Ha as [_ ?].
  - assert (inv (x <| shared := shared x |> <| workers := <[index := Looping]> (workers x) |> <| begun := begun x |>)) as H';
      [|by destruct H'; split].
    eapply inv_moves; eauto; [apply Hi|intros Ha|by left].
    destruct (owner x) as [| | | |[]], (state_ (shared x)); cbn in *; naive_solver.
Qed.

Lemma inv_wake x index : inv x -> inv (notify index x).
Proof using Type.
  intros [Hwf Hc Hal Haw]. split; cbn; try done.
  - eapply coherent_length; [|done]. by rewrite length_alter.
  - by apply Forall_alter_wake.
  - intros Hr Ho Ha. destruct (Haw Hr Ho Ha); [left; by apply Exists_alter_wake|by right].
Qed.

Lemma inv_notify x index pc debts : inv x -> owed x = S debts -> workers x !! index = Some pc -> waits pc = true ->
  inv (notify index x <| owed := debts |>).
Proof using Type.
  intros [Hwf Hc Hal Haw] Hd Hi Hw. split; cbn; try done.
  - eapply coherent_length; [|done]. by rewrite length_alter.
  - by apply Forall_alter_wake.
  - intros _ _ _. left. apply Exists_exists. exists (wake pc). split; [|by destruct pc].
    apply (list_elem_of_lookup_2 _ index). by rewrite list_lookup_alter_eq, Hi.
Qed.

Lemma inv_notify_none x debts : inv x -> owed x = S debts ->
  forallb (fun pc => negb (waits pc)) (workers x) = true -> inv (x <| owed := debts |>).
Proof using Type.
  intros [Hwf Hc Hal Haw] Hd Hn. split; cbn; try done. intros Hr Ho _. left. rewrite Hr, Ho in *.
  destruct (workers x) as [|pc l]; [done|]. apply Forall_cons in Hal as [[Hl Hg] _]. left. by destruct pc.
Qed.

Lemma inv_prepare x created : owner x = Idle -> inv x -> inv (prepared created x).
Proof using Type.
  intros Ho [Hwf Hc Hal Haw]. unfold prepared, Prepare.
  destruct (_ || _) eqn:Hg; [split; done|]. bool_hyps.
  assert (wf (shared x)) as Hwf' by (apply Hwf; by match goal with H : state_ _ = kConstructed |- _ => rewrite H end).
  destruct (_ || _) eqn:Hz; [split; done|]. bool_hyps. destruct Hwf'. rewrite Ho in *.
  split_if; (split; cbn; rewrite ?Ho; [try done|try done|try done|done]).
  - by apply Forall_true.
  - by destruct thread_count.
  - apply Forall_replicate. by left.
Qed.

Lemma inv_activate x : owner x = Idle -> inv x -> inv (activated x).
Proof using Type.
  intros Ho [Hwf Hc Hal Haw]. unfold activated, Activate. case_bool_decide as Hst; [|split; done].
  rewrite Ho, Hst in *. destruct (Hwf eq_refl). split; cbn; try done.
  eapply Forall_impl; [done|]. by intros pc [-> | ->].
Qed.

Lemma inv_shutdown x : owner x = Idle -> inv x -> inv (stopped x).
Proof using Type.
  intros Ho [Hwf Hc Hal Haw]. unfold stopped, Shutdown. rewrite Ho in *.
  destruct (state_ (shared x)) eqn:Hst; split; cbn; rewrite ?Ho, ?Hst; try done.
  - by rewrite Hc.
  - by apply Forall_true.
  - by apply Forall_true.
Qed.

Lemma inv_owner x y : inv x -> owner_step x = Some y -> inv y.
Proof using Type.
  intros [Hwf Hc Hal Haw] H. unfold owner_step in H. unfold notify_all in H.
  assert (Forall (fun pc => waits pc = false) (wake <$> workers x)) as Hw.
  { apply Forall_fmap. apply Forall_true. by intros []. }
  destruct (owner x) eqn:Ho; try done.
  - simplify_eq. destruct (state_ (shared x)) eqn:Hst; try done. split; cbn; rewrite ?Hst; cbn; try done.
    + by destruct (workers x).
    + apply Forall_fmap. eapply Forall_impl; [exact Hal|]. by intros [].
    + intros _ _ _. left. by apply (all_attentive kRunning).
  - simplify_eq. destruct (state_ (shared x)) eqn:Hst; try done. split; cbn; rewrite ?Hst; done.
  - simplify_eq. destruct (state_ (shared x)) eqn:Hst; try done. split; cbn; rewrite ?Hst; done.
  - destruct (forallb _ _) eqn:Hf; simplify_eq. pose proof (proj1 (forallb_forall _ _) Hf) as Hf'.
    assert (Forall (fun pc => pc = Left) (workers x)) as Hl.
    { apply Forall_forall. intros pc Hin. apply list_elem_of_In in Hin. apply Hf' in Hin. by destruct pc. }
    destruct failed, (state_ (shared x)) eqn:Hst; try done; split; cbn; rewrite ?Hst; done.
Qed.

Lemma inv_step x y : step x y -> inv x -> inv y.
Proof using All.
  intros H Hi. destruct H; eauto using inv_run, inv_wake, inv_enqueue, inv_schedule, inv_cancel, inv_notify,
    inv_notify_none, inv_prepare, inv_activate, inv_shutdown, inv_owner.
  destruct Hi. split; done.
Qed.

Lemma linux_reachable_inv x : reachable x -> inv x.
Proof using All.
  intros [start H]. generalize (linux_inv_init start). revert H. generalize (system_init start). intros y H.
  induction H; eauto using inv_step.
Qed.

(** C34: a Linux executor loses no wake-up. Whatever the interleaving of the
    workers, posts, reservations, notifications, spurious wake-ups and life-cycle
    calls, while the executor runs and an armed ticket is pending, some worker is
    going to look at the table again without being told (it is looking, working,
    or waits for a time), or a notification is under way, which wakes a waiting
    worker if there is one. While [Shutdown] joins the workers none of them
    waits. *)
Theorem linux_no_lost_wakeup x : reachable x ->
  (state_ (shared x) = kRunning -> owner x = Idle -> has_armed (shared x) ->
    Exists attentive (workers x) \/ (0 < owed x)%nat) /\
  (forall failed, owner x = Joining failed -> Forall (fun pc => waits pc = false) (workers x)).
Proof using All.
  intros H. apply linux_reachable_inv in H as [Hwf Hc Hal Haw]. split; [done|].
  intros failed Ho. rewrite Ho in Hal. by destruct failed.
Qed.

(** *** The end of [Shutdown] *)

Definition rank (pc : worker_pc) : nat :=
  match pc with Entering | Working _ => 2 | Looping => 1 | _ => 0 end.

Definition weight (pcs : list worker_pc) : nat := sum_list (rank <$> pcs).

Definition ending (x : system) : Prop :=
  match owner x, state_ (shared x) with
  | Joining true, kFailed | Joining false, kQuiescing | Idle, kStopped | Idle, kFailed => True
  | _, _ => False
  end.

(** A run of the system in which the workers take [k] steps. *)
Inductive run : nat -> system -> system -> Prop :=
  | run_nil x : run 0 x x
  | run_worker k index x y z : Run index x = Some y -> run k y z -> run (S k) x z
  | run_other k x y z : step x y -> workers y = workers x -> run k y z -> run k x z.

Lemma weight_cons pc l : weight (pc :: l) = (rank pc + weight l)%nat.
Proof using Type. done. Qed.

Lemma weight_insert l index pc pc' : l !! index = Some pc ->
  (weight (<[index := pc']> l) + rank pc = weight l + rank pc')%nat.
Proof using All.
  unfold weight. revert index. induction l as [|q l IH]; intros [|index] H; cbn in *; simplify_eq; [lia|].
  specialize (IH index H). rewrite <- !Nat.add_assoc. f_equal. exact IH.
Qed.

Lemma ending_not_running x : ending x -> state_ (shared x) <> kRunning /\ state_ (shared x) <> kPrepared /\
  state_ (shared x) <> kConstructed.
Proof using All. unfold ending. destruct (owner x) as [| | | |[]], (state_ (shared x)); done. Qed.

Ltac lighter pc H :=
  let Hw := fresh in pose proof (weight_insert _ _ _ pc H) as Hw; cbn [rank] in Hw;
  split_and!; [done|done|done|];
  match type of Hw with (weight ?l + _)%nat = (weight ?l' + _)%nat =>
    let Hlt := fresh in assert (weight l < weight l')%nat as Hlt by lia; exact Hlt end.

Lemma ending_run_step x index y : ending x -> Run index x = Some y ->
  shared y = shared x /\ owner y = owner x /\ begun y = begun x /\ (weight (workers y) < weight (workers x))%nat.
Proof using All.
  intros He H. apply ending_not_running in He as (Hr & Hp & _). unfold Run in H.
  destruct (workers x !! index) as [pc|] eqn:Hpc; [|done]. destruct pc; simplify_eq; try done.
  - rewrite bool_decide_false by done. lighter Looping Hpc.
  - unfold Run_pass in H. rewrite bool_decide_false in H by done. simplify_eq/=.
    lighter Left Hpc.
  - lighter Looping Hpc.
Qed.

Lemma ending_refuses x : ending x -> accepting (shared x) = false.
Proof using All.
  intros He. apply unusable_refuses. apply ending_not_running in He as (? & ? & ?). by destruct (state_ (shared x)).
Qed.

Lemma joining_step x y : inv x -> ending x -> step x y -> ending y.
Proof using All.
  intros Hi He H. pose proof (ending_refuses x He) as Hno. pose proof (ending_not_running x He) as (Hr & Hp & Hc).
  destruct H; try done.
  - destruct (ending_run_step _ _ _ He H) as (Hs & Ho & _). unfold ending. by rewrite Hs, Ho.
  - unfold Enqueue. rewrite Hno. by destruct item.
  - unfold ScheduleReserved. by rewrite Hno.
  - unfold CancelReserved. by rewrite Hno.
  - unfold prepared, Prepare. by rewrite bool_decide_false by done.
  - unfold activated, Activate. by rewrite bool_decide_false by done.
  - unfold stopped, Shutdown. unfold ending in He |- *. rewrite H in *. by destruct (state_ (shared x)) eqn:Hst; cbn; rewrite ?H, ?Hst.
  - unfold owner_step in H. unfold ending in He |- *.
    destruct (owner x) as [| | | |failed]; try done. destruct (forallb _ _); simplify_eq/=.
    destruct failed; [|done]. by destruct (state_ (shared x)).
Qed.

Lemma joining_run k x y : inv x -> ending x -> run k x y ->
  inv y /\ ending y /\ (k + weight (workers y) <= weight (workers x))%nat.
Proof using All.
  intros Hi He H. induction H as [x|k index x y z Hr H IH|k x y z Hs Hw H IH].
  - split_and!; done || lia.
  - pose proof (ending_run_step _ _ _ He Hr) as (_ & _ & _ & Hlt).
    assert (step x y) as Hs by (by econstructor).
    destruct IH as (? & ? & ?); [by eapply inv_step|by eapply joining_step|]. split_and!; done || lia.
  - rewrite <- Hw. apply IH; [by eapply inv_step|by eapply joining_step].
Qed.

Lemma weight_bound l : (weight l <= 2 * length l)%nat.
Proof using All. unfold weight. induction l as [|pc l IH]; cbn; [lia|]. destruct pc; cbn; lia. Qed.

(** C35: [Shutdown] of a Linux executor, and a [Prepare] that failed, end. From the
    moment they join the workers, the workers take at most two more steps each,
    whatever else happens, the end of the work they run among them; until all
    have left, one of them can take a step, and when all have left the joins
    return. *)
Theorem linux_shutdown_joins x failed : reachable x -> owner x = Joining failed ->
  forall k y, run k x y ->
    (k <= 2 * length (workers x))%nat /\
    (owner y = Joining failed ->
      (exists index z, Run index y = Some z) \/
      (Forall (fun pc => pc = Left) (workers y) /\ exists z, owner_step y = Some z /\ owner z = Idle /\
        state_ (shared z) = (if failed then kFailed else kStopped))).
Proof using All.
  intros Hx Ho k y Hr. apply linux_reachable_inv in Hx as Hi.
  assert (ending x) as He.
  { pose proof (i_coherent x Hi) as Hc. unfold ending. rewrite Ho in *. destruct failed; by destruct (state_ (shared x)). }
  destruct (joining_run k x y Hi He Hr) as (Hi' & He' & Hk). split; [pose proof (weight_bound (workers x)); lia|].
  intros Hy. pose proof (i_allowed y Hi') as Hal. rewrite Hy in Hal.
  destruct (decide (weight (workers y) = 0%nat)) as [Hz|Hz].
  - right. assert (Forall (fun pc => pc = Left) (workers y)) as Hl.
    { clear -Hz Hal. induction (workers y) as [|pc l IH]; [constructor|].
      apply Forall_cons in Hal as [Hw Hal]. rewrite weight_cons in Hz. constructor; [|apply IH; [done|lia]].
      destruct pc; cbn in *; done || lia. }
    split; [done|]. unfold owner_step. rewrite Hy.
    assert (forallb (fun pc => match pc with Left => true | _ => false end) (workers y) = true) as ->.
    { clear -Hl. induction Hl as [|pc l -> _ IH]; [done|exact IH]. }
    eexists. split; [done|]. split; [done|]. unfold ending in He'. rewrite Hy in He'.
    destruct failed; [cbn|done]. by destruct (state_ (shared y)).
  - left. assert (exists index pc, workers y !! index = Some pc /\ (0 < rank pc)%nat) as (index & pc & Hpc & Hrk).
    { clear -Hz. induction (workers y) as [|pc l IH]; [done|]. rewrite weight_cons in Hz.
      destruct (decide (rank pc = 0%nat)); [|exists 0%nat, pc; split; [done|lia]].
      destruct IH as (index & pc' & ? & ?); [lia|]. by exists (S index), pc'. }
    exists index. unfold Run. rewrite Hpc. destruct pc; cbn in Hrk; try lia; eauto.
    destruct (Run_pass _ _). eauto.
Qed.

End LinuxThreadExecutor.
Arguments Entry : clear implicits.
Arguments t : clear implicits.
Arguments pass : clear implicits.
End LinuxThreadExecutor.

(** ** Samples *)

Module LinuxSamples.
Import LinuxThreadExecutor.

Definition prepared_ : system := prepared "io" 1 1 (system_init (P:=nat) 2 0).
Definition posted_ : system :=
  posted (Enqueue (Some 8%nat) 50 true 0 (shared prepared_))  prepared_.
Definition reposted : system := posted (Enqueue (Some 7%nat) 20 true 0 (shared posted_)) posted_.
Definition running : system := default reposted (owner_step (activated reposted)).

Lemma running_reachable : reachable "io" 2 1 running.
Proof.
  exists 0. unfold running, reposted, posted_, prepared_.
  eapply rtc_l; [apply (step_prepare "io" 1 _ 1); [done|lia]|].
  eapply rtc_l; [by apply (step_enqueue _ _ _ (Some 8%nat) 50 true)|].
  eapply rtc_l; [by apply (step_enqueue _ _ _ (Some 7%nat) 20 true)|].
  eapply rtc_l; [by apply step_activate|]. apply rtc_once. by apply step_owner.
Qed.

Definition closing : system := default running (owner_step (stopped running)).

Lemma closing_reachable : reachable "io" 2 1 closing.
Proof.
  destruct running_reachable as [start H]. exists start. etrans; [exact H|]. unfold closing.
  eapply rtc_l; [by apply step_shutdown|]. apply rtc_once. by apply step_owner.
Qed.

(** The later post is due first, so it is taken first. *)
Lemma linux_queue_refines_witness :
  (Run_pass 30 (shared running)).1 = Take (MkEntry 20 1 (Some 7%nat) true) /\
  (Run_pass 10 (shared running)).1 = WaitFor 10 /\
  pending (Run_pass 30 (shared running)).2 = delete 1 (pending (shared running)).
Proof.
  assert (wf 2 (shared running)) as Hwf by exact (i_wf 2 running (linux_reachable_inv "io" 2 1 ltac:(done) _ running_reachable) eq_refl).
  destruct (linux_queue_refines 2 ltac:(done) (shared running) Hwf ltac:(done)) as (_ & _ & _ & Hr).
  specialize (Hr 30). destruct (Run_pass 30 (shared running)) as [result self'] eqn:E.
  assert (result = Take (MkEntry 20 1 (Some 7%nat) true)) as ->.
  { change result with (result, self').1. rewrite <- E. by vm_compute. }
  destruct Hr as (_ & _ & item & _ & _ & _ & Hp). split_and!; [done|by vm_compute|exact Hp].
Defined.

Lemma linux_no_lost_wakeup_witness :
  has_armed (shared running) /\ (Exists attentive (workers running) \/ (0 < owed running)%nat).
Proof.
  assert (has_armed (shared running)) as Ha by (exists 1, 20, 7%nat; by vm_compute).
  split; [exact Ha|].
  exact (proj1 (linux_no_lost_wakeup "io" 2 1 ltac:(done) running running_reachable) eq_refl eq_refl Ha).
Defined.

Lemma linux_shutdown_joins_witness :
  (exists index z, Run "io" index closing = Some z) /\ (0 <= 2 * length (workers closing))%nat.
Proof.
  destruct (linux_shutdown_joins "io" 2 1 ltac:(done) closing false closing_reachable eq_refl 0 closing
    ltac:(apply run_nil)) as [Hk H].
  split; [|exact Hk]. destruct (H eq_refl) as [Hm|[Hl _]]; [exact Hm|].
  exfalso. apply Forall_cons in Hl as [Hl _]. discriminate.
Defined.
End LinuxSamples.
