(* ===== verification/StaticNode.v ===== *)
(** The node of a Zephyr image: [StaticNodeRuntime] of
    [aster_runtime/platform/zephyr/runtime_services.hpp], which puts the
    executor, the local services and a composition of modules together and takes
    them through the life cycle of the runtime. *)

From S2P Require Export Configuration Lifecycle Platform ZephyrExecutor PacketBridge.

Local Open Scope Z_scope.

(** ** The executor a node owns

    Its life-cycle methods as calls of the supervisor, each run to its end. *)
Record ExecutorLifecycle (W : Type) := MkExecutorLifecycle {
  exec_Prepare : W -> Status * W;
  exec_Activate : W -> Status * W;
  exec_Shutdown : W -> W
}.
Arguments MkExecutorLifecycle {W}.
Arguments exec_Prepare {W}.
Arguments exec_Activate {W}.
Arguments exec_Shutdown {W}.

Module Zephyr := ZephyrThreadExecutor.

(** What [ZephyrThreadExecutor] promises of them. *)
Class ExecutorLifecycleLaws {W} (executor : ExecutorLifecycle W) (phase : W -> Zephyr.State) : Prop := {
  prepare_phase w : let '(status, w') := exec_Prepare executor w in
    if IsOk status then phase w = Zephyr.kConstructed /\ phase w' = Zephyr.kPrepared
    else phase w' = phase w \/ phase w' = Zephyr.kFailed;
  activate_phase w : let '(status, w') := exec_Activate executor w in
    if IsOk status then phase w = Zephyr.kPrepared /\ phase w' = Zephyr.kRunning
    else phase w <> Zephyr.kPrepared /\ w' = w;
  shutdown_phase w : phase (exec_Shutdown executor w) =
    match phase w with Zephyr.kFailed => Zephyr.kFailed | _ => Zephyr.kStopped end
}.

Module StaticNodeRuntime.
Section StaticNodeRuntime.
Context {W P C D M R Dev : Type} `{EqDecision R}.

(** The runtime of the node, and the objects of it that live in the program. *)
Variable registry_Seal : R -> W -> Status * W.
Variable registry_sealed : R -> W -> bool.
Variable executor : ExecutorLifecycle W.
Variable rpc_ : Cell W RpcRouter.t.
Variable hardware_ : Cell W (StaticHardwareManager.t Dev).
Variable allocator_ : Cell W FixedArenaAllocator.t.

(** [channel_], [rpc_] and [hardware_] as registries. *)
Variables channel_registry rpc_registry hardware_registry : R.
Variables MaxModules MaxRpcServices MaxHardwareCapabilities : nat.
Variable core_ : ScopedCore W P C D M.
Variable active : list (ExecutionScope W).

Definition slot : Type := ModuleSlot W P C D M.
Definition slot_init : slot := MkModuleSlot None (fun _ => None) "".

Definition runtime : Type := @Runtime.config W P C D M R * Runtime.t.

Record t := Mk {
  module_slots_ : list slot;
  registry_slots_ : list (option R);
  runtime_ : option runtime;
  module_count_ : nat;
  infrastructure_module_count_ : nat;
  setup_status_ : Status
}.
#[global] Instance eta_t : Eta t := fun x =>
  Mk (module_slots_ x) (registry_slots_ x) (runtime_ x) (module_count_ x) (infrastructure_module_count_ x)
    (setup_status_ x).

Definition kMaximumRegistries : nat := MaxModules + 3.

Definition Record_ (status : Status) (self : t) : t :=
  if IsOk (setup_status_ self) && negb (IsOk status) then self <| setup_status_ := status |> else self.

Definition AddModuleSlot (s : slot) (self : t) : Status * t :=
  if bool_decide (slot_module s = None) then (kInvalidArgument, self)
  else if (module_count_ self =? length (module_slots_ self))%nat then (kCapacityExceeded, self)
  else (kOk, self <| module_slots_ := <[module_count_ self := s]> (module_slots_ self) |>
               <| module_count_ := S (module_count_ self) |>).

(** [registry_slots_] up to [registry_count_]. *)
Definition AddRegistrySlot (registry : R) (self : t) : Status * t :=
  if bool_decide (Some registry ∈ registry_slots_ self) then (kAlreadyExists, self)
  else if (length (registry_slots_ self) =? kMaximumRegistries)%nat
  then (kCapacityExceeded, Record_ kCapacityExceeded self)
  else (kOk, self <| registry_slots_ := registry_slots_ self ++ [Some registry] |>).

Definition recorded (result : Status * t) : t := let '(status, self) := result in Record_ status self.

Definition add_module (self : t) (s : slot) : t := recorded (AddModuleSlot s self).
Definition add_registry (self : t) (registry : option R) : t :=
  match registry with
  | None => Record_ kInvalidArgument self
  | Some registry => recorded (AddRegistrySlot registry self)
  end.

(** The constructor with the modules and registries of the composition. *)
Definition make (modules : list slot) (registries : list (option R)) : t :=
  foldl add_registry
    (foldl add_module (Mk (replicate MaxModules slot_init) [] None 0 0 kOk) modules)
    ([Some channel_registry; Some rpc_registry; Some hardware_registry] ++ registries).

(** [runtime_.has_value() || !IsOk(setup_status_)]. *)
Definition closed (self : t) : bool := bool_decide (is_Some (runtime_ self)) || negb (IsOk (setup_status_ self)).

(** The loop of [AddInfrastructureModule], from [index] down. *)
Fixpoint shift (moves index : nat) (slots : list slot) : list slot :=
  match moves with
  | 0%nat => slots
  | S moves => shift moves (index - 1) (<[index := default slot_init (slots !! (index - 1)%nat)]> slots)
  end.

(** [ModuleSlot]'s conversion of a [ModuleBase]. *)
Definition AddInfrastructureModule (module : ModuleBase W P C D M) (instance_name : string) (self : t) : Status * t :=
  if closed self then (kInvalidState, self)
  else if (module_count_ self =? length (module_slots_ self))%nat
  then (kCapacityExceeded, Record_ kCapacityExceeded self)
  else
    let slots := shift (module_count_ self - infrastructure_module_count_ self) (module_count_ self) (module_slots_ self) in
    (kOk, self
      <| module_slots_ := <[infrastructure_module_count_ self :=
           MkModuleSlot (Some (MakeNativeHandle module)) core_ instance_name]> slots |>
      <| infrastructure_module_count_ := S (infrastructure_module_count_ self) |>
      <| module_count_ := S (module_count_ self) |>).

Definition AddRegistry (registry : R) (self : t) : Status * t :=
  if closed self then (kInvalidState, self) else AddRegistrySlot registry self.

Definition RegisterRemoteRpc (descriptor : ServiceDescriptor) (backend : BackendId) (self : t) (w : W)
    : Status * t * W :=
  if closed self then (kInvalidState, self, w)
  else
    let '(status, router) := RpcRouter.AddRemoteClient MaxRpcServices descriptor backend (load rpc_ w) in
    (status, Record_ status self, store rpc_ router w).

Definition RegisterHardware (name type : string) (device : option Dev) (self : t) (w : W) : Status * t * W :=
  if closed self then (kInvalidState, self, w)
  else
    let '(status, hardware) :=
      StaticHardwareManager.Register MaxHardwareCapabilities name type device (load hardware_ w) in
    (status, Record_ status self, store hardware_ hardware w).

(** *** The life cycle *)

Definition QuiesceExecutor (_ : list (ExecutionScope W)) (w : W) : W := exec_Shutdown executor w.

Definition node_config (self : t) : @Runtime.config W P C D M R :=
  Runtime.MkConfig (take (module_count_ self) (module_slots_ self)) (registry_slots_ self) (Some QuiesceExecutor).

Definition Initialize (self : t) (w : W) : Status * t * W :=
  if negb (IsOk (setup_status_ self)) then (setup_status_ self, self, w)
  else if bool_decide (is_Some (runtime_ self)) || (module_count_ self =? 0)%nat
  then (if bool_decide (is_Some (runtime_ self)) then kInvalidState else kUnavailable, self, w)
  else
    let '(status, w) := exec_Prepare executor w in
    if negb (IsOk status) then (status, self <| setup_status_ := status |>, w)
    else
      let cfg := node_config self in
      let '(status, run, w) := Runtime.Initialize registry_Seal registry_sealed cfg active Runtime.init w in
      let self := self <| runtime_ := Some (cfg, run) |> in
      (status, self, if negb (IsOk status) then exec_Shutdown executor w else w).

Definition Start (self : t) (w : W) : Status * t * W :=
  match runtime_ self with
  | None => (kInvalidState, self, w)
  | Some (cfg, run) =>
      let '(status, run, w) := Runtime.Start cfg active run w in
      if IsOk status then
        let '(status, w) := exec_Activate executor w in
        if negb (IsOk status) then
          let '(run, w) := Runtime.Shutdown cfg active run w in
          (status, self <| runtime_ := Some (cfg, run) |>, w)
        else (status, self <| runtime_ := Some (cfg, run) |>, w)
      else (status, self <| runtime_ := Some (cfg, run) |>, w)
  end.

Definition Shutdown (self : t) (w : W) : t * W :=
  let '(self, w) :=
    match runtime_ self with
    | Some (cfg, run) =>
        let '(run, w) := Runtime.Shutdown cfg active run w in (self <| runtime_ := Some (cfg, run) |>, w)
    | None => (self, w)
    end in
  let w := exec_Shutdown executor w in
  (self, store allocator_ (FixedArenaAllocator.Reset (load allocator_ w)) w).

Definition state (self : t) : Runtime.RuntimeState :=
  match runtime_ self with
  | Some (_, run) => Runtime.state_ run
  | None => if IsOk (setup_status_ self) then Runtime.kConstructed else Runtime.kFailed
  end.

(** *** The calls of an owner *)

Inductive call :=
  | CAddInfrastructureModule (module : ModuleBase W P C D M) (instance_name : string)
  | CAddRegistry (registry : R)
  | CRegisterRemoteRpc (descriptor : ServiceDescriptor) (backend : BackendId)
  | CRegisterHardware (name type : string) (device : option Dev)
  | CInitialize
  | CStart
  | CShutdown.

Definition perform (c : call) (self : t) (w : W) : t * W :=
  match c with
  | CAddInfrastructureModule module instance_name => ((AddInfrastructureModule module instance_name self).2, w)
  | CAddRegistry registry => ((AddRegistry registry self).2, w)
  | CRegisterRemoteRpc descriptor backend => let '(_, self, w) := RegisterRemoteRpc descriptor backend self w in (self, w)
  | CRegisterHardware name type device => let '(_, self, w) := RegisterHardware name type device self w in (self, w)
  | CInitialize => let '(_, self, w) := Initialize self w in (self, w)
  | CStart => let '(_, self, w) := Start self w in (self, w)
  | CShutdown => Shutdown self w
  end.

Fixpoint perform_all (calls : list call) (self : t) (w : W) : t * W :=
  match calls with
  | [] => (self, w)
  | c :: calls => let '(self, w) := perform c self w in perform_all calls self w
  end.

(** *** Executor and runtime go together *)

Context (phase : W -> Zephyr.State) `{!ExecutorLifecycleLaws executor phase, !CellLaws allocator_}.

(** Nothing but the node takes its executor through its life cycle: neither a
    module of it, nor sealing a registry, nor what it keeps elsewhere. *)
Record quiet_module (s : slot) : Prop := {
  quiet_initialize scope core w : phase (ModuleRef_Initialize (slot_module s) scope core w).2 = phase w;
  quiet_start scope w : phase (ModuleRef_Start (slot_module s) scope w).2 = phase w;
  quiet_shutdown scope w : phase (ModuleRef_Shutdown (slot_module s) scope w) = phase w
}.

Record quiet : Prop := {
  quiet_seal r w : phase (registry_Seal r w).2 = phase w;
  quiet_rpc router w : phase (store rpc_ router w) = phase w;
  quiet_hardware hardware w : phase (store hardware_ hardware w) = phase w;
  quiet_allocator arena w : phase (store allocator_ arena w) = phase w
}.
Hypothesis is_quiet : quiet.

Definition finished (s : Zephyr.State) : Prop := s = Zephyr.kStopped \/ s = Zephyr.kFailed.

Lemma shutdown_finishes w : finished (phase (exec_Shutdown executor w)).
Proof using All. rewrite shutdown_phase. unfold finished. destruct (phase w); auto. Qed.

Lemma initialize_modules_phase index slots run w : Forall quiet_module slots ->
  let '(failure, run', w') := Runtime.initialize_modules (W:=W) (P:=P) (C:=C) (D:=D) (M:=M) active index slots run w in
  phase w' = phase w /\ Runtime.state_ run' = Runtime.state_ run /\
  match failure with
  | Some f => Runtime.failure_status f <> kOk /\ (0 < Runtime.initialized_module_count_ run')%nat
  | None => Runtime.initialized_module_count_ run' = match slots with [] => Runtime.initialized_module_count_ run | _ => (index + length slots)%nat end
  end.
Proof using All.
  intros Hall. revert index run w. induction Hall as [|s slots Hs Hall IH]; intros index run w; cbn [Runtime.initialize_modules]; [done|].
  pose proof (quiet_initialize s Hs (lifecycle_scope s active w) (slot_core s) w) as Hq.
  destruct (ModuleRef_Initialize _ _ _ _) as [status w1]. cbn in Hq. split_if.
  - apply negb_true_iff, IsOk_false in E. split_and!; cbn; done || lia.
  - specialize (IH (S index) (run <| Runtime.initialized_module_count_ := S index |>) w1).
    destruct (Runtime.initialize_modules _ _ _ _ _) as [[[f|] run'] w']; cbn in *; [naive_solver congruence|].
    destruct IH as (-> & -> & Hc). split_and!; try done. rewrite Hc. destruct slots; cbn; lia.
Qed.

Lemma seal_phase index slots w :
  let '(failure, w') := Runtime.seal_registries registry_Seal index slots w in
  phase w' = phase w /\ (forall f, failure = Some f -> Runtime.failure_status f <> kOk).
Proof using All.
  revert index w. induction slots as [|[r|] slots IH]; intros index w; cbn [Runtime.seal_registries]; [done| |done].
  pose proof (quiet_seal is_quiet r w) as Hq. destruct (registry_Seal r w) as [status w1]. cbn in Hq. split_if.
  - apply negb_true_iff, IsOk_false in E. split; [done|]. by intros f [= <-].
  - specialize (IH (S index) w1). destruct (Runtime.seal_registries _ _ _ _). by rewrite Hq in IH.
Qed.

Lemma start_phase index slots w : Forall quiet_module slots ->
  let '(failure, w') := Runtime.start_modules (W:=W) (P:=P) (C:=C) (D:=D) (M:=M) active index slots w in
  phase w' = phase w /\ (forall f, failure = Some f -> Runtime.failure_status f <> kOk).
Proof using All.
  intros Hall. revert index w. induction Hall as [|s slots Hs Hall IH]; intros index w; cbn [Runtime.start_modules]; [done|].
  pose proof (quiet_start s Hs (lifecycle_scope s active w) w) as Hq.
  destruct (ModuleRef_Start _ _ _) as [status w1]. cbn in Hq. split_if.
  - apply negb_true_iff, IsOk_false in E. split; [done|]. by intros f [= <-].
  - specialize (IH (S index) w1). destruct (Runtime.start_modules _ _ _ _). by rewrite Hq in IH.
Qed.

Lemma shutdown_modules_phase (cfg : @Runtime.config W P C D M R) count w : Forall quiet_module (Runtime.modules_ cfg) ->
  phase (Runtime.shutdown_modules cfg active count w) = phase w.
Proof using All.
  intros Hall. revert w. induction count as [|count IH]; intros w; cbn; [done|]. rewrite IH.
  destruct (_ !! count) eqn:Hc; [|done]. eapply Forall_lookup_1 in Hall; [|done]. apply Hall.
Qed.

(** A configuration of the node: modules, and its hook. *)
Definition of_node (cfg : @Runtime.config W P C D M R) : Prop :=
  Runtime.modules_ cfg <> [] /\ Forall quiet_module (Runtime.modules_ cfg) /\
  Runtime.hooks_ cfg = Some QuiesceExecutor.

Lemma ShutdownInitializedModules_phase cfg run w : of_node cfg -> (0 < Runtime.initialized_module_count_ run)%nat ->
  let '(run', w') := Runtime.ShutdownInitializedModules cfg active run w in
  finished (phase w') /\ Runtime.state_ run' = Runtime.state_ run.
Proof using All.
  intros (_ & Hq & Hh) Hn. unfold Runtime.ShutdownInitializedModules. rewrite Hh, (proj2 (Nat.eqb_neq _ _)) by lia.
  split; [|done]. rewrite shutdown_modules_phase by done. apply shutdown_finishes.
Qed.

Lemma fail_phase cfg failure run w : of_node cfg -> (0 < Runtime.initialized_module_count_ run)%nat ->
  Runtime.failure_status failure <> kOk ->
  let '(status, run', w') := Runtime.fail cfg active failure run w in
  IsOk status = false /\ finished (phase w') /\ Runtime.state_ run' = Runtime.kFailed.
Proof using All.
  intros Hc Hn Hf. unfold Runtime.fail.
  pose proof (ShutdownInitializedModules_phase cfg (Runtime.RecordFailure failure run) w Hc Hn) as H.
  destruct (Runtime.ShutdownInitializedModules _ _ _ _) as [run' w']. destruct H as [Hp _].
  split_and!; [by apply IsOk_false|done|done].
Qed.

Lemma runtime_Initialize_phase cfg w : of_node cfg ->
  let '(status, run, w') := Runtime.Initialize registry_Seal registry_sealed cfg active Runtime.init w in
  if IsOk status
  then Runtime.state_ run = Runtime.kInitialized /\ (0 < Runtime.initialized_module_count_ run)%nat /\ phase w' = phase w
  else Runtime.state_ run = Runtime.kFailed.
Proof using All.
  intros Hc. unfold Runtime.Initialize. cbn [Runtime.state_ Runtime.init negb].
  destruct (Runtime.Validate registry_sealed cfg Runtime.init w) as [validation run0].
  rewrite bool_decide_true by done. cbn [negb]. destruct (IsOk validation) eqn:Hv; cbn [negb]; [|by rewrite Hv].
  pose proof (initialize_modules_phase 0 (Runtime.modules_ cfg) (run0 <| Runtime.state_ := Runtime.kInitializing |>) w
    (proj1 (proj2 Hc))) as Hi.
  destruct (Runtime.initialize_modules _ _ _ _ _) as [[[f|] run1] w1]; destruct Hi as (Hp & _ & Hn).
  - pose proof (fail_phase cfg f run1 w1 Hc (proj2 Hn) (proj1 Hn)) as Hf.
    destruct (Runtime.fail _ _ _ _ _) as [[status run2] w2]. by destruct Hf as (-> & _ & ->).
  - pose proof (seal_phase 0 (Runtime.registries_ cfg) w1) as Hs.
    assert (0 < Runtime.initialized_module_count_ run1)%nat as Hpos.
    { rewrite Hn. destruct Hc as [Hne _]. destruct (Runtime.modules_ cfg); [done|cbn; lia]. }
    destruct (Runtime.seal_registries _ _ _ _) as [[f|] w2]; destruct Hs as [Hp2 Hs]; [|split_and!; cbn; congruence].
    pose proof (fail_phase cfg f run1 w2 Hc Hpos (Hs f eq_refl)) as Hf.
    destruct (Runtime.fail _ _ _ _ _) as [[status run2] w3]. by destruct Hf as (-> & _ & ->).
Qed.

Lemma runtime_Start_phase cfg run w : of_node cfg ->
  (Runtime.state_ run = Runtime.kInitialized -> (0 < Runtime.initialized_module_count_ run)%nat) ->
  let '(status, run', w') := Runtime.Start cfg active run w in
  if IsOk status
  then Runtime.state_ run = Runtime.kInitialized /\ Runtime.state_ run' = Runtime.kRunning /\ phase w' = phase w /\
    Runtime.initialized_module_count_ run' = Runtime.initialized_module_count_ run
  else if bool_decide (Runtime.state_ run = Runtime.kInitialized)
  then Runtime.state_ run' = Runtime.kFailed /\ finished (phase w')
  else run' = run /\ w' = w.
Proof using All.
  intros Hc Hn. unfold Runtime.Start. case_bool_decide as Hs; cbn [negb]; [|done]. specialize (Hn Hs).
  pose proof (start_phase 0 (Runtime.modules_ cfg) w (proj1 (proj2 Hc))) as H.
  destruct (Runtime.start_modules _ _ _ _) as [[f|] w1]; destruct H as [Hp H]; [|done].
  pose proof (fail_phase cfg f (run <| Runtime.state_ := Runtime.kStarting |>) w1 Hc Hn (H f eq_refl)) as Hf.
  destruct (Runtime.fail _ _ _ _ _) as [[status run2] w2]. by destruct Hf as (-> & ? & ->).
Qed.

Lemma runtime_Shutdown_state (cfg : @Runtime.config W P C D M R) run w :
  let '(run', w') := Runtime.Shutdown cfg active run w in
  Runtime.state_ run' = (if bool_decide (Runtime.state_ run = Runtime.kFailed) then Runtime.kFailed else Runtime.kStopped) /\
  (Runtime.state_ run = Runtime.kStopped \/ Runtime.state_ run = Runtime.kFailed -> w' = w).
Proof using All.
  unfold Runtime.Shutdown. repeat case_bool_decide; cbn; try naive_solver congruence.
Qed.

Definition consistent (self : t) (w : W) : Prop :=
  match runtime_ self with
  | None => phase w = Zephyr.kConstructed \/ finished (phase w)
  | Some (cfg, run) => of_node cfg /\
      match Runtime.state_ run with
      | Runtime.kInitialized => phase w = Zephyr.kPrepared /\ (0 < Runtime.initialized_module_count_ run)%nat
      | Runtime.kRunning => phase w = Zephyr.kRunning /\ (0 < Runtime.initialized_module_count_ run)%nat
      | Runtime.kStopped | Runtime.kFailed => finished (phase w)
      | _ => False
      end
  end.

(** The counts are within the table. *)
Definition tabled (self : t) : Prop :=
  length (module_slots_ self) = MaxModules /\ (module_count_ self <= MaxModules)%nat /\
  (infrastructure_module_count_ self <= module_count_ self)%nat /\
  Forall quiet_module (module_slots_ self).

Lemma Record_tabled status self : tabled self -> tabled (Record_ status self).
Proof using Type. unfold Record_. by split_if. Qed.

Lemma Record_runtime status self : runtime_ (Record_ status self) = runtime_ self.
Proof using Type. unfold Record_. by split_if. Qed.

Lemma shift_length moves index slots : length (shift moves index slots) = length slots.
Proof using Type. revert index slots. induction moves as [|n IH]; intros index slots; cbn; [done|]. by rewrite IH, length_insert. Qed.

(** Configuring the node leaves runtime and executor alone. *)
Lemma configure_keeps c self w : (forall (cs : c = CInitialize \/ c = CStart \/ c = CShutdown), False) ->
  let '(self', w') := perform c self w in runtime_ self' = runtime_ self /\ phase w' = phase w.
Proof using All.
  intros Hc. destruct c; cbn; try (exfalso; apply Hc; by auto).
  - split; [|done]. unfold AddInfrastructureModule. do 2 (split_if; [cbn [snd]; by rewrite ?Record_runtime|]). done.
  - split; [|done]. unfold AddRegistry, AddRegistrySlot. repeat (split_if; [cbn [snd]; by rewrite ?Record_runtime|]). done.
  - unfold RegisterRemoteRpc. split_if; [done|]. destruct (RpcRouter.AddRemoteClient _ _ _ _).
    by rewrite Record_runtime, (quiet_rpc is_quiet).
  - unfold RegisterHardware. split_if; [done|]. destruct (StaticHardwareManager.Register _ _ _ _ _).
    by rewrite Record_runtime, (quiet_hardware is_quiet).
Qed.

Lemma Initialize_consistent self w : tabled self -> consistent self w ->
  let '(_, self', w') := Initialize self w in tabled self' /\ consistent self' w'.
Proof using All.
  intros Ht Hc. unfold Initialize. destruct (negb _); [done|].
  destruct (bool_decide _ || _) eqn:Hg; [done|]. apply orb_false_iff in Hg as [Hr Hn]. bool_hyps.
  assert (runtime_ self = None) as Hnone by (destruct (runtime_ self); [by destruct Hr|done]).
  unfold consistent in Hc. rewrite Hnone in Hc.
  pose proof (prepare_phase w) as Hp. destruct (exec_Prepare executor w) as [status w1].
  destruct (IsOk status); cbn [negb].
  - destruct Hp as [_ Hp]. assert (of_node (node_config self)) as Hnode.
    { split; [|split; [by apply Forall_take, Ht|done]]. cbn. destruct Ht as (Hl & Hm & _). destruct (module_slots_ self), (module_count_ self); cbn in *; try done; lia. }
    pose proof (runtime_Initialize_phase (node_config self) w1 Hnode) as Hi.
    destruct (Runtime.Initialize _ _ _ _ _ _) as [[status2 run] w2]. destruct (IsOk status2); cbn [negb].
    + destruct Hi as (Hs & Hpos & Hp2). split; [done|]. unfold consistent. cbn. rewrite Hs. split; [done|]. split; [congruence|done].
    + split; [done|]. unfold consistent. cbn. rewrite Hi. split; [done|]. apply shutdown_finishes.
  - split; [done|]. unfold consistent. cbn. rewrite Hnone. destruct Hp as [-> | ->]; [done|right; by right].
Qed.

Lemma Start_consistent self w : tabled self -> consistent self w ->
  let '(_, self', w') := Start self w in tabled self' /\ consistent self' w'.
Proof using All.
  intros Ht Hc. unfold Start. unfold consistent in Hc. destruct (runtime_ self) as [[cfg run]|] eqn:Hrt;
    [|by split; [|unfold consistent; rewrite Hrt]].
  destruct Hc as [Hnode Hc].
  assert (Runtime.state_ run = Runtime.kInitialized -> (0 < Runtime.initialized_module_count_ run)%nat) as Hpos
    by (intros Hs; rewrite Hs in Hc; apply Hc).
  pose proof (runtime_Start_phase cfg run w Hnode Hpos) as Hs.
  destruct (Runtime.Start _ _ _ _) as [[status run1] w1]. destruct (IsOk status).
  - destruct Hs as (Hst & Hst1 & Hp & Hn). rewrite Hst in Hc. destruct Hc as [Hpr Hpos'].
    pose proof (activate_phase w1) as Ha. destruct (exec_Activate executor w1) as [status2 w2].
    destruct (IsOk status2); cbn [negb].
    + split; [done|]. unfold consistent. cbn. rewrite Hst1. split_and!; [done..|apply Ha|lia].
    + destruct Ha as [Ha _]. congruence.
  - split; [done|]. unfold consistent. cbn. split; [done|]. case_bool_decide as Hst.
    + destruct Hs as [-> Hs]. done.
    + by destruct Hs as [-> ->].
Qed.

Lemma Shutdown_consistent self w : tabled self -> consistent self w ->
  let '(self', w') := Shutdown self w in
  tabled self' /\ consistent self' w' /\ finished (phase w') /\ load allocator_ w' = FixedArenaAllocator.init /\
  (state self' = Runtime.kStopped \/ state self' = Runtime.kFailed \/ runtime_ self' = None).
Proof using All.
  intros Ht Hc. unfold Shutdown. unfold consistent in Hc.
  destruct (runtime_ self) as [[cfg run]|] eqn:Hrt.
  - destruct Hc as [Hnode Hc]. pose proof (runtime_Shutdown_state cfg run w) as Hs.
    destruct (Runtime.Shutdown _ _ _ _) as [run1 w1]. destruct Hs as [Hs _].
    pose proof (shutdown_finishes w1) as Hf. unfold consistent, state. cbn. rewrite load_store, (quiet_allocator is_quiet).
    rewrite Hs. split_and!; try done; case_bool_decide; auto.
  - pose proof (shutdown_finishes w) as Hf. unfold consistent. rewrite Hrt, load_store, (quiet_allocator is_quiet).
    split_and!; auto.
Qed.

Lemma AddModule_tabled s self : quiet_module s -> tabled self -> tabled (add_module self s).
Proof using Type.
  intros Hs Ht. unfold add_module, recorded, AddModuleSlot. split_if; [by apply Record_tabled|].
  split_if; [by apply Record_tabled|]. bool_hyps. apply Record_tabled. destruct Ht as (Hl & Hm & Hi & Hq).
  split_and!; cbn; [by rewrite length_insert|lia|lia|by apply Forall_insert].
Qed.

Lemma AddRegistry_tabled registry self : tabled self -> tabled (add_registry self registry) /\
  runtime_ (add_registry self registry) = runtime_ self.
Proof using Type.
  intros Ht. unfold add_registry. destruct registry as [r|]; [|split; [by apply Record_tabled|apply Record_runtime]].
  unfold recorded, AddRegistrySlot.
  repeat (split_if; [split; [by repeat apply Record_tabled|by rewrite !Record_runtime]|]).
  split; [by apply Record_tabled|by rewrite Record_runtime].
Qed.

Lemma make_tabled modules registries : Forall quiet_module modules -> tabled (make modules registries) /\ runtime_ (make modules registries) = None.
Proof using Type.
  intros Hq. unfold make. set (start := Mk _ _ _ _ _ _). assert (tabled start /\ runtime_ start = None) as H.
  { split; [|done]. split_and!; cbn; [by rewrite length_replicate|lia|lia|]. by apply Forall_replicate; split. }
  revert H. generalize start. clear start. intros start H.
  assert (tabled (foldl add_module start modules) /\ runtime_ (foldl add_module start modules) = None) as H'.
  { revert start H. induction Hq as [|s modules Hs Hq IH]; intros start H; cbn [foldl]; [done|]. apply IH.
    destruct H as [Ht Hr]. split; [by apply AddModule_tabled|].
    unfold add_module, recorded, AddModuleSlot. repeat (split_if; [by rewrite Record_runtime|]). by rewrite Record_runtime. }
  revert H'. generalize (foldl add_module start modules), (channel_registry, rpc_registry, hardware_registry).
  generalize ([Some channel_registry; Some rpc_registry; Some hardware_registry] ++ registries).
  intros rs. induction rs as [|r rs IH]; intros self _ H'; cbn [foldl]; [done|]. apply IH; [exact (channel_registry, rpc_registry, hardware_registry)|].
  destruct H' as [Ht Hr]. destruct (AddRegistry_tabled r self Ht) as [? ->]. done.
Qed.

(** The modules an owner adds are quiet too. *)
Definition quiet_call (c : call) : Prop :=
  match c with
  | CAddInfrastructureModule module instance_name =>
      quiet_module (MkModuleSlot (Some (MakeNativeHandle module)) core_ instance_name)
  | _ => True
  end.

Lemma shift_quiet moves index slots : Forall quiet_module slots -> Forall quiet_module (shift moves index slots).
Proof using Type.
  revert index slots. induction moves as [|n IH]; intros index slots H; cbn; [done|]. apply IH, Forall_insert; [done|].
  destruct (slots !! (index - 1)%nat) eqn:Hl; [by eapply Forall_lookup_1|by split].
Qed.

Lemma configure_tabled c self w : quiet_call c -> tabled self -> (forall (cs : c = CInitialize \/ c = CStart \/ c = CShutdown), False) ->
  tabled (perform c self w).1.
Proof using All.
  intros Hqc Ht Hc. destruct c; cbn; try (exfalso; apply Hc; by auto).
  - unfold AddInfrastructureModule. split_if; [done|]. split_if; [by apply Record_tabled|]. bool_hyps.
    destruct Ht as (Hl & Hm & Hi & Hq). split_and!; cbn; [by rewrite length_insert, shift_length|lia|lia|].
    apply Forall_insert; [by apply shift_quiet|done].
  - unfold AddRegistry, AddRegistrySlot. repeat (split_if; [done || by apply Record_tabled|]). done.
  - unfold RegisterRemoteRpc. split_if; [done|]. destruct (RpcRouter.AddRemoteClient _ _ _ _). by apply Record_tabled.
  - unfold RegisterHardware. split_if; [done|]. destruct (StaticHardwareManager.Register _ _ _ _ _). by apply Record_tabled.
Qed.

Lemma perform_consistent c self w : quiet_call c -> tabled self -> consistent self w ->
  let '(self', w') := perform c self w in tabled self' /\ consistent self' w'.
Proof using All.
  intros Hqc Ht Hc.
  assert ((c = CInitialize \/ c = CStart \/ c = CShutdown) \/ ((c = CInitialize \/ c = CStart \/ c = CShutdown) -> False))
    as [Hlife|Hconf] by (destruct c; naive_solver).
  - destruct Hlife as [->|[->| ->]]; cbn.
    + pose proof (Initialize_consistent self w Ht Hc) as H. by destruct (Initialize self w) as [[? ?] ?].
    + pose proof (Start_consistent self w Ht Hc) as H. by destruct (Start self w) as [[? ?] ?].
    + pose proof (Shutdown_consistent self w Ht Hc) as H. destruct (Shutdown self w). by destruct H as (? & ? & _).
  - pose proof (configure_keeps c self w Hconf) as Hk. pose proof (configure_tabled c self w Hqc Ht Hconf) as Ht'.
    destruct (perform c self w) as [self' w']. destruct Hk as [Hr Hp]. split; [done|].
    unfold consistent in *. by rewrite Hr, Hp.
Qed.

Lemma perform_all_consistent calls self w : Forall quiet_call calls -> tabled self -> consistent self w ->
  let '(self', w') := perform_all calls self w in tabled self' /\ consistent self' w'.
Proof using All.
  intros Hall. revert self w. induction Hall as [|c calls Hqc Hall IH]; intros self w Ht Hc; cbn; [done|].
  pose proof (perform_consistent c self w Hqc Ht Hc) as H. destruct (perform c self w) as [self' w'].
  destruct H. by apply IH.
Qed.

Ltac listed := repeat first [left; reflexivity|right].

(** C37: a static node keeps its runtime and its executor together. Whatever calls
    its owner makes, in any order, after it was built with any composition of
    modules that leave its executor's life cycle alone: its runtime is initialized exactly while the executor takes work but runs none,
    and running exactly while the executor runs; it is never left between two
    states. A shutdown leaves the executor finished and the arena empty, whatever
    step of the life cycle was reached or failed. *)
Theorem static_node_consistent modules registries calls w :
  Forall quiet_module modules -> Forall quiet_call calls -> phase w = Zephyr.kConstructed ->
  let '(self, w') := perform_all calls (make modules registries) w in
  (state self = Runtime.kInitialized <-> phase w' = Zephyr.kPrepared) /\
  (state self = Runtime.kRunning <-> phase w' = Zephyr.kRunning) /\
  state self ∈ [Runtime.kConstructed; Runtime.kInitialized; Runtime.kRunning; Runtime.kStopped; Runtime.kFailed] /\
  let '(self2, w2) := Shutdown self w' in
  finished (phase w2) /\ load allocator_ w2 = FixedArenaAllocator.init /\
  state self2 <> Runtime.kInitialized /\ state self2 <> Runtime.kRunning.
Proof using All.
  intros Hqm Hqc Hw. destruct (make_tabled modules registries Hqm) as [Ht Hr].
  assert (consistent (make modules registries) w) as Hc by (unfold consistent; rewrite Hr; auto).
  pose proof (perform_all_consistent calls _ w Hqc Ht Hc) as H.
  destruct (perform_all _ _ _) as [self w']. destruct H as [Ht' Hc'].
  pose proof (Shutdown_consistent self w' Ht' Hc') as Hs. destruct (Shutdown self w') as [self2 w2].
  destruct Hs as (_ & Hc2 & Hf & Ha & Hst). rewrite !elem_of_cons.
  assert (forall s x, consistent s x -> (state s = Runtime.kInitialized <-> phase x = Zephyr.kPrepared) /\
    (state s = Runtime.kRunning <-> phase x = Zephyr.kRunning)) as Hiff.
  { clear. intros s x H. unfold consistent, state, finished in *. destruct (runtime_ s) as [[cfg run]|].
    - destruct H as [_ H]. destruct (Runtime.state_ run); naive_solver congruence.
    - destruct (IsOk (setup_status_ s)); naive_solver congruence. }
  destruct (Hiff _ _ Hc') as [H1 H2]. destruct (Hiff _ _ Hc2) as [H3 H4]. split_and!; try done.
  - unfold consistent, state in *. destruct (runtime_ self) as [[cfg run]|]; [|destruct (IsOk (setup_status_ self)); listed].
    destruct Hc' as [_ Hc']. destruct (Runtime.state_ run); (done || listed).
  - rewrite H3. unfold finished in Hf. naive_solver congruence.
  - rewrite H4. unfold finished in Hf. naive_solver congruence.
Qed.

(** *** The order of the modules *)

Definition modules_of (self : t) : list slot := take (module_count_ self) (module_slots_ self).

Lemma shift_lookup moves index slots j : (moves <= index)%nat -> (index < length slots)%nat ->
  shift moves index slots !! j =
    if bool_decide (index - moves < j <= index)%nat then slots !! (j - 1)%nat else slots !! j.
Proof using Type.
  revert index slots. induction moves as [|moves IH]; intros index slots Hm Hi; cbn [shift].
  - rewrite bool_decide_false by lia. done.
  - rewrite IH by (rewrite ?length_insert; lia). destruct (decide (j = index)) as [->|Hne].
    + rewrite bool_decide_false, bool_decide_true, list_lookup_insert_eq by lia.
      destruct (lookup_lt_is_Some_2 slots (index - 1) ltac:(lia)) as [s Hs]. by rewrite Hs.
    + repeat case_bool_decide; try lia; rewrite ?list_lookup_insert_ne by lia; done.
Qed.

(** An infrastructure module goes behind the ones before it, in front of the
    modules of the composition. *)
Lemma AddInfrastructureModule_order module instance_name self : tabled self ->
  let '(status, self') := AddInfrastructureModule module instance_name self in
  let k := infrastructure_module_count_ self in
  if IsOk status
  then modules_of self' = take k (modules_of self) ++
      [MkModuleSlot (Some (MakeNativeHandle module)) core_ instance_name] ++ drop k (modules_of self) /\
    infrastructure_module_count_ self' = S k
  else modules_of self' = modules_of self.
Proof using Type.
  intros (Hl & Hm & Hi & _). unfold AddInfrastructureModule. split_if; [done|].
  split_if; [cbn; unfold Record_; by split_if|]. bool_hyps. cbn [IsOk]. split; [|done].
  unfold modules_of. cbn [module_count_ module_slots_ set_field].
  set (s := MkModuleSlot _ _ _). set (k := infrastructure_module_count_ self) in *. set (n := module_count_ self) in *.
  set (l := module_slots_ self) in *. apply list_eq. intros j.
  destruct (decide (j < S n)%nat) as [Hj|Hj].
  2:{ rewrite lookup_take_ge by lia. symmetry. apply lookup_ge_None.
      rewrite !length_app, length_drop, !length_take. cbn. lia. }
  rewrite lookup_take_lt by lia. destruct (decide (j = k)) as [->|Hne].
  - rewrite list_lookup_insert_eq by (rewrite shift_length; lia).
    rewrite lookup_app_r by (rewrite !length_take; lia). rewrite !length_take.
    replace (k - (k `min` (n `min` length l)))%nat with 0%nat by lia. done.
  - rewrite list_lookup_insert_ne, shift_lookup by lia. case_bool_decide.
    + rewrite lookup_app_r by (rewrite !length_take; lia). rewrite !length_take.
      replace (j - (k `min` (n `min` length l)))%nat with (S (j - 1 - k)) by lia.
      change (l !! (j - 1)%nat = drop k (take n l) !! (j - 1 - k)%nat).
      rewrite lookup_drop, lookup_take_lt by lia. f_equal. lia.
    + rewrite lookup_app_l by (rewrite !length_take; lia). rewrite !lookup_take_lt by lia. done.
Qed.

End StaticNodeRuntime.
End StaticNodeRuntime.

(** ** Samples *)

Module StaticNodeSamples.
Import StaticNodeRuntime.

Record world := MkWorld {
  w_phase : ZephyrThreadExecutor.State;
  w_rpc : RpcRouter.t;
  w_hardware : StaticHardwareManager.t unit;
  w_arena : FixedArenaAllocator.t
}.

Definition w_executor : ExecutorLifecycle world := MkExecutorLifecycle
  (fun w => if bool_decide (w_phase w = ZephyrThreadExecutor.kConstructed)
    then (kOk, MkWorld ZephyrThreadExecutor.kPrepared (w_rpc w) (w_hardware w) (w_arena w)) else (kInvalidState, w))
  (fun w => if bool_decide (w_phase w = ZephyrThreadExecutor.kPrepared)
    then (kOk, MkWorld ZephyrThreadExecutor.kRunning (w_rpc w) (w_hardware w) (w_arena w)) else (kInvalidState, w))
  (fun w => MkWorld match w_phase w with
      ZephyrThreadExecutor.kFailed => ZephyrThreadExecutor.kFailed | _ => ZephyrThreadExecutor.kStopped end
    (w_rpc w) (w_hardware w) (w_arena w)).

#[global] Instance w_executor_laws : ExecutorLifecycleLaws w_executor w_phase.
Proof. split; intros w; cbn; try done; case_bool_decide; cbn; auto. Qed.

Definition rpc_cell : Cell world RpcRouter.t :=
  MkCell w_rpc (fun r w => MkWorld (w_phase w) r (w_hardware w) (w_arena w)).
Definition hardware_cell : Cell world (StaticHardwareManager.t unit) :=
  MkCell w_hardware (fun h w => MkWorld (w_phase w) (w_rpc w) h (w_arena w)).
Definition arena_cell : Cell world FixedArenaAllocator.t :=
  MkCell w_arena (fun a w => MkWorld (w_phase w) (w_rpc w) (w_hardware w) a).

#[global] Instance arena_cell_laws : CellLaws arena_cell.
Proof. split; try done. by intros []. Qed.

Definition sample_module (name : string) : ModuleBase world unit unit unit unit :=
  MkModuleBase (fun _ => MkModuleInfo name "type" "package" (MkSemanticVersion 1 0 0))
    (fun _ _ w => (Returned kOk, w)) (fun _ w => (Returned kOk, w)) (fun _ w => w).

Definition sample_slot (name : string) : ModuleSlot world unit unit unit unit :=
  MkModuleSlot (Some (MakeNativeHandle (sample_module name))) (fun _ => None) "".

Definition sample_seal (r : nat) (w : world) : Status * world := (kOk, w).

Definition sample_start : world :=
  MkWorld ZephyrThreadExecutor.kConstructed (RpcRouter.make 0%nat) StaticHardwareManager.init FixedArenaAllocator.init.

Definition sample_calls : list (@call world unit unit unit unit nat unit) :=
  [CAddInfrastructureModule (sample_module "transport") "can0"; CInitialize; CStart].

Definition sample_run : t * world :=
  perform_all sample_seal (fun _ _ => false) w_executor rpc_cell hardware_cell arena_cell 4 2 2
    (fun _ => None) [] sample_calls (make 1%nat 2%nat 3%nat 4 [sample_slot "control"] []) sample_start.

Example sample_run_state :
  state sample_run.1 = Runtime.kRunning /\
  (fun s => instance_name_of s sample_run.2) <$> modules_of sample_run.1 = ["can0"; "control"]%string.
Proof. by vm_compute. Qed.

Lemma sample_quiet : quiet sample_seal rpc_cell hardware_cell arena_cell w_phase.
Proof. by split. Qed.

Lemma static_node_consistent_witness :
  w_phase sample_run.2 = ZephyrThreadExecutor.kRunning.
Proof.
  pose proof (static_node_consistent sample_seal (fun _ _ => false) w_executor rpc_cell hardware_cell arena_cell
    1%nat 2%nat 3%nat 4 2 2 (fun _ => None) [] w_phase sample_quiet [sample_slot "control"] [] sample_calls sample_start
    ltac:(repeat constructor) ltac:(repeat constructor) eq_refl) as H.
  fold sample_run in H. destruct sample_run as [self w'] eqn:E. destruct H as (_ & [H _] & _).
  apply H. change self with (self, w').1. rewrite <- E. by vm_compute.
Defined.
End StaticNodeSamples.
