(* ===== verification/LinuxNames.v ===== *)
(** Names of a module instance: [ResolveInstanceName] of
    [platform/linux/name_resolution.hpp], with the part of
    [RuntimeConfig]'s [ModuleConfig] it reads. *)

From stdpp Require Import strings.
From S2P Require Export NameResolver.

Local Open Scope Z_scope.

(** [remap] is a [std::map], in the order of its keys. *)
Record ModuleConfig := MkModuleConfig {
  config_name : string;
  config_name_space : string;
  config_remap : list (string * string)
}.

Abbreviation text := String.list_ascii_of_string.
Abbreviation untext := String.string_of_list_ascii.

Definition remaps_of (config : ModuleConfig) : list NameRemap :=
  (fun rule => MkRemap (text rule.1) (text rule.2)) <$> config_remap config.

(** The buffer is large enough for the expanded name and for every target. *)
Definition capacity_of (config : ModuleConfig) (requested : string) : nat :=
  foldl (fun capacity rule => Nat.max capacity (String.length rule.2))
    (String.length (config_name_space config) + String.length requested + 1)%nat (config_remap config).

Definition resolver_of (config : ModuleConfig) : NameResolver.t :=
  NameResolver.make (text (config_name_space config)) (remaps_of config).

(** Status and output. *)
Definition ResolveInstanceName (config : ModuleConfig) (requested : string) : Status * string :=
  let output := replicate (capacity_of config requested) Ascii.zero in
  let '(status, output, resolved) := NameResolver.Resolve (text requested) output [] (resolver_of config) in
  (status, untext (if IsOk status then take (length resolved) output else output)).

(** ** It resolves every valid name *)

Lemma length_text s : length (text s) = String.length s.
Proof. induction s as [|c s IH]; cbn; [done|by rewrite IH]. Qed.

Lemma foldl_max_ge (rules : list (string * string)) n :
  (n <= foldl (fun capacity rule => Nat.max capacity (String.length rule.2)) n rules)%nat.
Proof. revert n. induction rules as [|r rules IH]; intros n; cbn; [done|]. specialize (IH (n `max` String.length r.2)%nat). lia. Qed.

Lemma foldl_max_in (rules : list (string * string)) n r : r ∈ rules ->
  (String.length r.2 <= foldl (fun capacity rule => Nat.max capacity (String.length rule.2)) n rules)%nat.
Proof.
  revert n. induction rules as [|r' rules IH]; intros n H; [by apply not_elem_of_nil in H|].
  apply elem_of_cons in H as [->|H]; cbn; [|by apply IH].
  pose proof (foldl_max_ge rules (n `max` String.length r'.2)%nat). lia.
Qed.

Lemma take_length_take {A} n (l : list A) : take (length (take n l)) l = take n l.
Proof.
  rewrite length_take. destruct (Nat.min_spec n (length l)) as [[_ ->]|[Hl ->]]; [done|]. by rewrite !take_ge.
Qed.

(** The output views the front of the storage. *)
Lemma Resolve_views name storage output self :
  let '(status, storage', result) := NameResolver.Resolve name storage output self in
  status = kOk -> take (length result) storage' = result.
Proof.
  unfold NameResolver.Resolve. destruct (IsOk (NameResolver.Validate self)) eqn:Hv; cbn [negb].
  2:{ intros Hok. by apply IsOk_false in Hv. }
  split_if; [done|]. split_if; [done|]. destruct (NameResolver.find_remap _ _) as [rule|].
  - split_if; [done|]. intros _. apply take_length_take.
  - intros _. apply take_length_take.
Qed.

Lemma find_remap_in name remaps rule : NameResolver.find_remap name remaps = Some rule -> rule ∈ remaps.
Proof.
  induction remaps as [|r remaps IH]; cbn; [done|]. case_bool_decide; [intros [= ->]; by left|]. intros Hr. right. by apply IH.
Qed.

Lemma ResolveInstanceName_spec config requested :
  NameResolver.Validate (resolver_of config) = kOk -> NameResolver.ValidName (text requested) = true ->
  ResolveInstanceName config requested =
    (kOk, untext (NameResolver.remap (resolver_of config) (NameResolver.expand (resolver_of config) (text requested)))).
Proof.
  intros Hv Hn. unfold ResolveInstanceName. set (output := replicate _ _).
  pose proof (NameResolver.Resolve_spec (text requested) output [] _ Hv Hn) as H.
  pose proof (Resolve_views (text requested) output [] (resolver_of config)) as Hview.
  set (expanded := NameResolver.expand _ _) in *.
  assert (length output = capacity_of config requested) as Hlen by apply length_replicate.
  assert (length expanded <= capacity_of config requested)%nat as He.
  { etrans; [|apply foldl_max_ge]. unfold expanded, NameResolver.expand, resolver_of, NameResolver.make. cbn [NameResolver.namespace_].
    rewrite <- !length_text. destruct (text (config_name_space config)) as [|c ns] eqn:Hns.
    - rewrite bool_decide_true by done. destruct (NameResolver.front_is_slash _); cbn; lia.
    - destruct (NameResolver.front_is_slash _); [cbn; lia|]. case_bool_decide; cbn; rewrite ?length_app; cbn; lia. }
  assert (length (NameResolver.remap (resolver_of config) expanded) <= capacity_of config requested)%nat as Hr.
  { unfold NameResolver.remap. destruct (NameResolver.find_remap _ _) as [rule|] eqn:Hf; [|done].
    apply find_remap_in in Hf. unfold resolver_of, remaps_of in Hf. cbn in Hf.
    apply list_elem_of_fmap in Hf as (r & -> & Hin). cbn. rewrite length_text. by apply foldl_max_in. }
  destruct (NameResolver.Resolve _ _ _ _) as [[status storage'] result]. destruct H as [_ H].
  rewrite (proj2 (Nat.ltb_ge _ _)), (proj2 (Nat.ltb_ge _ _)) in H by lia. destruct H as [-> ->].
  cbn [IsOk]. by rewrite Hview.
Qed.
