(* ===== verification/TicketQueue.v ===== *)
(** The queue of tickets that the channel and call managers of a Linux process
    use of an executor: the interface [TicketQueue] with its laws, which the
    executor of [LinuxExecutor] satisfies, and a family of such queues. *)

From stdpp Require Import gmap.
From S2P Require Export LinuxExecutor.

Local Open Scope Z_scope.

(** ** What an executor promises to the manager

    The tickets that are out, with their work; an executor that was shut down
    runs nothing any more. [q_room n] leaves room for the numbers of [n] more
    tickets. *)
Class TicketQueue (E P : Type) := {
  q_Reserve : P -> E -> Status * Z * E;
  q_TryPost : Z -> P -> ExecutionContext -> E -> Status * E;
  q_ScheduleReserved : Z -> Z -> E -> Status * E;
  q_CancelReserved : Z -> E -> Status * E;
  q_take : Z -> E -> option (P * E);
  q_close : E -> E
}.

Class TicketQueueLaws (E P : Type) `{!TicketQueue E P} := {
  tickets : E -> gmap Z P;
  q_ok : E -> Prop;
  q_room : nat -> E -> Prop;
  room_law n e : q_room (S n) e -> q_room n e;
  reserve_law n item e : q_ok e -> q_room (S n) e ->
    let '(status, ticket, e') := q_Reserve item e in q_ok e' /\ q_room n e' /\
    if IsOk status then tickets e !! ticket = None /\ tickets e' = <[ticket := item]> (tickets e) else e' = e;
  post_law n now item caller e : q_ok e -> q_room (S n) e ->
    let '(status, e') := q_TryPost now item caller e in q_ok e' /\ q_room n e' /\
    if IsOk status then exists ticket, tickets e !! ticket = None /\ tickets e' = <[ticket := item]> (tickets e)
    else e' = e;
  schedule_law ticket at_ns e : q_ok e ->
    let '(_, e') := q_ScheduleReserved ticket at_ns e in q_ok e' /\ tickets e' = tickets e;
  cancel_law ticket e : q_ok e ->
    let '(_, e') := q_CancelReserved ticket e in q_ok e' /\ tickets e' = delete ticket (tickets e);
  take_law now e : q_ok e ->
    match q_take now e with
    | Some (item, e') => q_ok e' /\ exists ticket, tickets e !! ticket = Some item /\ tickets e' = delete ticket (tickets e)
    | None => True
    end;
  close_law e : q_ok e -> q_ok (q_close e) /\ tickets (q_close e) = ∅
}.

(** The executor of [LinuxExecutor] keeps the promise. *)
Section LinuxExecutorQueue.
Import LinuxThreadExecutor.
Context {P : Type} (depth : nat) (depth_bound : Z.of_nat depth < 2 ^ 64).

#[local] Arguments Enqueue : simpl never.

Definition taken (now : Z) (e : t P) : option (P * t P) :=
  match Run_pass now e with
  | (Take entry, e') => (fun item => (item, e')) <$> work entry
  | _ => None
  end.

#[local] Instance linux_queue : TicketQueue (t P) P := {
  q_Reserve item e := Reserve (Some item) 0 e;
  q_TryPost now item caller e := TryPost now (Some item) caller e;
  q_ScheduleReserved := ScheduleReserved;
  q_CancelReserved := CancelReserved;
  q_take := taken;
  q_close e := Shutdown_finish (Shutdown e).2
}.

Definition live_tickets (e : t P) : gmap Z P := if accepting e then snd <$> pending e else ∅.

Definition linux_ok (e : t P) : Prop := if accepting e then wf depth e else True.

Lemma live_insert (m : gmap Z (option Z * P)) k v : snd <$> <[k := v]> m = <[k := v.2]> (snd <$> m : gmap Z P).
Proof using Type. apply fmap_insert. Qed.

Lemma accepting_state (e e' : t P) : state_ e' = state_ e -> accepting e' = accepting e.
Proof using Type. unfold accepting. by intros ->. Qed.

Lemma linux_enqueue_law n item at_ns arm e : linux_ok e -> next_sequence_ e + Z.of_nat (S n) <= UINT64_MAX ->
  let '(status, ticket, e') := Enqueue (Some item) at_ns arm 0 e in linux_ok e' /\ next_sequence_ e' + Z.of_nat n <= UINT64_MAX /\
  if IsOk status then live_tickets e !! ticket = None /\ live_tickets e' = <[ticket := item]> (live_tickets e) else e' = e.
Proof using depth_bound.
  intros Hok Hn. unfold linux_ok, live_tickets in *. destruct (accepting e) eqn:Ha.
  - pose proof (Enqueue_spec depth depth_bound item at_ns arm 0 e Hok ltac:(lia)) as H.
    destruct (Enqueue _ _ _ _ _) as [[status ticket] e']. destruct H as (Hwf & Hs & H).
    rewrite (accepting_state _ _ Hs), Ha. split; [done|]. destruct (IsOk status); [|by destruct H as (_ & -> & _); split; [lia|]].
    destruct H as (_ & _ & _ & Hf & Hn' & ->). rewrite lookup_fmap, Hf, live_insert. split; [lia|done].
  - unfold Enqueue. rewrite Ha. cbn. rewrite Ha. split_and!; [done|lia|done].
Qed.

#[local] Program Instance linux_queue_laws : TicketQueueLaws (t P) P := {
  tickets := live_tickets;
  q_ok := linux_ok;
  q_room n e := next_sequence_ e + Z.of_nat n <= UINT64_MAX
}.
Next Obligation.
  intros n e H. cbn in *. lia.
Qed.
Next Obligation.
  intros n item e Hok Hn. apply (linux_enqueue_law n item 0 false e Hok Hn).
Qed.
Next Obligation.
  intros n now item caller e Hok Hn. pose proof (linux_enqueue_law n item now true e Hok Hn) as H. cbn [q_TryPost linux_queue].
  unfold TryPost, TryPostAt. rewrite bool_decide_false by done. cbn [orb]. split_if; [split_and!; [done|cbn in *; lia|done]|].
  destruct (Enqueue _ _ _ _ _) as [[status ticket] e']. destruct H as (? & ? & H). split_and!; [done|done|].
  destruct (IsOk status); [by exists ticket|done].
Qed.
Next Obligation.
  intros ticket at_ns e Hok. cbn. unfold linux_ok, live_tickets in *. destruct (accepting e) eqn:Ha.
  - pose proof (ScheduleReserved_spec depth ticket at_ns e Hok) as H.
    destruct (ScheduleReserved _ _ _) as [status e']. destruct H as (Hwf & Hs & H). rewrite (accepting_state _ _ Hs), Ha.
    rewrite Ha in H. split; [done|]. destruct (pending e !! ticket) as [[? item]|] eqn:Hp; [|by destruct H as [_ ->]].
    destruct H as [_ ->]. rewrite live_insert. apply insert_id. by rewrite lookup_fmap, Hp.
  - unfold ScheduleReserved. rewrite Ha. cbn. by rewrite Ha.
Qed.
Next Obligation.
  intros ticket e Hok. cbn. unfold linux_ok, live_tickets in *. destruct (accepting e) eqn:Ha.
  - pose proof (CancelReserved_spec depth depth_bound ticket e Hok) as H.
    destruct (CancelReserved _ _) as [status e']. destruct H as (Hwf & Hs & H). rewrite (accepting_state _ _ Hs), Ha.
    rewrite Ha in H. split; [done|]. rewrite <- fmap_delete. destruct (pending e !! ticket) as [[? item]|] eqn:Hp; destruct H as [_ ->]; [done|].
    by rewrite delete_id.
  - unfold CancelReserved. rewrite Ha. cbn. rewrite Ha. by rewrite delete_empty.
Qed.
Next Obligation.
  intros now e Hok. cbn. unfold taken. destruct (bool_decide (state_ e = kRunning)) eqn:Hrun.
  - bool_hyps. assert (accepting e = true) as Ha by (unfold accepting; by rewrite Hrun).
    unfold linux_ok, live_tickets in *. rewrite Ha in *.
    pose proof (Run_pass_spec depth depth_bound now e Hok) as H. destruct (Run_pass now e) as [result e'].
    destruct H as (Hwf & Hs & H). destruct result as [| | |entry]; try done.
    destruct H as (_ & item & Hw & _ & Hfirst & Hp). rewrite Hw. cbn. rewrite (accepting_state _ _ Hs), Ha.
    split; [done|]. exists (sequence entry). rewrite Hp, fmap_delete, lookup_fmap. by rewrite (proj1 Hfirst).
  - unfold Run_pass. by rewrite Hrun.
Qed.
Next Obligation.
  intros e Hok. unfold linux_ok, live_tickets. cbn. unfold accepting. by destruct (state_ e).
Qed.
End LinuxExecutorQueue.

(** ** The executors of a process, by number *)

Section Executors.
Context {E P : Type} `{!TicketQueue E P}.

Definition set_exec (x : nat) (e : E) (execs : nat -> E) : nat -> E := fun y => if (y =? x)%nat then e else execs y.

Lemma set_exec_eq x e es : set_exec x e es x = e.
Proof using Type. unfold set_exec. by rewrite Nat.eqb_refl. Qed.

Lemma set_exec_ne x e es y : y <> x -> set_exec x e es y = es y.
Proof using Type. unfold set_exec. intros H. by destruct (Nat.eqb_spec y x). Qed.

Context `{!TicketQueueLaws E P}.

(** The tickets of [es'] are those of [es] and those of [added]. *)
Definition adds (added : list (nat * Z * P)) (es es' : nat -> E) : Prop :=
  (forall e, q_ok (es' e)) /\
  forall e k i, tickets (es' e) !! k = Some i <-> tickets (es e) !! k = Some i \/ (e, k, i) ∈ added.

Lemma adds_nil es : (forall e, q_ok (es e)) -> adds [] es es.
Proof using Type. split; [done|]. intros e k i. rewrite elem_of_nil. tauto. Qed.

Lemma adds_set added es es' e q : adds added es es' -> q_ok q -> tickets q = tickets (es' e) -> adds added es (set_exec e q es').
Proof using Type.
  intros [Hok Ht] Hq Htq. split.
  - intros e0. destruct (decide (e0 = e)) as [->|?]; [by rewrite set_exec_eq|by rewrite set_exec_ne].
  - intros e0 k i. destruct (decide (e0 = e)) as [->|?]; [rewrite set_exec_eq, Htq; apply Ht|rewrite set_exec_ne by done; apply Ht].
Qed.

Lemma adds_insert added es es' e q k i : adds added es es' -> q_ok q ->
  tickets (es' e) !! k = None -> tickets q = <[k := i]> (tickets (es' e)) ->
  adds (added ++ [(e, k, i)]) es (set_exec e q es').
Proof using Type.
  intros [Hok Ht] Hq Hfresh Htq. split.
  - intros e0. destruct (decide (e0 = e)) as [->|?]; [by rewrite set_exec_eq|by rewrite set_exec_ne].
  - intros e0 k0 i0. rewrite elem_of_app, list_elem_of_singleton, (assoc or), <- Ht.
    destruct (decide (e0 = e)) as [->|?]; [rewrite set_exec_eq, Htq|rewrite set_exec_ne by done; naive_solver].
    destruct (decide (k0 = k)) as [->|?]; [rewrite lookup_insert_eq, Hfresh; naive_solver|].
    rewrite lookup_insert_ne by done. naive_solver.
Qed.
End Executors.
