(* ===== verification/LinuxCalls.v ===== *)
(** Remote calls between the modules of a Linux process: [RpcManager] of
    [platform/linux/rpc_manager.cpp]. Methods that hold the manager's mutex are
    functions; the step relation interleaves them with the workers of the
    executors, which the manager sees through the [TicketQueue] interface. *)

From stdpp Require Import gmap strings.
From S2P Require Export LinuxNames TicketQueue Rpc.

Local Open Scope Z_scope.

(** ** [RpcManager] *)

Module RpcManager.
Section RpcManager.
Context {RawHandler RawCompletion P E : Type}.

(** What the manager posts, with the address of the call, and what others post. *)
Inductive item := InvokeOf (node : nat) | CompleteOf (node : nat) | Other (p : P).

Context `{!TicketQueue E item}.

Definition Key : Type := string * string.

Record Service := MkService {
  descriptor : ServiceDescriptor;
  handler : option RawHandler;
  s_executor : nat;
  clients : nat
}.

(** A call keeps its service by its key; executors are named by numbers. *)
Record Call := MkCall {
  service : Key;
  caller : nat;
  completion : RawCompletion;
  request : list Z;
  response : list Z;
  response_size : nat;
  info : RpcCallInfo;
  ticket : Z;
  status : Status;
  server_done : bool;
  completion_done : bool
}.
#[global] Instance eta_Call : Eta Call := fun c =>
  MkCall (service c) (caller c) (completion c) (request c) (response c) (response_size c) (info c) (ticket c)
    (status c) (server_done c) (completion_done c).

(** [pending] is a list in the order of its keys: every call gets a key above
    the ones before it. *)
Record Impl := MkImpl {
  services : gmap Key Service;
  pending : gmap nat Call;
  next_node : nat;
  sealed : bool;
  accepting : bool;
  next_id : Z
}.
#[global] Instance eta_Impl : Eta Impl := fun m =>
  MkImpl (services m) (pending m) (next_node m) (sealed m) (accepting m) (next_id m).

Definition Impl_init : Impl := MkImpl ∅ ∅ 0 false false 0.

Record Endpoint := MkEndpoint {
  config_ : ModuleConfig;
  executor_ : nat;
  clients_ : gmap Key Key
}.

Definition valid_service (d : ServiceDescriptor) : bool :=
  negb (bool_decide (service_name d = ""%string) || bool_decide (type_name (request_type d) = ""%string) ||
        bool_decide (type_name (response_type d) = ""%string) ||
        (max_serialized_size (request_type d) =? 0) || (max_serialized_size (response_type d) =? 0)).

Definition at_instance (d : ServiceDescriptor) (instance : string) : ServiceDescriptor :=
  MkServiceDescriptor (service_name d) (service_schema_hash d) (request_type d) (response_type d) instance.

(** [Register]: [None] for a client. *)
Definition Register (d : ServiceDescriptor) (server : option RawHandler) (self : Endpoint) (m : Impl)
    : Status * Endpoint * Impl :=
  if sealed m then (kInvalidState, self, m)
  else if negb (valid_service d) then (kInvalidArgument, self, m)
  else
    let requested := if bool_decide (service_instance_name d = ""%string)
                     then config_name (config_ self) else service_instance_name d in
    let '(resolution, instance) := ResolveInstanceName (config_ self) requested in
    if negb (IsOk resolution) then (resolution, self, m)
    else
      let key := (instance, service_name d) in
      let found := default (MkService (at_instance d instance) None 0 0) (services m !! key) in
      let m := m <| services := <[key := found]> (services m) |> in
      if negb (SameService (at_instance d instance) (descriptor found)) then (kTypeMismatch, self, m)
      else match server with
      | Some _ =>
          match handler found with
          | Some _ => (kAlreadyExists, self, m)
          | None =>
              (kOk, self, m <| services := <[key := MkService (descriptor found) server (executor_ self) (clients found)]> (services m) |>)
          end
      | None =>
          let client := (service_instance_name d, service_name d) in
          match clients_ self !! client with
          | Some _ => (kOk, self, m)
          | None =>
              (kOk, MkEndpoint (config_ self) (executor_ self) (<[client := key]> (clients_ self)),
               m <| services := <[key := MkService (descriptor found) (handler found) (s_executor found) (S (clients found))]> (services m) |>)
          end
      end.

Definition RegisterClient (d : ServiceDescriptor) (self : Endpoint) (m : Impl) : Status * Endpoint * Impl :=
  if bool_decide (service_instance_name d = ""%string) then (kInvalidArgument, self, m) else Register d None self m.

Definition RegisterServer (d : ServiceDescriptor) (server : option RawHandler) (self : Endpoint) (m : Impl)
    : Status * Endpoint * Impl :=
  match server with None => (kInvalidArgument, self, m) | Some _ => Register d server self m end.

Definition Seal (clock : bool) (m : Impl) : Status * Impl :=
  if sealed m then (kInvalidState, m)
  else if negb clock then (kUnavailable, m)
  else if bool_decide (map_Forall (fun _ s => clients s = 0%nat \/ handler s <> None) (services m))
  then (kOk, m <| sealed := true |> <| accepting := true |>)
  else (kUnavailable, m).

Definition Close (m : Impl) : Impl := m <| accepting := false |>.

(** *** Calls *)


(** [now] is the clock of the server's executor. *)
Definition CallAsync (d : ServiceDescriptor) (body : list Z) (deadline : Z) (done : option RawCompletion) (context : ExecutionContext)
    (now : Z) (self : Endpoint) (m : Impl) (execs : nat -> E) : Status * Impl * (nat -> E) :=
  if negb (sealed m) || negb (accepting m) then (kInvalidState, m, execs)
  else match done with
  | None => (kInvalidArgument, m, execs)
  | Some done =>
  match (key ← clients_ self !! (service_instance_name d, service_name d); (fun s => (key, s)) <$> services m !! key) with
  | None => (kNotFound, m, execs)
  | Some (key, s) =>
      if negb (SameService (at_instance d (service_instance_name (descriptor s))) (descriptor s)) then (kTypeMismatch, m, execs)
      else if max_serialized_size (request_type d) <? Z.of_nat (length body) then (kCapacityExceeded, m, execs)
      else if negb (deadline =? 0) && (deadline <=? timestamp_ns context) then (kTimeout, m, execs)
      else if bool_decide (handler s = None) then (kUnavailable, m, execs)
      else
        let m := m <| next_id := if next_id m =? UINT32_MAX then 1 else next_id m + 1 |> <| next_node := S (next_node m) |> in
        let node := Nat.pred (next_node m) in
        let '(reserved, number, e) := q_Reserve (CompleteOf node) (execs (executor_ self)) in
        let execs := set_exec (executor_ self) e execs in
        if negb (IsOk reserved) then (reserved, m, execs)
        else
          let '(posted, e) := q_TryPost now (InvokeOf node) context (execs (s_executor s)) in
          let execs := set_exec (s_executor s) e execs in
          if negb (IsOk posted) then
            let '(_, e) := q_CancelReserved number (execs (executor_ self)) in
            (posted, m, set_exec (executor_ self) e execs)
          else
            let execs :=
              if negb (deadline =? 0)
              then set_exec (executor_ self) (q_ScheduleReserved number deadline (execs (executor_ self))).2 execs
              else execs in
            let call := MkCall key (executor_ self) done body
              (zeros (Z.to_nat (max_serialized_size (response_type (descriptor s))))) 0
              (MkRpcCallInfo (next_id m) deadline) number kOk false false in
            (kOk, m <| pending := <[node := call]> (pending m) |>, execs)
  end end.

(** *** The server side, in three stretches; [None] is a call that is gone *)

Definition erase (node : nat) (m : Impl) : Impl := m <| pending := delete node (pending m) |>.
Definition modify (node : nat) (f : Call -> Call) (m : Impl) : Impl := m <| pending := alter f node (pending m) |>.

(** Whether it goes on. *)
Definition Invoke_begin (node : nat) (m : Impl) : option (bool * Impl) :=
  call ← pending m !! node;
  Some (if completion_done call then (false, erase node m) else (true, m)).

(** How a handler ends: its code or an exception, with the size and the bytes it
    wrote. *)
Inductive handled := Returned (code : Z) (size : nat) (bytes : list Z) | Threw (size : nat) (bytes : list Z).

(** [clock] is what [NowNs] answered; status, size and time of the completion. *)
Definition Invoke_handle (node : nat) (timestamp : Z) (answer : handled) (clock : Status * Z) (m : Impl)
    : option (Status * nat * Z * Impl) :=
  call ← pending m !! node;
  let deadline := deadline_ns (info call) in
  let '(result, size, m) :=
    if (deadline =? 0) || (timestamp <? deadline) then
      match answer with
      | Returned code size bytes =>
          (if (length (response call) <? size)%nat then kProtocolError else FromAbiStatus code, size,
           modify node (fun c => c <| response := bytes |>) m)
      | Threw size bytes => (kInternal, size, modify node (fun c => c <| response := bytes |>) m)
      end
    else (kTimeout, 0%nat, m) in
  let '(clock_status, now) := clock in
  let result :=
    if negb (IsOk clock_status) then clock_status
    else if negb (deadline =? 0) && (deadline <=? now) then kTimeout else result in
  Some (result, size, if IsOk clock_status then now else timestamp, m).

Definition Invoke_end (node : nat) (result : Status) (size : nat) (at_ns : Z) (m : Impl) (execs : nat -> E)
    : option (Impl * (nat -> E)) :=
  call ← pending m !! node;
  Some (if completion_done call then (erase node m, execs)
        else
          (modify node (fun c => c <| server_done := true |> <| status := result |>
             <| response_size := if IsOk result then size else 0%nat |>) m,
           set_exec (caller call) (q_ScheduleReserved (ticket call) at_ns (execs (caller call))).2 execs)).

(** *** The completion, in three stretches *)

Definition Complete_begin (node : nat) (timestamp : Z) (m : Impl) : option (Status * nat) :=
  call ← pending m !! node;
  let result := if server_done call then status call else kTimeout in
  let deadline := deadline_ns (info call) in
  let result := if negb (deadline =? 0) && (deadline <=? timestamp) then kTimeout else result in
  Some (result, if IsOk result then response_size call else 0%nat).

(** What the callback is given. *)
Definition Complete_call (node : nat) (result : Status) (size : nat) (m : Impl) : option (RawCompletion * Status * list Z) :=
  call ← pending m !! node;
  Some (completion call, result, take size (response call)).

Definition Complete_end (node : nat) (m : Impl) : option Impl :=
  call ← pending m !! node;
  Some (if server_done call then erase node m else modify node (fun c => c <| completion_done := true |>) m).

(** The loop of [CancelPending]: the completions that are told [kCancelled]. *)
Definition unfinished (m : Impl) (node : nat) : bool :=
  match pending m !! node with Some call => negb (completion_done call) | None => false end.

Definition CancelPending (m : Impl) : list nat * Impl :=
  (filter (fun node => unfinished m node = true) (seq 0 (next_node m)), m <| pending := ∅ |>).

(** ** The system

    What a worker does with a call it took from its executor. *)
Inductive activity :=
  | Invoking (node : nat) (timestamp : Z)
  | Serving (node : nat) (timestamp : Z)
  | Handled (node : nat) (result : Status) (size : nat) (at_ns : Z)
  | Completing (node : nat) (timestamp : Z)
  | Calling (node : nat) (result : Status) (size : nat)
  | Called (node : nat).

(** [completions] lists the calls whose completion was called, with what it was
    told; [accepted] the calls that were accepted. *)
Record system := MkSystem {
  impl : Impl;
  execs : nat -> E;
  active : gmap nat activity;
  completions : list (nat * Status);
  accepted : list nat
}.
#[global] Instance eta_system : Eta system := fun x =>
  MkSystem (impl x) (execs x) (active x) (completions x) (accepted x).

(** One step of worker [w]: the outside code it runs answers [answer], the clock
    [clock]; [None] is an access to a call that is gone. *)
Definition work (w : nat) (answer : handled) (clock : Status * Z) (x : system) : option system :=
  match active x !! w with
  | None => Some x
  | Some (Invoking node timestamp) =>
      '(go, m) ← Invoke_begin node (impl x);
      Some (x <| impl := m |>
              <| active := if go : bool then <[w := Serving node timestamp]> (active x) else delete w (active x) |>)
  | Some (Serving node timestamp) =>
      '(result, size, at_ns, m) ← Invoke_handle node timestamp answer clock (impl x);
      Some (x <| impl := m |> <| active := <[w := Handled node result size at_ns]> (active x) |>)
  | Some (Handled node result size at_ns) =>
      '(m, es) ← Invoke_end node result size at_ns (impl x) (execs x);
      Some (x <| impl := m |> <| execs := es |> <| active := delete w (active x) |>)
  | Some (Completing node timestamp) =>
      '(result, size) ← Complete_begin node timestamp (impl x);
      Some (x <| active := <[w := Calling node result size]> (active x) |>)
  | Some (Calling node result size) =>
      '(_, result, _) ← Complete_call node result size (impl x);
      Some (x <| active := <[w := Called node]> (active x) |> <| completions := completions x ++ [(node, result)] |>)
  | Some (Called node) =>
      m ← Complete_end node (impl x);
      Some (x <| impl := m |> <| active := delete w (active x) |>)
  end.

(** What a worker begins with an item. *)
Definition begins (i : item) (timestamp : Z) : option activity :=
  match i with
  | InvokeOf node => Some (Invoking node timestamp)
  | CompleteOf node => Some (Completing node timestamp)
  | Other _ => None
  end.

Context `{!TicketQueueLaws E item}.

Definition quiescent (x : system) : Prop := active x = ∅ /\ forall e, tickets (execs x e) = ∅.

Inductive step : system -> system -> Prop :=
  | step_register x d server self : step x (x <| impl := (Register d server self (impl x)).2 |>)
  | step_seal x clock : step x (x <| impl := (Seal clock (impl x)).2 |>)
  | step_close x : step x (x <| impl := Close (impl x) |>)
  | step_call x d body deadline done context now self status m es :
      (forall e, q_room 2 (execs x e)) ->
      CallAsync d body deadline done context now self (impl x) (execs x) = (status, m, es) ->
      step x (x <| impl := m |> <| execs := es |>
                <| accepted := if IsOk status then accepted x ++ [next_node (impl x)] else accepted x |>)
  | step_post x p e now context : q_room 1 (execs x e) ->
      step x (x <| execs := set_exec e (q_TryPost now (Other p) context (execs x e)).2 (execs x) |>)
  | step_take x w e now i e' timestamp : active x !! w = None -> q_take now (execs x e) = Some (i, e') ->
      step x (x <| execs := set_exec e e' (execs x) |>
                <| active := match begins i timestamp with Some a => <[w := a]> (active x) | None => active x end |>)
  | step_work x w answer clock y : work w answer clock x = Some y -> step x y
  | step_shutdown x e : step x (x <| execs := set_exec e (q_close (execs x e)) (execs x) |>)
  | step_cancel x : quiescent x ->
      step x (x <| impl := (CancelPending (impl x)).2 |>
                <| completions := completions x ++ ((fun node => (node, kCancelled)) <$> (CancelPending (impl x)).1) |>).

Definition init (es : nat -> E) : system := MkSystem Impl_init es ∅ [] [].

Definition reachable (x : system) : Prop :=
  exists es, (forall e, q_ok (es e) /\ tickets (es e) = ∅) /\ rtc step (init es) x.

(** ** The invariant

    Where the two halves of a call are: a ticket of an executor, or a worker. *)
Inductive place := Ticket (e : nat) (number : Z) | Worker (w : nat).

Definition invokes (a : activity) : option nat :=
  match a with Invoking node _ | Serving node _ | Handled node _ _ _ => Some node | _ => None end.
Definition completes (a : activity) : option nat :=
  match a with Completing node _ | Calling node _ _ | Called node => Some node | _ => None end.

Definition invoke_at (es : nat -> E) (ac : gmap nat activity) (node : nat) (p : place) : Prop :=
  match p with
  | Ticket e number => tickets (es e) !! number = Some (InvokeOf node)
  | Worker w => exists a, ac !! w = Some a /\ invokes a = Some node
  end.
Definition complete_at (es : nat -> E) (ac : gmap nat activity) (node : nat) (p : place) : Prop :=
  match p with
  | Ticket e number => tickets (es e) !! number = Some (CompleteOf node)
  | Worker w => exists a, ac !! w = Some a /\ completes a = Some node
  end.

Definition told (x : system) : list nat := (completions x).*1.
Definition called (ac : gmap nat activity) (node : nat) (p : place) : Prop :=
  exists w, p = Worker w /\ ac !! w = Some (Called node).

Record inv (x : system) : Prop := {
  i_ok e : q_ok (execs x e);
  i_invoke node p : invoke_at (execs x) (active x) node p ->
    exists call, pending (impl x) !! node = Some call /\ server_done call = false;
  i_invoke_one node p p' : invoke_at (execs x) (active x) node p -> invoke_at (execs x) (active x) node p' -> p = p';
  i_complete node p : complete_at (execs x) (active x) node p ->
    (exists call, pending (impl x) !! node = Some call /\ completion_done call = false) /\
    (node ∈ told x <-> called (active x) node p);
  i_complete_one node p p' : complete_at (execs x) (active x) node p -> complete_at (execs x) (active x) node p' -> p = p';
  i_pending node call : pending (impl x) !! node = Some call -> node ∈ accepted x /\
    (completion_done call = true -> node ∈ told x) /\
    (completion_done call = false -> node ∈ told x -> exists w, active x !! w = Some (Called node));
  i_told node : node ∈ told x -> node ∈ accepted x;
  i_told_once : NoDup (told x);
  i_accepted node : node ∈ accepted x -> (node < next_node (impl x))%nat /\ (node ∈ told x \/ is_Some (pending (impl x) !! node));
  i_accepted_once : NoDup (accepted x)
}.

Lemma rpc_inv_frame x y : inv x ->
  pending (impl y) = pending (impl x) -> (next_node (impl x) <= next_node (impl y))%nat ->
  (forall e, q_ok (execs y e)) ->
  active y = active x -> completions y = completions x -> accepted y = accepted x ->
  (forall e number node, tickets (execs y e) !! number = Some (InvokeOf node) -> tickets (execs x e) !! number = Some (InvokeOf node)) ->
  (forall e number node, tickets (execs y e) !! number = Some (CompleteOf node) -> tickets (execs x e) !! number = Some (CompleteOf node)) ->
  inv y.
Proof using Type.
  intros I Hp Hn Hok Ha Hc Hacc Hi Hco.
  assert (forall node p, invoke_at (execs y) (active y) node p -> invoke_at (execs x) (active x) node p) as Hi'
    by (intros node [e number|w]; cbn; rewrite ?Ha; auto).
  assert (forall node p, complete_at (execs y) (active y) node p -> complete_at (execs x) (active x) node p) as Hco'
    by (intros node [e number|w]; cbn; rewrite ?Ha; auto).
  destruct I. unfold told in *. split; unfold told; rewrite ?Hp, ?Ha, ?Hc, ?Hacc in *; eauto.
  intros node H. destruct (i_accepted0 node H). split; [lia|done].
Qed.

(** Holders move along [f], calls keep their flags. *)
Definition same_flags (m m' : gmap nat Call) : Prop :=
  forall node, match m !! node, m' !! node with
    | Some call, Some call' => server_done call' = server_done call /\ completion_done call' = completion_done call
    | None, None => True
    | _, _ => False
    end.

Lemma same_flags_refl m : same_flags m m.
Proof using Type. intros node. by destruct (m !! node). Qed.

Lemma same_flags_some m m' node call' : same_flags m m' -> m' !! node = Some call' ->
  exists call, m !! node = Some call /\ server_done call' = server_done call /\ completion_done call' = completion_done call.
Proof using Type. intros Hf Hn. specialize (Hf node). rewrite Hn in Hf. destruct (m !! node) as [call|]; [by exists call|done]. Qed.

Lemma same_flags_some' m m' node call : same_flags m m' -> m !! node = Some call ->
  exists call', m' !! node = Some call' /\ server_done call' = server_done call /\ completion_done call' = completion_done call.
Proof using Type. intros Hf Hn. specialize (Hf node). rewrite Hn in Hf. destruct (m' !! node) as [call'|]; [by exists call'|done]. Qed.

Lemma rpc_inv_move (f : place -> place) x y : inv x ->
  same_flags (pending (impl x)) (pending (impl y)) -> next_node (impl y) = next_node (impl x) ->
  (forall e, q_ok (execs y e)) -> completions y = completions x -> accepted y = accepted x ->
  (forall node p, invoke_at (execs y) (active y) node p -> invoke_at (execs x) (active x) node (f p)) ->
  (forall node p, complete_at (execs y) (active y) node p -> complete_at (execs x) (active x) node (f p) /\
     (called (active y) node p <-> called (active x) node (f p))) ->
  (forall p p' node, invoke_at (execs y) (active y) node p \/ complete_at (execs y) (active y) node p ->
     invoke_at (execs y) (active y) node p' \/ complete_at (execs y) (active y) node p' -> f p = f p' -> p = p') ->
  (forall node w, active x !! w = Some (Called node) -> exists w', active y !! w' = Some (Called node)) ->
  inv y.
Proof using Type.
  intros I Hf Hn Hok Hc Hacc Hi Hco Hinj Hcalled. unfold told in *.
  split; unfold told; rewrite ?Hc, ?Hacc, ?Hn; try apply I; try done.
  - intros node p Hp. apply Hi in Hp. destruct (i_invoke x I _ _ Hp) as (call & Hcall & Hsd).
    destruct (same_flags_some' _ _ _ _ Hf Hcall) as (call' & Hcall' & Hs & _). exists call'. split; [done|congruence].
  - intros node p p' Hp Hp'. apply (Hinj p p' node); [by left|by left|].
    apply (i_invoke_one x I node); by apply Hi.
  - intros node p Hp. destruct (Hco node p Hp) as [Hp' Hcal]. destruct (i_complete x I _ _ Hp') as [(call & Hcall & Hcd) Ht].
    destruct (same_flags_some' _ _ _ _ Hf Hcall) as (call' & Hcall' & _ & Hs). split; [exists call'; split; [done|congruence]|].
    unfold told in Ht. by rewrite Ht, Hcal.
  - intros node p p' Hp Hp'. apply (Hinj p p' node); [by right|by right|].
    apply (i_complete_one x I node); by apply Hco.
  - intros node call' Hcall'. destruct (same_flags_some _ _ _ _ Hf Hcall') as (call & Hcall & _ & Hs).
    destruct (i_pending x I node call Hcall) as (Ha & Hd & Hnd). rewrite Hs. split_and!; [done|done|].
    intros H1 H2. destruct (Hnd H1 H2) as [w Hw]. eauto.
  - intros node Hin. destruct (i_accepted x I node Hin) as [Hlt [Ht|[call Hcall]]]; (split; [done|]); [by left|right].
    destruct (same_flags_some' _ _ _ _ Hf Hcall) as (call' & Hcall' & _). eauto.
Qed.

Lemma same_flags_modify m node f : (forall c, server_done (f c) = server_done c /\ completion_done (f c) = completion_done c) ->
  same_flags (pending m) (pending (modify node f m)).
Proof using Type.
  intros Hf n. cbn. destruct (decide (n = node)) as [->|Hne].
  - rewrite lookup_alter_eq. destruct (pending m !! node); cbn; [apply Hf|done].
  - rewrite lookup_alter_ne by done. apply same_flags_refl.
Qed.

(** A worker stays with its call. *)
Lemma rpc_inv_stays w a a' m x : inv x -> active x !! w = Some a -> invokes a' = invokes a -> completes a' = completes a ->
  (forall node, a <> Called node) -> (forall node, a' <> Called node) ->
  same_flags (pending (impl x)) (pending m) -> next_node m = next_node (impl x) ->
  inv (x <| impl := m |> <| active := <[w := a']> (active x) |>).
Proof using Type.
  intros I Ha Hi Hc Hna Hna' Hf Hn. apply (rpc_inv_move id x); cbn; try done; [apply I| | |].
  - intros node [e number|w']; cbn; [done|]. intros (b & Hb & Hinv). destruct (decide (w' = w)) as [->|Hne].
    + rewrite lookup_insert_eq in Hb. simplify_eq. exists a. by rewrite <- Hi.
    + rewrite lookup_insert_ne in Hb by done. eauto.
  - intros node [e number|w']; cbn; [intros Ht; split; [done|]; split; intros (? & ? & _); done|].
    intros (b & Hb & Hinv). unfold called. destruct (decide (w' = w)) as [->|Hne].
    + rewrite lookup_insert_eq in Hb. simplify_eq. split; [exists a; by rewrite <- Hc|].
      split; intros (w2 & [= <-] & Hl); exfalso; [rewrite lookup_insert_eq in Hl|rewrite Ha in Hl]; injection Hl as Hl; [by eapply Hna'|by eapply Hna].
    + rewrite lookup_insert_ne in Hb by done. split; [eauto|].
      split; intros (w2 & Hw2 & Hl); simplify_eq; exists w2; split; try done;
        [by rewrite lookup_insert_ne in Hl|by rewrite lookup_insert_ne].
  - intros node w' Hw'. exists w'. rewrite lookup_insert_ne; [done|]. intros ->. rewrite Ha in Hw'. simplify_eq. by eapply Hna.
Qed.

(** A worker is through with its half of the call. *)
Lemma rpc_inv_leave w a node call m es x : inv x -> active x !! w = Some a ->
  pending (impl x) !! node = Some call ->
  (forall e, q_ok (es e) /\ tickets (es e) = tickets (execs x e)) -> next_node m = next_node (impl x) ->
  (forall n, n <> node -> pending m !! n = pending (impl x) !! n) ->
  (invokes a = Some node /\
     match pending m !! node with
     | None => completion_done call = true
     | Some call' => completion_done call' = completion_done call
     end) \/
  (a = Called node /\
     match pending m !! node with
     | None => server_done call = true
     | Some call' => completion_done call' = true /\ server_done call' = server_done call
     end) ->
  inv (x <| impl := m |> <| execs := es |> <| active := delete w (active x) |>).
Proof using Type.
  intros I Ha Hcall Hes Hn Hother Hcase.
  assert (forall n p, invoke_at es (delete w (active x)) n p -> invoke_at (execs x) (active x) n p /\ p <> Worker w) as Hi.
  { intros n [e number|w']; cbn; [destruct (Hes e) as [_ ->]; done|]. intros (b & Hb & ?).
    destruct (decide (w' = w)) as [->|Hne]; [by rewrite lookup_delete_eq in Hb|].
    rewrite lookup_delete_ne in Hb by done. split; [eauto|congruence]. }
  assert (forall n p, complete_at es (delete w (active x)) n p -> complete_at (execs x) (active x) n p /\ p <> Worker w) as Hco.
  { intros n [e number|w']; cbn; [destruct (Hes e) as [_ ->]; done|]. intros (b & Hb & ?).
    destruct (decide (w' = w)) as [->|Hne]; [by rewrite lookup_delete_eq in Hb|].
    rewrite lookup_delete_ne in Hb by done. split; [eauto|congruence]. }
  assert (forall n p, p <> Worker w -> called (delete w (active x)) n p <-> called (active x) n p) as Hcal.
  { intros n p Hp. split; intros (w' & -> & Hl); exists w'; split; try done; [apply lookup_delete_Some in Hl; tauto|].
    rewrite lookup_delete_ne; [done|congruence]. }
  assert (a = Called node -> node ∈ told x) as Htold.
  { intros ->. assert (complete_at (execs x) (active x) node (Worker w)) as H by (cbn; eauto).
    apply (proj2 (i_complete x I node _ H)). by exists w. }
  assert (completion_done call = true -> node ∈ told x) as Htold' by (intros H; by apply (proj1 (proj2 (i_pending x I node call Hcall)))).
  split; unfold told; cbn; try apply I.
  - intros e. by destruct (Hes e).
  - intros n p Hp. apply Hi in Hp as [Hp Hpw]. destruct (i_invoke x I n p Hp) as (c & Hc & Hs).
    destruct (decide (n = node)) as [->|Hne]; [|rewrite Hother by done; eauto].
    destruct Hcase as [[Hinv _]|[-> Hm]].
    + exfalso. apply Hpw, (i_invoke_one x I node); [done|]. cbn. eauto.
    + simplify_eq. destruct (pending m !! node) as [call'|]; [|congruence]. exists call'. split; [done|]. destruct Hm. congruence.
  - intros n p p' Hp Hp'. apply Hi in Hp as [Hp _]. apply Hi in Hp' as [Hp' _]. by apply (i_invoke_one x I n).
  - intros n p Hp. apply Hco in Hp as [Hp Hpw]. rewrite (Hcal n p Hpw).
    destruct (i_complete x I n p Hp) as [(c & Hc & Hs) Ht]. split; [|exact Ht].
    destruct (decide (n = node)) as [->|Hne]; [|rewrite Hother by done; eauto].
    destruct Hcase as [[_ Hm]|[-> _]].
    + simplify_eq. destruct (pending m !! node) as [call'|]; [|congruence]. exists call'. split; [done|congruence].
    + exfalso. apply Hpw, (i_complete_one x I node); [done|]. cbn. eauto.
  - intros n p p' Hp Hp'. apply Hco in Hp as [Hp _]. apply Hco in Hp' as [Hp' _]. by apply (i_complete_one x I n).
  - intros n c Hc. destruct (decide (n = node)) as [->|Hne].
    + destruct (i_pending x I node call Hcall) as (H1 & H2 & H3). split; [done|]. rewrite Hc in Hcase.
      destruct Hcase as [[Hinv Hm]|[Hcalled [Hm _]]].
      * rewrite Hm. split; [done|]. intros H4 H5. destruct (H3 H4 H5) as [w' Hw']. exists w'. rewrite lookup_delete_ne; [done|].
        intros <-. rewrite Ha in Hw'. by simplify_eq.
      * rewrite Hm. split; [by intros _; apply Htold|done].
    + rewrite Hother in Hc by done. destruct (i_pending x I n c Hc) as (H1 & H2 & H3). split_and!; [done|done|].
      intros H4 H5. destruct (H3 H4 H5) as [w' Hw']. exists w'. rewrite lookup_delete_ne; [done|]. intros <-.
      rewrite Ha in Hw'. simplify_eq. destruct Hcase as [[Hinv _]|[Heq _]]; [done|congruence].
  - intros n Hin. rewrite Hn. destruct (i_accepted x I n Hin) as [Hlt Hor]. split; [done|].
    destruct Hor as [Hor|Hor]; [by left|]. destruct (decide (n = node)) as [->|Hne]; [|right; by rewrite Hother].
    destruct (pending m !! node) eqn:Hm; [right; eauto|left].
    destruct Hcase as [[_ H]|[H _]]; auto.
Qed.

(** A completion is called. *)
Lemma rpc_inv_told w node result size x : inv x -> active x !! w = Some (Calling node result size) ->
  inv (x <| active := <[w := Called node]> (active x) |> <| completions := completions x ++ [(node, result)] |>).
Proof using Type.
  intros I Ha.
  assert (complete_at (execs x) (active x) node (Worker w)) as Hw by (cbn; eauto).
  destruct (i_complete x I node _ Hw) as [(call & Hcall & Hcd) Ht].
  assert (node ∉ told x) as Hnot by (intros H; apply Ht in H as (w' & [= <-] & H); congruence).
  destruct (i_pending x I node call Hcall) as (Hacc & _ & _).
  assert (forall n p, invoke_at (execs x) (<[w := Called node]> (active x)) n p -> invoke_at (execs x) (active x) n p) as Hi.
  { intros n [e number|w']; cbn; [done|]. intros (b & Hb & Hinv). destruct (decide (w' = w)) as [->|Hne].
    - rewrite lookup_insert_eq in Hb. by simplify_eq.
    - rewrite lookup_insert_ne in Hb by done. eauto. }
  assert (forall n p, complete_at (execs x) (<[w := Called node]> (active x)) n p -> complete_at (execs x) (active x) n p) as Hco.
  { intros n [e number|w']; cbn; [done|]. intros (b & Hb & Hinv). destruct (decide (w' = w)) as [->|Hne].
    - rewrite lookup_insert_eq in Hb. simplify_eq. cbn in Hinv. simplify_eq. eauto.
    - rewrite lookup_insert_ne in Hb by done. eauto. }
  assert (forall n, n ∈ told (x <| completions := completions x ++ [(node, result)] |>) <-> n ∈ told x \/ n = node) as Hin.
  { intros n. unfold told. cbn. rewrite fmap_app, elem_of_app. cbn. by rewrite list_elem_of_singleton. }
  assert (forall n w', n <> node -> <[w := Called node]> (active x) !! w' = Some (Called n) <-> active x !! w' = Some (Called n)) as Hsame.
  { intros n w' Hn. destruct (decide (w' = w)) as [->|Hne]; [|by rewrite lookup_insert_ne].
    rewrite lookup_insert_eq, Ha. split; intros; simplify_eq. }
  split; cbn; try apply I; unfold told in *; cbn in *.
  - intros n p Hp. apply (i_invoke x I n p). auto.
  - intros n p p' Hp Hp'. apply (i_invoke_one x I n); auto.
  - intros n p Hp. apply Hco in Hp. destruct (i_complete x I n p Hp) as [He Htn]. split; [exact He|].
    rewrite Hin. unfold told in Htn. rewrite Htn. destruct (decide (n = node)) as [->|Hne].
    + assert (p = Worker w) as -> by (by apply (i_complete_one x I node)).
      split; [|by right]. intros _. exists w. by rewrite lookup_insert_eq.
    + unfold called. split; [intros [(w' & -> & Hl)|?]; [|done]; exists w'; split; [done|by apply Hsame]|].
      intros (w' & -> & Hl). left. exists w'. split; [done|]. by apply Hsame.
  - intros n p p' Hp Hp'. apply (i_complete_one x I n); auto.
  - intros n c Hc. destruct (i_pending x I n c Hc) as (H1 & H2 & H3). rewrite Hin. split_and!; [done|tauto|].
    intros H4 H5. destruct (decide (n = node)) as [->|Hne]; [exists w; by rewrite lookup_insert_eq|].
    destruct H5 as [H5|?]; [|done]. destruct (H3 H4 H5) as [w' Hw']. exists w'. by apply Hsame.
  - intros n H. apply Hin in H as [H| ->]; [by apply (i_told x I)|done].
  - rewrite fmap_app. apply NoDup_app. split_and!; [apply I| |apply NoDup_singleton].
    intros n H1 H2. apply list_elem_of_singleton in H2 as ->. done.
  - intros n H. destruct (i_accepted x I n H) as [Hlt Hor]. rewrite Hin. tauto.
Qed.

#[global] Instance place_eq_dec : EqDecision place.
Proof using Type. solve_decision. Defined.

(** A worker takes an item. *)
Lemma rpc_inv_take w e number i e' timestamp x : inv x -> active x !! w = None ->
  tickets (execs x e) !! number = Some i -> q_ok e' -> tickets e' = delete number (tickets (execs x e)) ->
  inv (x <| execs := set_exec e e' (execs x) |>
         <| active := match begins i timestamp with Some a => <[w := a]> (active x) | None => active x end |>).
Proof using Type.
  intros I Hw Hi Hok He'.
  set (es := set_exec e e' (execs x)).
  assert (forall e0 k, tickets (es e0) !! k = if bool_decide (e0 = e /\ k = number) then None else tickets (execs x e0) !! k) as Hes.
  { intros e0 k. unfold es, set_exec. destruct (Nat.eqb_spec e0 e) as [->|Hne].
    - rewrite He'. destruct (decide (k = number)) as [->|Hk].
      + rewrite bool_decide_true by done. apply lookup_delete_eq.
      + rewrite bool_decide_false by tauto. by apply lookup_delete_ne.
    - rewrite bool_decide_false by tauto. done. }
  assert (forall e0, q_ok (es e0)) as Hok'.
  { intros e0. unfold es, set_exec. destruct (e0 =? e)%nat; [done|apply I]. }
  destruct (begins i timestamp) as [a|] eqn:Hb.
  2:{ apply (rpc_inv_frame x); cbn; try done; intros e0 k node; rewrite Hes; by case_bool_decide. }
  apply (rpc_inv_move (fun p => if decide (p = Worker w) then Ticket e number else p) x); cbn; try done.
  - apply same_flags_refl.
  - intros node [e0 k|w']; cbn.
    + rewrite Hes. by case_bool_decide.
    + intros (b & Hbw & Hinv). destruct (decide (Worker w' = Worker w)) as [[= ->]|Hne].
      * rewrite lookup_insert_eq in Hbw. destruct i; simplify_eq/=. done.
      * rewrite lookup_insert_ne in Hbw by congruence. cbn. eauto.
  - intros node [e0 k|w']; cbn.
    + rewrite Hes. case_bool_decide; [done|]. intros H0. split; [done|]. split; intros (? & ? & _); done.
    + intros (b & Hbw & Hinv). unfold called. destruct (decide (Worker w' = Worker w)) as [[= ->]|Hne].
      * rewrite lookup_insert_eq in Hbw. destruct i; simplify_eq/=. split; [done|].
        split; intros (w2 & ? & Hl); simplify_eq. by rewrite lookup_insert_eq in Hl.
      * rewrite lookup_insert_ne in Hbw by congruence. cbn. split; [eauto|].
        split; intros (w2 & [= <-] & Hl); exists w'; (split; [done|]);
          [by rewrite lookup_insert_ne in Hl by congruence|by rewrite lookup_insert_ne by congruence].
  - assert (forall node, invoke_at es (<[w := a]> (active x)) node (Ticket e number) \/
      complete_at es (<[w := a]> (active x)) node (Ticket e number) -> False) as Hgone.
    { intros node. cbn. rewrite Hes, bool_decide_true by done. by intros [?|?]. }
    intros p p' node Hp Hp' Heq. destruct (decide (p = Worker w)) as [->|Hne], (decide (p' = Worker w)) as [->|Hne'];
      try done; subst; exfalso; eauto.
  - intros node w' Hl. exists w'. rewrite lookup_insert_ne; [done|congruence].
Qed.

(** What is left is cancelled once no worker and no ticket holds a call. *)
Lemma rpc_inv_cancel x : inv x -> quiescent x ->
  inv (x <| impl := (CancelPending (impl x)).2 |>
         <| completions := completions x ++ ((fun node => (node, kCancelled)) <$> (CancelPending (impl x)).1) |>).
Proof using Type.
  intros I [Hac Htk].
  set (left := filter (fun node => unfinished (impl x) node = true) (seq 0 (next_node (impl x)))).
  assert (forall node, ~ exists w, active x !! w = Some (Called node)) as Hno.
  { intros node [w Hw]. rewrite Hac in Hw. done. }
  assert (forall node, node ∈ left <-> exists call, pending (impl x) !! node = Some call /\ completion_done call = false) as Hleft.
  { intros node. unfold left, unfinished. rewrite list_elem_of_filter. split.
    - intros [H _]. destruct (pending (impl x) !! node) as [call|]; [|done]. exists call. split; [done|].
      by destruct (completion_done call).
    - intros (call & Hc & Hd). rewrite Hc, Hd. split; [done|]. apply elem_of_seq.
      destruct (i_pending x I node call Hc) as [Ha _]. destruct (i_accepted x I node Ha). lia. }
  assert (forall node, node ∈ told x ++ left <-> node ∈ told x \/ node ∈ left) as Hin by (intros; apply elem_of_app).
  assert (told x ++ left = (completions x ++ ((fun node => (node, kCancelled)) <$> left)).*1) as Heq.
  { unfold told. rewrite fmap_app, <- list_fmap_compose. f_equal. symmetry. apply list_fmap_id. }
  assert (forall node p, ~ invoke_at (execs x) (active x) node p) as Hi.
  { intros node [e k|w]; cbn; rewrite ?Htk, ?Hac; [by rewrite lookup_empty|]. intros (? & ? & _). done. }
  assert (forall node p, ~ complete_at (execs x) (active x) node p) as Hco.
  { intros node [e k|w]; cbn; rewrite ?Htk, ?Hac; [by rewrite lookup_empty|]. intros (? & ? & _). done. }
  split; unfold told; cbn; fold left; rewrite <- ?Heq; try apply I.
  - intros node p Hp. by destruct (Hi node p).
  - intros node p Hp. by destruct (Hco node p).
  - intros node call Hc. by rewrite lookup_empty in Hc.
  - intros node H. apply Hin in H as [H|H]; [by apply (i_told x I)|]. apply Hleft in H as (call & Hc & _).
    by destruct (i_pending x I node call Hc).
  - apply NoDup_app. split_and!; [apply I| |apply NoDup_filter, NoDup_seq].
    intros node H1 H2. apply Hleft in H2 as (call & Hc & Hd). destruct (i_pending x I node call Hc) as (_ & _ & H).
    by apply (Hno node), H.
  - intros node H. destruct (i_accepted x I node H) as [Hlt Hor]. split; [done|]. rewrite Hin, Hleft. left.
    destruct Hor as [?|[call Hc]]; [by left|]. destruct (i_pending x I node call Hc) as (_ & Hd & _).
    destruct (completion_done call) eqn:E0; [left; auto|right; eauto].
Qed.

(** *** Admission *)
Lemma rpc_CallAsync_spec d body deadline done0 context now self m es :
  (forall e, q_ok (es e)) -> (forall e, q_room 2 (es e)) ->
  let '(status, m', es') := CallAsync d body deadline done0 context now self m es in
  let node := next_node m in
  (next_node m <= next_node m')%nat /\
  if IsOk status then
    exists call server_ticket s, next_node m' = S node /\ pending m' = <[node := call]> (pending m) /\
      server_done call = false /\ completion_done call = false /\
      adds [(caller call, ticket call, CompleteOf node); (s, server_ticket, InvokeOf node)] es es'
  else pending m' = pending m /\ adds [] es es'.
Proof using Type.
  intros Hok Hp.
  pose proof (adds_nil es Hok) as Hnil.
  unfold CallAsync. destruct (negb (sealed m) || negb (accepting m)); [by cbn|]. destruct done0 as [done0|]; [|by cbn].
  destruct (_ ≫= _) as [[key s]|]; [|by cbn]. do 3 (split_if; [by cbn|]). split_if; [by cbn|]. cbn zeta.
  set (m1 := m <| next_id := if next_id m =? UINT32_MAX then 1 else next_id m + 1 |> <| next_node := S (next_node m) |>).
  change (Nat.pred (next_node m1)) with (next_node m).
  set (c := executor_ self). set (node := next_node m).
  pose proof (reserve_law 1 (CompleteOf node) (es c) (Hok c) (Hp c)) as Hr.
  destruct (q_Reserve (CompleteOf node) (es c)) as [[reserved number] e] eqn:Er. destruct Hr as (Heok & Hroom & Hr).
  destruct (IsOk reserved) eqn:Hres; cbn [negb].
  2:{ rewrite Hres. cbn. split; [lia|]. split; [done|]. apply adds_set; [done|done|by subst]. }
  destruct Hr as [Hfresh He].
  pose proof (adds_insert [] es es c e number (CompleteOf node) Hnil Heok Hfresh He) as Hadd. cbn [app] in Hadd.
  set (es1 := set_exec c e es) in *.
  assert (q_room 1 (es1 (s_executor s))) as Hcp.
  { unfold es1, set_exec. destruct (_ =? _)%nat; [done|apply room_law, Hp]. }
  pose proof (post_law 0 now (InvokeOf node) context (es1 (s_executor s)) (proj1 Hadd _) Hcp) as Hpost.
  destruct (q_TryPost now (InvokeOf node) context (es1 (s_executor s))) as [posted e2]. destruct Hpost as (He2 & _ & Hpost).
  destruct (IsOk posted) eqn:Hpd; cbn [negb].
  - destruct Hpost as (k2 & Hk2 & Ht2).
    pose proof (adds_insert _ es es1 (s_executor s) e2 k2 (InvokeOf node) Hadd He2 Hk2 Ht2) as Hadd2. cbn [app] in Hadd2.
    cbn. split; [lia|]. eexists _, k2, (s_executor s). split_and!; try reflexivity. cbn.
    destruct (negb (deadline =? 0)); [|exact Hadd2].
    pose proof (schedule_law number deadline _ (proj1 Hadd2 c)) as Hs.
    destruct (q_ScheduleReserved _ _ _) as [? e3]. destruct Hs. by apply adds_set.
  - subst e2. set (es2 := set_exec (s_executor s) (es1 (s_executor s)) es1).
    assert (forall e0, es2 e0 = es1 e0) as Hes2.
    { intros e0. unfold es2. destruct (decide (e0 = s_executor s)) as [->|?]; [by rewrite set_exec_eq|by rewrite set_exec_ne]. }
    assert (q_ok (es2 c)) as Hokc by (rewrite Hes2; apply Hadd).
    pose proof (cancel_law number _ Hokc) as Hc. destruct (q_CancelReserved _ _) as [? e3]. destruct Hc as [He3 Ht3].
    rewrite Hpd. cbn. split; [lia|]. split; [done|]. split.
    + intros e0. destruct (decide (e0 = c)) as [->|?]; [by rewrite set_exec_eq|]. rewrite set_exec_ne, Hes2 by done. apply Hadd.
    + intros e0 k i. destruct (decide (e0 = c)) as [->|?].
      * rewrite set_exec_eq, Ht3, Hes2. unfold es1. rewrite set_exec_eq, He, delete_insert_id by done. rewrite elem_of_nil. tauto.
      * rewrite set_exec_ne, Hes2 by done. unfold es1. rewrite set_exec_ne by done. rewrite elem_of_nil. tauto.
Qed.

Lemma adds_nil_inv m es x : inv x -> pending m = pending (impl x) -> (next_node (impl x) <= next_node m)%nat ->
  adds [] (execs x) es -> inv (x <| impl := m |> <| execs := es |>).
Proof using Type.
  intros I Hp Hn [Hok Ht]. apply (rpc_inv_frame x); cbn; try done;
    intros e k node H; apply Ht in H as [H|H]; try done; by apply elem_of_nil in H.
Qed.

(** A call is admitted. *)
Lemma rpc_inv_admit m es call server_ticket s x : inv x -> next_node m = S (next_node (impl x)) ->
  pending m = <[next_node (impl x) := call]> (pending (impl x)) -> server_done call = false -> completion_done call = false ->
  adds [(caller call, ticket call, CompleteOf (next_node (impl x))); (s, server_ticket, InvokeOf (next_node (impl x)))] (execs x) es ->
  inv (x <| impl := m |> <| execs := es |> <| accepted := accepted x ++ [next_node (impl x)] |>).
Proof using Type.
  intros I Hn Hp Hsd Hcd [Hok Ht]. set (node := next_node (impl x)) in *.
  assert (node ∉ accepted x) as Hacc by (intros H; apply (i_accepted x I) in H; unfold node in H; lia).
  assert (node ∉ told x) as Htold by (intros H; by apply Hacc, (i_told x I)).
  assert (forall c, pending (impl x) !! node <> Some c) as Hpend by (intros c H; by destruct (i_pending x I node c H)).
  assert (forall n p, invoke_at es (active x) n p -> invoke_at (execs x) (active x) n p \/ (n = node /\ p = Ticket s server_ticket)) as Hi.
  { intros n [e k|w]; cbn; [|by left]. intros H. apply Ht in H as [H|H]; [by left|].
    apply elem_of_cons in H as [H|H]; [done|]. apply list_elem_of_singleton in H. simplify_eq. by right. }
  assert (forall n p, complete_at es (active x) n p -> complete_at (execs x) (active x) n p \/ (n = node /\ p = Ticket (caller call) (ticket call))) as Hco.
  { intros n [e k|w]; cbn; [|by left]. intros H. apply Ht in H as [H|H]; [by left|].
    apply elem_of_cons in H as [H|H]; [simplify_eq; by right|]. by apply list_elem_of_singleton in H. }
  assert (forall p, ~ invoke_at (execs x) (active x) node p) as Hni.
  { intros p H. destruct (i_invoke x I node p H) as (c & Hc & _). by apply (Hpend c). }
  assert (forall p, ~ complete_at (execs x) (active x) node p) as Hnc.
  { intros p H. destruct (i_complete x I node p H) as [(c & Hc & _) _]. by apply (Hpend c). }
  split; cbn; rewrite ?Hp, ?Hn; try apply I; try done; unfold told in *; cbn.
  - intros n p [H|[-> ->]]%Hi.
    + destruct (i_invoke x I n p H) as (c & Hc & Hs). exists c. split; [|done].
      rewrite lookup_insert_ne; [done|]. intros <-. by apply (Hpend c).
    + exists call. by rewrite lookup_insert_eq.
  - intros n p p' [H|[-> ->]]%Hi [H'|[Heq ->]]%Hi; subst; try done; [by apply (i_invoke_one x I n)|by destruct (Hni p)|by destruct (Hni p')].
  - intros n p [H|[-> ->]]%Hco.
    + destruct (i_complete x I n p H) as [(c & Hc & Hs) Hte]. split; [|done]. exists c. split; [|done].
      rewrite lookup_insert_ne; [done|]. intros <-. by apply (Hpend c).
    + split; [exists call; by rewrite lookup_insert_eq|]. split; [done|]. intros (? & ? & _). done.
  - intros n p p' [H|[-> ->]]%Hco [H'|[Heq ->]]%Hco; subst; try done; [by apply (i_complete_one x I n)|by destruct (Hnc p)|by destruct (Hnc p')].
  - intros n c Hc. rewrite elem_of_app, list_elem_of_singleton. destruct (decide (n = node)) as [->|Hne].
    + rewrite lookup_insert_eq in Hc. simplify_eq. rewrite Hcd. split_and!; [by right|done|]. by intros _ H.
    + rewrite lookup_insert_ne in Hc by done. destruct (i_pending x I n c Hc) as (H1 & H2 & H3). split_and!; [by left|done|done].
  - intros n H. apply elem_of_app. left. by apply (i_told x I).
  - intros n H. apply elem_of_app in H as [H|H].
    + destruct (i_accepted x I n H) as [Hlt Hor]. split; [unfold node; lia|]. destruct Hor as [?|[c Hc]]; [by left|right].
      exists c. rewrite lookup_insert_ne; [done|]. intros <-. by apply (Hpend c).
    + apply list_elem_of_singleton in H as ->. split; [lia|right]. rewrite lookup_insert_eq. eauto.
  - apply NoDup_app. split_and!; [apply I| |apply NoDup_singleton]. intros n H1 H2. apply list_elem_of_singleton in H2 as ->. done.
Qed.

(** *** Every step *)
Lemma rpc_inv_work w answer clock x y : inv x -> work w answer clock x = Some y -> inv y.
Proof using Type.
  intros I Hwork. unfold work in Hwork. destruct (active x !! w) as [a|] eqn:Ha; [|by simplify_eq].
  destruct a as [node ts|node ts|node result size at_ns|node ts|node result size|node].
  - unfold Invoke_begin in Hwork. destruct (pending (impl x) !! node) as [call|] eqn:Hc; [|done]. cbn in Hwork.
    destruct (completion_done call) eqn:Hcd; cbn in Hwork; simplify_eq.
    + apply (rpc_inv_leave w (Invoking node ts) node call (erase node (impl x)) (execs x)); cbn; try done;
        [intros; split; [apply I|done]|intros; by apply lookup_delete_ne|left; split; [done|]; by rewrite lookup_delete_eq].
    + apply (rpc_inv_stays w (Invoking node ts) (Serving node ts) (impl x)); try done. apply same_flags_refl.
  - unfold Invoke_handle in Hwork. destruct (pending (impl x) !! node) as [call|] eqn:Hc; [|done]. cbn in Hwork.
    destruct clock as [clock_status now].
    destruct (_ || _) in Hwork; [destruct answer|]; cbn in Hwork; simplify_eq;
      apply (rpc_inv_stays w (Serving node ts)); try done; [by apply same_flags_modify|by apply same_flags_modify|apply same_flags_refl].
  - unfold Invoke_end in Hwork. destruct (pending (impl x) !! node) as [call|] eqn:Hc; [|done]. cbn in Hwork.
    destruct (completion_done call) eqn:Hcd; cbn in Hwork; simplify_eq.
    + apply (rpc_inv_leave w (Handled node result size at_ns) node call (erase node (impl x)) (execs x)); cbn; try done;
        [intros; split; [apply I|done]|intros; by apply lookup_delete_ne|left; split; [done|]; by rewrite lookup_delete_eq].
    + apply (rpc_inv_leave w (Handled node result size at_ns) node call); cbn; try done.
      * intros e. pose proof (schedule_law (ticket call) at_ns _ (i_ok x I (caller call))) as Hs.
        destruct (q_ScheduleReserved _ _ _) as [? e']. unfold set_exec. destruct (Nat.eqb_spec e (caller call)) as [->|?];
          [done|split; [apply I|done]].
      * intros n Hne. by apply lookup_alter_ne.
      * left. split; [done|]. by rewrite lookup_alter_eq, Hc.
  - unfold Complete_begin in Hwork. destruct (pending (impl x) !! node) as [call|] eqn:Hc; [|done]. cbn in Hwork. simplify_eq.
    apply (rpc_inv_stays w (Completing node ts) _ (impl x)); try done. apply same_flags_refl.
  - unfold Complete_call in Hwork. destruct (pending (impl x) !! node) as [call|] eqn:Hc; [|done]. cbn in Hwork. simplify_eq.
    by apply (rpc_inv_told w node result size).
  - unfold Complete_end in Hwork. destruct (pending (impl x) !! node) as [call|] eqn:Hc; [|done]. cbn in Hwork.
    destruct (server_done call) eqn:Hsd; simplify_eq.
    + apply (rpc_inv_leave w (Called node) node call (erase node (impl x)) (execs x)); cbn; try done;
        [intros; split; [apply I|done]|intros; by apply lookup_delete_ne|right; split; [done|]; by rewrite lookup_delete_eq].
    + eapply (rpc_inv_leave w (Called node) node call _ (execs x)); cbn; try done;
        [intros; split; [apply I|done]|intros; by apply lookup_alter_ne|right; split; [done|]; by rewrite lookup_alter_eq, Hc].
Qed.

Lemma Register_calls d server self m : pending (Register d server self m).2 = pending m /\ next_node (Register d server self m).2 = next_node m.
Proof using Type.
  unfold Register. repeat (split_if; [done|]). destruct (ResolveInstanceName _ _) as [resolution instance].
  repeat (split_if; [done|]). destruct server; [by destruct (handler _)|by destruct (clients_ self !! _)].
Qed.

Lemma Seal_calls clock m : pending (Seal clock m).2 = pending m /\ next_node (Seal clock m).2 = next_node m.
Proof using Type. unfold Seal. split_if; [done|]. split_if; [done|]. by split_if. Qed.

Lemma rpc_inv_step x0 y0 : inv x0 -> step x0 y0 -> inv y0.
Proof using Type.
  intros I Hs. destruct Hs; [| | | | | |by eapply rpc_inv_work| |by apply rpc_inv_cancel].
  - destruct (Register_calls d server self (impl x)) as [Hp Hn]. apply (rpc_inv_frame x); cbn; try done; [lia|apply I].
  - destruct (Seal_calls clock (impl x)) as [Hp Hn]. apply (rpc_inv_frame x); cbn; try done; [lia|apply I].
  - apply (rpc_inv_frame x); cbn; try done. apply I.
  - pose proof (rpc_CallAsync_spec d body deadline done context now self (impl x) (execs x) (i_ok x I) H) as Hspec.
    rewrite H0 in Hspec. destruct Hspec as [Hle Hspec]. destruct (IsOk status0).
    + destruct Hspec as (call & st & s & Hn & Hp & Hsd & Hcd & Hadd). by eapply rpc_inv_admit.
    + destruct Hspec as [Hp Hadd]. by apply adds_nil_inv.
  - pose proof (post_law 0 now (Other p) context _ (i_ok x I e) H) as Hpost.
    destruct (q_TryPost _ _ _ _) as [posted e']. destruct Hpost as (Hok & _ & Hpost).
    assert (forall k i, tickets e' !! k = Some i -> tickets (execs x e) !! k = Some i \/ i = Other p) as Ht.
    { intros k i. destruct (IsOk posted); [|subst e'; by left]. destruct Hpost as (k' & Hk & ->).
      destruct (decide (k = k')) as [->|?]; [rewrite lookup_insert_eq; intros; simplify_eq; by right|].
      rewrite lookup_insert_ne by done. by left. }
    apply (rpc_inv_frame x); cbn; try done; unfold set_exec.
    + intros e0. destruct (e0 =? e)%nat; [done|apply I].
    + intros e0 k node. destruct (Nat.eqb_spec e0 e) as [->|?]; [|done]. intros Hk. by apply Ht in Hk as [?|?].
    + intros e0 k node. destruct (Nat.eqb_spec e0 e) as [->|?]; [|done]. intros Hk. by apply Ht in Hk as [?|?].
  - pose proof (take_law now (execs x e) (i_ok x I e)) as Ht. rewrite H0 in Ht. destruct Ht as [Hok (number & Hi & He')].
    by eapply rpc_inv_take.
  - destruct (close_law (execs x e) (i_ok x I e)) as [Hok Ht]. apply (rpc_inv_frame x); cbn; try done; unfold set_exec.
    + intros e0. destruct (e0 =? e)%nat; [done|apply I].
    + intros e0 k node. destruct (Nat.eqb_spec e0 e) as [->|?]; [|done]. by rewrite Ht, lookup_empty.
    + intros e0 k node. destruct (Nat.eqb_spec e0 e) as [->|?]; [|done]. by rewrite Ht, lookup_empty.
Qed.

Lemma linux_calls_inv x : reachable x -> inv x.
Proof using Type.
  intros (es & Hes & Hr). assert (inv (init es)) as Hi.
  { split; unfold told; cbn.
    - intros e. apply Hes.
    - intros node [e k|w]; cbn; [by rewrite (proj2 (Hes e)), lookup_empty|]. by intros (? & ? & _).
    - intros node [e k|w] p'; cbn; [by rewrite (proj2 (Hes e)), lookup_empty|]. by intros (? & ? & _).
    - intros node [e k|w]; cbn; [by rewrite (proj2 (Hes e)), lookup_empty|]. by intros (? & ? & _).
    - intros node [e k|w] p'; cbn; [by rewrite (proj2 (Hes e)), lookup_empty|]. by intros (? & ? & _).
    - intros node call H. by rewrite lookup_empty in H.
    - intros node H. by apply elem_of_nil in H.
    - constructor.
    - intros node H. by apply elem_of_nil in H.
    - constructor. }
  induction Hr; eauto using rpc_inv_step.
Qed.

(** ** A call is answered once

    In every reachable state the memory of a call that a ticket or a worker
    holds is still there. *)
(** C40: in every interleaving of a process' modules and workers, deadlines,
    shutdowns and failed admissions included, no worker touches a call that was
    released, an accepted call has its completion called once at most, one whose
    completion was not called yet is still in the manager, and after
    [CancelPending] every accepted call was completed exactly once. *)
Theorem linux_rpc_exactly_once x : reachable x ->
  (forall w answer clock, is_Some (work w answer clock x)) /\
  NoDup (told x) /\
  (forall node, node ∈ told x -> node ∈ accepted x) /\
  (forall node, node ∈ accepted x -> node ∈ told x \/
     exists call, pending (impl x) !! node = Some call /\ completion_done call = false) /\
  (pending (impl x) = ∅ -> Permutation (told x) (accepted x)).
Proof using Type.
  intros Hr. apply linux_calls_inv in Hr as I.
  assert (forall node, node ∈ accepted x -> node ∈ told x \/
     exists call, pending (impl x) !! node = Some call /\ completion_done call = false) as Hacc.
  { intros node H. destruct (i_accepted x I node H) as [_ [?|[call Hc]]]; [by left|].
    destruct (i_pending x I node call Hc) as (_ & Hd & _). destruct (completion_done call) eqn:E0; [left; auto|right; eauto]. }
  split_and!; [|apply I|apply I|exact Hacc|].
  - intros w answer clock. unfold work. destruct (active x !! w) as [a|] eqn:Ha; [|eauto].
    assert (forall node, invokes a = Some node \/ completes a = Some node -> exists call, pending (impl x) !! node = Some call) as Hheld.
    { intros node [H|H].
      - destruct (i_invoke x I node (Worker w)) as (call & Hc & _); [by exists a|eauto].
      - destruct (i_complete x I node (Worker w)) as [(call & Hc & _) _]; [by exists a|eauto]. }
    destruct a; destruct (Hheld node) as [call Hc]; auto;
      unfold Invoke_begin, Invoke_handle, Invoke_end, Complete_begin, Complete_call, Complete_end; rewrite Hc; cbn;
      repeat (first [case_match|eexists; reflexivity]; cbn).
  - intros Hp. apply NoDup_Permutation; [apply I|apply I|]. intros node. split; [apply (i_told x I)|].
    intros H. apply Hacc in H as [?|(call & Hc & _)]; [done|]. by rewrite Hp, lookup_empty in Hc.
Qed.

End RpcManager.
End RpcManager.

Module RpcManagerSamples.
Import RpcManager.
Module Executor := LinuxExecutor.LinuxThreadExecutor.
#[local] Existing Instances linux_queue linux_queue_laws.

Definition Queue : Type := Executor.t (item (P:=nat)).
Definition depth_ok : Z.of_nat 4 < 2 ^ 64 := eq_refl.
#[local] Instance laws : TicketQueueLaws Queue (item (P:=nat)) := linux_queue_laws 4 depth_ok.

Definition running_executor : Queue := (Executor.Activate (Executor.Prepare "io" 1 1 (Executor.init 4)).2).2.
Definition byte_type : TypeDescriptor := MkTypeDescriptor "u8" SchemaHash_zero 1.
Definition echo : ServiceDescriptor := MkServiceDescriptor "echo" SchemaHash_zero byte_type byte_type "arm".
Definition server_module : Endpoint := MkEndpoint (MkModuleConfig "arm" "" []) 1 ∅.
Definition client_module : Endpoint := MkEndpoint (MkModuleConfig "ui" "" []) 0 ∅.
Definition context : ExecutionContext := MkExecutionContext "ui" kThread 10.

Abbreviation sys := (@system unit nat Queue).
Definition start : sys := init (fun _ => running_executor).
Definition served : sys := start <| impl := (Register echo (Some tt) server_module (impl start)).2 |>.
Definition bound : sys := served <| impl := (Register echo None client_module (impl served)).2 |>.
Definition caller_module : Endpoint := (Register echo None client_module (impl served)).1.2.
Definition closed : sys := bound <| impl := (Seal true (impl bound)).2 |>.

Definition called_ : Status * Impl (RawHandler:=unit) (RawCompletion:=nat) * (nat -> Queue) :=
  CallAsync echo [7] 100 (Some 5%nat) context 10 caller_module (impl closed) (execs closed).
Definition sent : sys := closed <| impl := called_.1.2 |> <| execs := called_.2 |>
  <| accepted := if IsOk called_.1.1 then accepted closed ++ [next_node (impl closed)] else accepted closed |>.

(** Worker [w] takes an item at [now]; it works. *)
Definition takes (w e : nat) (now : Z) (x : sys) : sys :=
  match q_take now (execs x e) with
  | Some (i, e') => x <| execs := set_exec e e' (execs x) |>
      <| active := match begins i now with Some a => <[w := a]> (active x) | None => active x end |>
  | None => x
  end.
Definition works (w : nat) (x : sys) : sys := default x (work w (Returned 0 1 [7]) (kOk, 20) x).

Lemma takes_step w e now x : active x !! w = None -> rtc step x (takes w e now x).
Proof.
  intros Hw. unfold takes. destruct (q_take now (execs x e)) as [[i e']|] eqn:Ht; [|done].
  apply rtc_once. by apply (step_take x w e now).
Qed.

Lemma works_step w x : rtc step x (works w x).
Proof.
  unfold works. destruct (work _ _ _ x) as [y|] eqn:Hy; [|done]. apply rtc_once. by eapply step_work.
Qed.

Lemma calls_step (x : sys) d body deadline done context now self : (forall e, q_room 2 (execs x e)) ->
  let p := CallAsync d body deadline done context now self (impl x) (execs x) in
  step x (x <| impl := p.1.2 |> <| execs := p.2 |>
            <| accepted := if IsOk p.1.1 then accepted x ++ [next_node (impl x)] else accepted x |>).
Proof.
  intros Hr p. apply (step_call x d body deadline done context now self p.1.1); [exact Hr|]. unfold p. by destruct (CallAsync _ _ _ _ _ _ _ _ _) as [[? ?] ?].
Qed.

Definition invoked : sys := works 1 (works 1 (works 1 (takes 1 1 10 sent))).
Definition answered : sys := works 0 (works 0 (works 0 (takes 0 0 20 invoked))).

Lemma sent_reachable : reachable sent.
Proof.
  exists (fun _ => running_executor). split; [intros e; split; [|by vm_compute]|].
  - split; cbn; try done; constructor.
  - eapply rtc_l; [apply (step_register _ echo (Some tt) server_module)|].
    eapply rtc_l; [apply (step_register _ echo None client_module)|].
    eapply rtc_l; [apply (step_seal _ true)|].
    apply rtc_once. apply (calls_step closed echo [7] 100 (Some 5%nat) context 10 caller_module). intros e. by vm_compute.
Qed.

Lemma answered_reachable : reachable answered.
Proof.
  destruct sent_reachable as (es & Hes & H). exists es. split; [exact Hes|]. unfold answered, invoked.
  etrans; [exact H|]. etrans; [by apply (takes_step 1 1 10)|]. do 3 (etrans; [by apply (works_step 1)|]).
  etrans; [by apply (takes_step 0 0 20)|]. do 2 (etrans; [by apply (works_step 0)|]).
  apply (works_step 0).
Qed.

(** The call was answered in time, and nothing of it is left. *)
Lemma linux_rpc_exactly_once_witness :
  completions answered = [(0%nat, kOk)] /\ NoDup (told answered) /\ Permutation (told answered) (accepted answered).
Proof.
  destruct (linux_rpc_exactly_once answered answered_reachable) as (_ & Hnd & _ & _ & Hall).
  split_and!; [by vm_compute|exact Hnd|]. apply Hall. by vm_compute.
Defined.
End RpcManagerSamples.
