(* ===== verification/LinuxChannels.v ===== *)
(** Channels between the modules of a Linux process: [ChannelManager] of
    [platform/linux/channel_manager.cpp]. Methods that hold the manager's mutex
    are functions; the step relation interleaves them with the workers of the
    executors, which the manager sees through the [TicketQueue] interface. *)

From stdpp Require Import gmap strings.
From S2P Require Export LinuxNames TicketQueue Channel.

Local Open Scope Z_scope.

Module ChannelManager.
Section ChannelManager.
Context {Callback P E : Type}.

(** What the manager posts, with the address of the delivery, and what others post. *)
Inductive item := DeliverOf (node : nat) | Other (p : P).

Context `{!TicketQueue E item}.

(** A callback with its state. *)
Record Subscription := MkSubscription { callback : Callback; executor : nat }.

Record Topic := MkTopic {
  type : TypeDescriptor;
  subscribers : list Subscription;
  sequence : Z;
  publishers : nat
}.

Record Delivery := MkDelivery { subscriber : Subscription; payload : list Z; info : MessageInfo }.

(** [pending] is a list in the order of its keys: every delivery gets a key
    above the ones before it. *)
Record Impl := MkImpl {
  topics : gmap string Topic;
  pending : gmap nat Delivery;
  next_node : nat;
  sealed : bool;
  accepting : bool;
  last_failure : Status
}.
#[global] Instance eta_Impl : Eta Impl := fun m =>
  MkImpl (topics m) (pending m) (next_node m) (sealed m) (accepting m) (last_failure m).

Definition Impl_init : Impl := MkImpl ∅ ∅ 0 false false kOk.

(** [topic] is a topic of the manager, by its name. *)
Record Binding := MkBinding { topic : string; publisher : bool }.

Record Endpoint := MkEndpoint {
  config_ : ModuleConfig;
  executor_ : option nat;
  bindings_ : gmap string Binding
}.

(** [Register]: [None] for a publisher. *)
Definition Register (d : ChannelDescriptor) (callback : option Callback) (self : Endpoint) (m : Impl)
    : Status * Endpoint * Impl :=
  if sealed m then (kInvalidState, self, m)
  else match executor_ self with
  | None => (kInvalidArgument, self, m)
  | Some e =>
      if bool_decide (type_name (message_type d) = ""%string) || (max_serialized_size (message_type d) =? 0)
      then (kInvalidArgument, self, m)
      else
        let '(status, name) := ResolveInstanceName (config_ self) (channel_name d) in
        if negb (IsOk status) then (status, self, m)
        else
          let found := default (MkTopic (message_type d) [] 0 0) (topics m !! name) in
          let m := m <| topics := <[name := found]> (topics m) |> in
          if negb (SameType (type found) (message_type d)) then (kTypeMismatch, self, m)
          else
            let was_publisher := match bindings_ self !! channel_name d with Some b => publisher b | None => false end in
            let bind p := MkEndpoint (config_ self) (executor_ self) (<[channel_name d := MkBinding name p]> (bindings_ self)) in
            match callback with
            | Some c =>
                (kOk, bind was_publisher,
                 m <| topics := <[name := MkTopic (type found) (subscribers found ++ [MkSubscription c e]) (sequence found) (publishers found)]> (topics m) |>)
            | None =>
                if was_publisher then (kOk, bind true, m)
                else (kOk, bind true,
                      m <| topics := <[name := MkTopic (type found) (subscribers found) (sequence found) (S (publishers found))]> (topics m) |>)
            end
  end.

Definition RegisterPublisher (d : ChannelDescriptor) (self : Endpoint) (m : Impl) : Status * Endpoint * Impl :=
  Register d None self m.

Definition RegisterSubscriber (d : ChannelDescriptor) (callback : option Callback) (self : Endpoint) (m : Impl)
    : Status * Endpoint * Impl :=
  match callback with None => (kInvalidArgument, self, m) | Some _ => Register d callback self m end.

Definition Seal (m : Impl) : Status * Impl :=
  if sealed m then (kInvalidState, m)
  else if bool_decide (map_Forall (fun _ t => subscribers t = [] \/ publishers t <> 0%nat) (topics m))
  then (kOk, m <| sealed := true |> <| accepting := true |>)
  else (kUnavailable, m).

Definition Close (m : Impl) : Impl := m <| accepting := false |>.
Definition ClearPending (m : Impl) : Impl := m <| pending := ∅ |>.

(** The loop over the subscribers: status of the first that refused, and the
    deliveries that were taken, in order; [now] is the clock of each executor. *)
Fixpoint offer (now : nat -> Z) (caller : ExecutionContext) (message : list Z) (info : MessageInfo) (rest : list Subscription)
    (result : Status) (m : Impl) (execs : nat -> E) : Status * list (nat * Delivery) * Impl * (nat -> E) :=
  match rest with
  | [] => (result, [], m, execs)
  | s :: rest =>
      let node := next_node m in
      let d := MkDelivery s message info in
      let m := m <| next_node := S node |> in
      let '(status, e) := q_TryPost (now (executor s)) (DeliverOf node) caller (execs (executor s)) in
      let execs := set_exec (executor s) e execs in
      if IsOk status then
        let '(result, taken, m, execs) := offer now caller message info rest result (m <| pending := <[node := d]> (pending m) |>) execs in
        (result, (node, d) :: taken, m, execs)
      else offer now caller message info rest (if IsOk result then status else result) m execs
  end.

Definition Publish (d : ChannelDescriptor) (message : list Z) (timestamp : Z) (caller : ExecutionContext) (now : nat -> Z)
    (self : Endpoint) (m : Impl) (execs : nat -> E) : Status * list (nat * Delivery) * Impl * (nat -> E) :=
  if negb (sealed m) || negb (accepting m) then (kInvalidState, [], m, execs)
  else match (b ← bindings_ self !! channel_name d; if publisher b then (fun t => (topic b, t)) <$> topics m !! topic b else None) with
  | None => (kNotFound, [], m, execs)
  | Some (name, t) =>
      if negb (SameType (type t) (message_type d)) then (kTypeMismatch, [], m, execs)
      else if max_serialized_size (type t) <? Z.of_nat (length message) then (kCapacityExceeded, [], m, execs)
      else if bool_decide (subscribers t = []) then (kOk, [], m, execs)
      else
        let number := if sequence t =? UINT32_MAX then 1 else sequence t + 1 in
        let m := m <| topics := <[name := MkTopic (type t) (subscribers t) number (publishers t)]> (topics m) |> in
        offer now caller message (MkMessageInfo number timestamp) (subscribers t) kOk m execs
  end.

(** *** The delivery, in two stretches; [None] is one that is gone *)

(** What the callback is given. *)
Definition Deliver_call (node : nat) (m : Impl) : option Delivery := pending m !! node.

(** [code] is what the callback returned, [None] an exception. *)
Definition Deliver_end (node : nat) (code : option Z) (m : Impl) : option Impl :=
  _ ← pending m !! node;
  let status := match code with Some code => FromAbiStatus code | None => kInternal end in
  let m := if negb (IsOk status) then m <| last_failure := status |> else m in
  Some (m <| pending := delete node (pending m) |>).

(** ** The system

    What a worker does with a delivery it took from its executor. *)
Inductive activity := Delivering (node : nat) | Delivered (node : nat) (code : option Z).

Definition node_of (a : activity) : nat := match a with Delivering node | Delivered node _ => node end.

(** [calls] lists the callbacks that were called, [accepted] the deliveries that
    were taken, [stopped] the executors that were shut down. *)
Record system := MkSystem {
  impl : Impl;
  execs : nat -> E;
  active : gmap nat activity;
  calls : list (nat * Delivery);
  accepted : list (nat * Delivery);
  stopped : list nat
}.
#[global] Instance eta_system : Eta system := fun x =>
  MkSystem (impl x) (execs x) (active x) (calls x) (accepted x) (stopped x).

(** One step of worker [w]; the callback returns [code]. *)
Definition work (w : nat) (code : option Z) (x : system) : option system :=
  match active x !! w with
  | None => Some x
  | Some (Delivering node) =>
      d ← Deliver_call node (impl x);
      Some (x <| active := <[w := Delivered node code]> (active x) |> <| calls := calls x ++ [(node, d)] |>)
  | Some (Delivered node code) =>
      m ← Deliver_end node code (impl x);
      Some (x <| impl := m |> <| active := delete w (active x) |>)
  end.

Context `{!TicketQueueLaws E item}.

Definition begins (i : item) : option activity :=
  match i with DeliverOf node => Some (Delivering node) | Other _ => None end.

Definition quiescent (x : system) : Prop := active x = ∅ /\ forall e, tickets (execs x e) = ∅.

(** Every executor has numbers left for a publication. *)
Definition can_publish (m : Impl) (es : nat -> E) : Prop :=
  forall name t, topics m !! name = Some t -> forall e, q_room (length (subscribers t)) (es e).

Inductive step : system -> system -> Prop :=
  | step_register x d callback self : step x (x <| impl := (Register d callback self (impl x)).2 |>)
  | step_seal x : step x (x <| impl := (Seal (impl x)).2 |>)
  | step_close x : step x (x <| impl := Close (impl x) |>)
  | step_publish x d message timestamp caller now self status taken m es :
      can_publish (impl x) (execs x) ->
      Publish d message timestamp caller now self (impl x) (execs x) = (status, taken, m, es) ->
      step x (x <| impl := m |> <| execs := es |> <| accepted := accepted x ++ taken |>)
  | step_post x p e now caller : q_room 1 (execs x e) ->
      step x (x <| execs := set_exec e (q_TryPost now (Other p) caller (execs x e)).2 (execs x) |>)
  | step_take x w e now i e' : active x !! w = None -> q_take now (execs x e) = Some (i, e') ->
      step x (x <| execs := set_exec e e' (execs x) |>
                <| active := match begins i with Some a => <[w := a]> (active x) | None => active x end |>)
  | step_work x w code y : work w code x = Some y -> step x y
  | step_shutdown x e : step x (x <| execs := set_exec e (q_close (execs x e)) (execs x) |> <| stopped := stopped x ++ [e] |>)
  | step_clear x : quiescent x -> step x (x <| impl := ClearPending (impl x) |>).

Definition init (es : nat -> E) : system := MkSystem Impl_init es ∅ [] [] [].

Definition reachable (x : system) : Prop :=
  exists es, (forall e, q_ok (es e) /\ tickets (es e) = ∅) /\ rtc step (init es) x.

(** ** The invariant

    A delivery is with a ticket of its executor, or with a worker. *)
Inductive place := Ticket (e : nat) (number : Z) | Worker (w : nat).

#[global] Instance place_eq_dec : EqDecision place.
Proof using Type. solve_decision. Defined.

Definition held (es : nat -> E) (ac : gmap nat activity) (node : nat) (p : place) : Prop :=
  match p with
  | Ticket e number => tickets (es e) !! number = Some (DeliverOf node)
  | Worker w => exists a, ac !! w = Some a /\ node_of a = node
  end.

Definition told (x : system) : list nat := (calls x).*1.
Definition finishing (ac : gmap nat activity) (node : nat) (p : place) : Prop :=
  exists w code, p = Worker w /\ ac !! w = Some (Delivered node code).

Record inv (x : system) : Prop := {
  i_ok e : q_ok (execs x e);
  i_held node p : held (execs x) (active x) node p ->
    is_Some (pending (impl x) !! node) /\ (node ∈ told x <-> finishing (active x) node p) /\
    match p with
    | Ticket e _ => exists d, pending (impl x) !! node = Some d /\ executor (subscriber d) = e
    | Worker _ => True
    end;
  i_one node p p' : held (execs x) (active x) node p -> held (execs x) (active x) node p' -> p = p';
  i_pending node d : pending (impl x) !! node = Some d -> (node, d) ∈ accepted x /\
    ((exists p, held (execs x) (active x) node p) \/ (executor (subscriber d) ∈ stopped x /\ node ∉ told x));
  i_calls node d : (node, d) ∈ calls x -> (node, d) ∈ accepted x;
  i_calls_once : NoDup (told x);
  i_accepted node d : (node, d) ∈ accepted x -> (node < next_node (impl x))%nat /\
    (node ∈ told x \/ pending (impl x) !! node = Some d \/ executor (subscriber d) ∈ stopped x);
  i_accepted_once : NoDup (accepted x).*1
}.

Lemma told_accepted x node : inv x -> node ∈ told x -> node ∈ (accepted x).*1.
Proof using Type.
  intros I H. apply list_elem_of_fmap in H as ([n d] & -> & H). apply (list_elem_of_fmap_2 fst _ (n, d)). by apply (i_calls x I).
Qed.

Lemma accepted_bound x node : inv x -> node ∈ (accepted x).*1 -> (node < next_node (impl x))%nat.
Proof using Type. intros I H. apply list_elem_of_fmap in H as ([n d] & -> & H). by apply (i_accepted x I n d). Qed.

Lemma accepted_fun x node d d' : inv x -> (node, d) ∈ accepted x -> (node, d') ∈ accepted x -> d = d'.
Proof using Type.
  intros I H H'. apply list_elem_of_lookup in H as [i Hi], H' as [j Hj].
  assert (i = j) as <-; [|congruence].
  apply (NoDup_lookup (accepted x).*1 i j node (i_accepted_once x I)); by rewrite list_lookup_fmap, ?Hi, ?Hj.
Qed.

Lemma chan_inv_frame x y : inv x ->
  pending (impl y) = pending (impl x) -> (next_node (impl x) <= next_node (impl y))%nat ->
  (forall e, q_ok (execs y e)) ->
  active y = active x -> calls y = calls x -> accepted y = accepted x -> stopped y = stopped x ->
  (forall e number node, tickets (execs y e) !! number = Some (DeliverOf node) <-> tickets (execs x e) !! number = Some (DeliverOf node)) ->
  inv y.
Proof using Type.
  intros I Hp Hn Hok Ha Hc Hacc Hst Hi.
  assert (forall node p, held (execs y) (active y) node p <-> held (execs x) (active x) node p) as Hh
    by (intros node [e number|w]; cbn; rewrite ?Ha; [apply Hi|done]).
  split; unfold told; rewrite ?Hp, ?Hc, ?Hacc, ?Hst; try apply I; try done.
  - intros node p H. rewrite Ha. by apply (i_held x I), Hh.
  - intros node p p' H H'. apply (i_one x I node); by apply Hh.
  - intros node d H. destruct (i_pending x I node d H) as [H1 H2]. split; [done|].
    destruct H2 as [[p H2]|H2]; [left; exists p; by apply Hh|by right].
  - intros node d H. destruct (i_accepted x I node d H). split; [lia|done].
Qed.

(** One subscriber is offered the message and takes it. *)
Lemma chan_inv_offered m es d number x : inv x ->
  pending m = <[next_node (impl x) := d]> (pending (impl x)) -> next_node m = S (next_node (impl x)) ->
  adds [(executor (subscriber d), number, DeliverOf (next_node (impl x)))] (execs x) es ->
  inv (x <| impl := m |> <| execs := es |> <| accepted := accepted x ++ [(next_node (impl x), d)] |>).
Proof using Type.
  intros I Hp Hn [Hok Ht]. set (node := next_node (impl x)) in *.
  assert (node ∉ (accepted x).*1) as Hacc by (intros H; apply accepted_bound in H; [unfold node in H; lia|done]).
  assert (node ∉ told x) as Htold by (intros H; by apply Hacc, told_accepted).
  assert (forall d', pending (impl x) !! node <> Some d') as Hpend.
  { intros d' H. apply (i_pending x I) in H as [H _]. apply Hacc. by apply (list_elem_of_fmap_2 fst _ (node, d')). }
  assert (forall n p, held es (active x) n p <->
    held (execs x) (active x) n p \/ (n = node /\ p = Ticket (executor (subscriber d)) number)) as Hh.
  { intros n [e k|w]; cbn; [|naive_solver]. rewrite Ht, list_elem_of_singleton. naive_solver. }
  assert (forall p, ~ held (execs x) (active x) node p) as Hnh.
  { intros p H. destruct (i_held x I node p H) as [[d' Hd'] _]. by apply (Hpend d'). }
  assert (forall n d', pending (impl x) !! n = Some d' -> <[node := d]> (pending (impl x)) !! n = Some d') as Hkeep.
  { intros n d' H. rewrite lookup_insert_ne; [done|]. intros <-. by apply (Hpend d'). }
  split; cbn; rewrite ?Hp, ?Hn; try apply I; try done; unfold told in *; cbn.
  - intros n p [H|[-> ->]]%Hh.
    + destruct (i_held x I n p H) as ([d' Hd'] & Hte & Hex). split_and!; [rewrite (Hkeep _ _ Hd'); eauto|done|].
      destruct p; [|done]. destruct Hex as (d'' & Hd'' & He). exists d''. split; [by apply Hkeep|done].
    + rewrite lookup_insert_eq. split_and!; [eauto| |eauto]. split; [done|]. intros (? & ? & ? & _). done.
  - intros n p p' [H|[-> ->]]%Hh [H'|[Heq ->]]%Hh; subst; try done; [by apply (i_one x I n)|by destruct (Hnh p)|by destruct (Hnh p')].
  - intros n d' H. rewrite elem_of_app, list_elem_of_singleton. destruct (decide (n = node)) as [->|Hne].
    + rewrite lookup_insert_eq in H. simplify_eq. split; [by right|]. left. eexists. apply Hh. by right.
    + rewrite lookup_insert_ne in H by done. destruct (i_pending x I n d' H) as [H1 H2]. split; [by left|].
      destruct H2 as [[p H2]|H2]; [left; exists p; apply Hh; by left|by right].
  - intros n d' H. apply elem_of_app. left. by apply (i_calls x I).
  - intros n d' H. apply elem_of_app in H as [H|H].
    + destruct (i_accepted x I n d' H) as [Hlt Hor]. split; [unfold node; lia|]. destruct Hor as [?|[?|?]]; auto.
    + apply list_elem_of_singleton in H. simplify_eq. split; [lia|]. right. left. by rewrite lookup_insert_eq.
  - rewrite fmap_app. apply NoDup_app. split_and!; [apply I| |apply NoDup_singleton].
    intros n H1 H2. apply list_elem_of_singleton in H2 as ->. done.
Qed.

Lemma offer_inv now caller message info rest result x m es : inv x ->
  pending m = pending (impl x) -> next_node m = next_node (impl x) -> (forall e, q_room (length rest) (execs x e)) ->
  es = execs x ->
  let '(_, taken, m', es') := offer now caller message info rest result m es in
  inv (x <| impl := m' |> <| execs := es' |> <| accepted := accepted x ++ taken |>).
Proof using Type.
  revert result x m es. induction rest as [|s rest IH]; intros result x m es I Hp Hn Hroom ->; cbn.
  { apply (chan_inv_frame x); cbn; try done; [lia|apply I|apply app_nil_r]. }
  pose proof (post_law (length rest) (now (executor s)) (DeliverOf (next_node m)) caller (execs x (executor s))
    (i_ok x I _) (Hroom _)) as Hpost.
  destruct (q_TryPost _ _ _ _) as [status e]. destruct Hpost as (Hok & Hroom' & Hpost).
  assert (forall e0, q_room (length rest) (set_exec (executor s) e (execs x) e0)) as Hrooms.
  { intros e0. unfold set_exec. destruct (e0 =? executor s)%nat; [done|apply room_law, Hroom]. }
  destruct (IsOk status).
  - destruct Hpost as (number & Hfresh & Ht). set (d := MkDelivery s message info). rewrite Hn in *.
    set (m1 := m <| next_node := S (next_node (impl x)) |> <| pending := <[next_node (impl x) := d]> (pending m) |>).
    pose proof (adds_insert [] _ _ _ e number (DeliverOf (next_node (impl x))) (adds_nil _ (i_ok x I)) Hok Hfresh Ht) as Hadd.
    pose proof (chan_inv_offered m1 (set_exec (executor s) e (execs x)) d number x I) as I1. cbn in I1. rewrite Hp in I1.
    specialize (I1 eq_refl eq_refl Hadd).
    specialize (IH result _ m1 _ I1 eq_refl eq_refl Hrooms eq_refl).
    cbn [execs impl] in IH. destruct (offer _ _ _ _ _ _ _ _) as [[[result' taken] m'] es'].
    cbn in IH. by rewrite <- (assoc (++)) in IH.
  - subst e.
    assert (inv (x <| impl := m <| next_node := S (next_node m) |> |> <| execs := set_exec (executor s) (execs x (executor s)) (execs x) |>)) as I1.
    { apply (chan_inv_frame x); cbn; try done; [rewrite Hn; lia| |]; intros e0; unfold set_exec;
        destruct (Nat.eqb_spec e0 (executor s)) as [->|?]; try done; apply I. }
    by apply (IH _ _ _ _ I1).
Qed.

Lemma Publish_inv d message timestamp caller now self x : inv x -> can_publish (impl x) (execs x) ->
  let '(_, taken, m, es) := Publish d message timestamp caller now self (impl x) (execs x) in
  inv (x <| impl := m |> <| execs := es |> <| accepted := accepted x ++ taken |>).
Proof using Type.
  intros I Hroom.
  assert (inv (x <| impl := impl x |> <| execs := execs x |> <| accepted := accepted x ++ [] |>)) as Hsame
    by (apply (chan_inv_frame x); cbn; try done; [apply I|apply app_nil_r]).
  unfold Publish. split_if; [done|]. destruct (_ ≫= _) as [[name t]|] eqn:Hb; [|done]. repeat (split_if; [done|]).
  apply (offer_inv now caller message (MkMessageInfo _ timestamp)); try done. apply bind_Some in Hb as (b & _ & Hb).
  destruct (publisher b); [|done]. apply fmap_Some in Hb as (t' & Ht & Heq). simplify_eq. by apply (Hroom (topic b)).
Qed.

(** A worker takes an item. *)
Lemma chan_inv_take w e number i e' x : inv x -> active x !! w = None ->
  tickets (execs x e) !! number = Some i -> q_ok e' -> tickets e' = delete number (tickets (execs x e)) ->
  inv (x <| execs := set_exec e e' (execs x) |>
         <| active := match begins i with Some a => <[w := a]> (active x) | None => active x end |>).
Proof using Type.
  intros I Hw Hi Hok He'.
  set (es := set_exec e e' (execs x)).
  assert (forall e0 k, tickets (es e0) !! k = if bool_decide (e0 = e /\ k = number) then None else tickets (execs x e0) !! k) as Hes.
  { intros e0 k. unfold es, set_exec. destruct (Nat.eqb_spec e0 e) as [->|Hne].
    - rewrite He'. destruct (decide (k = number)) as [->|Hk].
      + rewrite bool_decide_true by done. apply lookup_delete_eq.
      + rewrite bool_decide_false by tauto. by apply lookup_delete_ne.
    - rewrite bool_decide_false by tauto. done. }
  assert (forall e0, q_ok (es e0)) as Hok'.
  { intros e0. unfold es, set_exec. destruct (e0 =? e)%nat; [done|apply I]. }
  destruct i as [node|p0]; cbn.
  2:{ apply (chan_inv_frame x); cbn; try done. intros e0 k n. rewrite Hes. case_bool_decide as Hc; [|done].
      destruct Hc as [-> ->]. rewrite Hi. split; intros; simplify_eq. }
  set (ac := <[w := Delivering node]> (active x)).
  assert (forall n p, held es ac n p -> p <> Ticket e number) as Hgone.
  { intros n p H ->. cbn in H. by rewrite Hes, bool_decide_true in H. }
  assert (forall n p, p <> Worker w -> p <> Ticket e number -> held es ac n p <-> held (execs x) (active x) n p) as Hsame.
  { intros n [e0 k|w'] H1 H2; cbn; [rewrite Hes, bool_decide_false; [done|]; intros [-> ->]; done|].
    unfold ac. rewrite lookup_insert_ne by congruence. done. }
  assert (forall n, held es ac n (Worker w) <-> n = node) as Hwk.
  { intros n. cbn. unfold ac. rewrite lookup_insert_eq. split; [intros (a & Ha & Hn); by simplify_eq/=|intros ->; eauto]. }
  assert (held (execs x) (active x) node (Ticket e number)) as Hold by exact Hi.
  assert (forall n p, ~ held (execs x) (active x) n p \/ p <> Worker w) as Hnw.
  { intros n [e0 k|w']; [by right|]. destruct (decide (w' = w)) as [->|]; [left|right; congruence]. cbn. rewrite Hw. by intros (? & ? & _). }
  assert (forall n p, finishing ac n p <-> finishing (active x) n p) as Hfin.
  { intros n p. unfold finishing, ac. split; intros (w' & code & -> & Hl); exists w', code; (split; [done|]).
    - destruct (decide (w' = w)) as [->|]; [by rewrite lookup_insert_eq in Hl|by rewrite lookup_insert_ne in Hl].
    - rewrite lookup_insert_ne; [done|congruence]. }
  split; cbn; try apply I; try done; unfold told; cbn; fold es ac (told x).
  - intros n p H. rewrite Hfin. destruct (decide (p = Worker w)) as [->|Hp].
    + apply Hwk in H as ->. destruct (i_held x I node _ Hold) as (H1 & H2 & _). split_and!; [done| |done].
      rewrite H2. split; intros (w' & code & Heq & Hl); [done|by simplify_eq].
    + apply Hsame in H; [|done|by eapply Hgone]. by apply (i_held x I).
  - intros n p p' H H'. destruct (decide (p = Worker w)) as [->|Hp], (decide (p' = Worker w)) as [->|Hp']; [done| | |].
    + apply Hwk in H as ->. pose proof (Hgone _ _ H'). apply Hsame in H'; [|done..]. by destruct (i_one x I _ _ _ Hold H').
    + apply Hwk in H' as ->. pose proof (Hgone _ _ H). apply Hsame in H; [|done..]. by destruct (i_one x I _ _ _ Hold H).
    + pose proof (Hgone _ _ H). pose proof (Hgone _ _ H'). apply (i_one x I n); by apply Hsame.
  - intros n d H. destruct (i_pending x I n d H) as [H1 H2]. split; [done|]. destruct H2 as [[p H2]|?]; [left|by right].
    destruct (decide (p = Ticket e number)) as [->|Hp].
    + cbn in H2. rewrite Hi in H2. simplify_eq. exists (Worker w). by apply Hwk.
    + exists p. apply Hsame; [|done..]. by destruct (Hnw n p).
Qed.

(** A callback is called. *)
Lemma chan_inv_called w node d code x : inv x -> active x !! w = Some (Delivering node) -> pending (impl x) !! node = Some d ->
  inv (x <| active := <[w := Delivered node code]> (active x) |> <| calls := calls x ++ [(node, d)] |>).
Proof using Type.
  intros I Ha Hd. set (ac := <[w := Delivered node code]> (active x)).
  assert (held (execs x) (active x) node (Worker w)) as Hw by (cbn; eauto).
  destruct (i_held x I node _ Hw) as (_ & Ht & _).
  assert (node ∉ told x) as Hnot by (intros H; apply Ht in H as (w' & c & [= <-] & H); congruence).
  destruct (i_pending x I node d Hd) as [Hacc _].
  assert (forall n p, held (execs x) ac n p <-> held (execs x) (active x) n p) as Hh.
  { intros n [e number|w']; cbn; [done|]. unfold ac. destruct (decide (w' = w)) as [->|Hne].
    - rewrite lookup_insert_eq, Ha. split; intros (a & Heq & Hn); simplify_eq/=; eauto.
    - by rewrite lookup_insert_ne. }
  assert (forall n, n ∈ (calls x ++ [(node, d)]).*1 <-> n ∈ told x \/ n = node) as Hin.
  { intros n. rewrite fmap_app, elem_of_app. cbn. by rewrite list_elem_of_singleton. }
  assert (forall n p, n <> node -> finishing ac n p <-> finishing (active x) n p) as Hfin.
  { intros n p Hn. unfold finishing, ac. split; intros (w' & c & -> & Hl); exists w', c; (split; [done|]).
    - destruct (decide (w' = w)) as [->|]; [rewrite lookup_insert_eq in Hl; congruence|by rewrite lookup_insert_ne in Hl].
    - rewrite lookup_insert_ne; [done|congruence]. }
  split; cbn; try apply I; unfold told; cbn; fold ac.
  - intros n p H. apply Hh in H. destruct (i_held x I n p H) as (H1 & H2 & H3). split_and!; [done| |done].
    rewrite Hin. destruct (decide (n = node)) as [->|Hne]; [|rewrite Hfin, H2 by done; tauto].
    assert (p = Worker w) as -> by (by apply (i_one x I node)).
    split; [|by right]. intros _. exists w, code. split; [done|]. apply lookup_insert_eq.
  - intros n p p' H H'. apply (i_one x I n); by apply Hh.
  - intros n d' H. destruct (i_pending x I n d' H) as [H1 H2]. split; [done|]. destruct (decide (n = node)) as [->|Hne].
    + left. exists (Worker w). by apply Hh.
    + destruct H2 as [[p H2]|[H2 H3]]; [left; exists p; by apply Hh|right]. split; [done|]. rewrite Hin. tauto.
  - intros n d' H. apply elem_of_app in H as [H|H]; [by apply (i_calls x I)|]. apply list_elem_of_singleton in H. by simplify_eq.
  - rewrite fmap_app. apply NoDup_app. split_and!; [apply I| |apply NoDup_singleton].
    intros n H1 H2. apply list_elem_of_singleton in H2 as ->. done.
  - intros n d' H. destruct (i_accepted x I n d' H) as [Hlt Hor]. rewrite Hin. tauto.
Qed.

(** A worker is through with a delivery. *)
Lemma chan_inv_finished w node code m x : inv x -> active x !! w = Some (Delivered node code) ->
  pending m = delete node (pending (impl x)) -> next_node m = next_node (impl x) ->
  inv (x <| impl := m |> <| active := delete w (active x) |>).
Proof using Type.
  intros I Ha Hp Hn. set (ac := delete w (active x)).
  assert (held (execs x) (active x) node (Worker w)) as Hw by (cbn; eauto).
  assert (node ∈ told x) as Htold by (apply (i_held x I node _ Hw); by exists w, code).
  assert (forall n p, held (execs x) ac n p <-> held (execs x) (active x) n p /\ n <> node) as Hh.
  { intros n p. split.
    - intros H. assert (held (execs x) (active x) n p /\ p <> Worker w) as [H1 H2].
      { destruct p as [e number|w']; cbn in *; [done|]. destruct H as (a & H & Hna). apply lookup_delete_Some in H as [? H].
        split; [eauto|congruence]. }
      split; [done|]. intros ->. apply H2. by apply (i_one x I node).
    - intros [H Hne]. destruct p as [e number|w']; cbn in *; [done|]. destruct H as (a & H & Hna). exists a. split; [|done].
      apply lookup_delete_Some. split; [|done]. intros ->. rewrite Ha in H. by simplify_eq/=. }
  assert (forall n p, n <> node -> finishing ac n p <-> finishing (active x) n p) as Hfin.
  { intros n p Hne. unfold finishing, ac. split; intros (w' & c & -> & Hl); exists w', c; (split; [done|]).
    - by apply lookup_delete_Some in Hl as [_ ?].
    - apply lookup_delete_Some. split; [|done]. intros ->. congruence. }
  split; cbn; rewrite ?Hp, ?Hn; try apply I; fold ac (told x).
  - intros n p [H Hne]%Hh. destruct (i_held x I n p H) as (H1 & H2 & H3). rewrite lookup_delete_ne by done.
    rewrite Hfin by done. done.
  - intros n p p' [H _]%Hh [H' _]%Hh. by apply (i_one x I n).
  - intros n d H. apply lookup_delete_Some in H as [Hne H]. destruct (i_pending x I n d H) as [H1 H2]. split; [done|].
    destruct H2 as [[p H2]|H2]; [left; exists p; by apply Hh|by right].
  - intros n d H. destruct (i_accepted x I n d H) as [Hlt Hor]. split; [done|]. destruct (decide (n = node)) as [->|Hne]; [by left|].
    by rewrite lookup_delete_ne.
Qed.

Lemma chan_inv_shutdown e x : inv x ->
  inv (x <| execs := set_exec e (q_close (execs x e)) (execs x) |> <| stopped := stopped x ++ [e] |>).
Proof using Type.
  intros I. destruct (close_law (execs x e) (i_ok x I e)) as [Hok Ht].
  set (es := set_exec e (q_close (execs x e)) (execs x)).
  assert (forall n p, held es (active x) n p <-> held (execs x) (active x) n p /\ forall k, p <> Ticket e k) as Hh.
  { intros n [e0 k|w]; cbn; [|naive_solver]. unfold es, set_exec. destruct (Nat.eqb_spec e0 e) as [->|Hne].
    - rewrite Ht, lookup_empty. split; [done|]. intros [_ H]. by destruct (H k).
    - split; [|tauto]. intros H. split; [done|congruence]. }
  split; cbn; try apply I; fold es (told x).
  - intros e0. unfold es, set_exec. destruct (e0 =? e)%nat; [done|apply I].
  - intros n p [H _]%Hh. by apply (i_held x I).
  - intros n p p' [H _]%Hh [H' _]%Hh. by apply (i_one x I n).
  - intros n d H. destruct (i_pending x I n d H) as [H1 H2]. split; [done|].
    rewrite elem_of_app, list_elem_of_singleton. destruct H2 as [[p H2]|[H2 H3]]; [|right; by split; [left|]].
    destruct p as [e0 k|w]; [|left; exists (Worker w); by apply Hh].
    destruct (decide (e0 = e)) as [->|Hne]; [right|left; exists (Ticket e0 k); apply Hh; split; [done|congruence]].
    destruct (i_held x I n _ H2) as (_ & Htold & d' & Hd' & He). simplify_eq. split; [by right|].
    intros H3. apply Htold in H3 as (? & ? & ? & _). done.
  - intros n d H. destruct (i_accepted x I n d H) as [Hlt Hor]. rewrite elem_of_app. tauto.
Qed.

Lemma chan_inv_clear x : inv x -> quiescent x -> inv (x <| impl := ClearPending (impl x) |>).
Proof using Type.
  intros I [Hac Htk].
  assert (forall n p, ~ held (execs x) (active x) n p) as Hno.
  { intros n [e k|w]; cbn; rewrite ?Htk, ?Hac; [by rewrite lookup_empty|]. by intros (? & ? & _). }
  split; cbn; try apply I; fold (told x).
  - intros n p H. by destruct (Hno n p).
  - intros n d H. by rewrite lookup_empty in H.
  - intros n d H. destruct (i_accepted x I n d H) as [Hlt Hor]. split; [done|].
    destruct Hor as [?|[Hp|?]]; [by left| |by right; right]. destruct (i_pending x I n d Hp) as [_ [[p Hp']|[? _]]]; [by destruct (Hno n p)|by right; right].
Qed.

Lemma chan_inv_work w code x y : inv x -> work w code x = Some y -> inv y.
Proof using Type.
  intros I Hwork. unfold work in Hwork. destruct (active x !! w) as [[node|node c]|] eqn:Ha; [| |by simplify_eq].
  - unfold Deliver_call in Hwork. destruct (pending (impl x) !! node) as [d|] eqn:Hd; [|done]. cbn in Hwork. simplify_eq.
    by apply chan_inv_called.
  - unfold Deliver_end in Hwork. destruct (pending (impl x) !! node) as [d|] eqn:Hd; [|done]. cbn in Hwork. simplify_eq.
    apply (chan_inv_finished w node c); [done|done|..]; by destruct c as [z|]; cbn; [destruct (negb (IsOk (FromAbiStatus z)))|].
Qed.

Lemma Register_deliveries d callback self m :
  pending (Register d callback self m).2 = pending m /\ next_node (Register d callback self m).2 = next_node m.
Proof using Type.
  unfold Register. split_if; [done|]. destruct (executor_ self); [|done]. split_if; [done|].
  destruct (ResolveInstanceName _ _) as [resolution instance]. repeat (split_if; [done|]).
  destruct callback; [done|]. cbn zeta. by destruct (match bindings_ self !! channel_name d with Some b => publisher b | None => false end).
Qed.

Lemma Seal_deliveries m : pending (Seal m).2 = pending m /\ next_node (Seal m).2 = next_node m.
Proof using Type. unfold Seal. split_if; [done|]. by split_if. Qed.

Lemma chan_inv_posted x p e now caller : inv x -> q_room 1 (execs x e) ->
  inv (x <| execs := set_exec e (q_TryPost now (Other p) caller (execs x e)).2 (execs x) |>).
Proof using Type.
  intros I H. pose proof (post_law 0 now (Other p) caller _ (i_ok x I e) H) as Hpost.
  destruct (q_TryPost _ _ _ _) as [posted e']. destruct Hpost as (Hok & _ & Hpost).
  apply (chan_inv_frame x); cbn; try done; unfold set_exec.
  - intros e0. destruct (e0 =? e)%nat; [done|apply I].
  - intros e0 k node. destruct (Nat.eqb_spec e0 e) as [->|?]; [|done]. destruct (IsOk posted); [|by subst e'].
    destruct Hpost as (k' & Hk & ->). destruct (decide (k = k')) as [->|?]; [rewrite lookup_insert_eq, Hk|by rewrite lookup_insert_ne].
    split; intros; simplify_eq.
Qed.

Lemma chan_inv_step x0 y0 : inv x0 -> step x0 y0 -> inv y0.
Proof using Type.
  intros I Hs. destruct Hs; [| | | |by apply chan_inv_posted| |by eapply chan_inv_work|by apply chan_inv_shutdown|by apply chan_inv_clear].
  - destruct (Register_deliveries d callback0 self (impl x)) as [Hp Hn]. apply (chan_inv_frame x); cbn; try done; [lia|apply I].
  - destruct (Seal_deliveries (impl x)) as [Hp Hn]. apply (chan_inv_frame x); cbn; try done; [lia|apply I].
  - apply (chan_inv_frame x); cbn; try done. apply I.
  - pose proof (Publish_inv d message timestamp caller now self x I H) as Hpub. by rewrite H0 in Hpub.
  - pose proof (take_law now (execs x e) (i_ok x I e)) as Ht. rewrite H0 in Ht. destruct Ht as [Hok (number & Hi & He')].
    by eapply chan_inv_take.
Qed.

Lemma linux_channels_inv x : reachable x -> inv x.
Proof using Type.
  intros (es & Hes & Hr). assert (inv (init es)) as Hi.
  { assert (forall n p, ~ held es ∅ n p) as Hno.
    { intros n [e k|w]; cbn; [by rewrite (proj2 (Hes e)), lookup_empty|]. by intros (? & ? & _). }
    split; unfold told; cbn; try constructor.
    - apply Hes.
    - by destruct (Hno node p).
    - by destruct (Hno node p).
    - intros n p p' H. by destruct (Hno n p).
    - by rewrite lookup_empty in H.
    - by rewrite lookup_empty in H.
    - intros n d H. by apply elem_of_nil in H.
    - by apply elem_of_nil in H.
    - by apply elem_of_nil in H. }
  induction Hr; eauto using chan_inv_step.
Qed.

(** ** A delivery is made once *)

(** C38: in every interleaving of a process' publishers, workers and shutdowns no
    worker touches a delivery that was released, a subscriber's callback is
    called once at most for a message it was sent and with that message, and
    what was accepted is called, waits for a ticket or a worker of its
    subscriber's executor, or was on an executor that was shut down: with all
    executors up and at rest, every accepted delivery was made exactly once. *)
Theorem linux_channel_exactly_once x : reachable x ->
  (forall w code, is_Some (work w code x)) /\
  NoDup (told x) /\
  (forall node d, (node, d) ∈ calls x -> (node, d) ∈ accepted x) /\
  (forall node d, (node, d) ∈ accepted x ->
     (node, d) ∈ calls x \/ (exists p, held (execs x) (active x) node p) \/ executor (subscriber d) ∈ stopped x) /\
  (quiescent x -> stopped x = [] -> Permutation (calls x) (accepted x)).
Proof using Type.
  intros Hr. apply linux_channels_inv in Hr as I.
  assert (forall node d, (node, d) ∈ accepted x ->
     (node, d) ∈ calls x \/ (exists p, held (execs x) (active x) node p) \/ executor (subscriber d) ∈ stopped x) as Hacc.
  { intros node d H. destruct (i_accepted x I node d H) as [_ [Ht|[Hp|?]]]; [left| |by right; right].
    - apply list_elem_of_fmap in Ht as ([n d'] & -> & Hc). cbn in *.
      by rewrite (accepted_fun x n d d' I H (i_calls x I n d' Hc)).
    - right. destruct (i_pending x I node d Hp) as [_ [?|[? _]]]; [by left|by right]. }
  split_and!; [|apply I|apply I|exact Hacc|].
  - intros w code. unfold work. destruct (active x !! w) as [a|] eqn:Ha; [|eauto].
    destruct (i_held x I (node_of a) (Worker w)) as [[d Hd] _]; [by exists a|].
    destruct a; cbn in Hd; unfold Deliver_call, Deliver_end; rewrite Hd; eauto.
  - intros [Hac Htk] Hst. apply NoDup_Permutation; [by eapply NoDup_fmap_1, I|by eapply NoDup_fmap_1, I|].
    intros [n d]. split; [apply (i_calls x I)|]. intros H. apply Hacc in H as [?|[[p Hp]|H]]; [done| |].
    + destruct p as [e k|w]; cbn in Hp; rewrite ?Htk, ?Hac in Hp; [by rewrite lookup_empty in Hp|by destruct Hp as (? & ? & _)].
    + rewrite Hst in H. by apply elem_of_nil in H.
Qed.

(** ** What a publication reaches *)
Lemma sublist_full {A} (l k : list A) : l `sublist_of` k -> length l = length k -> l = k.
Proof using Type.
  induction 1 as [|x l k _ IH|x l k Hs _]; cbn; [done|intros [= H]; by rewrite IH|].
  apply sublist_length in Hs. lia.
Qed.

Lemma offer_spec now caller message info rest result m es :
  let '(status, taken, _, _) := offer now caller message info rest result m es in
  ((fun nd => subscriber nd.2) <$> taken) `sublist_of` rest /\
  Forall (fun nd => payload nd.2 = message /\ ChannelManager.info nd.2 = info) taken /\
  (IsOk status = true <-> IsOk result = true /\ length taken = length rest).
Proof using Type.
  revert result m es. induction rest as [|s rest IH]; intros result m es; cbn; [by split_and!; [|constructor|tauto]|].
  destruct (q_TryPost _ _ _ _) as [status e]. destruct (IsOk status) eqn:Hs.
  - specialize (IH result (m <| next_node := S (next_node m) |> <| pending := <[next_node m := MkDelivery s message info]> (pending m) |>)
      (set_exec (executor s) e es)). cbn in IH. destruct (offer _ _ _ _ _ _ _ _) as [[[result' taken] m'] es'].
    destruct IH as (H1 & H2 & H3). cbn. split_and!; [by constructor|by constructor|]. rewrite H3. split; intros [? ?]; (split; [done|lia]).
  - specialize (IH (if IsOk result then status else result) (m <| next_node := S (next_node m) |>) (set_exec (executor s) e es)).
    destruct (offer _ _ _ _ _ _ _ _) as [[[result' taken] m'] es']. destruct IH as (H1 & H2 & H3).
    split_and!; [by constructor|done|]. rewrite H3. apply sublist_length in H1. rewrite length_fmap in H1.
    split; [|intros [H4 H5]; lia]. intros [H4 H5]. destruct (IsOk result) eqn:Hr; congruence.
Qed.


End ChannelManager.
End ChannelManager.

Module ChannelManagerSamples.
Import ChannelManager.
Module Executor := LinuxExecutor.LinuxThreadExecutor.
#[local] Existing Instances linux_queue linux_queue_laws.

Definition Queue : Type := Executor.t (item (P:=nat)).
Definition depth_ok : Z.of_nat 4 < 2 ^ 64 := eq_refl.
#[local] Instance laws : TicketQueueLaws Queue (item (P:=nat)) := linux_queue_laws 4 depth_ok.

Definition running_executor : Queue := (Executor.Activate (Executor.Prepare "io" 1 1 (Executor.init 4)).2).2.
Definition pose : ChannelDescriptor := MkChannelDescriptor "pose" (MkTypeDescriptor "u8" SchemaHash_zero 1).
Definition module_on (name : string) (e : nat) : Endpoint := MkEndpoint (MkModuleConfig name "" []) (Some e) ∅.
Definition context : ExecutionContext := MkExecutionContext "arm" kThread 10.

Abbreviation sys := (@system nat Queue).
Abbreviation impl_type := (@Impl nat).
Definition start : sys := init (fun _ => running_executor).
Definition first : sys := start <| impl := (Register pose (Some 5%nat) (module_on "ui" 1) (impl start)).2 |>.
Definition second : sys := first <| impl := (Register pose (Some 6%nat) (module_on "log" 2) (impl first)).2 |>.
Definition bound : sys := second <| impl := (Register pose None (module_on "arm" 0) (impl second)).2 |>.
Definition arm : Endpoint := (Register pose None (module_on "arm" 0) (impl second)).1.2.
Definition closed : sys := bound <| impl := (Seal (impl bound)).2 |>.

Definition published : Status * list (nat * Delivery) * impl_type * (nat -> Queue) :=
  Publish pose [7] 9 context (fun _ => 10) arm (impl closed) (execs closed).
Definition sent : sys := closed <| impl := published.1.2 |> <| execs := published.2 |>
  <| accepted := accepted closed ++ published.1.1.2 |>.

(** Worker [w] takes an item; its callback returns [0]. *)
Definition takes (w e : nat) (x : sys) : sys :=
  match q_take 10 (execs x e) with
  | Some (i, e') => x <| execs := set_exec e e' (execs x) |>
      <| active := match begins i with Some a => <[w := a]> (active x) | None => active x end |>
  | None => x
  end.
Definition works (w : nat) (x : sys) : sys := default x (work w (Some 0) x).

Lemma takes_rtc w e x : active x !! w = None -> rtc step x (takes w e x).
Proof.
  intros Hw. unfold takes. destruct (q_take 10 (execs x e)) as [[i e']|] eqn:Ht; [|done].
  apply rtc_once. by apply (step_take x w e 10).
Qed.

Lemma works_rtc w x : rtc step x (works w x).
Proof.
  unfold works. destruct (work _ _ x) as [y|] eqn:Hy; [|done]. apply rtc_once. by eapply step_work.
Qed.

Lemma publishes (x : sys) d message timestamp caller now self : can_publish (impl x) (execs x) ->
  let p := Publish d message timestamp caller now self (impl x) (execs x) in
  step x (x <| impl := p.1.2 |> <| execs := p.2 |> <| accepted := accepted x ++ p.1.1.2 |>).
Proof.
  intros Hc p. apply (step_publish x d message timestamp caller now self p.1.1.1); [done|]. unfold p. by destruct (Publish _ _ _ _ _ _ _ _) as [[[? ?] ?] ?].
Qed.

Definition heard : sys := works 2 (works 2 (takes 2 2 (works 1 (works 1 (takes 1 1 sent))))).

Lemma topics_closed : topics (impl closed) = {["/pose" := MkTopic (message_type pose) [MkSubscription 5%nat 1; MkSubscription 6%nat 2] 0 1]}.
Proof. by vm_compute. Qed.

Lemma sent_step : step closed sent.
Proof.
  apply (publishes closed pose [7] 9 context (fun _ => 10) arm).
  intros name t Ht e. rewrite topics_closed in Ht. apply lookup_singleton_Some in Ht as [_ <-]. by vm_compute.
Qed.

Lemma heard_reachable : reachable heard.
Proof.
  exists (fun _ => running_executor). split; [intros e; split; [|by vm_compute]|].
  { split; cbn; try done; constructor. }
  unfold heard.
  eapply rtc_l; [apply (step_register _ pose (Some 5%nat) (module_on "ui" 1))|].
  eapply rtc_l; [apply (step_register _ pose (Some 6%nat) (module_on "log" 2))|].
  eapply rtc_l; [apply (step_register _ pose None (module_on "arm" 0))|].
  eapply rtc_l; [apply step_seal|].
  eapply rtc_l; [exact sent_step|].
  etrans; [by apply (takes_rtc 1 1)|]. do 2 (etrans; [by apply (works_rtc 1)|]).
  etrans; [by apply (takes_rtc 2 2)|]. etrans; [by apply (works_rtc 2)|]. apply (works_rtc 2).
Qed.

(** Both subscribers were called with the message. *)
Lemma linux_channel_exactly_once_witness :
  (fun nd => (nd.1, callback (subscriber nd.2), payload nd.2)) <$> calls heard = [(0%nat, 5%nat, [7]); (1%nat, 6%nat, [7])] /\
  Permutation (calls heard) (accepted heard).
Proof.
  destruct (linux_channel_exactly_once heard heard_reachable) as (_ & _ & _ & _ & Hall).
  split; [by vm_compute|]. apply Hall; [|by vm_compute]. split; [by vm_compute|].
  intros [|[|[|e]]]; by vm_compute.
Defined.

End ChannelManagerSamples.
